(* ===== verification/_CoqProject ===== *)
-Q . S2P
Prelude.v
GoStrings.v
GoTime.v
GoFloat.v
Sha256.v
Json.v
Versions.v
Effects.v
Kube.v
Api.v
Cluster.v
Resources.v
FleetState.v
Poller.v
Ensure.v
Owned.v
Annotations.v
Routes.v
Deploys.v
Validation.v
Rollout.v
Reconcile.v
Manager.v
CasHammer.v
CasHammerTheorems.v
RolloutSpec.v
RolloutProofs.v
RolloutRequeue.v
Guard.v
Sample.v
FleetStateTheorems.v
PollerTheorems.v
ResourcesTheorems.v
EnsureTheorems.v
OwnedTheorems.v
RoutesTheorems.v
DeploysTheorems.v
DeploysHistory.v
ValidationTheorems.v
ManagerTheorems.v
ConfigHashTheorems.v
RolloutTheorems.v
RolloutProgress.v
RolloutTermination.v
ReconcileTheorems.v
