(* ===== verification/Prelude.v ===== *)
(** * celld-operator: a verification development

    celld-operator is a Kubernetes operator written in Go. For each WorkerApp it
    keeps a fleet of celld nodes (a StatefulSet with its Services, identity,
    policy, routes and autoscaler) and moves the fleet between versions without
    losing warm cells. Beside the controller run a poller that exports the state
    of the fleets as metrics, which the autoscaler reads, and a stand-alone probe
    for object stores. This library models them and proves what makes them safe:
    which writes the operator may make, in which order and on which evidence,
    that it stops writing, what it reports and exports, how it starts, and where
    the code does not do what it says.

    ** The program and its model

    Everything that leaves the process (API server, pods, object store, clock)
    or that Go leaves open (map iteration, completion order of goroutines) is a
    request; a handler is a finite tree of requests ([Effects.prog]), and a
    theorem about [exec p t r] holds for every sequence [t] of requests and
    answers, so against every API server, cache, fleet and clock. Handlers are
    inductive trees: each returns after finitely many requests. Third-party
    functions are the fields of the class [Cluster.KubeLib]; [Sample.sampleLib]
    is one instance, on which the witnesses evaluate.

    The files, in the order of their dependencies, with the sources they model
    (under [src/]):

    - [Prelude]: machine integers at 32 and 64 bits, byte strings, tactics.
    - [GoStrings], [GoTime], [GoFloat], [Sha256], [Json]: the parts of Go's
      [strings], [strconv], [time] (RFC 3339 parsing and formatting), [float64]
      (conversion and division in IEEE 754), [crypto/sha256] and
      [encoding/json] the operator relies on, as executable functions.
    - [Versions]: the version boundaries of [internal/controller/rollout.go]
      ([minorOf], [breakingReason], [isBreakingUpgrade]) with their theorems.
    - [Effects], [Kube], [Api], [Cluster]: request trees and their program
      logic ([wp]), the Kubernetes objects, the types of
      [api/v1alpha1/workerapp_types.go], and the requests.
    - [Resources]: every [build...] function of
      [internal/controller/fleet_resources.go].
    - [FleetState], [Poller]: [internal/controller/fleetstate.go]: [Fetch] and
      [FleetSweep]; the collector [stateSnapshot], [StatePoller.sweep] with the
      samples it publishes, and the loop of [StatePoller.Start].
    - [Ensure], [Owned], [Routes], [Reconcile]:
      [internal/controller/workerapp_controller.go]: ownership and merging,
      [ensureUnstructured] and the ScaledObject; [ensureObject], the inventory
      of managed annotations and [ensureFoundation]; the ingress modes, the
      retry latch and the readiness of routes; [updateStatus] and [Reconcile].
    - [Deploys]: [internal/controller/deploytracker.go], the bucket's deploy
      pointer behind its cache and [resolveAppVersion].
    - [Validation]: [internal/controller/validation.go].
    - [Rollout]: [internal/controller/rollout.go], the rollout state machine:
      [configHash], [reconcileFleet], [rolloutStep], [recreateStep],
      [steadyFleet], [pauseScaling], [observeFleet].
    - [Manager]: [cmd/main.go] after [flag.Parse]: the check of the flags, the
      options of the manager and its servers, the reconciler with its
      allow-lists ([splitList]), [SetupWithManager] and the poller.
    - [CasHammer]: [hack/cas-hammer/main.go], the probe that races conditional
      PUTs, with its writers as goroutines in any order.

    The specifications and proofs:

    - [RolloutSpec]: the evidence a step needs and the contract [fleetStep] of
      one pass over the fleet, an abstract step relation; [RolloutProofs]: one
      lemma per handler against it; [RolloutTheorems]: the pass refines the
      contract, a release needs a warm fleet, versions that must not mix never
      do, a recreate stops before it starts, nothing is updated while an
      autoscaler may act, refused downgrades write nothing, releases are spaced;
      [RolloutRequeue]: when a pass over the fleet comes back, and the race in
      which it does not;
      [RolloutProgress]: against a healthy cluster a rollout step releases and
      the rollout completes; [RolloutTermination]: with the app fixed, every
      update strictly lowers a measure of the fleet, whatever is answered.
    - [Guard]: writes guarded by ownership, handler by handler;
      [ReconcileTheorems]: every write of a whole pass is guarded, a status
      reports only what the pass saw, rejected apps are left alone, tracked apps
      are polled, and two races of the code as executable runs.
    - [EnsureTheorems], [OwnedTheorems], [Annotations]: what reconciling an
      object writes, for which objects it converges against a server that fills
      in defaults and for which it does not; the round trip of the inventory.
    - [RoutesTheorems]: readiness is evidence, obsolete routes go, and the retry
      latch of an existing route never opens.
    - [DeploysTheorems]: where a version comes from, and that the cache is
      bounded; [DeploysHistory]: over a history of calls the bucket is asked at
      most once per interval and a version is held while it is unreachable.
    - [ValidationTheorems]: validation as a declarative predicate, and that an
      accepted image has a version.
    - [FleetStateTheorems], [ConfigHashTheorems], [ResourcesTheorems]: samples
      fail closed and sums wrap at 64 bits; the Secret digest and its framing;
      the shape of the generated resources.
    - [PollerTheorems]: a fleet is exported as complete only on evidence, the
      samples are those of one whole sweep, and a scrape accepts them.
    - [ManagerTheorems]: the lists of the command line and their round trip, the
      order of the start, and what every started operator is configured with, up
      to the images it can accept.
    - [CasHammerTheorems]: the exit status is the verdict of the races; a store
      that checks preconditions atomically (a step relation) passes under every
      schedule, and one that ignores them is caught.
    - [Sample]: a concrete library, app, fleet and API server for the witnesses.

    ** Bounds and fuel

    The JSON parser takes fuel, twice the length of its input and two:
    [Json.parseJSON_fuel] shows that it never runs out. [strings.TrimSpace] takes
    the length of the string: [ManagerTheorems.trimLeft_spec] and
    [trimRight_spec] show that nothing is left to trim. The polling loop takes
    the number of ticks that arrive before its context ends, and its theorems
    hold for every number. Every other recursion is structural. Go's [int],
    [int64] and [int32] are integers brought back into range where the code
    computes with them ([wrap64], [wrap32]); durations and instants are
    nanoseconds, with the saturation of [time.Sub]. Where a theorem needs that a
    sum or a count does not wrap it says so ([RolloutTheorems.plausible]).

    ** What is not modelled

    - Context deadlines and cancellation: a request that is cancelled is one
      that answers with an error, which every theorem covers.
    - The fields of Kubernetes objects the operator neither reads nor sets nor
      overwrites, the transition time of conditions, and logging. A specification
      it overwrites as a whole keeps its other fields under one name.
    - The parser of the [flag] package (the models start from the parsed
      values), scheme registration and the registration of the collector, the
      progress lines of the hammer, the generated deep copies (records of the
      model are values) and the end-to-end test fixture.
    - [url.Parse] and [%q] quoting, the DNS validators, the condition helpers
      and the owner-reference helpers are parameters ([KubeLib]); a theorem that
      relies on documented behaviour of one has it as a named hypothesis.
    - Interleavings of two passes over one app: controller-runtime reconciles
      one app at a time, and the manager runs one worker. *)

From stdpp Require Export base gmap strings list pretty sorting.
From Stdlib Require Export ZArith Lia.

#[global] Set Default Goal Selector "!".

(** ** Machine integers

    Go's [int], [int64] and [int32] are two's complement: every arithmetic
    result is brought back into range by [wrap64] or [wrap32]. *)

Definition int64_min : Z := -(2 ^ 63).
Definition int64_max : Z := 2 ^ 63 - 1.
Definition int32_min : Z := -(2 ^ 31).
Definition int32_max : Z := 2 ^ 31 - 1.

Definition wrap64 (z : Z) : Z := (z + 2 ^ 63) mod 2 ^ 64 - 2 ^ 63.
Definition wrap32 (z : Z) : Z := (z + 2 ^ 31) mod 2 ^ 32 - 2 ^ 31.

Definition is_int64 (z : Z) : Prop := (int64_min <= z <= int64_max)%Z.
Definition is_int32 (z : Z) : Prop := (int32_min <= z <= int32_max)%Z.

#[export] Instance is_int64_dec z : Decision (is_int64 z).
Proof. unfold is_int64. apply _. Defined.
#[export] Instance is_int32_dec z : Decision (is_int32 z).
Proof. unfold is_int32. apply _. Defined.

Create HintDb celld discriminated.
Create HintDb celld_rw.

Lemma wrap64_small z : is_int64 z -> wrap64 z = z.
Proof.
  unfold is_int64, int64_min, int64_max, wrap64. intros H.
  rewrite Z.mod_small; lia.
Qed.

Lemma wrap32_small z : is_int32 z -> wrap32 z = z.
Proof.
  unfold is_int32, int32_min, int32_max, wrap32. intros H.
  rewrite Z.mod_small; lia.
Qed.

Lemma wrap64_range z : is_int64 (wrap64 z).
Proof.
  unfold is_int64, int64_min, int64_max, wrap64.
  pose proof (Z.mod_pos_bound (z + 2 ^ 63) (2 ^ 64)). lia.
Qed.

Lemma wrap32_range z : is_int32 (wrap32 z).
Proof.
  unfold is_int32, int32_min, int32_max, wrap32.
  pose proof (Z.mod_pos_bound (z + 2 ^ 31) (2 ^ 32)). lia.
Qed.

#[export] Hint Resolve wrap64_range wrap32_range : celld.

(** [a - b] at width 64 keeps the sign of the mathematical difference as long
    as the difference itself is representable. *)
Lemma wrap64_wrap64_add a b : wrap64 (wrap64 a + b) = wrap64 (a + b).
Proof.
  unfold wrap64.
  replace ((a + 2 ^ 63) mod 2 ^ 64 - 2 ^ 63 + b + 2 ^ 63)%Z
    with ((a + 2 ^ 63) mod 2 ^ 64 + b)%Z by lia.
  rewrite Z.add_mod_idemp_l by lia. f_equal. f_equal. lia.
Qed.

(** ** Strings and bytes

    A Go string is a byte sequence, which is what [string] is here. [dquote]
    stands for the byte of a double quote inside a literal. *)

Definition dquote : string := String (Ascii.ascii_of_nat 34) EmptyString.

Definition is_empty (s : string) : bool :=
  match s with EmptyString => true | _ => false end.

Lemma is_empty_true s : is_empty s = true <-> s = "".
Proof. by destruct s. Qed.

Lemma is_empty_false s : is_empty s = false <-> s <> "".
Proof. by destruct s. Qed.

Ltac str_simpl :=
  repeat match goal with
  | |- context [String ?c ?s +:+ ?t] =>
      change (String c s +:+ t) with (String c (s +:+ t))
  | |- context [EmptyString +:+ ?t] => change (EmptyString +:+ t) with t
  | H : context [String ?c ?s +:+ ?t] |- _ =>
      change (String c s +:+ t) with (String c (s +:+ t)) in H
  | H : context [EmptyString +:+ ?t] |- _ => change (EmptyString +:+ t) with t in H
  end; simpl in *.

Lemma string_app_length (s1 s2 : string) :
  String.length (s1 +:+ s2) = (String.length s1 + String.length s2)%nat.
Proof. induction s1; str_simpl; congruence. Qed.

Lemma string_app_nil_r (s : string) : s +:+ "" = s.
Proof. induction s; str_simpl; congruence. Qed.

Lemma string_app_assoc (s1 s2 s3 : string) : (s1 +:+ s2) +:+ s3 = s1 +:+ (s2 +:+ s3).
Proof. induction s1; str_simpl; congruence. Qed.

Lemma string_app_empty (s1 s2 : string) : s1 +:+ s2 = "" <-> s1 = "" /\ s2 = "".
Proof. destruct s1; str_simpl; naive_solver. Qed.

Lemma string_app_inj_l (s s1 s2 : string) : s +:+ s1 = s +:+ s2 -> s1 = s2.
Proof. induction s; str_simpl; naive_solver. Qed.

#[export] Hint Rewrite string_app_length string_app_nil_r : celld_rw.

(** ** Pointers

    [ptr.Deref(p, d)] and the read of a nil map. *)

Definition deref {A} (p : option A) (d : A) : A :=
  match p with Some a => a | None => d end.

(** [m[k]] on a Go [map[string]string]: the zero value when absent. *)
Definition mapGet (m : gmap string string) (k : string) : string :=
  deref (m !! k) "".

Lemma mapGet_insert m k v : mapGet (<[k := v]> m) k = v.
Proof. unfold mapGet. by rewrite lookup_insert_eq. Qed.

Lemma mapGet_insert_ne m k k' v : k <> k' -> mapGet (<[k := v]> m) k' = mapGet m k'.
Proof. intros. unfold mapGet. by rewrite lookup_insert_ne. Qed.

(** [slices.Sort] of strings, by bytes. *)
Definition sortStrings (l : list string) : list string :=
  merge_sort (fun a b => Is_true (String.leb a b)) l.

(** ** Tactics *)

(** Case analysis on the first [match] or [if] found in a hypothesis. *)
Ltac case_in H :=
  match type of H with
  | context [match ?x with _ => _ end] =>
      let E := fresh "E" in destruct x eqn:E
  end.

Ltac bool_simp :=
  repeat match goal with
  | H : _ && _ = true |- _ => apply andb_true_iff in H; destruct H
  | H : _ || _ = false |- _ => apply orb_false_iff in H; destruct H
  | H : negb _ = true |- _ => apply negb_true_iff in H
  | H : negb _ = false |- _ => apply negb_false_iff in H
  | H : bool_decide _ = true |- _ => apply bool_decide_eq_true in H
  | H : bool_decide _ = false |- _ => apply bool_decide_eq_false in H
  | H : (_ =? _)%Z = true |- _ => apply Z.eqb_eq in H
  | H : (_ =? _)%Z = false |- _ => apply Z.eqb_neq in H
  | H : (_ <? _)%Z = true |- _ => apply Z.ltb_lt in H
  | H : (_ <? _)%Z = false |- _ => apply Z.ltb_ge in H
  | H : (_ <=? _)%Z = true |- _ => apply Z.leb_le in H
  | H : (_ <=? _)%Z = false |- _ => apply Z.leb_gt in H
  | H : (_ =? _)%string = true |- _ => apply String.eqb_eq in H
  | H : (_ =? _)%string = false |- _ => apply String.eqb_neq in H
  end.
