(* ===== verification/GoStrings.v ===== *)
(** * Go's [strings] and [strconv] functions that the operator calls

    Strings are byte strings; every separator the operator passes to
    [strings.Cut], [strings.LastIndex] and [strings.SplitN] is a single byte,
    so the separator is an [ascii] here. *)

From S2P Require Import Prelude.
From Stdlib Require Import Ascii String.

Local Open Scope Z_scope.

(** [strings.HasPrefix(s, p)] *)
Fixpoint HasPrefix (p s : string) : bool :=
  match p, s with
  | EmptyString, _ => true
  | String a p', String b s' => Ascii.eqb a b && HasPrefix p' s'
  | String _ _, EmptyString => false
  end.

(** [s[n:]], for [n] within range. *)
Fixpoint sliceFrom (n : nat) (s : string) : string :=
  match n, s with
  | O, _ => s
  | S n', String _ s' => sliceFrom n' s'
  | S _, EmptyString => EmptyString
  end.

(** [s[:n]], for [n] within range. *)
Fixpoint sliceTo (n : nat) (s : string) : string :=
  match n, s with
  | O, _ => EmptyString
  | S n', String c s' => String c (sliceTo n' s')
  | S _, EmptyString => EmptyString
  end.

(** [strings.CutPrefix(s, p)] *)
Definition CutPrefix (s p : string) : string * bool :=
  if HasPrefix p s then (sliceFrom (String.length p) s, true) else (s, false).

(** [strings.TrimPrefix(s, p)] *)
Definition TrimPrefix (s p : string) : string := fst (CutPrefix s p).

(** [strings.HasSuffix(s, suffix)] and [strings.TrimSuffix(s, suffix)] *)
Fixpoint HasSuffix (s suffix : string) : bool :=
  String.eqb s suffix || match s with String _ s' => HasSuffix s' suffix | EmptyString => false end.

Definition TrimSuffix (s suffix : string) : string :=
  if HasSuffix s suffix then sliceTo (String.length s - String.length suffix) s else s.

(** [strings.Cut(s, sep)]: around the first separator. *)
Fixpoint Cut (sep : ascii) (s : string) : string * string * bool :=
  match s with
  | EmptyString => (EmptyString, EmptyString, false)
  | String c s' =>
      if Ascii.eqb c sep then (EmptyString, s', true)
      else let '(before, after, found) := Cut sep s' in
           (String c before, after, found)
  end.

(** [strings.LastIndex(s, sep)]: -1 when absent. *)
Fixpoint LastIndex (sep : ascii) (s : string) : Z :=
  match s with
  | EmptyString => -1
  | String c s' =>
      let i := LastIndex sep s' in
      if 0 <=? i then i + 1 else if Ascii.eqb c sep then 0 else -1
  end.

(** [strings.SplitN(s, sep, n)] for [n >= 1]: at most [n] pieces, the last one
    the unsplit remainder. The structural argument is [n - 1]. *)
Fixpoint SplitN' (sep : ascii) (s : string) (n : nat) : list string :=
  match n with
  | O => [s]
  | S n' =>
      let '(before, after, found) := Cut sep s in
      if found then before :: SplitN' sep after n' else [s]
  end.

Definition SplitN (sep : ascii) (s : string) (n : nat) : list string :=
  SplitN' sep s (pred n).

(** [strings.Join(elems, sep)] *)
Fixpoint Join (elems : list string) (sep : string) : string :=
  match elems with
  | [] => ""
  | [e] => e
  | e :: es => e +:+ sep +:+ Join es sep
  end.

(** [strings.Split(s, sep)]: all pieces between separators; one empty piece for
    the empty string. [strings.SplitSeq] yields the same pieces. *)
Fixpoint Split (sep : ascii) (s : string) : list string :=
  match s with
  | EmptyString => [""]
  | String c s' =>
      if Ascii.eqb c sep then "" :: Split sep s'
      else match Split sep s' with
           | p :: ps => String c p :: ps
           | [] => [String c EmptyString]
           end
  end.

(** The UTF-8 encodings of the runes that [unicode.IsSpace] holds of. *)
Definition bytesOf (l : list nat) : string := string_of_list_ascii (map ascii_of_nat l).

Definition spaceRunes : list string :=
  map bytesOf
    ([[9]; [10]; [11]; [12]; [13]; [32]; [194; 133]; [194; 160]; [225; 154; 128]]
     ++ map (fun b => [226; 128; b]) [128; 129; 130; 131; 132; 133; 134; 135; 136; 137; 138; 168; 169; 175]
     ++ [[226; 129; 159]; [227; 128; 128]])%nat.

(** [strings.TrimSpace(s)]: space runes off the front, then off the end; every
    turn shortens the string, so its length is fuel enough. *)
Fixpoint trimLeft (fuel : nat) (s : string) : string :=
  match fuel with
  | O => s
  | S fuel' =>
      match List.find (fun r => HasPrefix r s) spaceRunes with
      | Some r => trimLeft fuel' (sliceFrom (String.length r) s)
      | None => s
      end
  end.

Fixpoint trimRight (fuel : nat) (s : string) : string :=
  match fuel with
  | O => s
  | S fuel' =>
      match List.find (fun r => HasSuffix s r) spaceRunes with
      | Some r => trimRight fuel' (TrimSuffix s r)
      | None => s
      end
  end.

Definition TrimSpace (s : string) : string :=
  let s' := trimLeft (String.length s) s in trimRight (String.length s') s'.

Definition isDigit (c : ascii) : bool :=
  let n := N_of_ascii c in (48 <=? n)%N && (n <=? 57)%N.

Definition digitVal (c : ascii) : Z := Z.of_N (N_of_ascii c) - 48.

(** The value of a digit string, [None] on any other byte. *)
Fixpoint digits_acc (acc : Z) (s : string) : option Z :=
  match s with
  | EmptyString => Some acc
  | String c s' => if isDigit c then digits_acc (acc * 10 + digitVal c) s' else None
  end.

(** [strconv.Atoi(s)], at 64 bits: an optional sign, at least one decimal digit
    and nothing else, and a value that fits; [None] is the error. *)
Definition Atoi (s : string) : option Z :=
  let parse (neg : bool) (ds : string) :=
    if is_empty ds then None
    else match digits_acc 0 ds with
         | Some v =>
             let z := if neg then - v else v in
             if bool_decide (is_int64 z) then Some z else None
         | None => None
         end in
  match s with
  | String "-" ds => parse true ds
  | String "+" ds => parse false ds
  | _ => parse false s
  end.

(** ** Lemmas *)

Lemma HasPrefix_app p s : HasPrefix p (p +:+ s) = true.
Proof.
  induction p as [|c p IH]; [done|]. str_simpl. by rewrite Ascii.eqb_refl, IH.
Qed.

Lemma HasPrefix_spec p s : HasPrefix p s = true <-> exists r, s = p +:+ r.
Proof.
  split.
  - revert s. induction p as [|a p IH]; intros [|b s]; simpl; intros H; try done.
    + by exists "".
    + by exists (String b s).
    + bool_simp. apply Ascii.eqb_eq in H as ->. destruct (IH _ H0) as [r ->]. by exists r.
  - intros [r ->]. apply HasPrefix_app.
Qed.

Lemma sliceFrom_app p s : sliceFrom (String.length p) (p +:+ s) = s.
Proof. induction p; str_simpl; done. Qed.

Lemma TrimPrefix_app p s : TrimPrefix (p +:+ s) p = s.
Proof. unfold TrimPrefix, CutPrefix. by rewrite HasPrefix_app, sliceFrom_app. Qed.

Fixpoint has_byte (c : ascii) (s : string) : bool :=
  match s with
  | EmptyString => false
  | String d s' => Ascii.eqb d c || has_byte c s'
  end.

Lemma has_byte_app c s1 s2 : has_byte c (s1 +:+ s2) = has_byte c s1 || has_byte c s2.
Proof. induction s1; str_simpl; [done|]. by rewrite IHs1, orb_assoc. Qed.

Lemma Cut_app sep s1 s2 :
  has_byte sep s1 = false -> Cut sep (s1 +:+ String sep s2) = (s1, s2, true).
Proof.
  induction s1 as [|c s1 IH]; str_simpl.
  - by rewrite Ascii.eqb_refl.
  - intros H. bool_simp. rewrite H, IH; done.
Qed.

Lemma Cut_absent sep s : has_byte sep s = false -> Cut sep s = (s, "", false).
Proof.
  induction s as [|c s IH]; simpl; [done|]. intros H. bool_simp. rewrite H, IH; done.
Qed.

Lemma Cut_before_absent sep s : has_byte sep (fst (fst (Cut sep s))) = false.
Proof.
  induction s as [|c s IH]; simpl; [done|].
  destruct (Ascii.eqb c sep) eqn:E; [done|].
  destruct (Cut sep s) as [[b a] f]; simpl in *. by rewrite E.
Qed.

Lemma Cut_found sep s b a : Cut sep s = (b, a, true) -> s = b +:+ String sep a.
Proof.
  revert b. induction s as [|c s IH]; simpl; intros b H; [done|].
  destruct (Ascii.eqb c sep) eqn:E.
  - apply Ascii.eqb_eq in E. by simplify_eq.
  - destruct (Cut sep s) as [[b' a'] f]. simplify_eq. str_simpl. by rewrite (IH b').
Qed.

Lemma Cut_not_found sep s b a : Cut sep s = (b, a, false) -> has_byte sep s = false.
Proof.
  revert b. induction s as [|c s IH]; simpl; intros b H; [done|].
  destruct (Ascii.eqb c sep) eqn:E; [done|].
  destruct (Cut sep s) as [[b' a'] f]. simplify_eq. by rewrite (IH b').
Qed.

Lemma LastIndex_absent sep s : has_byte sep s = false -> LastIndex sep s = -1.
Proof.
  induction s as [|c s IH]; simpl; [done|]. intros H. bool_simp. by rewrite IH, H.
Qed.

Lemma LastIndex_app sep s1 s2 :
  has_byte sep s2 = false ->
  LastIndex sep (s1 +:+ String sep s2) = Z.of_nat (String.length s1).
Proof.
  intros H. induction s1 as [|c s1 IH]; str_simpl.
  - by rewrite LastIndex_absent, Ascii.eqb_refl.
  - rewrite IH. destruct (Z.leb_spec 0 (Z.of_nat (String.length s1))); lia.
Qed.

Lemma LastIndex_split sep s :
  has_byte sep s = true ->
  exists s1 s2, s = s1 +:+ String sep s2 /\ has_byte sep s2 = false.
Proof.
  induction s as [|c s IH]; simpl; [done|]. intros H.
  destruct (has_byte sep s) eqn:E.
  - destruct IH as (s1 & s2 & -> & ?); [done|]. exists (String c s1), s2. by str_simpl.
  - rewrite orb_false_r in H. apply Ascii.eqb_eq in H as ->. by exists "", s.
Qed.

Lemma sliceFrom_LastIndex sep s1 s2 :
  has_byte sep s2 = false ->
  sliceFrom (Z.to_nat (LastIndex sep (s1 +:+ String sep s2) + 1)) (s1 +:+ String sep s2) = s2.
Proof.
  intros H. rewrite LastIndex_app by done.
  replace (Z.to_nat (Z.of_nat (String.length s1) + 1))
    with (String.length (s1 +:+ String sep EmptyString))
    by (rewrite string_app_length; simpl; lia).
  replace (s1 +:+ String sep s2) with ((s1 +:+ String sep EmptyString) +:+ s2)
    by (rewrite string_app_assoc; by str_simpl).
  apply sliceFrom_app.
Qed.

Lemma LastIndex_range sep s : -1 <= LastIndex sep s < Z.max 1 (Z.of_nat (String.length s)).
Proof.
  induction s as [|c s IH]; [simpl; lia|].
  change (LastIndex sep (String c s))
    with (if 0 <=? LastIndex sep s then LastIndex sep s + 1
          else if Ascii.eqb c sep then 0 else -1).
  change (String.length (String c s)) with (S (String.length s)).
  destruct s as [|d s]; [simpl; destruct (Ascii.eqb c sep); lia|].
  change (String.length (String d s)) with (S (String.length s)) in *.
  destruct (Z.leb_spec 0 (LastIndex sep (String d s))); [lia|].
  destruct (Ascii.eqb c sep); lia.
Qed.

Lemma Join_empty elems sep :
  Forall (fun e => e <> "") elems -> Join elems sep = "" <-> elems = [].
Proof.
  intros H. split; [|by intros ->].
  destruct H as [|e [|e' es] He Hes]; simpl; intros J; [done..|].
  apply string_app_empty in J as [-> _]. done.
Qed.

(** ** Decimal numerals

    [all_digits s] are the strings [[0-9]+] of the image-tag grammar. *)

Fixpoint all_digits (s : string) : bool :=
  match s with
  | EmptyString => true
  | String c s' => isDigit c && all_digits s'
  end.

Lemma isDigit_val c : isDigit c = true -> 0 <= digitVal c <= 9.
Proof. unfold isDigit, digitVal. intros H. bool_simp. apply N.leb_le in H, H0. lia. Qed.

Lemma digits_acc_total s acc :
  all_digits s = true -> 0 <= acc -> exists v, digits_acc acc s = Some v /\ acc <= v.
Proof.
  revert acc. induction s as [|c s IH]; simpl; intros acc H Hacc.
  - exists acc. split; [done|lia].
  - bool_simp. rewrite H. pose proof (isDigit_val c H).
    destruct (IH (acc * 10 + digitVal c)) as (v & ? & ?); [done|lia|].
    exists v. split; [done|lia].
Qed.

Lemma digits_acc_Some s acc v : digits_acc acc s = Some v -> all_digits s = true.
Proof.
  revert acc. induction s as [|c s IH]; simpl; intros acc H; [done|].
  destruct (isDigit c); [|done]. simpl. by eapply IH.
Qed.

(** Digits contain none of the separators of an image reference. *)
Lemma all_digits_no_byte c s : isDigit c = false -> all_digits s = true -> has_byte c s = false.
Proof.
  intros Hc. induction s as [|d s IH]; simpl; [done|]. intros H. bool_simp.
  rewrite IH by done. destruct (Ascii.eqb_spec d c); [congruence|done].
Qed.

Definition numeral (s : string) : Z := deref (digits_acc 0 s) 0.

Lemma Atoi_digits s :
  all_digits s = true -> s <> "" ->
  Atoi s = if bool_decide (is_int64 (numeral s)) then Some (numeral s) else None.
Proof.
  intros H Hne. unfold Atoi, numeral.
  destruct (digits_acc_total s 0 H) as (v & Hv & ?); [lia|].
  destruct s as [|c s]; [done|]. simpl in H. bool_simp.
  destruct c as [[] [] [] [] [] [] [] []]; try discriminate H; rewrite Hv; done.
Qed.

Lemma Atoi_range s z : Atoi s = Some z -> is_int64 z.
Proof.
  unfold Atoi. intros H.
  repeat (case_in H; try done); bool_simp; by simplify_eq.
Qed.

(** ** Printed numbers *)

Lemma pretty_N_go_digits x s : all_digits s = true -> all_digits (pretty_N_go x s) = true.
Proof.
  revert s. induction (N.lt_wf_0 x) as [x _ IH]; intros s Hs.
  destruct (N.eq_dec x 0) as [->|Hx]; [done|]. rewrite pretty_N_go_step by lia.
  apply IH; [apply N.div_lt; lia|]. simpl. rewrite Hs, andb_true_r.
  assert (Hd : forall y, isDigit (pretty_N_char y) = true).
  { intros y. unfold pretty_N_char. repeat case_match; done. }
  apply Hd.
Qed.

Lemma pretty_digits z : 0 <= z -> all_digits (pretty z) = true.
Proof.
  intros Hz. destruct z as [|p|p]; [done| |lia]. change (all_digits (pretty (N.pos p)) = true).
  unfold pretty, pretty_N. destruct (decide _); [done|]. by apply pretty_N_go_digits.
Qed.

(** What follows the last separator is a function of the whole. *)
Lemma suffix_inj sep p1 p2 s1 s2 :
  has_byte sep s1 = false -> has_byte sep s2 = false ->
  p1 +:+ String sep s1 = p2 +:+ String sep s2 -> s1 = s2.
Proof.
  intros H1 H2 E. rewrite <- (sliceFrom_LastIndex sep p1 s1), <- (sliceFrom_LastIndex sep p2 s2) by done.
  by rewrite E.
Qed.
