(* ===== verification/GoTime.v ===== *)
(** * Go's [time] package, as far as the rollout settle deadline uses it

    A [time.Time] is its wall-clock instant, in nanoseconds since the Unix
    epoch. The operator stores the deadline of the settle interval as an
    RFC 3339 annotation ([time.Format]) and reads it back with [time.Parse] on
    the next reconcile; [parse_format] is the round trip between the two. *)

From S2P Require Import Prelude GoStrings.
From Stdlib Require Import Ascii String.

Local Open Scope Z_scope.

(** [time.Second], [time.Minute] *)
Definition Second : Z := 1000000000.
Definition Minute : Z := 60 * Second.

(** [t.Sub(u)]: a [Duration] is an [int64] of nanoseconds and the difference
    saturates. *)
Definition timeSub (t u : Z) : Z := Z.max (- 2 ^ 63) (Z.min (2 ^ 63 - 1) (t - u)).

(** The proleptic Gregorian calendar: days since 1970-01-01 to year, month and
    day, and back. *)
Definition civil_of_days (z : Z) : Z * Z * Z :=
  let z := z + 719468 in
  let era := z / 146097 in
  let doe := z mod 146097 in
  let yoe := (doe - doe / 1460 + doe / 36524 - doe / 146096) / 365 in
  let doy := doe - (365 * yoe + yoe / 4 - yoe / 100) in
  let mp := (5 * doy + 2) / 153 in
  let d := doy - (153 * mp + 2) / 5 + 1 in
  let m := if mp <? 10 then mp + 3 else mp - 9 in
  let y := yoe + era * 400 in
  (if m <=? 2 then y + 1 else y, m, d).
Definition days_of_civil (y m d : Z) : Z :=
  let y := if m <=? 2 then y - 1 else y in
  let era := y / 400 in
  let yoe := y mod 400 in
  let mp := if 2 <? m then m - 3 else m + 9 in
  let doy := (153 * mp + 2) / 5 + d - 1 in
  let doe := yoe * 365 + yoe / 4 - yoe / 100 + doy in
  era * 146097 + doe - 719468.
Definition isLeap (y : Z) : bool := (y mod 4 =? 0) && (negb (y mod 100 =? 0) || (y mod 400 =? 0)).
Definition daysIn (m y : Z) : Z :=
  if m =? 2 then if isLeap y then 29 else 28
  else if (m =? 4) || (m =? 6) || (m =? 9) || (m =? 11) then 30 else 31.

(** ** Formatting *)

Definition digitChar (d : Z) : ascii := ascii_of_N (Z.to_N (48 + d)).

(** The last [w] decimal digits of [n]. *)
Fixpoint digitsN (w : nat) (n : Z) : string :=
  match w with
  | O => ""
  | S w' => digitsN w' (n / 10) +:+ String (digitChar (n mod 10)) ""
  end.

(** [appendInt(b, x, width)]: zero-padded decimal. *)
Definition appendInt (x : Z) (width : nat) : string :=
  let a := Z.abs x in
  (if x <? 0 then "-" else "") +:+
  (if a <? 10 ^ Z.of_nat width then digitsN width a else pretty a).

Fixpoint trimZeros (s : string) : string :=
  match s with
  | EmptyString => ""
  | String c s' =>
      let r := trimZeros s' in
      if is_empty r && Ascii.eqb c "0" then "" else String c r
  end.

(** The [.999999999] chunk: nanoseconds without trailing zeros. *)
Definition formatNano (ns : Z) : string :=
  if ns =? 0 then "" else String "." (trimZeros (digitsN 9 ns)).

(** [t.UTC().Format(time.RFC3339Nano)] *)
Definition formatRFC3339Nano (t : Z) : string :=
  let secs := t / Second in
  let ns := t mod Second in
  let sod := secs mod 86400 in
  let '(y, m, d) := civil_of_days (secs / 86400) in
  appendInt y 4 +:+ String "-" (digitsN 2 m +:+ String "-" (digitsN 2 d +:+
  String "T" (digitsN 2 (sod / 3600) +:+ String ":" (digitsN 2 (sod / 60 mod 60) +:+
  String ":" (digitsN 2 (sod mod 60) +:+ formatNano ns +:+ "Z"))))).

(** ** Parsing

    [time.Parse(time.RFC3339Nano, value)], chunk by chunk of the layout. Every
    chunk returns its value and the unread rest; [None] is an error. *)

Definition expect (c : ascii) (s : string) : option string :=
  match s with
  | String d s' => if Ascii.eqb d c then Some s' else None
  | EmptyString => None
  end.

(** [getnum(s, fixed)] *)
Definition getnum (fixed : bool) (s : string) : option (Z * string) :=
  match s with
  | String a s' =>
      if isDigit a then
        match s' with
        | String b s'' =>
            if isDigit b then Some (digitVal a * 10 + digitVal b, s'')
            else if fixed then None else Some (digitVal a, s')
        | EmptyString => if fixed then None else Some (digitVal a, s')
        end
      else None
  | EmptyString => None
  end.

(** The [2006] chunk: four digits. *)
Definition getyear (s : string) : option (Z * string) :=
  match s with
  | String a (String b (String c (String d s'))) =>
      if isDigit a && isDigit b && isDigit c && isDigit d
      then Some (((digitVal a * 10 + digitVal b) * 10 + digitVal c) * 10 + digitVal d, s')
      else None
  | _ => None
  end.

Fixpoint takeDigits (s : string) : string * string :=
  match s with
  | String c s' =>
      if isDigit c then let '(ds, r) := takeDigits s' in (String c ds, r) else (EmptyString, s)
  | EmptyString => (EmptyString, EmptyString)
  end.

(** The fractional second: [.] or [,] and any number of digits, of which the
    first nine count; absent means zero. *)
Definition getnano (s : string) : Z * string :=
  match s with
  | String p s' =>
      if Ascii.eqb p "." || Ascii.eqb p "," then
        let '(ds, r) := takeDigits s' in
        if is_empty ds then (0, s)
        else let ds := sliceTo 9 ds in
             (numeral ds * 10 ^ (9 - Z.of_nat (String.length ds)), r)
      else (0, s)
  | EmptyString => (0, s)
  end.

(** The [Z07:00] chunk, as an offset in seconds; it ends the value. *)
Definition getzone (s : string) : option Z :=
  match s with
  | String "Z" EmptyString => Some 0
  | String sign s' =>
      match getnum true s' with
      | Some (hr, s'') =>
          match expect ":" s'' with
          | Some s3 =>
              match getnum true s3 with
              | Some (mm, EmptyString) =>
                  if (24 <? hr) || (60 <? mm) then None
                  else if Ascii.eqb sign "+" then Some ((hr * 60 + mm) * 60)
                  else if Ascii.eqb sign "-" then Some (- ((hr * 60 + mm) * 60))
                  else None
              | _ => None
              end
          | None => None
          end
      | None => None
      end
  | EmptyString => None
  end.

Definition parseRFC3339Nano (value : string) : option Z :=
  '(y, s) ← getyear value;
  s ← expect "-" s;
  '(m, s) ← getnum true s;
  s ← expect "-" s;
  '(d, s) ← getnum true s;
  s ← expect "T" s;
  '(hh, s) ← getnum false s;
  s ← expect ":" s;
  '(mi, s) ← getnum true s;
  s ← expect ":" s;
  '(ss, s) ← getnum true s;
  let '(ns, s) := getnano s in
  off ← getzone s;
  if (1 <=? m) && (m <=? 12) && (1 <=? d) && (d <=? daysIn m y)
     && (hh <? 24) && (mi <? 60) && (ss <? 60)
  then Some ((days_of_civil y m d * 86400 + hh * 3600 + mi * 60 + ss - off) * Second + ns)
  else None.

(** ** The calendar round trip *)

Lemma yoe_bounds doe : 0 <= doe < 146097 ->
  let yoe := (doe - doe / 1460 + doe / 36524 - doe / 146096) / 365 in
  let doy := doe - (365 * yoe + yoe / 4 - yoe / 100) in
  0 <= yoe < 400 /\ 0 <= doy <= 365.
Proof. intros H. cbv zeta. Z.to_euclidean_division_equations. split; [lia|]. lia. Qed.
Lemma doy_leap doe era : 0 <= doe < 146097 ->
  let yoe := (doe - doe / 1460 + doe / 36524 - doe / 146096) / 365 in
  let doy := doe - (365 * yoe + yoe / 4 - yoe / 100) in
  doy = 365 -> isLeap (yoe + era * 400 + 1) = true.
Proof.
  intros H. cbv zeta. unfold isLeap. intros Hd.
  apply andb_true_iff. rewrite orb_true_iff, negb_true_iff, !Z.eqb_eq, Z.eqb_neq.
  assert ((doe - doe / 1460 + doe / 36524 - doe / 146096) / 365 mod 4 = 3 /\ 
   ((doe - doe / 1460 + doe / 36524 - doe / 146096) / 365 mod 100 <> 99 \/ (doe - doe / 1460 + doe / 36524 - doe / 146096) / 365 = 399)).
  { Z.to_euclidean_division_equations. lia. }
  Z.to_euclidean_division_equations. lia.
Qed.
Lemma civil_day_range z y m d : civil_of_days z = (y, m, d) -> 1 <= m <= 12 /\ 1 <= d <= daysIn m y.
Proof.
  unfold civil_of_days. set (doe := (z + 719468) mod 146097). set (era := (z + 719468) / 146097).
  assert (Hdoe : 0 <= doe < 146097) by (apply Z.mod_pos_bound; lia).
  pose proof (yoe_bounds doe Hdoe) as Hb. pose proof (doy_leap doe era Hdoe) as Hl. clearbody doe era. cbv zeta in *.
  set (yoe := (doe - doe / 1460 + doe / 36524 - doe / 146096) / 365) in *.
  set (doy := doe - (365 * yoe + yoe / 4 - yoe / 100)) in *. clearbody doy.
  set (mp := (5 * doy + 2) / 153).
  assert (Hmp : 0 <= mp <= 11) by (subst mp; Z.to_euclidean_division_equations; lia).
  assert (Hd : 1 <= doy - (153 * mp + 2) / 5 + 1) by (subst mp; Z.to_euclidean_division_equations; lia).
  intros Heq; simplify_eq. split.
  - destruct (Z.ltb_spec mp 10); lia.
  - split; [done|]. unfold daysIn.
    assert (mp = 11 -> doy <> 365 -> doy - (153 * mp + 2) / 5 + 1 <= 28) by (intros ->; subst; Z.to_euclidean_division_equations; lia).
    assert (mp = 11 -> doy - (153 * mp + 2) / 5 + 1 <= 29) by (intros ->; subst; Z.to_euclidean_division_equations; lia).
    assert (doy - (153 * mp + 2) / 5 + 1 <= 31) by (subst mp; Z.to_euclidean_division_equations; lia).
    assert (mp = 1 \/ mp = 3 \/ mp = 6 \/ mp = 8 -> doy - (153 * mp + 2) / 5 + 1 <= 30) by (intros Hc; subst mp; Z.to_euclidean_division_equations; lia).
    destruct (Z.ltb_spec mp 10).
    + destruct (Z.eqb_spec (mp + 3) 2); [lia|].
      destruct ((mp + 3 =? 4) || (mp + 3 =? 6) || (mp + 3 =? 9) || (mp + 3 =? 11)) eqn:E; [|lia].
      rewrite !orb_true_iff, !Z.eqb_eq in E. lia.
    + destruct (Z.eqb_spec (mp - 9) 2).
      * destruct (Z.leb_spec (mp - 9) 2); [|lia].
        destruct (Z.eq_dec doy 365) as [->|].
        -- rewrite (Hl eq_refl). lia.
        -- destruct (isLeap _); lia.
      * destruct ((mp - 9 =? 4) || (mp - 9 =? 6) || (mp - 9 =? 9) || (mp - 9 =? 11)) eqn:E; [|lia].
        rewrite !orb_true_iff, !Z.eqb_eq in E. lia.
Qed.
Lemma days_of_civil_of_days z y m d : civil_of_days z = (y, m, d) -> days_of_civil y m d = z.
Proof.
  unfold civil_of_days, days_of_civil. set (doe := (z + 719468) mod 146097). set (era := (z + 719468) / 146097).
  assert (Hdoe : 0 <= doe < 146097) by (apply Z.mod_pos_bound; lia).
  pose proof (Z.div_mod (z + 719468) 146097) as Hz. fold era doe in Hz.
  pose proof (yoe_bounds doe Hdoe) as Hb. clearbody doe era. cbv zeta in *.
  set (yoe := (doe - doe / 1460 + doe / 36524 - doe / 146096) / 365) in *.
  set (doy := doe - (365 * yoe + yoe / 4 - yoe / 100)) in *. 
  set (mp := (5 * doy + 2) / 153).
  assert (Hmp : 0 <= mp <= 11) by (subst mp; clearbody doy; Z.to_euclidean_division_equations; lia).
  intros Heq; simplify_eq.
  replace (if (if mp <? 10 then mp + 3 else mp - 9) <=? 2 then _ else _) with (yoe + era * 400)
    by (destruct (Z.ltb_spec mp 10), (Z.leb_spec (mp + 3) 2), (Z.leb_spec (mp - 9) 2); lia).
  replace (if 2 <? (if mp <? 10 then mp + 3 else mp - 9) then _ else _) with mp
    by (destruct (Z.ltb_spec mp 10), (Z.ltb_spec 2 (mp + 3)), (Z.ltb_spec 2 (mp - 9)); lia).
  rewrite Z.div_add, Z.mod_add, Z.div_small, Z.mod_small by lia.
  subst doy. lia.
Qed.

(** ** The text round trip *)

Lemma digit_cases (P : Z -> Prop) :
  P 0 -> P 1 -> P 2 -> P 3 -> P 4 -> P 5 -> P 6 -> P 7 -> P 8 -> P 9 ->
  forall d, 0 <= d <= 9 -> P d.
Proof.
  intros. assert (d = 0 \/ d = 1 \/ d = 2 \/ d = 3 \/ d = 4 \/ d = 5 \/ d = 6 \/ d = 7 \/ d = 8 \/ d = 9)
    as Hd by lia.
  by repeat destruct Hd as [->|Hd]; [..|subst].
Qed.

Lemma digitChar_digit d : 0 <= d <= 9 -> isDigit (digitChar d) = true.
Proof. revert d. by apply digit_cases. Qed.

Lemma digitChar_val d : 0 <= d <= 9 -> digitVal (digitChar d) = d.
Proof. revert d. by apply digit_cases. Qed.

Lemma mod10_digit n : 0 <= n mod 10 <= 9.
Proof. pose proof (Z.mod_pos_bound n 10). lia. Qed.

#[local] Hint Resolve mod10_digit : celld.

Lemma getnum_digits fixed n rest :
  0 <= n < 100 -> getnum fixed (digitsN 2 n +:+ rest) = Some (n, rest).
Proof.
  intros Hn. unfold digitsN. str_simpl.
  rewrite !digitChar_digit, !digitChar_val by auto with celld.
  do 2 f_equal. Z.to_euclidean_division_equations. lia.
Qed.

Lemma getyear_digits n rest :
  0 <= n < 10000 -> getyear (digitsN 4 n +:+ rest) = Some (n, rest).
Proof.
  intros Hn. unfold digitsN. str_simpl.
  rewrite !digitChar_digit, !digitChar_val by auto with celld. simpl.
  do 2 f_equal. Z.to_euclidean_division_equations. lia.
Qed.

Lemma digitsN_all w n : all_digits (digitsN w n) = true.
Proof.
  revert n. induction w as [|w IH]; intros n; [done|]. simpl.
  assert (H : forall s, all_digits s = true ->
            all_digits (s +:+ String (digitChar (n mod 10)) "") = true).
  { induction s; str_simpl; intros; bool_simp.
    - by rewrite digitChar_digit by auto with celld.
    - by rewrite H, IHs. }
  by apply H.
Qed.

Lemma digitsN_length w n : String.length (digitsN w n) = w.
Proof.
  revert n. induction w as [|w IH]; intros n; [done|]. simpl.
  rewrite string_app_length, IH. simpl. lia.
Qed.

Lemma digits_acc_app s1 s2 acc :
  digits_acc acc (s1 +:+ s2) = digits_acc acc s1 ≫= (fun a => digits_acc a s2).
Proof.
  revert acc. induction s1 as [|c s1 IH]; intros acc; str_simpl; [done|].
  destruct (isDigit c); [apply IH|done].
Qed.

Lemma digitsN_value w n :
  0 <= n < 10 ^ Z.of_nat w -> digits_acc 0 (digitsN w n) = Some n.
Proof.
  revert n. induction w as [|w IH]; intros n Hn; simpl.
  - f_equal. change (10 ^ Z.of_nat 0) with 1 in Hn. lia.
  - rewrite digits_acc_app, IH.
    + simpl. rewrite digitChar_digit, digitChar_val by auto with celld.
      f_equal. Z.to_euclidean_division_equations. lia.
    + rewrite Nat2Z.inj_succ, Z.pow_succ_r in Hn by lia.
      Z.to_euclidean_division_equations. lia.
Qed.

Fixpoint zeros (k : nat) : string :=
  match k with O => "" | S k' => String "0" (zeros k') end.

Lemma trimZeros_split s : exists k, s = trimZeros s +:+ zeros k.
Proof.
  induction s as [|c s (k & IH)]; [by exists O|]. simpl.
  destruct (is_empty (trimZeros s) && Ascii.eqb c "0") eqn:E.
  - bool_simp. apply is_empty_true in H. apply Ascii.eqb_eq in H0 as ->.
    rewrite H in IH. exists (S k). str_simpl. congruence.
  - exists k. str_simpl. congruence.
Qed.

Lemma zeros_value k a : digits_acc a (zeros k) = Some (a * 10 ^ Z.of_nat k).
Proof.
  revert a. induction k as [|k IH]; intros a.
  - simpl. f_equal. lia.
  - change (digits_acc a (zeros (S k))) with (digits_acc (a * 10 + 0) (zeros k)).
    rewrite IH, Nat2Z.inj_succ, Z.pow_succ_r by lia. f_equal. ring.
Qed.

Lemma zeros_length k : String.length (zeros k) = k.
Proof. induction k; simpl; congruence. Qed.

Lemma all_digits_app s1 s2 :
  all_digits (s1 +:+ s2) = all_digits s1 && all_digits s2.
Proof. induction s1; str_simpl; [done|]. by rewrite IHs1, andb_assoc. Qed.

Lemma takeDigits_stop ds c rest :
  all_digits ds = true -> isDigit c = false ->
  takeDigits (ds +:+ String c rest) = (ds, String c rest).
Proof.
  intros H Hc. induction ds as [|d ds IH]; str_simpl; [by rewrite Hc|].
  bool_simp. by rewrite H, IH.
Qed.

Lemma sliceTo_all n s : (String.length s <= n)%nat -> sliceTo n s = s.
Proof.
  revert n. induction s as [|c s IH]; intros [|n] H; simpl in *; [done..|lia|].
  rewrite IH; [done|lia].
Qed.

Lemma getnano_format ns :
  0 <= ns < Second -> getnano (formatNano ns +:+ "Z") = (ns, "Z").
Proof.
  intros Hns. unfold formatNano. destruct (Z.eqb_spec ns 0) as [->|Hne]; [done|].
  destruct (trimZeros_split (digitsN 9 ns)) as [k Hk].
  set (ds := trimZeros (digitsN 9 ns)) in *.
  assert (Hall : all_digits ds = true).
  { pose proof (digitsN_all 9 ns) as H. rewrite Hk, all_digits_app in H. by bool_simp. }
  assert (Hlen : (String.length ds + k = 9)%nat)
    by (rewrite <- (zeros_length k) at 1; rewrite <- string_app_length, <- Hk; apply digitsN_length).
  assert (Hval : numeral ds * 10 ^ Z.of_nat k = ns).
  { assert (H : digits_acc 0 (digitsN 9 ns) = Some ns) by (apply digitsN_value; exact Hns).
    destruct (digits_acc_total ds 0 Hall) as (v & Hv & _); [lia|].
    unfold numeral. rewrite Hk, digits_acc_app, Hv in H. simpl in H.
    rewrite zeros_value in H. rewrite Hv. simpl. congruence. }
  clearbody ds.
  change (getnano (String "." ds +:+ "Z")) with
    (let '(ds0, r) := takeDigits (ds +:+ "Z") in
     if is_empty ds0 then (0, String "." (ds +:+ "Z"))
     else (numeral (sliceTo 9 ds0) * 10 ^ (9 - Z.of_nat (String.length (sliceTo 9 ds0))), r)).
  rewrite takeDigits_stop, sliceTo_all by (done || lia).
  destruct ds as [|c ds]; [by rewrite <- Hval in Hne|]. simpl is_empty. cbv iota.
  rewrite <- Hval. do 3 f_equal. lia.
Qed.

(** The instants whose year prints in four digits. *)
Definition fourDigitYear (t : Z) : Prop :=
  let '(y, _, _) := civil_of_days (t / Second / 86400) in 0 <= y < 10000.

#[export] Instance fourDigitYear_dec t : Decision (fourDigitYear t).
Proof. unfold fourDigitYear. destruct (civil_of_days _) as [[??]?]. apply _. Defined.

Lemma expect_cons c s : expect c (String c s) = Some s.
Proof. simpl. by rewrite Ascii.eqb_refl. Qed.

Lemma parse_format t :
  fourDigitYear t -> parseRFC3339Nano (formatRFC3339Nano t) = Some t.
Proof.
  unfold fourDigitYear, formatRFC3339Nano, parseRFC3339Nano.
  set (secs := t / Second). set (sod := secs mod 86400).
  assert (Hsod : 0 <= sod < 86400) by (apply Z.mod_pos_bound; lia).
  assert (Hns : 0 <= t mod Second < Second) by (apply Z.mod_pos_bound; unfold Second; lia).
  assert (Ht : t = secs * Second + t mod Second)
    by (pose proof (Z.div_mod t Second); unfold Second in *; subst secs; lia).
  assert (Hs : secs = secs / 86400 * 86400 + sod)
    by (pose proof (Z.div_mod secs 86400); subst sod; lia).
  destruct (civil_of_days (secs / 86400)) as [[y m] d] eqn:Hc. intros Hy.
  destruct (civil_day_range _ _ _ _ Hc) as [Hm Hd].
  assert (Hd' : d <= 31) by (unfold daysIn in Hd; repeat case_match; lia).
  unfold appendInt. rewrite Z.abs_eq by lia.
  destruct (Z.ltb_spec y 0); [lia|].
  change (10 ^ Z.of_nat 4) with 10000. destruct (Z.ltb_spec y 10000); [|lia].
  change ("" +:+ digitsN 4 y) with (digitsN 4 y).
  assert (0 <= sod / 3600 < 24 /\ 0 <= sod / 60 mod 60 < 60 /\ 0 <= sod mod 60 < 60) as (Hh & Hmi & Hss)
    by (Z.to_euclidean_division_equations; lia).
  rewrite getyear_digits by lia. cbn [mbind option_bind].
  do 5 (rewrite expect_cons; cbn [mbind option_bind]; rewrite getnum_digits by lia;
        cbn [mbind option_bind]).
  rewrite getnano_format by done. cbn [mbind option_bind getzone].
  replace ((1 <=? m) && (m <=? 12) && (1 <=? d) && (d <=? daysIn m y) && (sod / 3600 <? 24)
     && (sod / 60 mod 60 <? 60) && (sod mod 60 <? 60)) with true
    by (symmetry; rewrite !andb_true_iff, !Z.leb_le, !Z.ltb_lt; lia).
  rewrite (days_of_civil_of_days _ _ _ _ Hc). f_equal. rewrite Ht at 2. f_equal. f_equal.
  rewrite Hs at 2. Z.to_euclidean_division_equations. lia.
Qed.
