(* ===== verification/GoFloat.v ===== *)
(** * [float64]

    The conversion of an integer to a [float64] and the division, in IEEE 754
    double precision as the standard library's [SpecFloat] computes it, and the
    integers that survive the conversion. *)

From Stdlib Require Import SpecFloat.
From S2P Require Import Prelude.

Local Open Scope Z_scope.

(** [float64(z)] of an integer, rounded to nearest even, and [x / y]. *)
Definition float64 (z : Z) : spec_float := binary_normalize 53 1024 z 0 false.
Definition float64_div (x y : spec_float) : spec_float := SFdiv 53 1024 x y.

(** The integer a float denotes, if it denotes one. *)
Definition floatZ (f : spec_float) : option Z :=
  match f with
  | S754_zero _ => Some 0
  | S754_finite s m e =>
      let v := if 0 <=? e then Some (Z.pos m * 2 ^ e)
               else if Z.pos m mod 2 ^ (- e) =? 0 then Some (Z.pos m / 2 ^ (- e)) else None in
      (fun v => if s then - v else v) <$> v
  | _ => None
  end.

Lemma digits2_pos_size p : digits2_pos p = Pos.size p.
Proof. induction p; simpl; congruence. Qed.

Lemma digits2_pos_le p (n : Z) : Z.pos p < 2 ^ n -> 0 <= n -> Z.pos (digits2_pos p) <= n.
Proof.
  intros Hp Hn. rewrite digits2_pos_size. pose proof (Pos.size_le p) as Hs.
  apply Pos2Z.pos_le_pos in Hs. rewrite Pos2Z.inj_pow in Hs.
  destruct (Z.le_gt_cases (Z.pos (Pos.size p)) n) as [|Hgt]; [done|].
  assert (2 ^ (n + 1) <= 2 ^ Z.pos (Pos.size p)) by (apply Z.pow_le_mono_r; lia).
  rewrite Z.pow_add_r in H by lia. lia.
Qed.

Lemma digits2_shift n p : digits2_pos (Pos.iter xO p n) = (digits2_pos p + n)%positive.
Proof.
  induction n as [|n IH] using Pos.peano_ind; simpl; [lia|].
  rewrite Pos.iter_succ. simpl. rewrite IH. lia.
Qed.

(** A 53-bit significand is rounded to itself. *)
Lemma round_exact s m e :
  digits2_pos m = 53%positive -> -1074 <= e <= 971 ->
  binary_round_aux 53 1024 s (Z.pos m) e loc_Exact = S754_finite s m e.
Proof.
  intros Hd He. unfold binary_round_aux.
  assert (Hs : shr_fexp 53 1024 (Z.pos m) e loc_Exact = ({| shr_m := Z.pos m; shr_r := false; shr_s := false |}, e)).
  { unfold shr_fexp, fexp, emin. cbn [Zdigits2]. rewrite Hd.
    replace (Z.max (53 + e - 53) (3 - 1024 - 53) - e) with 0 by lia. done. }
  rewrite Hs. cbn [shr_m loc_of_shr_record round_nearest_even]. rewrite Hs. cbn [shr_m].
  destruct (Z.leb_spec e (1024 - 53)); [done|lia].
Qed.

Lemma float64_pos s p :
  Z.pos p < 2 ^ 53 ->
  exists m e, binary_round 53 1024 s p 0 = S754_finite s m e /\ e <= 0 /\ Z.pos m = Z.pos p * 2 ^ (- e).
Proof.
  intros Hp. pose proof (digits2_pos_le p 53 Hp ltac:(lia)) as Hd.
  unfold binary_round, fexp, emin. rewrite Z.add_0_r.
  replace (Z.max (Z.pos (digits2_pos p) - 53) (3 - 1024 - 53)) with (Z.pos (digits2_pos p) - 53) by lia.
  unfold shl_align. rewrite Z.sub_0_r.
  destruct (Z.pos (digits2_pos p) - 53) as [|q|q] eqn:E; [|lia|].
  - exists p, 0. rewrite round_exact by lia. split_and!; [done|lia|lia].
  - exists (Pos.iter xO p q), (Z.neg q). rewrite round_exact; [|rewrite digits2_shift; lia|lia].
    split_and!; [done|lia|]. change (Pos.iter xO p q) with (Zpower.shift_pos q p).
    rewrite Zpower.shift_pos_correct. apply Z.mul_comm.
Qed.

Lemma floatZ_finite s m e p :
  e <= 0 -> Z.pos m = Z.pos p * 2 ^ (- e) ->
  floatZ (S754_finite s m e) = Some (if s then Z.neg p else Z.pos p).
Proof.
  intros He Hm. unfold floatZ. destruct (Z.leb_spec 0 e).
  - assert (e = 0) as -> by lia. rewrite Hm. destruct s; simpl; f_equal; lia.
  - rewrite Hm, Z.mod_mul, Z.div_mul by (apply Z.pow_nonzero; lia). simpl. by destruct s.
Qed.

Lemma floatZ_float64 z : - 2 ^ 53 < z < 2 ^ 53 -> floatZ (float64 z) = Some z.
Proof.
  intros Hz. destruct z as [|p|p]; [done| |]; unfold float64, binary_normalize.
  - destruct (float64_pos false p) as (m & e & -> & He & Hm); [lia|]. by apply (floatZ_finite false _ _ p).
  - destruct (float64_pos true p) as (m & e & -> & He & Hm); [lia|]. by apply (floatZ_finite true _ _ p).
Qed.
