(* ===== verification/Sha256.v ===== *)
(** * [crypto/sha256] and [encoding/hex]

    The digests that decide when a fleet rolls: the pod-template fingerprint
    ([templateHash]) and the Secret digest ([configHash]). Words are 32-bit
    integers kept in range by [w32]. *)

From S2P Require Import Prelude.
From Stdlib Require Import Ascii.

Local Open Scope Z_scope.

Definition w32 (z : Z) : Z := z mod 2 ^ 32.
Definition add32 (a b : Z) : Z := w32 (a + b).
Definition rotr (x n : Z) : Z := Z.lor (Z.shiftr x n) (w32 (Z.shiftl x (32 - n))).
Definition not32 (x : Z) : Z := Z.lxor x (2 ^ 32 - 1).

Definition bigSigma0 x := Z.lxor (rotr x 2) (Z.lxor (rotr x 13) (rotr x 22)).
Definition bigSigma1 x := Z.lxor (rotr x 6) (Z.lxor (rotr x 11) (rotr x 25)).
Definition smallSigma0 x := Z.lxor (rotr x 7) (Z.lxor (rotr x 18) (Z.shiftr x 3)).
Definition smallSigma1 x := Z.lxor (rotr x 17) (Z.lxor (rotr x 19) (Z.shiftr x 10)).
Definition ch x y z := Z.lxor (Z.land x y) (Z.land (not32 x) z).
Definition maj x y z := Z.lxor (Z.land x y) (Z.lxor (Z.land x z) (Z.land y z)).

Definition roundConstants : list Z := [
  1116352408; 1899447441; 3049323471; 3921009573; 961987163; 1508970993; 2453635748; 2870763221;
  3624381080; 310598401; 607225278; 1426881987; 1925078388; 2162078206; 2614888103; 3248222580;
  3835390401; 4022224774; 264347078; 604807628; 770255983; 1249150122; 1555081692; 1996064986;
  2554220882; 2821834349; 2952996808; 3210313671; 3336571891; 3584528711; 113926993; 338241895;
  666307205; 773529912; 1294757372; 1396182291; 1695183700; 1986661051; 2177026350; 2456956037;
  2730485921; 2820302411; 3259730800; 3345764771; 3516065817; 3600352804; 4094571909; 275423344;
  430227734; 506948616; 659060556; 883997877; 958139571; 1322822218; 1537002063; 1747873779;
  1955562222; 2024104815; 2227730452; 2361852424; 2428436474; 2756734187; 3204031479; 3329325298].

Record digestState := mkState { sa : Z; sb : Z; sc : Z; sd : Z; se : Z; sf : Z; sg : Z; sh : Z }.

Definition initState : digestState :=
  mkState 1779033703 3144134277 1013904242 2773480762 1359893119 2600822924 528734635 1541459225.

Definition sha_round (s : digestState) (k w : Z) : digestState :=
  let t1 := add32 (sh s) (add32 (bigSigma1 (se s)) (add32 (ch (se s) (sf s) (sg s)) (add32 k w))) in
  let t2 := add32 (bigSigma0 (sa s)) (maj (sa s) (sb s) (sc s)) in
  mkState (add32 t1 t2) (sa s) (sb s) (sc s) (add32 (sd s) t1) (se s) (sf s) (sg s).

Definition addState (a b : digestState) : digestState :=
  mkState (add32 (sa a) (sa b)) (add32 (sb a) (sb b)) (add32 (sc a) (sc b)) (add32 (sd a) (sd b))
          (add32 (se a) (se b)) (add32 (sf a) (sf b)) (add32 (sg a) (sg b)) (add32 (sh a) (sh b)).

(** The rounds, with the sixteen most recent schedule words, latest first. *)
Fixpoint sha_rounds (ks : list Z) (window : list Z) (pending : list Z) (s : digestState) : digestState :=
  match ks with
  | [] => s
  | k :: ks' =>
      let '(w, pending') :=
        match pending with
        | w :: p => (w, p)
        | [] => (add32 (smallSigma1 (nth 1 window 0)) (add32 (nth 6 window 0)
                   (add32 (smallSigma0 (nth 14 window 0)) (nth 15 window 0))), [])
        end in
      sha_rounds ks' (w :: firstn 15 window) pending' (sha_round s k w)
  end.

Definition sha_block (s : digestState) (ws : list Z) : digestState :=
  addState s (sha_rounds roundConstants [] ws s).

Fixpoint bytes_of (s : string) : list Z :=
  match s with
  | EmptyString => []
  | String c s' => Z.of_N (N_of_ascii c) :: bytes_of s'
  end.

Definition be_bytes (n : nat) (z : Z) : list Z :=
  map (fun i => Z.shiftr z (8 * Z.of_nat i) mod 256) (rev (seq 0 n)).

Definition sha_pad (bs : list Z) : list Z :=
  let n := length bs in
  bs ++ [128] ++ repeat 0 (Z.to_nat ((55 - Z.of_nat n) mod 64)) ++ be_bytes 8 (8 * Z.of_nat n).

Fixpoint words_of (bs : list Z) : list Z :=
  match bs with
  | a :: b :: c :: d :: bs' => (((a * 256 + b) * 256 + c) * 256 + d) :: words_of bs'
  | _ => []
  end.

(** Sixteen words at a time; every step consumes a word, so the number of words
    bounds the recursion. *)
Fixpoint sha_blocks (fuel : nat) (s : digestState) (ws : list Z) : digestState :=
  match fuel with
  | O => s
  | S fuel' =>
      match ws with
      | [] => s
      | _ => sha_blocks fuel' (sha_block s (firstn 16 ws)) (skipn 16 ws)
      end
  end.

Definition state_bytes (s : digestState) : list Z :=
  be_bytes 4 (sa s) ++ be_bytes 4 (sb s) ++ be_bytes 4 (sc s) ++ be_bytes 4 (sd s) ++
  be_bytes 4 (se s) ++ be_bytes 4 (sf s) ++ be_bytes 4 (sg s) ++ be_bytes 4 (sh s).

(** [sha256.Sum256(data)] *)
Definition Sum256 (data : string) : list Z :=
  let ws := words_of (sha_pad (bytes_of data)) in
  state_bytes (sha_blocks (length ws) initState ws).

(** [hex.EncodeToString(bs)] *)
Definition hexDigit (d : Z) : ascii :=
  if d <? 10 then ascii_of_N (Z.to_N (48 + d)) else ascii_of_N (Z.to_N (87 + d)).

Fixpoint EncodeToString (bs : list Z) : string :=
  match bs with
  | [] => ""
  | b :: bs' => String (hexDigit (b / 16)) (String (hexDigit (b mod 16)) (EncodeToString bs'))
  end.

(** ** Lengths and test vectors *)

Lemma EncodeToString_length bs : String.length (EncodeToString bs) = (2 * length bs)%nat.
Proof. induction bs; simpl; lia. Qed.

Lemma Sum256_length data : length (Sum256 data) = 32%nat.
Proof. unfold Sum256, state_bytes. by rewrite !length_app. Qed.

Example sha256_abc :
  EncodeToString (Sum256 "abc") = "ba7816bf8f01cfea414140de5dae2223b00361a396177a9cb410ff61f20015ad".
Proof. vm_compute. reflexivity. Qed.

Example sha256_empty :
  EncodeToString (Sum256 "") = "e3b0c44298fc1c149afbf4c8996fb92427ae41e4649b934ca495991b7852b855".
Proof. vm_compute. reflexivity. Qed.

Example sha256_two_blocks :
  EncodeToString (Sum256 "abcdbcdecdefdefgefghfghighijhijkijkljklmklmnlmnomnopnopq") =
  "248d6a61d20638b8e5c026930c3e6039a33ce45964ff2167f6ecedd419db06c1".
Proof. vm_compute. reflexivity. Qed.
