(* ===== verification/Json.v ===== *)
(** * [encoding/json], as far as [/state] and the deploy pointer use it

    [parseJSON] is the syntax check and the value of a whole document;
    [foldName] and [parseInt64] are what [json.Unmarshal] does to match a key
    to a struct field and a number to an [int64]. The parser is fuelled by the
    length of the input: [parseJSON_fuel] shows the fuel always suffices. *)

From S2P Require Import Prelude GoStrings.
From Stdlib Require Import Ascii.

Local Open Scope Z_scope.

Inductive json :=
| JNull
| JBool (b : bool)
| JNum (literal : string)
| JStr (s : string)
| JArr (l : list json)
| JObj (fields : list (string * json)).

(** A parser's result: a value and the unread rest, a syntax error, or no fuel
    left. *)
Inductive presult (A : Type) : Type :=
| POk (a : A) (rest : string)
| PErr
| PFuel.
#[global] Arguments POk {A} a rest.
#[global] Arguments PErr {A}.
#[global] Arguments PFuel {A}.

Definition byte (c : ascii) : Z := Z.of_N (N_of_ascii c).
Definition chr (z : Z) : ascii := ascii_of_N (Z.to_N z).

Definition isSpace (c : ascii) : bool :=
  let b := byte c in (b =? 32) || (b =? 9) || (b =? 13) || (b =? 10).

Fixpoint skipSpace (s : string) : string :=
  match s with
  | String c s' => if isSpace c then skipSpace s' else s
  | EmptyString => EmptyString
  end.

(** ** String literals *)

Definition hexVal (c : ascii) : option Z :=
  let b := byte c in
  if (48 <=? b) && (b <=? 57) then Some (b - 48)
  else if (97 <=? b) && (b <=? 102) then Some (b - 87)
  else if (65 <=? b) && (b <=? 70) then Some (b - 55)
  else None.

Definition hex4 (a b c d : ascii) : option Z :=
  match hexVal a, hexVal b, hexVal c, hexVal d with
  | Some a, Some b, Some c, Some d => Some (((a * 16 + b) * 16 + c) * 16 + d)
  | _, _, _, _ => None
  end.

(** [utf8.AppendRune] *)
Definition utf8Encode (r : Z) : string :=
  if r <? 0x80 then String (chr r) ""
  else if r <? 0x800 then String (chr (0xC0 + r / 64)) (String (chr (0x80 + r mod 64)) "")
  else if r <? 0x10000 then
    String (chr (0xE0 + r / 4096)) (String (chr (0x80 + r / 64 mod 64)) (String (chr (0x80 + r mod 64)) ""))
  else
    String (chr (0xF0 + r / 262144)) (String (chr (0x80 + r / 4096 mod 64))
      (String (chr (0x80 + r / 64 mod 64)) (String (chr (0x80 + r mod 64)) ""))).

Definition replacement : string := utf8Encode 0xFFFD.

Definition isCont (c : ascii) : bool := (0x80 <=? byte c) && (byte c <=? 0xBF).

(** The length of the well-formed UTF-8 sequence that starts a string, 0 when
    its first byte is not one. *)
Definition utf8Len (s : string) : nat :=
  match s with
  | EmptyString => 0
  | String c s' =>
      let b := byte c in
      if b <? 0x80 then 1%nat
      else match s' with
      | EmptyString => 0%nat
      | String d s'' =>
          let x := byte d in
          if (0xC2 <=? b) && (b <=? 0xDF) then if isCont d then 2%nat else 0%nat
          else match s'' with
          | EmptyString => 0%nat
          | String e s3 =>
              if (0xE0 <=? b) && (b <=? 0xEF) then
                if ((if b =? 0xE0 then 0xA0 else 0x80) <=? x)
                   && (x <=? (if b =? 0xED then 0x9F else 0xBF)) && isCont e then 3%nat else 0%nat
              else match s3 with
              | EmptyString => 0%nat
              | String f _ =>
                  if (0xF0 <=? b) && (b <=? 0xF4)
                     && ((if b =? 0xF0 then 0x90 else 0x80) <=? x)
                     && (x <=? (if b =? 0xF4 then 0x8F else 0xBF)) && isCont e && isCont f
                  then 4%nat else 0%nat
              end
          end
      end
  end.

Definition isHighSurrogate (r : Z) : bool := (0xD800 <=? r) && (r <? 0xDC00).
Definition isLowSurrogate (r : Z) : bool := (0xDC00 <=? r) && (r <? 0xE000).

(** The simple escapes. *)
Definition simpleEscape (c : ascii) : option ascii :=
  let b := byte c in
  if (b =? 34) || (b =? 92) || (b =? 47) then Some c
  else if b =? 98 then Some (chr 8)
  else if b =? 102 then Some (chr 12)
  else if b =? 110 then Some (chr 10)
  else if b =? 114 then Some (chr 13)
  else if b =? 116 then Some (chr 9)
  else None.

Fixpoint dropBytes (n : nat) (s : string) : string :=
  match n, s with
  | O, _ => s
  | S n', String _ s' => dropBytes n' s'
  | S _, EmptyString => EmptyString
  end.

(** A string literal after its opening quote: its value, coerced to
    well-formed UTF-8 as [unquote] does, and the text after its closing
    quote. [skip] counts bytes of a sequence already copied. *)
Fixpoint stringLit (s : string) (skip : nat) : option (string * string) :=
  let cons (p : string) (r : option (string * string)) :=
    match r with Some (v, rest) => Some (p +:+ v, rest) | None => None end in
  match s with
  | EmptyString => None
  | String c s' =>
      match skip with
      | S k => stringLit s' k
      | O =>
          let b := byte c in
          if b =? 34 then Some ("", s')
          else if b <? 32 then None
          else if b =? 92 then
            match s' with
            | EmptyString => None
            | String e s'' =>
                match simpleEscape e with
                | Some v => cons (String v "") (stringLit s' 1)
                | None =>
                    if byte e =? 117 then
                      match s'' with
                      | String h1 (String h2 (String h3 (String h4 s3))) =>
                          match hex4 h1 h2 h3 h4 with
                          | None => None
                          | Some r =>
                              if isHighSurrogate r || isLowSurrogate r then
                                match s3 with
                                | String b1 (String b2 (String l1 (String l2 (String l3 (String l4 _))))) =>
                                    match hex4 l1 l2 l3 l4 with
                                    | Some lo =>
                                        if (byte b1 =? 92) && (byte b2 =? 117)
                                           && isHighSurrogate r && isLowSurrogate lo
                                        then cons (utf8Encode ((r - 0xD800) * 1024 + (lo - 0xDC00) + 0x10000))
                                                  (stringLit s' 11)
                                        else cons replacement (stringLit s' 5)
                                    | None => cons replacement (stringLit s' 5)
                                    end
                                | _ => cons replacement (stringLit s' 5)
                                end
                              else cons (utf8Encode r) (stringLit s' 5)
                          end
                      | _ => None
                      end
                    else None
                end
            end
          else if b <? 0x80 then cons (String c "") (stringLit s' 0)
          else match utf8Len s with
               | O => cons replacement (stringLit s' 0)
               | S n => cons (sliceTo (S n) s) (stringLit s' n)
               end
      end
  end.

(** ** Number literals *)

Fixpoint spanDigits (s : string) : string * string :=
  match s with
  | String c s' => if isDigit c then let '(d, r) := spanDigits s' in (String c d, r) else ("", s)
  | EmptyString => ("", "")
  end.

Definition optFrac (s : string) : option (string * string) :=
  match s with
  | String "." s' =>
      let '(d, r) := spanDigits s' in
      if is_empty d then None else Some (String "." d, r)
  | _ => Some ("", s)
  end.

Definition optExp (s : string) : option (string * string) :=
  match s with
  | String c s' =>
      if Ascii.eqb c "e" || Ascii.eqb c "E" then
        let '(sg, s'') := match s' with
                          | String "+" r => ("+", r)
                          | String "-" r => ("-", r)
                          | _ => ("", s')
                          end in
        let '(d, r) := spanDigits s'' in
        if is_empty d then None else Some (String c (sg +:+ d), r)
      else Some ("", s)
  | EmptyString => Some ("", s)
  end.

Definition numberLit (s : string) : option (string * string) :=
  let '(sg, s) := match s with String "-" r => ("-", r) | _ => ("", s) end in
  let '(d, r) := match s with
                 | String "0" r => ("0", r)
                 | _ => spanDigits s
                 end in
  if is_empty d then None
  else match optFrac r with
       | None => None
       | Some (f, r) =>
           match optExp r with
           | None => None
           | Some (x, r) => Some (sg +:+ d +:+ f +:+ x, r)
           end
       end.

(** ** Values *)

Definition maxNestingDepth : Z := 10000.

(** Values, the rest of an array after a value, and the members of an object.
    The byte that opens a container is read before the recursive call. *)
Fixpoint value (fuel : nat) (depth : Z) (s : string) : presult json :=
  match fuel with
  | O => PFuel
  | S fuel =>
      match skipSpace s with
      | EmptyString => PErr
      | String c s' =>
          let b := byte c in
          if b =? 123 then
            if maxNestingDepth <? depth + 1 then PErr
            else match skipSpace s' with
                 | String "}" r => POk (JObj []) r
                 | _ => match members fuel (depth + 1) s' with
                        | POk fs r => POk (JObj fs) r
                        | PErr => PErr
                        | PFuel => PFuel
                        end
                 end
          else if b =? 91 then
            if maxNestingDepth <? depth + 1 then PErr
            else match skipSpace s' with
                 | String "]" r => POk (JArr []) r
                 | _ => match elements fuel (depth + 1) s' with
                        | POk l r => POk (JArr l) r
                        | PErr => PErr
                        | PFuel => PFuel
                        end
                 end
          else if b =? 34 then
            match stringLit s' 0 with Some (v, r) => POk (JStr v) r | None => PErr end
          else if HasPrefix "true" (String c s') then POk (JBool true) (sliceFrom 4 (String c s'))
          else if HasPrefix "false" (String c s') then POk (JBool false) (sliceFrom 5 (String c s'))
          else if HasPrefix "null" (String c s') then POk JNull (sliceFrom 4 (String c s'))
          else match numberLit (String c s') with
               | Some (n, r) => POk (JNum n) r
               | None => PErr
               end
      end
  end
with elements (fuel : nat) (depth : Z) (s : string) : presult (list json) :=
  match fuel with
  | O => PFuel
  | S fuel =>
      match value fuel depth s with
      | PErr => PErr
      | PFuel => PFuel
      | POk v r =>
          match skipSpace r with
          | String "]" r' => POk [v] r'
          | String "," r' =>
              match elements fuel depth r' with
              | POk vs r'' => POk (v :: vs) r''
              | PErr => PErr
              | PFuel => PFuel
              end
          | _ => PErr
          end
      end
  end
with members (fuel : nat) (depth : Z) (s : string) : presult (list (string * json)) :=
  match fuel with
  | O => PFuel
  | S fuel =>
      match skipSpace s with
      | String c s' =>
          if byte c =? 34 then
            match stringLit s' 0 with
            | None => PErr
            | Some (key, r) =>
                match skipSpace r with
                | String ":" r' =>
                    match value fuel depth r' with
                    | PErr => PErr
                    | PFuel => PFuel
                    | POk v r'' =>
                        match skipSpace r'' with
                        | String "}" r3 => POk [(key, v)] r3
                        | String "," r3 =>
                            match members fuel depth r3 with
                            | POk fs r4 => POk ((key, v) :: fs) r4
                            | PErr => PErr
                            | PFuel => PFuel
                            end
                        | _ => PErr
                        end
                    end
                | _ => PErr
                end
            end
          else PErr
      | EmptyString => PErr
      end
  end.

(** A whole document: one value and nothing but space after it. *)
Definition parseJSON (raw : string) : option json :=
  match value (2 * String.length raw + 2) 0 raw with
  | POk v r => if is_empty (skipSpace r) then Some v else None
  | _ => None
  end.

(** ** Decoding into Go values *)

(** [strconv.ParseInt(literal, 10, 64)] of a number literal. *)
Definition parseInt64 (literal : string) : option Z := Atoi literal.

Definition upperASCII (c : ascii) : ascii :=
  if (97 <=? byte c) && (byte c <=? 122) then chr (byte c - 32) else c.

(** [foldName]: case folding, which also sends the long s and the Kelvin sign
    to their ASCII letters. *)
Fixpoint foldName (s : string) : string :=
  match s with
  | EmptyString => ""
  | String c s' =>
      match s' with
      | String d s'' =>
          if (byte c =? 0xC5) && (byte d =? 0xBF) then String "S" (foldName s'')
          else match s'' with
               | String e s3 =>
                   if (byte c =? 0xE2) && (byte d =? 0x84) && (byte e =? 0xAA)
                   then String "K" (foldName s3)
                   else String (upperASCII c) (foldName s')
               | EmptyString => String (upperASCII c) (foldName s')
               end
      | EmptyString => String (upperASCII c) (foldName s')
      end
  end.

(** Whether an object key names the struct field tagged [field], among the
    fields of one struct, none of which differ only in case. *)
Definition matchesField (field key : string) : bool :=
  String.eqb key field || String.eqb (foldName key) (foldName field).

(** [fields[key]] of a [map[string]json.RawMessage]: the last member wins. *)
Definition jsonField (fields : list (string * json)) (key : string) : option json :=
  foldl (fun acc kv => if String.eqb (fst kv) key then Some (snd kv) else acc) None fields.

(** ** The fuel suffices *)

Abbreviation slen := String.length.

Lemma skipSpace_length s : (slen (skipSpace s) <= slen s)%nat.
Proof. induction s; simpl; [lia|]. destruct (isSpace _); simpl; lia. Qed.

Lemma sliceFrom_length n s : (slen (sliceFrom n s) <= slen s)%nat.
Proof. revert s. induction n; intros [|c s]; simpl; [lia..|]. specialize (IHn s). lia. Qed.

Lemma stringLit_length s k v r : stringLit s k = Some (v, r) -> (slen r < slen s)%nat.
Proof.
  revert k v. induction s as [|c s IH]; intros k v H; simpl in H; [done|].
  simpl slen. repeat (case_in H; simplify_eq; try done);
    try (match goal with E : stringLit _ _ = Some _ |- _ => apply IH in E end); lia.
Qed.

Lemma spanDigits_length s d r : spanDigits s = (d, r) -> (slen d + slen r = slen s)%nat.
Proof.
  revert d. induction s as [|c s IH]; intros d H; simpl in H; [by simplify_eq|].
  destruct (isDigit c); [|by simplify_eq].
  destruct (spanDigits s) as [d' r'] eqn:E. simplify_eq. simpl. by rewrite (IH d').
Qed.

Lemma optFrac_length s f r : optFrac s = Some (f, r) -> (slen r <= slen s)%nat.
Proof.
  unfold optFrac. intros H. repeat (case_in H; simplify_eq; try done); simpl; try lia.
  match goal with E : spanDigits _ = _ |- _ => apply spanDigits_length in E end. lia.
Qed.

Lemma optExp_length s f r : optExp s = Some (f, r) -> (slen r <= slen s)%nat.
Proof.
  unfold optExp. intros H.
  destruct s as [|c s]; [by simplify_eq|]. destruct (_ || _); [|by simplify_eq].
  assert (Hsg : exists sg s'', (match s with String "+" r => ("+", r) | String "-" r => ("-", r)
             | _ => ("", s) end) = (sg, s'') /\ (slen s'' <= slen s)%nat).
  { destruct s as [|d s]; [by exists "", ""|].
    destruct d as [[] [] [] [] [] [] [] []]; eexists _, _; (split; [reflexivity|simpl; lia]). }
  destruct Hsg as (sg & s'' & Heq & Hle). rewrite Heq in H.
  destruct (spanDigits s'') as [d r'] eqn:E. destruct (is_empty d); simplify_eq.
  apply spanDigits_length in E. simpl. lia.
Qed.

Lemma numberLit_length s n r : numberLit s = Some (n, r) -> (slen r < slen s)%nat.
Proof.
  unfold numberLit. intros H.
  assert (Hsg : exists sg s1, (match s with String "-" r => ("-", r) | _ => ("", s) end) = (sg, s1)
            /\ (slen s1 <= slen s)%nat).
  { destruct s as [|d s]; [by exists "", ""|].
    destruct d as [[] [] [] [] [] [] [] []]; eexists _, _; (split; [reflexivity|simpl; lia]). }
  destruct Hsg as (sg & s1 & Heq & Hle). rewrite Heq in H. clear Heq.
  assert (Hd : exists d r1, (match s1 with String "0" r => ("0", r) | _ => spanDigits s1 end) = (d, r1)
            /\ (slen d + slen r1 = slen s1)%nat).
  { destruct (spanDigits s1) as [d0 r0] eqn:E. apply spanDigits_length in E.
    destruct s1 as [|d s1]; [exists d0, r0; by split|].
    destruct d as [[] [] [] [] [] [] [] []]; eexists _, _; (split; [reflexivity|simpl in *; lia]). }
  destruct Hd as (d & r1 & Heq & Hlen). rewrite Heq in H. clear Heq.
  destruct d as [|c d]; [done|]. simpl in H, Hlen.
  destruct (optFrac r1) as [[f r2]|] eqn:E1; [|done]. apply optFrac_length in E1.
  destruct (optExp r2) as [[x r3]|] eqn:E2; [|done]. apply optExp_length in E2.
  simplify_eq. lia.
Qed.

(** What each of the three parsers guarantees at a given fuel: a result that
    leaves a shorter rest, and never a lack of fuel. *)
Definition consumes {A} (n : nat) (enough : Prop) (p : presult A) : Prop :=
  match p with
  | POk _ r => (slen r < n)%nat
  | PErr => True
  | PFuel => ~ enough
  end.

Lemma parsers_consume fuel :
  (forall d s, consumes (slen s) (2 * slen s + 1 <= fuel)%nat (value fuel d s)) /\
  (forall d s, consumes (slen s) (2 * slen s + 2 <= fuel)%nat (elements fuel d s)) /\
  (forall d s, consumes (slen s) (2 * slen s + 1 <= fuel)%nat (members fuel d s)).
Proof.
  induction fuel as [|fuel (IHv & IHe & IHm)]; [simpl; repeat split; intros; lia|].
  split_and!; intros d s; cbn [value elements members].
  - pose proof (skipSpace_length s) as Hs.
    destruct (skipSpace s) as [|c s']; [done|]. simpl in Hs.
    pose proof (skipSpace_length s') as Hs'.
    pose proof (sliceFrom_length 4 (String c s')) as H4.
    pose proof (sliceFrom_length 5 (String c s')) as H5.
    destruct (byte c =? 123); [|destruct (byte c =? 91); [|destruct (byte c =? 34)]].
    + destruct (_ <? _); [done|]. specialize (IHm (d + 1) s').
      destruct (skipSpace s') as [|e r]; simpl in Hs'.
      * destruct (members fuel (d + 1) s'); simpl in *; lia.
      * destruct e as [[] [] [] [] [] [] [] []]; try (simpl; lia);
          destruct (members fuel (d + 1) s'); simpl in *; lia.
    + destruct (_ <? _); [done|]. specialize (IHe (d + 1) s').
      destruct (skipSpace s') as [|e r]; simpl in Hs'.
      * destruct (elements fuel (d + 1) s'); simpl in *; lia.
      * destruct e as [[] [] [] [] [] [] [] []]; try (simpl; lia);
          destruct (elements fuel (d + 1) s'); simpl in *; lia.
    + destruct (stringLit s' 0) as [[v r]|] eqn:E; [|done]. apply stringLit_length in E. simpl. lia.
    + assert (Hlt : forall n, (0 < n)%nat -> (slen (sliceFrom n (String c s')) < slen s)%nat).
      { intros [|n] ?; [lia|]. simpl. pose proof (sliceFrom_length n s'). lia. }
      destruct (HasPrefix "true" _); [apply Hlt; lia|].
      destruct (HasPrefix "false" _); [apply Hlt; lia|].
      destruct (HasPrefix "null" _); [apply Hlt; lia|].
      destruct (numberLit (String c s')) as [[n r]|] eqn:E; [|done].
      apply numberLit_length in E. simpl in *. lia.
  - specialize (IHv d s). destruct (value fuel d s) as [v r| |]; simpl in *; [|done|lia].
    pose proof (skipSpace_length r) as Hr. destruct (skipSpace r) as [|e r']; [done|]. simpl in Hr.
    specialize (IHe d r').
    destruct e as [[] [] [] [] [] [] [] []]; try done; try (simpl; lia);
      destruct (elements fuel d r'); simpl in *; lia.
  - pose proof (skipSpace_length s) as Hs. destruct (skipSpace s) as [|c s']; [done|]. simpl in Hs.
    destruct (byte c =? 34); [|done].
    destruct (stringLit s' 0) as [[key r]|] eqn:E; [|done]. apply stringLit_length in E.
    pose proof (skipSpace_length r) as Hr. destruct (skipSpace r) as [|e r']; [done|]. simpl in Hr.
    specialize (IHv d r').
    destruct e as [[] [] [] [] [] [] [] []]; try done.
    destruct (value fuel d r') as [v r2| |]; simpl in *; [|done|lia].
    pose proof (skipSpace_length r2) as Hr2. destruct (skipSpace r2) as [|e r3]; [done|]. simpl in Hr2.
    specialize (IHm d r3).
    destruct e as [[] [] [] [] [] [] [] []]; try done; try (simpl; lia);
      destruct (members fuel d r3); simpl in *; lia.
Qed.

Lemma parseJSON_fuel raw : value (2 * slen raw + 2) 0 raw <> PFuel.
Proof.
  destruct (parsers_consume (2 * slen raw + 2)) as [H _]. specialize (H 0 raw).
  intros E. rewrite E in H. simpl in H. lia.
Qed.
