(* ===== verification/Versions.v ===== *)
(** * celld versions and rolling-safety boundaries

    Models the version half of [internal/controller/rollout.go]: the
    [major.minor] of an image tag, the table of boundaries a rolling update
    must not cross, and the reason reported when one is crossed. *)

From S2P Require Import Prelude GoStrings.
From Stdlib Require Import Ascii String.

Local Open Scope Z_scope.

(** [type minorVersion struct{ major, minor int }] *)
Record minorVersion := MinorVersion { major : Z; minor : Z }.

#[export] Instance minorVersion_eq_dec : EqDecision minorVersion.
Proof. solve_decision. Defined.

(** [func (v minorVersion) cmp(o minorVersion) int]: a difference of machine
    integers, so it wraps around. *)
Definition cmp (v o : minorVersion) : Z :=
  if negb (major v =? major o) then wrap64 (major v - major o)
  else wrap64 (minor v - minor o).

(** [type versionBoundary struct] *)
Record versionBoundary := VersionBoundary {
  lower : minorVersion;
  upper : minorVersion;
  upward : bool;
  downward : bool;
  reason : string
}.

(** [var breakingBoundaries] *)
Definition breakingBoundaries : list versionBoundary := [
  {| lower := MinorVersion 0 1; upper := MinorVersion 0 2; upward := true; downward := true;
     reason := "v0.1 and v0.2 nodes cannot share a fleet (ownership records changed address " +:+
       "semantics and block objects changed format); upstream requires stop-all-then-start" |};
  {| lower := MinorVersion 0 2; upper := MinorVersion 0 3; upward := false; downward := true;
     reason := "a v0.2 node cannot read writes waiting in v0.3's replicated log, so the downgrade " +:+
       "can lose acknowledged writes unless every node's shutdown log shows " +:+
       dquote +:+ "node-log close: sealed epoch" +:+ dquote |};
  {| lower := MinorVersion 0 3; upper := MinorVersion 0 4; upward := true; downward := true;
     reason := "v0.3 and v0.4 nodes cannot share a fleet (the peer tunnel protocols are " +:+
       "incompatible and v0.3 cannot read v0.4 large Workers KV value references); " +:+
       "upstream requires stop-all-then-start" |};
  {| lower := MinorVersion 0 4; upper := MinorVersion 0 5; upward := true; downward := true;
     reason := "v0.4 and v0.5 nodes cannot share a fleet; upstream requires stop-all-then-start" |}
].

(** [func minorOf(image string) (minorVersion, bool)]; [None] is [false]. *)
Definition minorOf (image : string) : option minorVersion :=
  let '(image, _, _) := Cut "@" image in
  let idx := LastIndex ":" image in
  if idx <? 0 then None
  else
    let tag := TrimPrefix (sliceFrom (Z.to_nat (idx + 1)) image) "v" in
    match SplitN "." tag 3 with
    | p0 :: p1 :: _ =>
        match Atoi p0 with
        | None => None
        | Some major =>
            match Atoi p1 with
            | None => None
            | Some minor => Some (MinorVersion major minor)
            end
        end
    | _ => None
    end.

(** One iteration of [breakingReason]'s loop: whether the move crosses [b] in a
    flagged direction. *)
Definition crossesBoundary (from to : minorVersion) (b : versionBoundary) : bool :=
  let crossesUp := (cmp from (lower b) <=? 0) && (0 <=? cmp to (upper b)) in
  let crossesDown := (0 <=? cmp from (upper b)) && (cmp to (lower b) <=? 0) in
  (upward b && crossesUp) || (downward b && crossesDown).

(** [func breakingReason(fromImage, toImage string) string] *)
Definition breakingReason (fromImage toImage : string) : string :=
  match minorOf fromImage, minorOf toImage with
  | Some from, Some to =>
      if bool_decide (from = to) then ""
      else Join (reason <$> filter (fun b => crossesBoundary from to b = true) breakingBoundaries) "; "
  | _, _ => ""
  end.

(** [func isBreakingUpgrade(fromImage, toImage string) bool] *)
Definition isBreakingUpgrade (fromImage toImage : string) : bool :=
  negb (String.eqb (breakingReason fromImage toImage) "").

(** ** The version order

    [vle] is the mathematical lexicographic order; [cmp] computes it unless a
    difference leaves 64 bits, which the components of a parsed tag can only
    do below zero. *)

Definition vle (v o : minorVersion) : Prop :=
  major v < major o \/ (major v = major o /\ minor v <= minor o).
Definition vlt (v o : minorVersion) : Prop :=
  major v < major o \/ (major v = major o /\ minor v < minor o).

#[export] Instance vle_dec v o : Decision (vle v o).
Proof. unfold vle. apply _. Defined.
#[export] Instance vlt_dec v o : Decision (vlt v o).
Proof. unfold vlt. apply _. Defined.

Definition natural (v : minorVersion) : Prop :=
  0 <= major v <= int64_max /\ 0 <= minor v <= int64_max.

#[export] Instance natural_dec v : Decision (natural v).
Proof. unfold natural. apply _. Defined.

Lemma cmp_diff v o :
  natural v -> natural o ->
  cmp v o = if bool_decide (major v = major o) then minor v - minor o else major v - major o.
Proof.
  unfold natural, cmp, int64_max. intros Hv Ho.
  case_bool_decide as E.
  - rewrite (proj2 (Z.eqb_eq _ _) E). simpl. apply wrap64_small.
    unfold is_int64, int64_min, int64_max. lia.
  - rewrite (proj2 (Z.eqb_neq _ _) E). simpl. apply wrap64_small.
    unfold is_int64, int64_min, int64_max. lia.
Qed.

Lemma cmp_le v o : natural v -> natural o -> cmp v o <= 0 <-> vle v o.
Proof.
  intros Hv Ho. rewrite cmp_diff by done. unfold vle. case_bool_decide; lia.
Qed.

Lemma cmp_ge v o : natural v -> natural o -> 0 <= cmp v o <-> vle o v.
Proof.
  intros Hv Ho. rewrite cmp_diff by done. unfold vle. case_bool_decide; lia.
Qed.

Lemma cmp_eq v o : natural v -> natural o -> cmp v o = 0 <-> v = o.
Proof.
  intros Hv Ho. rewrite cmp_diff by done. destruct v, o; simpl.
  case_bool_decide; split; [intros; f_equal; lia|intros; simplify_eq; lia| |]; [lia|].
  intros; simplify_eq; lia.
Qed.

(** ** The rolling classes

    The reference reading of the table: an upgrade is rolling-safe exactly when
    it stays within one of the classes [<=0.1], [0.2-0.3], [0.4], [>=0.5], and
    a downgrade when it stays within [<=0.1], [0.2], [0.3], [0.4], [>=0.5]. *)

Definition upgradeClass (v : minorVersion) : Z :=
  if bool_decide (vle v (MinorVersion 0 1)) then 0
  else if bool_decide (vle v (MinorVersion 0 3)) then 1
  else if bool_decide (vle v (MinorVersion 0 4)) then 2 else 3.

Definition downgradeClass (v : minorVersion) : Z :=
  if bool_decide (vle v (MinorVersion 0 1)) then 0
  else if bool_decide (vle v (MinorVersion 0 2)) then 1
  else if bool_decide (vle v (MinorVersion 0 3)) then 2
  else if bool_decide (vle v (MinorVersion 0 4)) then 3 else 4.

Definition rollingSafe (from to : minorVersion) : Prop :=
  if bool_decide (vle from to) then upgradeClass from = upgradeClass to
  else downgradeClass from = downgradeClass to.

#[export] Instance rollingSafe_dec from to : Decision (rollingSafe from to).
Proof. unfold rollingSafe. case_bool_decide; apply _. Defined.

Lemma boundaries_natural b :
  b ∈ breakingBoundaries -> natural (lower b) /\ natural (upper b).
Proof.
  unfold breakingBoundaries, natural, int64_max. intros H.
  repeat (apply elem_of_cons in H as [->|H]; [simpl; lia|]). by apply elem_of_nil in H.
Qed.

Lemma boundaries_reason b : b ∈ breakingBoundaries -> reason b <> "".
Proof.
  unfold breakingBoundaries. intros H.
  repeat (apply elem_of_cons in H as [->|H]; [done|]). by apply elem_of_nil in H.
Qed.

Lemma crossesBoundary_spec from to b :
  natural from -> natural to -> natural (lower b) -> natural (upper b) ->
  crossesBoundary from to b = true <->
  (upward b = true /\ vle from (lower b) /\ vle (upper b) to) \/
  (downward b = true /\ vle (upper b) from /\ vle to (lower b)).
Proof.
  intros Hf Ht Hl Hu. unfold crossesBoundary.
  rewrite orb_true_iff, !andb_true_iff, !Z.leb_le.
  rewrite !cmp_le, !cmp_ge by done. tauto.
Qed.

Lemma breakingReason_nonempty fromImage toImage from to :
  minorOf fromImage = Some from -> minorOf toImage = Some to ->
  breakingReason fromImage toImage <> "" <->
  from <> to /\ exists b, b ∈ breakingBoundaries /\ crossesBoundary from to b = true.
Proof.
  intros Ef Et. unfold breakingReason. rewrite Ef, Et.
  case_bool_decide as E; [naive_solver|].
  rewrite Join_empty.
  - split.
    + intros H. split; [done|].
      destruct (filter _ _) as [|b bs] eqn:F; [done|].
      assert (Hb : b ∈ b :: bs) by apply list_elem_of_here.
      rewrite <- F in Hb. apply list_elem_of_filter in Hb. naive_solver.
    + intros [_ (b & Hin & Hc)] H.
      assert (Hb : b ∈ filter (fun b => crossesBoundary from to b = true) breakingBoundaries)
        by (apply list_elem_of_filter; done).
      apply fmap_nil_inv in H. rewrite H in Hb. by apply elem_of_nil in Hb.
  - apply Forall_forall. intros r Hr. apply list_elem_of_fmap in Hr as (b & -> & Hb).
    apply list_elem_of_filter in Hb as [_ Hb]. by apply boundaries_reason.
Qed.

Lemma crosses_some_class from to :
  natural from -> natural to ->
  (exists b, b ∈ breakingBoundaries /\ crossesBoundary from to b = true) <->
  ~ rollingSafe from to.
Proof.
  intros Hf Ht. split.
  - intros (b & Hb & Hc). pose proof (boundaries_natural b Hb) as [].
    apply crossesBoundary_spec in Hc; [|done..]. revert Hc.
    unfold rollingSafe, upgradeClass, downgradeClass, vle.
    unfold breakingBoundaries in Hb.
    destruct from as [f1 f2], to as [t1 t2]; simpl in *.
    repeat (apply elem_of_cons in Hb as [->|Hb]; [simpl in *; intros Hc Hs;
      repeat case_bool_decide; lia|]).
    by apply elem_of_nil in Hb.
  - intros Hn.
    assert (Hd : Exists (fun b => crossesBoundary from to b = true) breakingBoundaries \/
                 Forall (fun b => ~ crossesBoundary from to b = true) breakingBoundaries)
      by (destruct (decide (Exists (fun b => crossesBoundary from to b = true) breakingBoundaries))
            as [?|?%not_Exists_Forall]; auto; apply _).
    destruct Hd as [Hd|Hd].
    { apply Exists_exists in Hd as (b & ? & ?). eauto. }
    destruct Hn. unfold breakingBoundaries in Hd.
    repeat (apply Forall_cons in Hd as [? Hd]).
    repeat match goal with
    | H : ~ crossesBoundary _ _ _ = true |- _ =>
        rewrite crossesBoundary_spec in H by (done || unfold natural, int64_max; simpl; lia)
    end.
    unfold rollingSafe, upgradeClass, downgradeClass, vle in *.
    destruct from as [f1 f2], to as [t1 t2]; simpl in *.
    repeat case_bool_decide; try reflexivity; exfalso; lia.
Qed.

(** ** The table read as classes *)

Lemma breakingReason_class fromImage toImage from to :
  minorOf fromImage = Some from -> minorOf toImage = Some to -> natural from -> natural to ->
  breakingReason fromImage toImage = "" <-> rollingSafe from to.
Proof.
  intros Ef Et Hf Ht.
  pose proof (breakingReason_nonempty _ _ _ _ Ef Et) as Hb.
  pose proof (crosses_some_class _ _ Hf Ht) as Hc.
  assert (Hrefl : from = to -> rollingSafe from to).
  { intros <-. unfold rollingSafe. by case_bool_decide. }
  destruct (decide (breakingReason fromImage toImage = "")) as [E|E].
  - split; [intros _|done]. destruct (decide (from = to)) as [|Hne]; [auto|].
    destruct (decide (rollingSafe from to)) as [|Hn]; [done|].
    destruct (proj2 Hb); [|done]. split; [done|]. by apply Hc.
  - split; [done|]. intros Hs. apply Hb in E as [_ Hx]. by apply Hc in Hx.
Qed.

Lemma sliceFrom_tag repo tag :
  has_byte ":" tag = false ->
  sliceFrom (Z.to_nat (LastIndex ":" (repo +:+ String ":" tag) + 1)) (repo +:+ String ":" tag) = tag.
Proof. apply sliceFrom_LastIndex. Qed.

(** The digits of a tag carry none of its separators. *)
Lemma digits_plain s :
  all_digits s = true ->
  has_byte "." s = false /\ has_byte ":" s = false /\ has_byte "@" s = false.
Proof. intros. split_and!; by apply all_digits_no_byte. Qed.

Lemma TrimPrefix_tag prefix a s :
  prefix = "" \/ prefix = "v" -> all_digits a = true -> a <> "" ->
  TrimPrefix (prefix +:+ a +:+ s) "v" = a +:+ s.
Proof.
  intros [-> | ->] Ha Hne; [|by apply TrimPrefix_app].
  destruct a as [|c a]; [done|]. simpl in Ha. bool_simp. str_simpl.
  unfold TrimPrefix, CutPrefix. simpl.
  destruct c as [[] [] [] [] [] [] [] []]; try discriminate H; done.
Qed.

Lemma SplitN_tag a b rest :
  all_digits a = true -> all_digits b = true ->
  rest = "" \/ (exists r, rest = String "." r) ->
  exists l, SplitN "." (a +:+ "." +:+ b +:+ rest) 3 = a :: b :: l.
Proof.
  intros [Ha _]%digits_plain [Hb _]%digits_plain Hr. unfold SplitN. simpl.
  str_simpl. rewrite Cut_app by done.
  destruct Hr as [-> | [r ->]].
  - rewrite string_app_nil_r, Cut_absent by done. by exists [].
  - rewrite Cut_app by done. eauto.
Qed.

(** on versions with non-negative parts, a move between two images is
    flagged exactly when it leaves its class: upgrades stay within [<=0.1],
    [0.2-0.3], [0.4], [>=0.5], downgrades within [<=0.1], [0.2], [0.3], [0.4],
    [>=0.5]; so a jump over several minors is judged like its end points. *)
Theorem isBreakingUpgrade_class fromImage toImage from to :
  minorOf fromImage = Some from -> minorOf toImage = Some to -> natural from -> natural to ->
  isBreakingUpgrade fromImage toImage = true <-> ~ rollingSafe from to.
Proof.
  intros Ef Et Hf Ht. unfold isBreakingUpgrade. rewrite negb_true_iff, String.eqb_neq.
  by rewrite (breakingReason_class _ _ _ _ Ef Et Hf Ht).
Qed.

Lemma isBreakingUpgrade_class_witness :
  isBreakingUpgrade "ghcr.io/celld/celld:v0.2.1" "ghcr.io/celld/celld:v0.5.0" = true <->
  ~ rollingSafe (MinorVersion 0 2) (MinorVersion 0 5).
Proof.
  apply (isBreakingUpgrade_class "ghcr.io/celld/celld:v0.2.1" "ghcr.io/celld/celld:v0.5.0");
    [reflexivity|reflexivity| |]; unfold natural, int64_max; simpl; lia.
Defined.

(** [minorOf] reads back the version of a tag [repo:[v]A.B[.rest][@digest]]
    for decimal numerals [A] and [B] that fit an [int], whatever the repository
    (a registry port included) and the patch or pre-release part. *)
Lemma minorOf_tag repo prefix a b rest digest :
  has_byte "@" repo = false -> prefix = "" \/ prefix = "v" ->
  all_digits a = true -> a <> "" -> is_int64 (numeral a) ->
  all_digits b = true -> b <> "" -> is_int64 (numeral b) ->
  rest = "" \/ (exists r, rest = String "." r) -> has_byte ":" rest = false -> has_byte "@" rest = false ->
  digest = "" \/ (exists d, digest = String "@" d) ->
  minorOf (repo +:+ ":" +:+ prefix +:+ a +:+ "." +:+ b +:+ rest +:+ digest)
  = Some (MinorVersion (numeral a) (numeral b)).
Proof.
  intros Hrepo Hp Ha Hane Hai Hb Hbne Hbi Hr Hrc Hra Hd.
  set (tag := prefix +:+ a +:+ "." +:+ b +:+ rest).
  assert (Htag : has_byte ":" tag = false /\ has_byte "@" tag = false).
  { destruct (digits_plain a Ha) as (_ & ? & ?), (digits_plain b Hb) as (_ & ? & ?).
    unfold tag. rewrite !has_byte_app. destruct Hp as [-> | ->]; simpl;
      (split; [rewrite Hrc|rewrite Hra]; by repeat (apply orb_false_iff; split)). }
  assert (Hcut : exists x y, Cut "@" (repo +:+ ":" +:+ prefix +:+ a +:+ "." +:+ b +:+ rest +:+ digest)
                 = (repo +:+ String ":" tag, x, y)).
  { replace (repo +:+ ":" +:+ prefix +:+ a +:+ "." +:+ b +:+ rest +:+ digest)
      with ((repo +:+ String ":" tag) +:+ digest)
      by (unfold tag; by repeat first [rewrite string_app_assoc | progress str_simpl]).
    assert (Hno : has_byte "@" (repo +:+ String ":" tag) = false)
      by (rewrite has_byte_app, Hrepo; simpl; by destruct Htag).
    destruct Hd as [-> | [d ->]].
    - rewrite string_app_nil_r, Cut_absent by done. eauto.
    - rewrite Cut_app by done. eauto. }
  destruct Hcut as (x & y & Hcut). unfold minorOf. rewrite Hcut.
  rewrite LastIndex_app by apply Htag.
  destruct (Z.ltb_spec (Z.of_nat (String.length repo)) 0); [lia|].
  rewrite <- (LastIndex_app ":" repo tag) by apply Htag. rewrite sliceFrom_tag by apply Htag.
  unfold tag. rewrite TrimPrefix_tag by done.
  destruct (SplitN_tag a b rest Ha Hb Hr) as [l ->].
  rewrite !Atoi_digits by done. by rewrite !bool_decide_eq_true_2.
Qed.

Lemma minorOf_tag_witness :
  minorOf "registry.local:5000/celld:v0.12.3@sha256:ab" = Some (MinorVersion 0 12).
Proof.
  apply (minorOf_tag "registry.local:5000/celld" "v" "0" "12" ".3" "@sha256:ab");
    try reflexivity; try discriminate; try (vm_compute; split; discriminate);
    [by right| |]; right; [by exists "3"|by exists "sha256:ab"].
Defined.
