(* ===== verification/Effects.v ===== *)
(** * Effectful code as finite request trees

    Every call of the operator that leaves the process (an API-server request,
    an HTTP request, a clock read) or whose result Go leaves open (map
    iteration order, goroutine completion order) is a request [e : E X]
    answered by a value of type [X]. A handler is a finite tree of such
    requests: nothing is assumed about the answers, so a property of all
    executions is a property against every API server, cache and clock.
    The trees are inductive, so every handler returns after finitely many
    requests whatever the answers are. *)

From S2P Require Import Prelude.

Section Prog.
Context {E : Type -> Type}.

Inductive prog (R : Type) : Type :=
| Ret (r : R) : prog R
| Vis {X : Type} (e : E X) (k : X -> prog R) : prog R.

#[global] Arguments Ret {R} r.
#[global] Arguments Vis {R X} e k.

Fixpoint bind {A B} (f : A -> prog B) (p : prog A) : prog B :=
  match p with
  | Ret a => f a
  | Vis e k => Vis e (fun x => bind f (k x))
  end.

#[export] Instance prog_mret : MRet prog := @Ret.
#[export] Instance prog_mbind : MBind prog := @bind.

Definition trigger {X} (e : E X) : prog X := Vis e Ret.

(** A request together with the answer it got. *)
Record event := Ev { ev_type : Type; ev_req : E ev_type; ev_resp : ev_type }.
#[global] Arguments Ev {ev_type} ev_req ev_resp.

Abbreviation trace := (list event).

(** [exec p t r]: with the answers recorded in [t], [p] returns [r]. *)
Fixpoint exec {R} (p : prog R) (t : trace) (r : R) : Prop :=
  match p with
  | Ret r' => t = [] /\ r = r'
  | Vis e k => exists x t', t = Ev e x :: t' /\ exec (k x) t' r
  end.

(** [wp p Q]: every execution of [p] ends in a trace and a result satisfying
    [Q]. *)
Fixpoint wp {R} (p : prog R) (Q : trace -> R -> Prop) : Prop :=
  match p with
  | Ret r => Q [] r
  | Vis e k => forall x, wp (k x) (fun t r => Q (Ev e x :: t) r)
  end.

(** Running against a handler of requests that keeps a state. *)
Fixpoint run {S R} (h : forall X, E X -> S -> X * S) (p : prog R) (s : S) : trace * R * S :=
  match p with
  | Ret r => ([], r, s)
  | Vis e k =>
      let '(x, s1) := h _ e s in
      let '(t, r, s2) := run h (k x) s1 in
      (Ev e x :: t, r, s2)
  end.

Lemma wp_exec {R} (p : prog R) (Q : trace -> R -> Prop) :
  wp p Q <-> forall t r, exec p t r -> Q t r.
Proof.
  revert Q. induction p as [r|X e k IH]; intros Q; simpl.
  - naive_solver.
  - split.
    + intros H t r (x & t' & -> & Hx). specialize (H x). rewrite IH in H. by apply H.
    + intros H x. rewrite IH. eauto.
Qed.

Lemma wp_mono {R} (p : prog R) (Q Q' : trace -> R -> Prop) :
  (forall t r, Q t r -> Q' t r) -> wp p Q -> wp p Q'.
Proof. rewrite !wp_exec. eauto. Qed.

Lemma wp_bind {A B} (f : A -> prog B) (p : prog A) (Q : trace -> B -> Prop) :
  wp (p ≫= f) Q <-> wp p (fun t a => wp (f a) (fun t' b => Q (t ++ t') b)).
Proof.
  revert Q. induction p as [a|X e k IH]; intros Q; [done|].
  change (Vis e k ≫= f) with (Vis e (fun x => k x ≫= f)). simpl.
  setoid_rewrite IH. done.
Qed.

Lemma wp_ret {R} (r : R) (Q : trace -> R -> Prop) : Q [] r -> wp (Ret r) Q.
Proof. done. Qed.

Lemma wp_trigger {X R} (e : E X) (k : X -> prog R) (Q : trace -> R -> Prop) :
  (forall x, wp (k x) (fun t r => Q (Ev e x :: t) r)) -> wp (trigger e ≫= k) Q.
Proof. done. Qed.

Lemma wp_seq {A B} (f : A -> prog B) (p : prog A) (P : trace -> A -> Prop) (Q : trace -> B -> Prop) :
  wp p P -> (forall t a, P t a -> wp (f a) (fun t' b => Q (t ++ t') b)) -> wp (p ≫= f) Q.
Proof. intros Hp Hf. apply wp_bind. eapply wp_mono; [|exact Hp]. exact Hf. Qed.

(** Sequencing when only the executions whose events satisfy [H] matter. *)
Lemma wp_seq_given {A B} (H : event -> Prop) (f : A -> prog B) (p : prog A)
    (P : trace -> A -> Prop) (Q : trace -> B -> Prop) :
  wp p (fun t a => Forall H t -> P t a) ->
  (forall t a, P t a -> wp (f a) (fun t' b => Forall H t' -> Q (t ++ t') b)) ->
  wp (p ≫= f) (fun t b => Forall H t -> Q t b).
Proof.
  intros Hp Hf. eapply wp_seq; [exact Hp|]. intros t a Ha. cbv beta.
  destruct (wp_exec (f a) (fun t' b => Forall H (t ++ t') -> Q (t ++ t') b)) as [_ Hw].
  apply Hw. intros t' b Hx [Ht Ht']%Forall_app.
  exact (proj1 (wp_exec _ _) (Hf t a (Ha Ht)) t' b Hx Ht').
Qed.

Lemma wp_trigger_given {X R} (H : event -> Prop) (e : E X) (k : X -> prog R) (Q : trace -> R -> Prop) :
  (forall x, H (Ev e x) -> wp (k x) (fun t r => Forall H t -> Q (Ev e x :: t) r)) ->
  wp (trigger e ≫= k) (fun t r => Forall H t -> Q t r).
Proof.
  intros Hk. apply wp_trigger. intros x. apply wp_exec. intros t r Hx [Hev Ht]%Forall_cons.
  exact (proj1 (wp_exec _ _) (Hk x Hev) t r Hx Ht).
Qed.

Lemma wp_conj {R} (p : prog R) (Q Q' : trace -> R -> Prop) :
  wp p Q -> wp p Q' -> wp p (fun t r => Q t r /\ Q' t r).
Proof. rewrite !wp_exec. eauto. Qed.

Lemma exec_bind {A B} (f : A -> prog B) (p : prog A) t b :
  exec (p ≫= f) t b <-> exists t1 t2 a, t = t1 ++ t2 /\ exec p t1 a /\ exec (f a) t2 b.
Proof.
  revert t. induction p as [a|X e k IH]; intros t.
  - simpl. split; [intros H; by exists [], t, a|]. by intros (?&?&?&->&[-> ->]&?).
  - change (Vis e k ≫= f) with (Vis e (fun x => k x ≫= f)). simpl. split.
    + intros (x & t' & -> & (t1 & t2 & a & -> & ? & ?)%IH).
      exists (Ev e x :: t1), t2, a. eauto 6.
    + intros (t1 & t2 & a & -> & (x & t' & -> & ?) & ?).
      exists x, (t' ++ t2). split; [done|]. apply IH. eauto 6.
Qed.

Lemma exec_trigger {X B} (e : E X) (k : X -> prog B) t b :
  exec (trigger e ≫= k) t b <-> exists x t', t = Ev e x :: t' /\ exec (k x) t' b.
Proof. done. Qed.

Lemma run_exec {S R} (h : forall X, E X -> S -> X * S) (p : prog R) s t r s' :
  run h p s = (t, r, s') -> exec p t r.
Proof.
  revert s t. induction p as [r0|X e k IH]; intros s t; simpl.
  - intros; by simplify_eq.
  - destruct (h X e s) as [x s1]. destruct (run h (k x) s1) as [[t1 r1] s2] eqn:E1.
    intros; simplify_eq. eauto.
Qed.

(** Every request tree has an execution for any way of answering: a handler
    never gets stuck. *)
Lemma run_total {S R} (h : forall X, E X -> S -> X * S) (p : prog R) s :
  exists t r s', run h p s = (t, r, s') /\ exec p t r.
Proof.
  destruct (run h p s) as [[t r] s'] eqn:H. exists t, r, s'. split; [done|].
  by eapply run_exec.
Qed.

(** What holds of every answer of a handler holds of every event of a run. *)
Lemma run_forall {S R} (h : forall X, E X -> S -> X * S) (H : event -> Prop) (I : S -> Prop) :
  (forall X (e : E X) s, I s -> H (Ev e (fst (h X e s))) /\ I (snd (h X e s))) ->
  forall (p : prog R) s, I s -> Forall H (fst (fst (run h p s))).
Proof.
  intros Hh p. induction p as [r|X e k IH]; intros s Hs; simpl; [constructor|].
  destruct (Hh X e s Hs) as [He Hi]. destruct (h X e s) as [x s1]; simpl in *.
  specialize (IH x s1 Hi). destruct (run h (k x) s1) as [[t r] s2]; simpl in *. by constructor.
Qed.

End Prog.

#[global] Arguments prog E R : clear implicits.
#[global] Arguments event E : clear implicits.
Abbreviation trace E := (list (event E)).

(** A step of a loop body: either leave the surrounding function with a result
    or go on with a loop state. *)
Inductive control (R S : Type) : Type := Return (r : R) | Continue (s : S).
#[global] Arguments Return {R S} r.
#[global] Arguments Continue {R S} s.

(** [for _, a := range l { body }] *)
Fixpoint forRange {E A R S} (l : list A) (body : A -> S -> prog E (control R S)) (s : S)
  : prog E (control R S) :=
  match l with
  | [] => Ret (Continue s)
  | a :: l' =>
      bind (fun c => match c with
                     | Return r => Ret (Return r)
                     | Continue s' => forRange l' body s'
                     end) (body a s)
  end.

(** A loop invariant indexed by the elements already processed. *)
Lemma wp_forRange {E A R S} (l : list A) (body : A -> S -> prog E (control R S)) s
    (I : list A -> trace E -> S -> Prop) (Q : trace E -> R -> Prop) :
  I [] [] s ->
  (forall done a todo t s, l = done ++ a :: todo -> I done t s ->
     wp (body a s) (fun t' c => match c with
                                | Return r => Q (t ++ t') r
                                | Continue s' => I (done ++ [a]) (t ++ t') s'
                                end)) ->
  wp (forRange l body s) (fun t c => match c with
                                     | Return r => Q t r
                                     | Continue s' => I l t s'
                                     end).
Proof.
  intros HI Hbody.
  assert (Hgen : forall todo done t s, l = done ++ todo -> I done t s ->
    wp (forRange todo body s) (fun t' c => match c with
                                           | Return r => Q (t ++ t') r
                                           | Continue s' => I l (t ++ t') s'
                                           end)).
  { induction todo as [|a todo IH]; intros dn t s0 Hl Hd; simpl.
    - rewrite app_nil_r in *. by subst.
    - change (bind ?f ?p) with (p ≫= f). rewrite wp_bind.
      eapply wp_mono; [|by eapply Hbody]. intros t' [r|s'] Hc; simpl.
      + by rewrite app_nil_r.
      + eapply wp_mono; [|eapply IH; [|done]].
        * intros t'' [r|s'']; by rewrite app_assoc.
        * by rewrite <- app_assoc. }
  exact (Hgen l [] [] s eq_refl HI).
Qed.

(** A loop that runs to its end, over a list and a state. *)
Fixpoint foldM {E A S} (body : A -> S -> prog E S) (l : list A) (s : S) : prog E S :=
  match l with
  | [] => Ret s
  | a :: l' => bind (fun s' => foldM body l' s') (body a s)
  end.

Lemma wp_foldM {E A S} (body : A -> S -> prog E S) (l : list A) s
    (I : list A -> trace E -> S -> Prop) :
  I [] [] s ->
  (forall done a t s, I done t s ->
     wp (body a s) (fun t' s' => I (done ++ [a]) (t ++ t') s')) ->
  wp (foldM body l s) (I l).
Proof.
  intros HI Hbody.
  assert (Hgen : forall todo done t s, I done t s ->
    wp (foldM body todo s) (fun t' s' => I (done ++ todo) (t ++ t') s')).
  { induction todo as [|a todo IH]; intros dn t s0 Hd; simpl.
    - by rewrite !app_nil_r.
    - change (bind ?f ?p) with (p ≫= f). rewrite wp_bind.
      eapply wp_mono; [|by eapply Hbody]. intros t' s' Hc; simpl.
      eapply wp_mono; [|exact (IH (dn ++ [a]) (t ++ t') s' Hc)]. intros t'' s''.
      by rewrite <- !app_assoc. }
  exact (Hgen l [] [] s HI).
Qed.

(** Symbolic execution of a handler up to its next call or branch. *)
Ltac wp_step :=
  lazymatch goal with
  | |- wp (Ret _) _ => apply wp_ret; cbv beta
  | |- wp (trigger _ ≫= _) _ => apply wp_trigger; intros ?; cbv beta
  end.

(** ** Programs whose requests all satisfy a predicate *)

Section Emits.
Context {E : Type -> Type} (P : event E -> Prop).

Definition emits {A} (p : prog E A) : Prop := wp p (fun t _ => Forall P t).

Lemma emits_ret {A} (a : A) : emits (Ret a).
Proof. apply wp_ret. constructor. Qed.

Lemma emits_seq {A B} (p : prog E A) (f : A -> prog E B) :
  emits p -> (forall a, emits (f a)) -> emits (p ≫= f).
Proof.
  intros Hp Hf. eapply wp_seq; [exact Hp|]. intros t a Ht. eapply wp_mono; [|apply Hf].
  intros t' b Ht'. apply Forall_app. by split.
Qed.

Lemma emits_trigger {X B} (e : E X) (f : X -> prog E B) :
  (forall x, P (Ev e x)) -> (forall x, emits (f x)) -> emits (trigger e ≫= f).
Proof.
  intros He Hf. apply wp_trigger. intros x. eapply wp_mono; [|apply Hf]. intros t b Ht. by constructor.
Qed.

Lemma emits_foldM {A S} (body : A -> S -> prog E S) (l : list A) s :
  (forall a s, emits (body a s)) -> emits (foldM body l s).
Proof.
  intros Hb. revert s. induction l as [|a l IH]; intros s; [apply emits_ret|].
  change (emits (body a s ≫= (fun s' => foldM body l s'))). apply emits_seq; [apply Hb|]. intros s'. apply IH.
Qed.

Lemma emits_forRange {A R S} (l : list A) (body : A -> S -> prog E (control R S)) s :
  (forall a s, emits (body a s)) -> emits (forRange l body s).
Proof.
  intros Hb. revert s. induction l as [|a l IH]; intros s; [apply emits_ret|].
  change (emits (body a s ≫= (fun c => match c with
                                       | Return r => Ret (Return r)
                                       | Continue s' => forRange l body s'
                                       end))).
  apply emits_seq; [apply Hb|]. intros [r|s']; [apply emits_ret|apply IH].
Qed.

End Emits.

(** Steps through a handler, proving what each request must satisfy by
    [done]. *)
Ltac emits_step :=
  cbv beta zeta;
  lazymatch goal with
  | |- emits _ (Ret _) => apply emits_ret
  | |- emits _ (trigger _ ≫= _) => apply emits_trigger; [done|intros ?; cbv beta]
  | |- emits _ (match ?x with _ => _ end) => destruct x
  | |- emits _ (forRange _ _ _) => apply emits_forRange; intros ? ?
  | |- emits _ (foldM _ _ _) => apply emits_foldM; intros ? ?
  | |- emits _ (_ ≫= _) => apply emits_seq; [|intros ?; cbv beta]
  end.
