(* ===== verification/Kube.v ===== *)
(** * Kubernetes objects, errors and requests

    The object types are those of [k8s.io/api], [gateway-api] and
    controller-runtime, restricted to the fields the operator reads, sets or
    overwrites, those the API server fills in among them; they are data only. A
    specification that the operator overwrites as a whole has a field for
    whatever else it holds ([..._SpecRest]), which the operator leaves empty. What the operator calls of those libraries and does not
    define itself is the class [KubeLib]; every request to the API server, a
    fleet pod or the clock is a constructor of [req].

    A nil map and an empty map are both [∅]: the operator distinguishes them
    nowhere but in allocating before a write. *)

From S2P Require Import Prelude Effects.

Local Open Scope Z_scope.

(** ** Errors *)

Inductive errKind := NotFound | Conflict | NoMatch | OtherError.

(** A Go [error]: one returned by the API client, one made by [fmt.Errorf], and
    [fmt.Errorf("...: %w", err)], which keeps its cause. *)
Inductive error :=
| APIError (k : errKind) (msg : string)
| Errorf (msg : string)
| Wrapf (msg : string) (cause : error).

Fixpoint errorKind (e : error) : option errKind :=
  match e with
  | APIError k _ => Some k
  | Errorf _ => None
  | Wrapf _ c => errorKind c
  end.

(** [err.Error()] *)
Fixpoint errorText (e : error) : string :=
  match e with
  | APIError _ m => m
  | Errorf m => m
  | Wrapf m c => m +:+ ": " +:+ errorText c
  end.

(** [apierrors.IsNotFound], [apierrors.IsConflict], [meta.IsNoMatchError] *)
Definition IsNotFound (e : error) : bool :=
  match errorKind e with Some NotFound => true | _ => false end.
Definition IsConflict (e : error) : bool :=
  match errorKind e with Some Conflict => true | _ => false end.
Definition IsNoMatchError (e : error) : bool :=
  match errorKind e with Some NoMatch => true | _ => false end.

(** [client.IgnoreNotFound(err)] *)
Definition IgnoreNotFound (e : error) : option error :=
  if IsNotFound e then None else Some e.

(** [%v] of an error value, which may be nil. *)
Definition errorV (e : option error) : string :=
  match e with None => "<nil>" | Some e => errorText e end.

(** ** Object metadata *)

Record OwnerReference := mkOwnerReference {
  owner_UID : string;
  owner_Controller : bool
}.

Record ObjectMeta := mkObjectMeta {
  meta_Name : string;
  meta_Namespace : string;
  meta_UID : string;
  meta_ResourceVersion : string;
  meta_Generation : Z;
  meta_DeletionTimestamp : option Z;
  meta_Labels : gmap string string;
  meta_Annotations : gmap string string;
  meta_OwnerReferences : list OwnerReference
}.

(** The metadata of an object the operator builds: everything the API server
    assigns is still empty. *)
Definition newMeta (name namespace : string) (labels annotations : gmap string string)
  : ObjectMeta :=
  mkObjectMeta name namespace "" "" 0 None labels annotations [].

Definition setAnnotations (m : ObjectMeta) (a : gmap string string) : ObjectMeta :=
  mkObjectMeta (meta_Name m) (meta_Namespace m) (meta_UID m) (meta_ResourceVersion m)
    (meta_Generation m) (meta_DeletionTimestamp m) (meta_Labels m) a (meta_OwnerReferences m).

Definition setLabels (m : ObjectMeta) (l : gmap string string) : ObjectMeta :=
  mkObjectMeta (meta_Name m) (meta_Namespace m) (meta_UID m) (meta_ResourceVersion m)
    (meta_Generation m) (meta_DeletionTimestamp m) l (meta_Annotations m)
    (meta_OwnerReferences m).

(** ** Pods *)

Record EnvVar := mkEnvVar {
  env_Name : string;
  env_Value : string;
  env_FieldPath : option string
}.

Inductive ProbeHandler := HTTPGet (path : string) (port : Z) | TCPSocket (port : Z).

Record Probe := mkProbe {
  probe_Handler : ProbeHandler;
  probe_PeriodSeconds : Z;
  probe_FailureThreshold : Z
}.

(** A [resource.Quantity], by how it was made. *)
Inductive Quantity := MustParse (s : string) | NewMilliQuantity (v : Z).

Record VolumeMount := mkVolumeMount {
  mount_Name : string;
  mount_Path : string;
  mount_ReadOnly : bool
}.

Inductive VolumeSource := EmptyDir | SecretVolume (secretName : string).
Record Volume := mkVolume { volume_Name : string; volume_Source : VolumeSource }.

Record ContainerPort := mkContainerPort { cport_Name : string; cport_Port : Z }.

Record SecurityContext := mkSecurityContext {
  sc_AllowPrivilegeEscalation : option bool;
  sc_ReadOnlyRootFilesystem : option bool;
  sc_Drop : list string
}.

Record Container := mkContainer {
  ctr_SecurityContext : option SecurityContext;
  ctr_StartupProbe : option Probe;
  ctr_Name : string;
  ctr_Image : string;
  ctr_Args : list string;
  ctr_Env : list EnvVar;
  ctr_EnvFrom : list string;
  ctr_Ports : list ContainerPort;
  ctr_ReadinessProbe : option Probe;
  ctr_LivenessProbe : option Probe;
  ctr_Requests : gmap string Quantity;
  ctr_Limits : gmap string Quantity;
  ctr_VolumeMounts : list VolumeMount
}.

Record PodSecurityContext := mkPodSecurityContext {
  psc_RunAsNonRoot : option bool;
  psc_RunAsUser : option Z;
  psc_RunAsGroup : option Z;
  psc_FSGroup : option Z;
  psc_SeccompProfile : string
}.

Record Toleration := mkToleration {
  tol_Key : string;
  tol_Operator : string;
  tol_Value : string;
  tol_Effect : string;
  tol_Seconds : option Z
}.

Record PodAffinityTerm := mkPodAffinityTerm {
  term_TopologyKey : string;
  term_MatchLabels : gmap string string
}.

Record TopologySpreadConstraint := mkTopologySpreadConstraint {
  spread_MaxSkew : Z;
  spread_TopologyKey : string;
  spread_WhenUnsatisfiable : string;
  spread_MatchLabels : gmap string string
}.

Record PodSpec := mkPodSpec {
  pod_AutomountServiceAccountToken : option bool;
  pod_SecurityContext : option PodSecurityContext;
  pod_NodeSelector : gmap string string;
  pod_Tolerations : list Toleration;
  pod_Affinity : option (list PodAffinityTerm);
  pod_ServiceAccountName : string;
  pod_TerminationGracePeriodSeconds : option Z;
  pod_Containers : list Container;
  pod_Volumes : list Volume;
  pod_TopologySpreadConstraints : list TopologySpreadConstraint
}.

Record PodTemplateSpec := mkPodTemplateSpec {
  tmpl_Labels : gmap string string;
  tmpl_Annotations : gmap string string;
  tmpl_Spec : PodSpec
}.

Record PodCondition := mkPodCondition { pcond_Type : string; pcond_Status : string }.

Record ContainerStatus := mkContainerStatus {
  cst_Name : string;
  cst_RestartCount : Z;
  cst_LastTerminatedExitCode : option Z
}.

Record Pod := mkPod {
  pod_Meta : ObjectMeta;
  pod_Spec : PodSpec;
  pod_PodIP : string;
  pod_Phase : string;
  pod_Conditions : list PodCondition;
  pod_ContainerStatuses : list ContainerStatus
}.

(** ** StatefulSets *)

Record StatefulSetUpdateStrategy := mkUpdateStrategy {
  us_Type : string;
  us_RollingUpdate : option (option Z)   (** the [Partition] pointer *)
}.

Record PersistentVolumeClaim := mkPersistentVolumeClaim {
  pvc_Name : string;
  pvc_AccessModes : list string;
  pvc_StorageClassName : option string;
  pvc_Storage : Quantity
}.

Record StatefulSetSpec := mkStatefulSetSpec {
  sts_VolumeClaimTemplates : list PersistentVolumeClaim;
  sts_RetentionPolicy : option (string * string);  (** when deleted, when scaled *)
  sts_ServiceName : string;
  sts_Replicas : option Z;
  sts_Selector : gmap string string;
  sts_Template : PodTemplateSpec;
  sts_UpdateStrategy : StatefulSetUpdateStrategy
}.

Record StatefulSetStatus := mkStatefulSetStatus {
  sts_ObservedGeneration : Z;
  sts_StatusReplicas : Z;
  sts_ReadyReplicas : Z;
  sts_UpdatedReplicas : Z;
  sts_UpdateRevision : string
}.

Record StatefulSet := mkStatefulSet {
  sts_Meta : ObjectMeta;
  sts_Spec : StatefulSetSpec;
  sts_Status : StatefulSetStatus
}.

Definition emptyStatus : StatefulSetStatus := mkStatefulSetStatus 0 0 0 0 "".

(** ** Other objects *)

Record Secret := mkSecret { secret_Meta : ObjectMeta; secret_Data : gmap string string }.

Record HorizontalPodAutoscaler := mkHPA { hpa_TargetKind : string; hpa_TargetName : string }.

(** The values of a [map[string]any], for the objects the operator links no Go
    types for. *)
Inductive any :=
| AString (s : string)
| AInt (z : Z)
| ABool (b : bool)
| AList (l : list any)
| AMap (m : list (string * any)).

Record Unstructured := mkUnstructured {
  u_APIVersion : string;
  u_Kind : string;
  u_Meta : ObjectMeta;
  u_Spec : any;
  u_StatusObject : any
}.

(** The rest of a specification: its other fields, by name, as they marshal. *)
Definition specRest : Type := list (string * string).

Record ServiceAccount := mkServiceAccount { sa_Meta : ObjectMeta }.

(** [intstr.IntOrString] *)
Inductive IntOrString := FromInt32 (v : Z) | FromString (s : string).

(** [corev1.ServicePort]. The API server stores an empty protocol as TCP. *)
Record ServicePort := mkServicePort {
  sport_Name : string;
  sport_Protocol : string;
  sport_AppProtocol : option string;
  sport_Port : Z;
  sport_TargetPort : IntOrString;
  sport_NodePort : Z
}.

Record Service := mkService {
  svc_Meta : ObjectMeta;
  svc_Type : string;
  svc_ClusterIP : string;
  svc_Selector : gmap string string;
  svc_PublishNotReadyAddresses : bool;
  svc_Ports : list ServicePort
}.

Record NetworkPolicyPeer := mkNetworkPolicyPeer {
  peer_PodSelector : option (gmap string string);
  peer_NamespaceSelector : option (gmap string string)
}.

Record NetworkPolicyPort := mkNetworkPolicyPort {
  npp_Protocol : option string;
  npp_Port : option IntOrString;
  npp_EndPort : option Z
}.

Record NetworkPolicyIngressRule := mkIngressRule {
  npr_Ports : list NetworkPolicyPort;
  npr_From : list NetworkPolicyPeer
}.

Record NetworkPolicy := mkNetworkPolicy {
  np_Meta : ObjectMeta;
  np_PodSelector : gmap string string;
  np_PolicyTypes : list string;
  np_Ingress : list NetworkPolicyIngressRule;
  np_SpecRest : specRest
}.

Record PodDisruptionBudget := mkPodDisruptionBudget {
  pdb_Meta : ObjectMeta;
  pdb_MaxUnavailable : option IntOrString;
  pdb_Selector : gmap string string
}.

Record IngressRule := mkHostRule {
  rule_Host : string;
  rule_Path : string;
  rule_PathType : string;
  rule_ServiceName : string;
  rule_ServicePort : Z
}.

Record IngressTLS := mkIngressTLS { tls_Hosts : list string; tls_SecretName : string }.

Record Ingress := mkIngress {
  ing_Meta : ObjectMeta;
  ing_Rules : list IngressRule;
  ing_ClassName : option string;
  ing_TLS : list IngressTLS;
  ing_SpecRest : specRest
}.

(** [gatewayv1.ParentReference]. The API server fills in an absent group and
    kind (those of a Gateway). *)
Record ParentReference := mkParentReference {
  parent_Group : option string;
  parent_Kind : option string;
  parent_Name : string;
  parent_Namespace : option string
}.

Record HTTPRouteRetry := mkHTTPRouteRetry { retry_Codes : list Z; retry_Attempts : option Z }.

(** [gatewayv1.HTTPRouteMatch], by its path: type and value. *)
Record HTTPRouteMatch := mkHTTPRouteMatch { match_PathType : string; match_PathValue : string }.

(** [gatewayv1.HTTPBackendRef]. The API server fills in an absent group, kind
    and weight. *)
Record HTTPBackendRef := mkHTTPBackendRef {
  backend_Group : option string;
  backend_Kind : option string;
  backend_Name : string;
  backend_Port : option Z;
  backend_Weight : option Z
}.

(** [gatewayv1.HTTPRouteRule]. The API server fills in absent matches: the path
    prefix [/]. *)
Record HTTPRouteRule := mkHTTPRouteRule {
  hrule_Matches : list HTTPRouteMatch;
  hrule_BackendRefs : list HTTPBackendRef;
  hrule_Retry : option HTTPRouteRetry;
  hrule_RequestTimeout : option string
}.

(** [metav1.Condition], less the transition time the API helpers keep. *)
Record Condition := mkCondition {
  cond_Type : string;
  cond_Status : string;
  cond_Reason : string;
  cond_Message : string;
  cond_ObservedGeneration : Z
}.

Record RouteParentStatus := mkRouteParentStatus {
  rps_ParentRef : ParentReference;
  rps_Conditions : list Condition
}.

Record HTTPRoute := mkHTTPRoute {
  route_Meta : ObjectMeta;
  route_ParentRefs : list ParentReference;
  route_Hostnames : list string;
  route_Rules : list HTTPRouteRule;
  route_SpecRest : specRest;
  route_StatusParents : list RouteParentStatus
}.

Record Gateway := mkGateway { gw_Meta : ObjectMeta; gw_Conditions : list Condition }.
