(* ===== verification/Api.v ===== *)
(** * The WorkerApp API ([api/v1alpha1/workerapp_types.go])

    Go's string-typed enumerations stay strings: an object admitted by an older
    CRD may carry any value, and the reconciler validates it itself. A pointer
    field is an [option]; a nil slice is the empty list. *)

From S2P Require Import Prelude Kube.

Local Open Scope Z_scope.

(** [type UpdateStrategy string] *)
Definition UpdateStrategyRolling : string := "Rolling".
Definition UpdateStrategyRecreate : string := "Recreate".

Record CelldSpec := mkCelldSpec {
  celld_Image : string;
  celld_UpdateStrategy : string
}.

Record BucketCredentials := mkBucketCredentials {
  creds_IAMRole : string;
  creds_SecretRef : string;
  creds_AzureClientID : string
}.

Record BucketSpec := mkBucketSpec {
  bucket_Name : string;
  bucket_Endpoint : string;
  bucket_StorageAccount : string;
  bucket_Region : string;
  bucket_CredentialsFrom : BucketCredentials
}.

Record ResourcesSpec := mkResourcesSpec {
  res_CPUMillis : Z;
  res_EphemeralStorageGi : Z;
  res_MemoryGi : Z;
  res_MaxResidentCells : Z
}.

Record VarsSpec := mkVarsSpec { vars_SecretRef : string }.

Record ServiceSpec := mkServiceSpec {
  service_Type : string;
  service_Annotations : gmap string string
}.

Record AutoscalingTargets := mkAutoscalingTargets {
  targets_ResidentCellUtilization : option Z;
  targets_P95LatencyMs : option Z
}.

Record AutoscalingSpec := mkAutoscalingSpec {
  as_Enabled : bool;
  as_MinReplicas : Z;
  as_MaxReplicas : Z;
  as_Targets : AutoscalingTargets
}.

(** [type TelemetrySink string] *)
Definition TelemetrySinkBucket : string := "bucket".
Definition TelemetrySinkOTLP : string := "otlp".

Record TelemetrySpec := mkTelemetrySpec {
  tel_Enabled : option bool;
  tel_Sink : string;
  tel_OTLPEndpoint : string;
  tel_Retention : string
}.

(** [func (t *TelemetrySpec) ResolvedSink() TelemetrySink] *)
Definition ResolvedSink (t : TelemetrySpec) : string :=
  if String.eqb (tel_Sink t) TelemetrySinkOTLP
     || (is_empty (tel_Sink t) && negb (is_empty (tel_OTLPEndpoint t)))
  then TelemetrySinkOTLP else TelemetrySinkBucket.

(** [type Durability string] *)
Definition DurabilityFleet : string := "fleet".
Definition DurabilityBucket : string := "bucket".

Record StorageSpec := mkStorageSpec {
  storage_SizeGi : Z;
  storage_ClassName : option string
}.

Record SchedulingSpec := mkSchedulingSpec {
  sched_NodeSelector : gmap string string;
  sched_Tolerations : list Toleration;
  sched_SpreadAcrossZones : bool
}.

Record WorkerAppSpec := mkWorkerAppSpec {
  spec_DeployTrackingSecretRef : string;
  spec_DeploymentPolicy : string;
  spec_ClusterDomain : string;
  spec_Storage : option StorageSpec;
  spec_Scheduling : SchedulingSpec;
  spec_Hostnames : list string;
  spec_AppVersion : string;
  spec_Celld : CelldSpec;
  spec_Replicas : option Z;
  spec_Bucket : BucketSpec;
  spec_Resources : ResourcesSpec;
  spec_Service : ServiceSpec;
  spec_Vars : option VarsSpec;
  spec_WebSockets : bool;
  spec_Autoscaling : option AutoscalingSpec;
  spec_Telemetry : TelemetrySpec;
  spec_Durability : string;
  spec_TrustForwardedHeaders : bool
}.

(** [type WorkerAppPhase string] *)
Definition PhasePending : string := "Pending".
Definition PhaseReady : string := "Ready".
Definition PhaseRollingOut : string := "RollingOut".
Definition PhaseRecreating : string := "Recreating".
Definition PhaseDegraded : string := "Degraded".

Record RolloutStatus := mkRolloutStatus {
  rollout_Partition : Z;
  rollout_WaitingOn : string
}.

Record FleetStatus := mkFleetStatus {
  fleet_Ready : Z;
  fleet_Restoring : Z
}.

Record PodDeployment := mkPodDeployment {
  pd_Name : string;
  pd_Version : string;
  pd_Generation : Z;
  pd_Draining : Z;
  pd_Swapping : Z
}.

Record WorkerAppStatus := mkWorkerAppStatus {
  status_ExpectedAppVersion : string;
  status_Deployments : list PodDeployment;
  status_Phase : string;
  status_RolledOutAppVersion : string;
  status_Rollout : RolloutStatus;
  status_Fleet : FleetStatus;
  status_Conditions : list Condition
}.

Record WorkerApp := mkWorkerApp {
  app_Meta : ObjectMeta;
  app_Spec : WorkerAppSpec;
  app_Status : WorkerAppStatus
}.

Abbreviation app_Name a := (meta_Name (app_Meta a)).
Abbreviation app_Namespace a := (meta_Namespace (app_Meta a)).
