(* ===== verification/Cluster.v ===== *)
(** * The operator's view of the outside world

    [KubeLib] is the code the operator links but does not contain; [req] are
    the requests it makes. Neither is given a definition: theorems hold for
    every [KubeLib] and for every sequence of answers. *)

From S2P Require Import Prelude Effects Kube Api.

Local Open Scope Z_scope.

(** What the operator reads of the result of [url.Parse]: [parsed_Hostname] is
    [Hostname()], [parsed_User] whether there is user information. *)
Record parsedURL := mkParsedURL {
  parsed_Scheme : string;
  parsed_Hostname : string;
  parsed_User : bool;
  parsed_RawQuery : string;
  parsed_Fragment : string
}.

(** Third-party functions, as parameters of the model; [url.Parse] and the
    quoting of [%q] are among them, since what they accept and escape changes
    between releases of Go. *)
Class KubeLib := {
  (** [metav1.IsControlledBy(obj, owner)] *)
  IsControlledBy : ObjectMeta -> ObjectMeta -> bool;
  (** [ctrl.SetControllerReference(owner, controlled, scheme)]: the controlled
      object's metadata with the owner reference, or an error. *)
  SetControllerReference : ObjectMeta -> ObjectMeta -> error + ObjectMeta;
  (** [json.Marshal] of a [corev1.PodTemplateSpec] *)
  marshalPodTemplate : PodTemplateSpec -> error + string;
  (** [validation.IsDNS1123Label], [validation.IsDNS1123Subdomain] and
      [validation.IsWildcardDNS1123Subdomain] report no complaint. *)
  IsDNS1123Label : string -> bool;
  IsDNS1123Subdomain : string -> bool;
  IsWildcardDNS1123Subdomain : string -> bool;
  (** [url.Parse], [None] on an error, and [strconv.Quote] *)
  urlParse : string -> option parsedURL;
  Quote : string -> string;
  (** [meta.SetStatusCondition] and [meta.RemoveStatusCondition] *)
  SetStatusCondition : list Condition -> Condition -> list Condition;
  RemoveStatusCondition : list Condition -> string -> list Condition
}.

(** Reads through the informer cache ([r.Get]) and uncached ([r.Reader]). *)
Inductive source := Cached | Live.

Inductive kind :=
| KStatefulSet | KPod | KSecret | KUnstructured | KServiceAccount | KService
| KNetworkPolicy | KPodDisruptionBudget | KIngress | KHTTPRoute | KGateway | KWorkerApp.

Definition obj (k : kind) : Type :=
  match k with
  | KStatefulSet => StatefulSet
  | KPod => Pod
  | KSecret => Secret
  | KUnstructured => Unstructured
  | KServiceAccount => ServiceAccount
  | KService => Service
  | KNetworkPolicy => NetworkPolicy
  | KPodDisruptionBudget => PodDisruptionBudget
  | KIngress => Ingress
  | KHTTPRoute => HTTPRoute
  | KGateway => Gateway
  | KWorkerApp => WorkerApp
  end.

(** What a [GET] on a fleet pod answers once the connection is made: a status
    code, and the body or the error that broke it off. *)
Record httpResponse := mkHttpResponse { http_Status : Z; http_Body : error + string }.

(** What the S3 client is configured with and asked for: the path style goes
    with a custom endpoint. *)
Record objectRequest := mkObjectRequest {
  or_Region : string;
  or_Endpoint : string;
  or_AccessKeyID : string;
  or_SecretAccessKey : string;
  or_SessionToken : string;
  or_Bucket : string;
  or_Key : string
}.

Inductive req : Type -> Type :=
(** [time.Now()] *)
| Now : req Z
(** Reads. [gvk] tells unstructured kinds apart and is empty otherwise. *)
| Get (src : source) (k : kind) (gvk namespace name : string) : req (error + obj k)
| ListPods (src : source) (namespace : string) (labels : gmap string string)
    : req (error + list Pod)
| ListHPAs (namespace : string) : req (error + list HorizontalPodAutoscaler)
(** Writes answer with the object as the API server stored it, which the client
    decodes into the caller's object. *)
| Create (k : kind) (o : obj k) : req (error + obj k)
| Update (k : kind) (o : obj k) : req (error + obj k)
| Delete (k : kind) (o : obj k) (uid resourceVersion : string) : req (option error)
| StatusUpdate (app : WorkerApp) : req (error + WorkerApp)
(** [http.Client.Do] of a [GET]. *)
| HttpGet (url : string) : req (error + httpResponse)
(** An order Go leaves open: iteration over a map, or the order in which
    goroutines enter a critical section. *)
| Order {A : Type} (l : list A) : req {l' : list A | l' ≡ₚ l}
(** [s3.Client.GetObject]: an error, or the error or the bytes its body reads. *)
| GetObject (input : objectRequest) : req (error + (error + string))
(** [client.List] of every WorkerApp the manager watches. *)
| ListApps : req (error + list WorkerApp).

(** ** What a trace wrote *)

Abbreviation M := (prog req).
Abbreviation tr := (trace req).

(** The StatefulSet a request writes, if it writes one. *)
Definition stsWrite (ev : event req) : option StatefulSet :=
  match ev_req ev with
  | Create KStatefulSet o => Some o
  | Update KStatefulSet o => Some o
  | _ => None
  end.

(** The StatefulSet a request overwrites. *)
Definition stsUpdate (ev : event req) : option StatefulSet :=
  match ev_req ev with
  | Update KStatefulSet o => Some o
  | _ => None
  end.

Definition stsWrites (t : tr) : list StatefulSet := omap stsWrite t.
Definition stsUpdates (t : tr) : list StatefulSet := omap stsUpdate t.

#[export] Instance kind_eq_dec : EqDecision kind.
Proof. solve_decision. Defined.

(** The object of kind [k] that a request updates, and the answer to a read of
    an object of kind [k]. *)
Definition objUpdate (k : kind) (ev : event req) : option (obj k) :=
  match ev_req ev with
  | Update k' o => match kind_eq_dec k' k with
                   | left e => Some (eq_rect k' obj o k e)
                   | right _ => None
                   end
  | _ => None
  end.

Definition objAnswer (k : kind) (ev : event req) : option (error + obj k) :=
  (match ev_req ev in req X return X -> option (error + obj k) with
   | Get _ k' _ _ _ => fun got => match kind_eq_dec k' k with
                                  | left e => Some (eq_rect k' (fun k => (error + obj k)%type) got k e)
                                  | right _ => None
                                  end
   | _ => fun _ => None
   end) (ev_resp ev).

(** Whether a request changes the cluster. *)
Definition mutates (ev : event req) : bool :=
  match ev_req ev with
  | Create _ _ | Update _ _ | Delete _ _ _ _ | StatusUpdate _ => true
  | _ => false
  end.

Definition readOnly (t : tr) : Prop := Forall (fun ev => mutates ev = false) t.

Lemma objUpdate_same k o x : objUpdate k (Ev (Update k o) x) = Some o.
Proof. by destruct k. Qed.

Lemma objAnswer_same k src gvk ns n got : objAnswer k (Ev (Get src k gvk ns n) got) = Some got.
Proof. by destruct k. Qed.

Lemma stsWrites_app t1 t2 : stsWrites (t1 ++ t2) = stsWrites t1 ++ stsWrites t2.
Proof. apply omap_app. Qed.

Lemma stsUpdates_app t1 t2 : stsUpdates (t1 ++ t2) = stsUpdates t1 ++ stsUpdates t2.
Proof. apply omap_app. Qed.

Lemma readOnly_app t1 t2 : readOnly (t1 ++ t2) <-> readOnly t1 /\ readOnly t2.
Proof. apply Forall_app. Qed.

Lemma readOnly_stsWrites t : readOnly t -> stsWrites t = [].
Proof.
  induction 1 as [|[X e x] t He _ IH]; [done|].
  destruct e; try discriminate He; exact IH.
Qed.

Lemma stsUpdates_writes t s : s ∈ stsUpdates t -> s ∈ stsWrites t.
Proof.
  unfold stsUpdates, stsWrites. rewrite !list_elem_of_omap.
  intros (ev & Hev & H). exists ev. split; [done|].
  destruct ev as [X e x]. unfold stsUpdate, stsWrite in *. simpl in *.
  destruct e as [| | | |[] ?|[] ?| | | | | |]; done.
Qed.

#[export] Hint Resolve readOnly_stsWrites : celld.
#[export] Hint Rewrite stsWrites_app stsUpdates_app : celld_rw.
