(* ===== verification/Resources.v ===== *)
(** * Builders for everything one fleet reconciles to
      ([internal/controller/fleet_resources.go])

    Every [build...] function of the file, as the object it returns. *)

From S2P Require Import Prelude GoStrings GoTime Sha256 Versions Kube Api Cluster.

Local Open Scope Z_scope.

(** ** Constants *)

Definition celldContainerName : string := "celld".
Definition watchVolumeName : string := "watch".
Definition varsVolumeName : string := "vars".
Definition annotationTrue : string := "true".
Definition iamRoleAuto : string := "auto".
Definition defaultBucketRegion : string := "auto".
Definition workerAppLabel : string := "celld-operator.io/workerapp".
Definition appVersionAnnotation : string := "celld-operator.io/app-version".
Definition templateHashAnnotation : string := "celld-operator.io/template-hash".
Definition kedaPausedAnnotation : string := "autoscaling.keda.sh/paused".
Definition publicPort : Z := 8080.
Definition internalPort : Z := 8081.
Definition healthPath : string := "/.well-known/celld/health".
Definition shutdownTotalMs : Z := 40000.
Definition terminationGraceS : Z := 60.
Definition watchDir : string := "/var/lib/celld".
Definition varsDir : string := "/etc/celld/vars".
Definition varsKey : string := "vars.env".
Definition configHashAnnotation : string := "celld-operator.io/config-hash".
Definition azureWorkloadIdentityUseLabel : string := "azure.workload.identity/use".
Definition azureClientIDAnnotation : string := "azure.workload.identity/client-id".

(** ** Names, labels and defaults *)

Definition isAzureBucket (app : WorkerApp) : bool :=
  HasPrefix "az://" (bucket_Name (spec_Bucket (app_Spec app))).

Definition fleetName (app : WorkerApp) : string := app_Name app +:+ "-celld".

Definition internalServiceName (app : WorkerApp) : string := app_Name app +:+ "-celld-internal".

Definition fleetLabels (app : WorkerApp) : gmap string string :=
  {[ workerAppLabel := app_Name app;
     "app.kubernetes.io/name" := celldContainerName;
     "app.kubernetes.io/instance" := app_Name app ]}.

Definition selectorLabels (app : WorkerApp) : gmap string string :=
  {[ workerAppLabel := app_Name app ]}.

Definition desiredReplicas (app : WorkerApp) : Z :=
  match spec_Replicas (app_Spec app) with Some r => r | None => 3 end.

Definition memoryGi (app : WorkerApp) : Z :=
  let m := res_MemoryGi (spec_Resources (app_Spec app)) in
  if 0 <? m then m else 8.

Definition maxResidentCells (app : WorkerApp) : Z :=
  let m := res_MaxResidentCells (spec_Resources (app_Spec app)) in
  if 0 <? m then m else 1000.

Definition clusterDomain (app : WorkerApp) : string :=
  if negb (is_empty (spec_ClusterDomain (app_Spec app)))
  then spec_ClusterDomain (app_Spec app) else "cluster.local".

Definition defaultPositive (value fallback : Z) : Z :=
  if 0 <? value then value else fallback.

Definition fleetAffinity (app : WorkerApp) : option (list PodAffinityTerm) :=
  match spec_Storage (app_Spec app) with
  | None => None
  | Some _ =>
      let keys := ["kubernetes.io/hostname"] ++
        (if sched_SpreadAcrossZones (spec_Scheduling (app_Spec app))
         then ["topology.kubernetes.io/zone"] else []) in
      Some (map (fun key => mkPodAffinityTerm key (selectorLabels app)) keys)
  end.

Definition fleetClaims (app : WorkerApp) : list PersistentVolumeClaim :=
  match spec_Storage (app_Spec app) with
  | None => []
  | Some st =>
      [mkPersistentVolumeClaim watchVolumeName ["ReadWriteOnce"] (storage_ClassName st)
         (MustParse (pretty (storage_SizeGi st) +:+ "Gi"))]
  end.

(** ** The pod template *)

Definition plainEnv (name value : string) : EnvVar := mkEnvVar name value None.

(** The explicit shed threshold, [int64(memGi) * 1024 * 4 / 5] (truncating
    division at 64 bits). *)
Definition rssMb (memGi : Z) : Z :=
  Z.quot (wrap64 (wrap64 (memGi * 1024) * 4)) 5.

(** The durability the template asks for: bucket unless the CR says otherwise. *)
Definition resolvedDurability (app : WorkerApp) : string :=
  let d := spec_Durability (app_Spec app) in
  if is_empty d then DurabilityBucket else d.

Definition legacyTelemetry (app : WorkerApp) : bool :=
  match minorOf (celld_Image (spec_Celld (app_Spec app))) with
  | Some version => cmp version (MinorVersion 0 5) <? 0
  | None => false
  end.

(** The telemetry block of the environment. *)
Definition telemetryEnv (app : WorkerApp) : list EnvVar :=
  let tel := spec_Telemetry (app_Spec app) in
  let telemetryOn := match tel_Enabled tel with None => true | Some b => b end in
  let otlp := String.eqb (ResolvedSink tel) TelemetrySinkOTLP in
  if telemetryOn then
    let otelValue :=
      if otlp && negb (legacyTelemetry app) then
        if is_empty (tel_OTLPEndpoint tel) then "http://localhost:4318" else tel_OTLPEndpoint tel
      else "1" in
    [plainEnv "CELLD_OTEL" otelValue; plainEnv "OTEL_SERVICE_NAME" (app_Name app)] ++
    (if otlp then
       (if legacyTelemetry app then [plainEnv "CELLD_OTEL_SINK" "otlp"] else []) ++
       (if legacyTelemetry app && negb (is_empty (tel_OTLPEndpoint tel))
        then [plainEnv "OTEL_EXPORTER_OTLP_ENDPOINT" (tel_OTLPEndpoint tel)] else [])
     else if negb (is_empty (tel_Retention tel))
          then [plainEnv "CELLD_OTEL_RETENTION" (tel_Retention tel)] else [])
  else [plainEnv "CELLD_OTEL" "0"].

(** The variables every fleet gets. *)
Definition baseEnv (app : WorkerApp) : list EnvVar :=
  [plainEnv "HOME" "/tmp";
   mkEnvVar "POD_NAME" "" (Some "metadata.name");
   plainEnv "CELLD_BUCKET" (bucket_Name (spec_Bucket (app_Spec app)));
   plainEnv "CELLD_INTERNAL_ADDR" ("0.0.0.0:" +:+ pretty internalPort);
   plainEnv "CELLD_ADVERTISE"
     ("$(POD_NAME)." +:+ internalServiceName app +:+ "." +:+ app_Namespace app +:+ ".svc." +:+
      clusterDomain app +:+ ":" +:+ pretty internalPort);
   plainEnv "CELLD_WATCH" watchDir;
   plainEnv "CELLD_SHUTDOWN_TOTAL_MS" (pretty shutdownTotalMs);
   plainEnv "CELLD_MAX_RESIDENT_CELLS" (pretty (maxResidentCells app));
   plainEnv "CELLD_MAX_RSS_MB" (pretty (rssMb (memoryGi app)))].

(** The optional bucket variables. *)
Definition bucketEnv (app : WorkerApp) : list EnvVar :=
  let bucket := spec_Bucket (app_Spec app) in
  (if negb (is_empty (bucket_Endpoint bucket))
   then [plainEnv "S3_ENDPOINT" (bucket_Endpoint bucket)] else []) ++
  (if negb (is_empty (bucket_Region bucket))
   then [plainEnv "AWS_REGION" (bucket_Region bucket)] else []) ++
  (if isAzureBucket app && negb (is_empty (bucket_StorageAccount bucket))
   then [plainEnv "AZURE_STORAGE_ACCOUNT_NAME" (bucket_StorageAccount bucket)] else []).

(** The container environment, in the order it is appended. *)
Definition containerEnv (app : WorkerApp) : list EnvVar :=
  baseEnv app ++ bucketEnv app ++
  (if negb (is_empty (resolvedDurability app))
   then [plainEnv "CELLD_DURABILITY" (resolvedDurability app)] else []) ++
  (if spec_TrustForwardedHeaders (app_Spec app)
   then [plainEnv "CELLD_TRUST_FORWARDED_HEADERS" "1"] else []) ++
  telemetryEnv app ++
  (match spec_Vars (app_Spec app) with
   | Some _ => [plainEnv "CELLD_VARS_FILE" (varsDir +:+ "/" +:+ varsKey)]
   | None => []
   end).

(** The watch volume is an emptyDir unless a claim provides it. *)
Definition podVolumes (app : WorkerApp) : list Volume :=
  let volumes := [mkVolume watchVolumeName EmptyDir] ++
    (match spec_Vars (app_Spec app) with
     | Some v => [mkVolume varsVolumeName (SecretVolume (vars_SecretRef v))]
     | None => []
     end) in
  (match spec_Storage (app_Spec app) with Some _ => tail volumes | None => volumes end) ++
  [mkVolume "tmp" EmptyDir].

Definition podMounts (app : WorkerApp) : list VolumeMount :=
  [mkVolumeMount watchVolumeName watchDir false] ++
  (match spec_Vars (app_Spec app) with
   | Some _ => [mkVolumeMount varsVolumeName varsDir true]
   | None => []
   end) ++
  [mkVolumeMount "tmp" "/tmp" false].

Definition gib (n : Z) : Quantity := MustParse (pretty n +:+ "Gi").

Definition celldContainer (app : WorkerApp) : Container :=
  let secretRef := creds_SecretRef (bucket_CredentialsFrom (spec_Bucket (app_Spec app))) in
  {| ctr_SecurityContext := Some (mkSecurityContext (Some false) (Some true) ["ALL"]);
     ctr_StartupProbe := Some (mkProbe (TCPSocket publicPort) 5 120);
     ctr_Name := celldContainerName;
     ctr_Image := celld_Image (spec_Celld (app_Spec app));
     ctr_Args := ["--bucket"; bucket_Name (spec_Bucket (app_Spec app));
                  "--listen"; "0.0.0.0:" +:+ pretty publicPort];
     ctr_Env := containerEnv app;
     ctr_EnvFrom := if is_empty secretRef then [] else [secretRef];
     ctr_Ports := [mkContainerPort "public" publicPort; mkContainerPort "internal" internalPort];
     ctr_ReadinessProbe := Some (mkProbe (HTTPGet healthPath publicPort) 5 3);
     ctr_LivenessProbe := Some (mkProbe (TCPSocket publicPort) 20 3);
     ctr_Requests :=
       {[ "cpu" := NewMilliQuantity (defaultPositive (res_CPUMillis (spec_Resources (app_Spec app))) 500);
          "memory" := gib (memoryGi app) ]};
     ctr_Limits :=
       {[ "ephemeral-storage" :=
            gib (defaultPositive (res_EphemeralStorageGi (spec_Resources (app_Spec app))) 10);
          "memory" := gib (memoryGi app) ]};
     ctr_VolumeMounts := podMounts app |}.

Definition podAnnotations (app : WorkerApp) (configHash appVersion : string) : gmap string string :=
  let annotations : gmap string string :=
    if negb (is_empty appVersion)
       && negb (String.eqb (spec_DeploymentPolicy (app_Spec app)) "InPlace")
    then {[ appVersionAnnotation := appVersion ]} else ∅ in
  if negb (is_empty configHash)
  then <[configHashAnnotation := configHash]> annotations else annotations.

Definition podLabels (app : WorkerApp) : gmap string string :=
  if negb (is_empty (creds_AzureClientID (bucket_CredentialsFrom (spec_Bucket (app_Spec app)))))
  then <[azureWorkloadIdentityUseLabel := annotationTrue]> (fleetLabels app)
  else fleetLabels app.

(** The [Spec] of the template. *)
Definition podSpec (app : WorkerApp) : PodSpec :=
  {| pod_AutomountServiceAccountToken := Some false;
     pod_SecurityContext :=
       Some (mkPodSecurityContext (Some true) (Some 10001) (Some 10001) (Some 10001) "RuntimeDefault");
     pod_NodeSelector := sched_NodeSelector (spec_Scheduling (app_Spec app));
     pod_Tolerations := sched_Tolerations (spec_Scheduling (app_Spec app));
     pod_Affinity := fleetAffinity app;
     pod_ServiceAccountName := fleetName app;
     pod_TerminationGracePeriodSeconds := Some terminationGraceS;
     pod_Containers := [celldContainer app];
     pod_Volumes := podVolumes app;
     pod_TopologySpreadConstraints :=
       [mkTopologySpreadConstraint 1 "kubernetes.io/hostname" "ScheduleAnyway"
          (selectorLabels app)] |}.

(** [func buildPodTemplate(app, configHash, appVersion)] *)
Definition buildPodTemplate (app : WorkerApp) (configHash appVersion : string) : PodTemplateSpec :=
  {| tmpl_Labels := podLabels app;
     tmpl_Annotations := podAnnotations app configHash appVersion;
     tmpl_Spec := podSpec app |}.

(** [func templateHash(t corev1.PodTemplateSpec) string] *)
Definition templateHash `{KubeLib} (t : PodTemplateSpec) : string :=
  match marshalPodTemplate t with
  | inl _ => "marshal-error"
  | inr raw => EncodeToString (firstn 8 (Sum256 raw))
  end.

(** [func buildStatefulSet(app, configHash, appVersion)] *)
Definition buildStatefulSet `{KubeLib} (app : WorkerApp) (configHash appVersion : string)
  : StatefulSet :=
  let template := buildPodTemplate app configHash appVersion in
  {| sts_Meta := newMeta (fleetName app) (app_Namespace app) (fleetLabels app)
                   {[ templateHashAnnotation := templateHash template ]};
     sts_Spec :=
       {| sts_VolumeClaimTemplates := fleetClaims app;
          sts_RetentionPolicy := Some ("Retain", "Retain");
          sts_ServiceName := internalServiceName app;
          sts_Replicas := Some (desiredReplicas app);
          sts_Selector := selectorLabels app;
          sts_Template := template;
          sts_UpdateStrategy := mkUpdateStrategy "RollingUpdate" (Some (Some 0)) |};
     sts_Status := emptyStatus |}.

(** ** Services, identity and policy *)

Definition buildInternalService (app : WorkerApp) : Service :=
  {| svc_Meta := newMeta (internalServiceName app) (app_Namespace app) (fleetLabels app) ∅;
     svc_Type := "";
     svc_ClusterIP := "None";
     svc_Selector := selectorLabels app;
     svc_PublishNotReadyAddresses := true;
     svc_Ports := [mkServicePort "internal" "" None internalPort (FromInt32 internalPort) 0] |}.

Definition buildPublicService (app : WorkerApp) : Service :=
  let serviceType := service_Type (spec_Service (app_Spec app)) in
  {| svc_Meta := newMeta (fleetName app) (app_Namespace app) (fleetLabels app)
                   (service_Annotations (spec_Service (app_Spec app)));
     svc_Type := if is_empty serviceType then "ClusterIP" else serviceType;
     svc_ClusterIP := "";
     svc_Selector := selectorLabels app;
     svc_PublishNotReadyAddresses := false;
     svc_Ports := [mkServicePort "public" "" None publicPort (FromInt32 publicPort) 0] |}.

Definition buildServiceAccount (app : WorkerApp) : ServiceAccount :=
  let creds := bucket_CredentialsFrom (spec_Bucket (app_Spec app)) in
  let annotations : gmap string string :=
    if negb (is_empty (creds_IAMRole creds)) && negb (String.eqb (creds_IAMRole creds) iamRoleAuto)
    then {[ "eks.amazonaws.com/role-arn" := creds_IAMRole creds ]} else ∅ in
  let annotations :=
    if negb (is_empty (creds_AzureClientID creds))
    then <[azureClientIDAnnotation := creds_AzureClientID creds]> annotations else annotations in
  mkServiceAccount (newMeta (fleetName app) (app_Namespace app) (fleetLabels app) annotations).

Definition buildNetworkPolicy (app : WorkerApp) (operatorNamespace : string) : NetworkPolicy :=
  {| np_Meta := newMeta (fleetName app) (app_Namespace app) (fleetLabels app) ∅;
     np_PodSelector := selectorLabels app;
     np_PolicyTypes := ["Ingress"];
     np_Ingress :=
       [ {| npr_Ports := [mkNetworkPolicyPort (Some "TCP") (Some (FromInt32 internalPort)) None];
            npr_From :=
              [ mkNetworkPolicyPeer (Some (selectorLabels app)) None;
                mkNetworkPolicyPeer
                  (Some {[ "control-plane" := "controller-manager";
                           "app.kubernetes.io/name" := "celld-operator" ]})
                  (Some {[ "kubernetes.io/metadata.name" := operatorNamespace ]}) ] |};
         {| npr_Ports := [mkNetworkPolicyPort (Some "TCP") (Some (FromInt32 publicPort)) None];
            npr_From := [] |} ];
     np_SpecRest := [] |}.

Definition buildPDB (app : WorkerApp) : PodDisruptionBudget :=
  {| pdb_Meta := newMeta (fleetName app) (app_Namespace app) (fleetLabels app) ∅;
     pdb_MaxUnavailable := Some (FromInt32 1);
     pdb_Selector := selectorLabels app |}.

(** ** Routes *)

Definition buildHTTPRoute (app : WorkerApp) (gatewayName gatewayNamespace : string) : HTTPRoute :=
  let rule :=
    {| hrule_Matches := [];
       hrule_BackendRefs := [mkHTTPBackendRef None None (fleetName app) (Some publicPort) None];
       hrule_Retry := Some (mkHTTPRouteRetry [503] (Some 2));
       hrule_RequestTimeout := if spec_WebSockets (app_Spec app) then Some "0s" else None |} in
  {| route_Meta := newMeta (fleetName app) (app_Namespace app) (fleetLabels app) ∅;
     route_ParentRefs := [mkParentReference None None gatewayName (Some gatewayNamespace)];
     route_Hostnames := spec_Hostnames (app_Spec app);
     route_Rules := [rule];
     route_SpecRest := [];
     route_StatusParents := [] |}.

Definition buildIngress (app : WorkerApp) (className clusterIssuer : string) : Ingress :=
  let hosts := spec_Hostnames (app_Spec app) in
  let annotations : gmap string string :=
    {[ "nginx.ingress.kubernetes.io/proxy-next-upstream" := "error timeout http_503";
       "nginx.ingress.kubernetes.io/proxy-next-upstream-tries" := "3" ]} in
  let annotations :=
    if spec_WebSockets (app_Spec app)
    then <["nginx.ingress.kubernetes.io/proxy-send-timeout" := "3600"]>
           (<["nginx.ingress.kubernetes.io/proxy-read-timeout" := "3600"]> annotations)
    else annotations in
  let annotations :=
    if negb (is_empty clusterIssuer)
    then <["cert-manager.io/cluster-issuer" := clusterIssuer]> annotations else annotations in
  {| ing_Meta := newMeta (fleetName app) (app_Namespace app) (fleetLabels app) annotations;
     ing_Rules := map (fun host => mkHostRule host "/" "Prefix" (fleetName app) publicPort) hosts;
     ing_ClassName := if negb (is_empty className) then Some className else None;
     ing_TLS := if negb (is_empty clusterIssuer)
                then [mkIngressTLS hosts (fleetName app +:+ "-tls")] else [];
     ing_SpecRest := [] |}.

(** ** Unstructured objects *)

(** [toAnyMap]: a fresh [map[string]any] with the same entries. *)
Definition toAnyMap (m : gmap string string) : gmap string any := AString <$> m.

Definition anyString (a : any) : option string :=
  match a with AString s => Some s | _ => None end.

Definition anyMap (m : gmap string any) : any := AMap (map_to_list m).

(** [newUnstructuredObject]: [GetLabels] and [GetAnnotations] read the string
    entries of the metadata maps. *)
Definition newUnstructuredObject (apiVersion kind name namespace : string)
    (labels annotations : gmap string any) (spec : any) : Unstructured :=
  {| u_APIVersion := apiVersion;
     u_Kind := kind;
     u_Meta := newMeta name namespace (omap anyString labels) (omap anyString annotations);
     u_Spec := spec;
     u_StatusObject := AMap [] |}.

Definition buildVirtualService (app : WorkerApp) (gateways : list string) : Unstructured :=
  newUnstructuredObject "networking.istio.io/v1" "VirtualService" (fleetName app)
    (app_Namespace app) (toAnyMap (fleetLabels app)) ∅
    (AMap [("hosts", AList (AString <$> spec_Hostnames (app_Spec app)));
           ("gateways", AList (AString <$> gateways));
           ("http", AList [AMap
             [("route", AList [AMap [("destination", AMap
                [("host", AString (fleetName app +:+ "." +:+ app_Namespace app +:+ ".svc." +:+ clusterDomain app));
                 ("port", AMap [("number", AInt publicPort)])])]]);
              ("retries", AMap [("attempts", AInt 2);
                                ("retryOn", AString "connect-failure,refused-stream,503")])]])]).

Definition buildAuthorizationPolicy (app : WorkerApp) (operatorPrincipal : string) : Unstructured :=
  let fleetPrincipal := "cluster.local/ns/" +:+ app_Namespace app +:+ "/sa/" +:+ fleetName app in
  let ports p := AList [AMap [("operation", AMap [("ports", AList [AString (pretty p)])])]] in
  newUnstructuredObject "security.istio.io/v1" "AuthorizationPolicy" (fleetName app +:+ "-internal")
    (app_Namespace app) (toAnyMap (fleetLabels app)) ∅
    (AMap [("selector", AMap [("matchLabels", anyMap (toAnyMap (selectorLabels app)))]);
           ("action", AString "ALLOW");
           ("rules", AList
             [AMap [("from", AList [AMap [("source", AMap
                       [("principals", AList [AString fleetPrincipal; AString operatorPrincipal])])]]);
                    ("to", ports internalPort)];
              AMap [("to", ports publicPort)]])]).

(** [%q] on the names the queries quote, byte by byte. The API server only
    admits ASCII names; a byte above 0x7f is escaped like an invalid one. *)
Definition goEscape (c : Ascii.ascii) : string :=
  let backslash := String (Ascii.ascii_of_nat 92) in
  match Ascii.nat_of_ascii c with
  | 7%nat => backslash "a"
  | 8%nat => backslash "b"
  | 9%nat => backslash "t"
  | 10%nat => backslash "n"
  | 11%nat => backslash "v"
  | 12%nat => backslash "f"
  | 13%nat => backslash "r"
  | 34%nat => backslash dquote
  | 92%nat => backslash (backslash "")
  | n => if Nat.leb 32 n && Nat.leb n 126 then String c ""
         else backslash ("x" +:+ EncodeToString [Z.of_nat n])
  end.

Fixpoint goQuoteBody (s : string) : string :=
  match s with
  | EmptyString => ""
  | String c s' => goEscape c +:+ goQuoteBody s'
  end.

Definition goQuote (s : string) : string := dquote +:+ goQuoteBody s +:+ dquote.

Definition promTrigger (serverAddress query threshold : string) : any :=
  AMap [("type", AString "prometheus");
        ("metricType", AString "Value");
        ("metadata", AMap [("serverAddress", AString serverAddress);
                           ("query", AString query);
                           ("threshold", AString threshold);
                           ("ignoreNullValues", AString "false")])].

(** [fmt.Sprintf("%.2f", float64(target)/100)] of an [int32]: the quotient is
    within half a unit of the second decimal of [target/100], so the two
    decimals are those of the exact value. *)
Definition percent2f (target : Z) : string :=
  (if target <? 0 then "-" else "") +:+ pretty (Z.abs target / 100) +:+ "." +:+
  digitsN 2 (Z.abs target mod 100).

(** The freshness guard put around every query of the scaler. *)
Definition guardQuery (app : WorkerApp) (query : string) : string :=
  let sel := "{namespace=" +:+ goQuote (app_Namespace app) +:+ ",workerapp=" +:+ goQuote (app_Name app) +:+ "}" in
  "(" +:+ query +:+ ") and on() (min(celld_fleet_complete" +:+ sel +:+
  ") == 1) and on() (time() - min(celld_fleet_sample_timestamp_seconds" +:+ sel +:+ ") < 60)".

(** The queries and thresholds, before the guard. *)
Definition scaleQueries (app : WorkerApp) (as_ : AutoscalingSpec) : list (string * string) :=
  let sel := "{namespace=" +:+ goQuote (app_Namespace app) +:+ ",workerapp=" +:+ goQuote (app_Name app) +:+ "})" in
  let target := deref (targets_ResidentCellUtilization (as_Targets as_)) 70 in
  [("avg(celld_resident_cell_utilization" +:+ sel, percent2f target);
   ("max(celld_shedding" +:+ sel, "0.5")] ++
  (match targets_P95LatencyMs (as_Targets as_) with
   | Some ms =>
       [("histogram_quantile(0.95, sum(rate(istio_request_duration_milliseconds_bucket{destination_service_name="
         +:+ goQuote (fleetName app) +:+ ",destination_service_namespace=" +:+ goQuote (app_Namespace app)
         +:+ ",reporter=" +:+ dquote +:+ "destination" +:+ dquote +:+ "}[5m])) by (le))", pretty ms)]
   | None => []
   end).

(** [func buildScaledObject(app, prometheusURL, paused)]; the source
    dereferences [spec.autoscaling], which every caller has checked. *)
Definition buildScaledObject (app : WorkerApp) (as_ : AutoscalingSpec) (prometheusURL : string)
    (paused : bool) : Unstructured :=
  let minReplicas := if as_MinReplicas as_ =? 0 then 2 else as_MinReplicas as_ in
  let maxReplicas := if as_MaxReplicas as_ =? 0 then 10 else as_MaxReplicas as_ in
  let triggers := map (fun q => promTrigger prometheusURL (guardQuery app (fst q)) (snd q))
                      (scaleQueries app as_) in
  let stabilizationS := if spec_WebSockets (app_Spec app) then 1800 else 600 in
  newUnstructuredObject "keda.sh/v1alpha1" "ScaledObject" (fleetName app) (app_Namespace app)
    (toAnyMap (fleetLabels app))
    {[ kedaPausedAnnotation := AString (if paused then "true" else "false") ]}
    (AMap [("scaleTargetRef", AMap [("apiVersion", AString "apps/v1");
                                    ("kind", AString "StatefulSet");
                                    ("name", AString (fleetName app))]);
           ("minReplicaCount", AInt minReplicas);
           ("maxReplicaCount", AInt maxReplicas);
           ("advanced", AMap [("horizontalPodAutoscalerConfig", AMap [("behavior", AMap
              [("scaleDown", AMap
                 [("stabilizationWindowSeconds", AInt stabilizationS);
                  ("policies", AList [AMap [("type", AString "Pods"); ("value", AInt 1);
                                            ("periodSeconds", AInt 300)]])])])])]);
           ("triggers", AList triggers)]).
