(* ===== verification/FleetState.v ===== *)
(** * Fleet state ([internal/controller/fleetstate.go])

    One [/state] sample per pod ([StateClient.Fetch]), the sweep over a fleet
    that the rollout gate reads ([FleetSweep]), and the restart counters. *)

From S2P Require Import Prelude GoStrings Json Effects Kube Api Cluster Resources.
From Stdlib Require Import Ascii.

Local Open Scope Z_scope.

Definition selfFenceExitCode : Z := 3.

(** [type DeploymentState struct] *)
Record DeploymentState := mkDeploymentState {
  dep_Version : string;
  dep_Generation : Z;
  dep_Draining : list json;
  dep_Swapping : Z
}.

(** [type PodState struct] *)
Record PodState := mkPodState {
  ps_Deployment : option DeploymentState;
  ps_Occupied : Z;
  ps_Evicting : Z;
  ps_Restoring : Z;
  ps_Activating : Z;
  ps_ActivationWaiting : Z;
  ps_CapacityWaiting : Z;
  ps_Shedding : option string;
  ps_RSSBytes : Z;
  ps_InUseBytes : Z;
  ps_CgroupWorkingSetBytes : option Z;
  ps_CgroupCurrentBytes : option Z
}.

(** [func (s *PodState) IsShedding() bool] *)
Definition IsShedding (s : PodState) : bool :=
  match ps_Shedding s with Some _ => true | None => false end.

(** ** [json.Unmarshal] into the two structs

    A member sets the field its key names and every other member is ignored;
    [null] leaves a number or a string as it is and clears a pointer or a
    slice; a value of the wrong kind is an error. *)

Definition decodeInt (cur : Z) (v : json) : option Z :=
  match v with JNull => Some cur | JNum l => parseInt64 l | _ => None end.

Definition decodeString (cur : string) (v : json) : option string :=
  match v with JNull => Some cur | JStr s => Some s | _ => None end.

Definition decodeIntPtr (v : json) : option (option Z) :=
  match v with JNull => Some None | JNum l => Some <$> parseInt64 l | _ => None end.

Definition decodeStringPtr (v : json) : option (option string) :=
  match v with JNull => Some None | JStr s => Some (Some s) | _ => None end.

Definition decodeRawSlice (v : json) : option (list json) :=
  match v with JNull => Some [] | JArr l => Some l | _ => None end.

Definition zeroDeployment : DeploymentState := mkDeploymentState "" 0 [] 0.

Definition decodeDeploymentMember (kv : string * json) (d : DeploymentState)
  : option DeploymentState :=
  let '(k, v) := kv in
  if matchesField "version" k then
    (fun x => mkDeploymentState x (dep_Generation d) (dep_Draining d) (dep_Swapping d))
      <$> decodeString (dep_Version d) v
  else if matchesField "generation" k then
    (fun x => mkDeploymentState (dep_Version d) x (dep_Draining d) (dep_Swapping d))
      <$> decodeInt (dep_Generation d) v
  else if matchesField "draining" k then
    (fun x => mkDeploymentState (dep_Version d) (dep_Generation d) x (dep_Swapping d))
      <$> decodeRawSlice v
  else if matchesField "swapping" k then
    (fun x => mkDeploymentState (dep_Version d) (dep_Generation d) (dep_Draining d) x)
      <$> decodeInt (dep_Swapping d) v
  else Some d.

Definition decodeMembers {S} (member : string * json -> S -> option S)
    (fields : list (string * json)) (s : S) : option S :=
  foldl (fun acc kv => s ← acc; member kv s) (Some s) fields.

Definition decodeDeployment (cur : option DeploymentState) (v : json)
  : option (option DeploymentState) :=
  match v with
  | JNull => Some None
  | JObj fields => Some <$> decodeMembers decodeDeploymentMember fields (deref cur zeroDeployment)
  | _ => None
  end.

Definition zeroState : PodState := mkPodState None 0 0 0 0 0 0 None 0 0 None None.

Definition decodeStateMember (kv : string * json) (p : PodState) : option PodState :=
  let '(k, v) := kv in
  let 'mkPodState dep occ evi rst act awt cwt shd rss inu cws cgc := p in
  if matchesField "deployment" k then
    (fun x => mkPodState x occ evi rst act awt cwt shd rss inu cws cgc) <$> decodeDeployment dep v
  else if matchesField "occupied" k then
    (fun x => mkPodState dep x evi rst act awt cwt shd rss inu cws cgc) <$> decodeInt occ v
  else if matchesField "evicting" k then
    (fun x => mkPodState dep occ x rst act awt cwt shd rss inu cws cgc) <$> decodeInt evi v
  else if matchesField "restoring" k then
    (fun x => mkPodState dep occ evi x act awt cwt shd rss inu cws cgc) <$> decodeInt rst v
  else if matchesField "activating" k then
    (fun x => mkPodState dep occ evi rst x awt cwt shd rss inu cws cgc) <$> decodeInt act v
  else if matchesField "activation_waiting" k then
    (fun x => mkPodState dep occ evi rst act x cwt shd rss inu cws cgc) <$> decodeInt awt v
  else if matchesField "capacity_waiting" k then
    (fun x => mkPodState dep occ evi rst act awt x shd rss inu cws cgc) <$> decodeInt cwt v
  else if matchesField "shedding" k then
    (fun x => mkPodState dep occ evi rst act awt cwt x rss inu cws cgc) <$> decodeStringPtr v
  else if matchesField "rss_bytes" k then
    (fun x => mkPodState dep occ evi rst act awt cwt shd x inu cws cgc) <$> decodeInt rss v
  else if matchesField "in_use_bytes" k then
    (fun x => mkPodState dep occ evi rst act awt cwt shd rss x cws cgc) <$> decodeInt inu v
  else if matchesField "cgroup_working_set_bytes" k then
    (fun x => mkPodState dep occ evi rst act awt cwt shd rss inu x cgc) <$> decodeIntPtr v
  else if matchesField "cgroup_current_bytes" k then
    (fun x => mkPodState dep occ evi rst act awt cwt shd rss inu cws x) <$> decodeIntPtr v
  else Some p.

(** ** [StateClient.Fetch] *)

(** [net.JoinHostPort(host, port)] *)
Definition JoinHostPort (host : string) (port : Z) : string :=
  if has_byte ":"%char host then "[" +:+ host +:+ "]:" +:+ pretty port
  else host +:+ ":" +:+ pretty port.

Definition stateURL (podIP : string) : string :=
  "http://" +:+ JoinHostPort podIP internalPort +:+ "/state".

(** One of the keys the sample must carry; [shedding] may be null. *)
Definition requiredKey (fields : list (string * json)) (key : string) : bool :=
  match jsonField fields key with
  | None => false
  | Some JNull => String.eqb key "shedding"
  | Some _ => true
  end.

(** Everything [Fetch] does with an answer: the status, the size limit of 4 MiB
    on the body, the required keys, the decoding and the sign checks. *)
Definition decodeState (resp : httpResponse) : error + PodState :=
  if negb (http_Status resp =? 200) then
    inl (Errorf ("/state returned " +:+ pretty (http_Status resp)))
  else match http_Body resp with
  | inl e => inl e
  | inr raw =>
      if 4 * 2 ^ 20 <? Z.of_nat (String.length raw) then inl (Errorf "/state exceeds 4 MiB")
      else match parseJSON raw with
      | Some JNull => inl (Errorf "/state missing occupied")
      | Some (JObj fields) =>
          match jsonField fields "error" with
          | Some _ => inl (Errorf "/state reports a runtime error")
          | None =>
              match list_find (fun key => requiredKey fields key = false)
                      ["occupied"; "restoring"; "shedding"] with
              | Some (_, key) => inl (Errorf ("/state missing " +:+ key))
              | None =>
                  match decodeMembers decodeStateMember fields zeroState with
                  | None => inl (Errorf "decoding /state")
                  | Some state =>
                      if (ps_Occupied state <? 0) || (ps_Restoring state <? 0)
                         || (ps_Evicting state <? 0)
                      then inl (Errorf "/state has negative counters")
                      else match ps_Deployment state with
                      | Some d =>
                          if is_empty (dep_Version d) || (dep_Generation d <? 1)
                             || (dep_Swapping d <? 0)
                          then inl (Errorf "invalid deployment state")
                          else inr state
                      | None => inr state
                      end
                  end
              end
          end
      | _ => inl (Errorf "decoding /state")
      end
  end.

(** [func (c *StateClient) Fetch(ctx, podIP)] *)
Definition Fetch (podIP : string) : M (error + PodState) :=
  r ← trigger (HttpGet (stateURL podIP));
  Ret (match r with inl e => inl e | inr resp => decodeState resp end).

(** ** [StateClient.FleetSweep] *)

Definition podAvailable (pod : Pod) : bool :=
  negb (is_empty (pod_PodIP pod)) && String.eqb (pod_Phase pod) "Running"
  && match meta_DeletionTimestamp (pod_Meta pod) with None => true | Some _ => false end.

Abbreviation pod_Name p := (meta_Name (pod_Meta p)).

(** What the goroutines share: the samples, the sum and the group's first
    error. *)
Record sweepState := mkSweepState {
  sw_states : gmap string PodState;
  sw_restoring : Z;
  sw_err : option error
}.

(** One goroutine of the sweep. It touches the shared state once, in the
    critical section at its end, so any interleaving is one of the orders in
    which the goroutines finish. *)
Definition sweepPod (pod : Pod) (s : sweepState) : M sweepState :=
  let fail e := mkSweepState (sw_states s) (sw_restoring s)
                  (match sw_err s with None => Some e | Some e' => Some e' end) in
  if negb (podAvailable pod)
  then Ret (fail (Errorf ("pod " +:+ pod_Name pod +:+ " is unavailable")))
  else
    r ← Fetch (pod_PodIP pod);
    Ret (match r with
         | inl e => fail (Wrapf ("pod " +:+ pod_Name pod) e)
         | inr state =>
             mkSweepState (<[pod_Name pod := state]> (sw_states s))
               (wrap64 (sw_restoring s + ps_Restoring state)) (sw_err s)
         end).

(** [func (c *StateClient) FleetSweep(ctx, pods)] *)
Definition FleetSweep (pods : list Pod) : M (gmap string PodState * Z * option error) :=
  order ← trigger (Order pods);
  s ← foldM sweepPod (proj1_sig order) (mkSweepState ∅ 0 None);
  Ret (sw_states s, sw_restoring s, sw_err s).

(** ** Readiness and restarts *)

(** [func podReady(pod *corev1.Pod) bool] *)
Definition podReady (pod : Pod) : bool :=
  match meta_DeletionTimestamp (pod_Meta pod) with
  | Some _ => false
  | None =>
      match list_find (fun c => pcond_Type c = "Ready") (pod_Conditions pod) with
      | Some (_, c) => String.eqb (pcond_Status c) "True"
      | None => false
      end
  end.

(** [func celldRestarts(pod *corev1.Pod) (restarts int32, selfFenced bool)] *)
Definition celldRestarts (pod : Pod) : Z * bool :=
  match list_find (fun c => cst_Name c = celldContainerName) (pod_ContainerStatuses pod) with
  | Some (_, cs) =>
      (cst_RestartCount cs,
       match cst_LastTerminatedExitCode cs with
       | Some code => code =? selfFenceExitCode
       | None => false
       end)
  | None => (0, false)
  end.

(** ** What a sweep establishes *)

Definition sumZ (l : list Z) : Z := foldr Z.add 0 l.

(** During [t] the pod answered a valid sample [st]. *)
Definition podSampled (t : tr) (pod : Pod) (st : PodState) : Prop :=
  podAvailable pod = true /\
  exists resp, Ev (HttpGet (stateURL (pod_PodIP pod))) (inr resp) ∈ t /\ decodeState resp = inr st.

(** During [t] the pod could not be asked or did not answer a valid sample. *)
Definition podFailed (t : tr) (pod : Pod) : Prop :=
  podAvailable pod = false \/
  (exists e, Ev (HttpGet (stateURL (pod_PodIP pod))) (inl e) ∈ t) \/
  (exists resp e, Ev (HttpGet (stateURL (pod_PodIP pod))) (inr resp) ∈ t /\
                  decodeState resp = inl e).

Lemma podSampled_mono t t' pod st : t ⊆ t' -> podSampled t pod st -> podSampled t' pod st.
Proof. intros Ht (? & resp & ? & ?). split; [done|]. exists resp. auto. Qed.

Lemma podFailed_mono t t' pod : t ⊆ t' -> podFailed t pod -> podFailed t' pod.
Proof. intros Ht [?|[[e ?]|(resp & e & ? & ?)]]; [left|right;left|right;right]; eauto. Qed.

Lemma sumZ_app l1 l2 : sumZ (l1 ++ l2) = sumZ l1 + sumZ l2.
Proof. induction l1; simpl; lia. Qed.

#[export] Instance sumZ_proper : Proper ((≡ₚ) ==> (=)) sumZ.
Proof. induction 1; simpl; lia. Qed.

Lemma sumZ_nonneg l : Forall (fun z => 0 <= z) l -> 0 <= sumZ l.
Proof. induction 1; simpl; lia. Qed.

Lemma sumZ_zero l : Forall (fun z => 0 <= z) l -> sumZ l = 0 -> Forall (fun z => z = 0) l.
Proof.
  induction 1 as [|z l Hz Hl IH]; simpl; intros E; [constructor|].
  pose proof (sumZ_nonneg _ Hl). constructor; [lia|]. apply IH. lia.
Qed.

(** The sum of the sweep reads zero only when every addend is zero or the true
    sum reached a multiple of [2^64]. *)
Lemma wrap64_sum_zero l :
  Forall (fun z => 0 <= z) l -> wrap64 (sumZ l) = 0 ->
  Forall (fun z => z = 0) l \/ 2 ^ 64 <= sumZ l.
Proof.
  intros Hl Hw. pose proof (sumZ_nonneg _ Hl).
  destruct (Z.lt_ge_cases (sumZ l) (2 ^ 64)) as [Hlt|]; [left|by right].
  apply sumZ_zero; [done|]. unfold wrap64 in Hw.
  Z.to_euclidean_division_equations. lia.
Qed.

(** A list answered in some order, and its samples rearranged to match. *)
Lemma Forall2_permute {A B} (P : A -> B -> Prop) l1 l1' l2 :
  l1 ≡ₚ l1' -> Forall2 P l1 l2 -> exists l2', l2 ≡ₚ l2' /\ Forall2 P l1' l2'.
Proof.
  intros Hp. revert l2. induction Hp as [|x l l' _ IH|x y l|l l' l'' _ IH1 _ IH2]; intros l2 H.
  - inversion H. exists []. auto.
  - inversion H as [|? z ? l2']; subst. destruct (IH l2') as (l3 & ? & ?); [done|].
    exists (z :: l3). auto.
  - inversion H as [|? z ? l2' ? H4]; subst. inversion H4 as [|? w ? l3]; subst.
    exists (w :: z :: l3). split; [constructor|]. by repeat constructor.
  - destruct (IH1 _ H) as (l3 & ? & H3). destruct (IH2 _ H3) as (l4 & ? & ?).
    exists l4. split; [by etrans|done].
Qed.

(** The loop invariant of the sweep over the pods done so far. *)
Definition swept (pods : list Pod) (t : tr) (s : sweepState) : Prop :=
  readOnly t /\
  match sw_err s with
  | None => exists l, Forall2 (podSampled t) pods l /\
                      sw_restoring s = wrap64 (sumZ (map ps_Restoring l)) /\
                      dom (sw_states s) = list_to_set (map (fun p => pod_Name p) pods) /\
                      map_Forall (fun n st => exists pod, pod ∈ pods /\ pod_Name pod = n /\
                                                          podSampled t pod st) (sw_states s)
  | Some _ => exists pod, pod ∈ pods /\ podFailed t pod
  end.

Lemma wp_sweepPod pods pod t s :
  swept pods t s -> wp (sweepPod pod s) (fun t' s' => swept (pods ++ [pod]) (t ++ t') s').
Proof.
  intros [Hro Hs]. unfold sweepPod.
  assert (Hfail : forall t' e, readOnly t' -> podFailed (t ++ t') pod ->
    swept (pods ++ [pod]) (t ++ t')
      (mkSweepState (sw_states s) (sw_restoring s)
         match sw_err s with Some e' => Some e' | None => Some e end)).
  { intros t' e Ht' Hf. split; [by apply readOnly_app|].
    destruct (sw_err s) as [e'|]; simpl; exists pod; (split; [set_solver|done]). }
  destruct (podAvailable pod) eqn:Ha; simpl.
  2: { apply Hfail; [constructor|by left]. }
  intros [e|resp]; simpl.
  { apply Hfail; [by repeat constructor|]. right; left. exists e. set_solver. }
  destruct (decodeState resp) as [e|st] eqn:Hd; simpl.
  { apply Hfail; [by repeat constructor|]. right; right. exists resp, e. set_solver. }
  assert (Hsub : t ⊆ t ++ [Ev (HttpGet (stateURL (pod_PodIP pod))) (inr resp)]) by set_solver.
  split; [apply readOnly_app; split; [done|by repeat constructor]|]. simpl.
  destruct (sw_err s) as [e'|].
  { destruct Hs as (p & ? & ?). exists p. split; [set_solver|]. by eapply podFailed_mono. }
  destruct Hs as (l & Hl & Hr & Hdom & Hall).
  assert (Hnew : podSampled (t ++ [Ev (HttpGet (stateURL (pod_PodIP pod))) (inr resp)]) pod st).
  { split; [done|]. exists resp. split; [set_solver|done]. }
  exists (l ++ [st]). split_and!.
  - apply Forall2_app; [|constructor; [exact Hnew|constructor]].
    eapply Forall2_impl; [exact Hl|]. intros. by eapply podSampled_mono.
  - rewrite Hr, wrap64_wrap64_add, map_app, sumZ_app. simpl. f_equal. lia.
  - rewrite dom_insert_L, Hdom, map_app, list_to_set_app_L. set_solver.
  - intros n st' [[<- <-]|[? Hn]]%lookup_insert_Some.
    + exists pod. split_and!; [set_solver|done..].
    + destruct (Hall _ _ Hn) as (p & ? & ? & ?). exists p.
      split_and!; [set_solver|done|by eapply podSampled_mono].
Qed.

(** What a finished sweep tells: without an error, every pod of the list was
    sampled and the sum is over all of them, whatever order they finished in;
    with one, some pod was unavailable or did not answer a valid sample. *)
Definition sweepResult (pods : list Pod) (t : tr)
    (res : gmap string PodState * Z * option error) : Prop :=
  let '(states, restoring, err) := res in
  swept pods t (mkSweepState states restoring err).

Lemma wp_FleetSweep pods : wp (FleetSweep pods) (fun t res => sweepResult pods t res).
Proof.
  unfold FleetSweep. apply wp_trigger. intros [order Hp]. cbv beta. simpl.
  eapply wp_seq.
  { apply (wp_foldM sweepPod order _ (fun dn t s => swept dn t s)).
    - split; [constructor|]. exists []. split_and!; [constructor|done|done|].
      apply map_Forall_empty.
    - intros dn a t s Hs. by apply wp_sweepPod. }
  intros t s [Hro Hs]. apply wp_ret. rewrite app_nil_r.
  set (ev := Ev _ _). assert (Hsub : t ⊆ ev :: t) by set_solver.
  split; [by constructor|]. simpl. destruct (sw_err s) as [e|].
  - destruct Hs as (p & Hin & Hf). exists p. rewrite <- Hp. split; [done|].
    by eapply podFailed_mono.
  - destruct Hs as (l & Hl & Hr & Hdom & Hall).
    destruct (Forall2_permute _ _ pods _ Hp Hl) as (l' & Hl' & HF).
    exists l'. split_and!.
    + eapply Forall2_impl; [exact HF|]. intros. by eapply podSampled_mono.
    + by rewrite Hr, Hl'.
    + by rewrite Hdom, Hp.
    + intros n st (p & Hin & ? & ?)%Hall. exists p. rewrite <- Hp.
      split_and!; [done..|by eapply podSampled_mono].
Qed.

(** ** What a sample that [Fetch] accepts guarantees *)

Definition int64Opt (o : option Z) : Prop := match o with Some z => is_int64 z | None => True end.

Definition depInt64 (o : option DeploymentState) : Prop :=
  match o with Some d => is_int64 (dep_Generation d) /\ is_int64 (dep_Swapping d) | None => True end.

(** The numbers of a sample are [int64]s. *)
Definition stateInt64 (p : PodState) : Prop :=
  is_int64 (ps_Occupied p) /\ is_int64 (ps_Evicting p) /\ is_int64 (ps_Restoring p) /\
  is_int64 (ps_Activating p) /\ is_int64 (ps_ActivationWaiting p) /\
  is_int64 (ps_CapacityWaiting p) /\ is_int64 (ps_RSSBytes p) /\ is_int64 (ps_InUseBytes p) /\
  int64Opt (ps_CgroupWorkingSetBytes p) /\ int64Opt (ps_CgroupCurrentBytes p) /\
  depInt64 (ps_Deployment p).

(** The checks on a decoded sample. *)
Definition stateValid (p : PodState) : Prop :=
  0 <= ps_Occupied p /\ 0 <= ps_Restoring p /\ 0 <= ps_Evicting p /\
  match ps_Deployment p with
  | Some d => dep_Version d <> "" /\ 1 <= dep_Generation d /\ 0 <= dep_Swapping d
  | None => True
  end.

Lemma decodeInt_int64 c v z : is_int64 c -> decodeInt c v = Some z -> is_int64 z.
Proof. destruct v; simpl; intros ? ?; simplify_eq; eauto using Atoi_range. Qed.

Lemma decodeIntPtr_int64 v o : decodeIntPtr v = Some o -> int64Opt o.
Proof.
  destruct v; simpl; intros H; simplify_eq; [done|].
  apply fmap_Some in H as (z & ? & ->). by eapply Atoi_range.
Qed.

(** An invariant of one member is an invariant of the whole object. *)
Lemma decodeMembers_invariant {S} (member : string * json -> S -> option S) (I : S -> Prop)
    fields s s' :
  (forall kv a b, I a -> member kv a = Some b -> I b) ->
  I s -> decodeMembers member fields s = Some s' -> I s'.
Proof.
  intros Hm. unfold decodeMembers. revert s.
  assert (Hnone : forall l, foldl (fun acc kv => s ← acc; member kv s) None l = None)
    by (induction l; done).
  induction fields as [|kv fields IH]; simpl; intros s Hs H; [by simplify_eq|].
  destruct (member kv s) as [s1|] eqn:E; [|by rewrite Hnone in H].
  eapply IH; [|done]. by eapply Hm.
Qed.

Lemma decodeMembers_app {S} (member : string * json -> S -> option S) l1 l2 s :
  decodeMembers member (l1 ++ l2) s
  = (s' ← decodeMembers member l1 s; decodeMembers member l2 s').
Proof.
  unfold decodeMembers. rewrite foldl_app.
  destruct (foldl _ (Some s) l1); [done|]. simpl. by induction l2.
Qed.

(** Splits a member decoder into its field cases. *)
Ltac decode_cases H :=
  repeat match type of H with
  | context [if ?b then _ else _] => destruct b
  end;
  try (apply fmap_Some in H; destruct H as (? & ? & ?)); simplify_eq; simpl in *.

Lemma decodeDeployment_int64 cur v o :
  depInt64 cur -> decodeDeployment cur v = Some o -> depInt64 o.
Proof.
  intros Hc H. destruct v; simpl in H; simplify_eq; [done|].
  apply fmap_Some in H as (d & Hd & ->).
  eapply (decodeMembers_invariant _
            (fun d => is_int64 (dep_Generation d) /\ is_int64 (dep_Swapping d))); [| |exact Hd].
  - intros [k v] a b [] Hb. unfold decodeDeploymentMember in Hb.
    decode_cases Hb; eauto using decodeInt_int64.
  - destruct cur; simpl; [done|]. split; done.
Qed.

Lemma decodeStateMember_int64 kv a b :
  stateInt64 a -> decodeStateMember kv a = Some b -> stateInt64 b.
Proof.
  destruct kv as [k v], a. unfold stateInt64, decodeStateMember. simpl. intros Ha Hb.
  destruct_and! Ha.
  decode_cases Hb; split_and!;
    eauto using decodeInt_int64, decodeIntPtr_int64, decodeDeployment_int64.
Qed.

(** Everything [decodeState] checked before it accepted an answer. *)
Lemma decodeState_inr resp st :
  decodeState resp = inr st ->
  http_Status resp = 200 /\
  exists raw fields,
    http_Body resp = inr raw /\ Z.of_nat (String.length raw) <= 4 * 2 ^ 20 /\
    parseJSON raw = Some (JObj fields) /\ jsonField fields "error" = None /\
    Forall (fun key => requiredKey fields key = true) ["occupied"; "restoring"; "shedding"] /\
    decodeMembers decodeStateMember fields zeroState = Some st /\ stateValid st.
Proof.
  unfold decodeState. intros H.
  destruct (http_Status resp =? 200) eqn:Hs; cbn [negb] in H; [|done]. bool_simp.
  split; [done|]. destruct (http_Body resp) as [e|raw]; [done|].
  destruct (4 * 2 ^ 20 <? _) eqn:Hlen; [done|].
  destruct (parseJSON raw) as [[| | | | |fields]|] eqn:Hp; try done.
  destruct (jsonField fields "error") eqn:He; [done|].
  destruct (list_find _ _) as [[i key]|] eqn:Hf; [done|].
  destruct (decodeMembers _ _ _) as [st'|] eqn:Hd; [|done].
  destruct (_ || _) eqn:Hneg; [done|]. bool_simp.
  exists raw, fields. split_and!; try done.
  { apply list_find_None in Hf. eapply Forall_impl; [exact Hf|]. intros key Hk.
    by apply not_false_iff_true. }
  { destruct (ps_Deployment st') as [d|]; [|by simplify_eq].
    destruct (_ || _) in H; by simplify_eq. }
  destruct (ps_Deployment st') as [d|] eqn:Hdep.
  - destruct (_ || _) eqn:Hbad in H; [done|]. simplify_eq. bool_simp.
    unfold stateValid. rewrite Hdep. split_and!; try done. by apply is_empty_false.
  - simplify_eq. unfold stateValid. by rewrite Hdep.
Qed.

Lemma decodeState_int64 resp st : decodeState resp = inr st -> stateInt64 st.
Proof.
  intros (_ & raw & fields & _ & _ & _ & _ & _ & Hd & _)%decodeState_inr.
  eapply decodeMembers_invariant; [exact decodeStateMember_int64| |exact Hd].
  unfold stateInt64, zeroState. simpl. split_and!; done.
Qed.

(** A member that is not for [restoring] leaves it alone. *)
Lemma decodeStateMember_restoring kv a b :
  matchesField "restoring" (fst kv) = false ->
  decodeStateMember kv a = Some b -> ps_Restoring b = ps_Restoring a.
Proof.
  destruct kv as [k v], a. unfold decodeStateMember. simpl. intros Hm Hb.
  rewrite Hm in Hb. decode_cases Hb; done.
Qed.

(** The last [restoring] member of an answer decides the counter. *)
Lemma decode_restoring pre lit post st :
  decodeMembers decodeStateMember (pre ++ ("restoring", JNum lit) :: post) zeroState = Some st ->
  Forall (fun kv => matchesField "restoring" (fst kv) = false) post ->
  parseInt64 lit = Some (ps_Restoring st).
Proof.
  rewrite decodeMembers_app. intros (s1 & _ & H)%bind_Some Hpost.
  change (("restoring", JNum lit) :: post) with ([("restoring", JNum lit)] ++ post) in H.
  rewrite decodeMembers_app in H. apply bind_Some in H as (s2 & H1 & H2).
  assert (Hs2 : parseInt64 lit = Some (ps_Restoring s2)).
  { unfold decodeMembers in H1. simpl in H1. destruct s1.
    unfold decodeStateMember in H1. simpl in H1.
    apply fmap_Some in H1 as (z & ? & ->). done. }
  assert (Hres : ps_Restoring st = ps_Restoring s2); [|by rewrite Hres].
  clear H1 Hs2. revert s2 H2. induction Hpost as [|kv post Hkv _ IH]; intros s2 H2.
  - unfold decodeMembers in H2. simpl in H2. by simplify_eq.
  - change (kv :: post) with ([kv] ++ post) in H2. rewrite decodeMembers_app in H2.
    apply bind_Some in H2 as (s3 & H3 & H4). rewrite (IH s3 H4).
    by eapply decodeStateMember_restoring.
Qed.
