(* ===== verification/Poller.v ===== *)
(** * The state poller and the fleet metrics ([internal/controller/fleetstate.go])

    [StatePoller.sweep] reads every WorkerApp, its StatefulSet, its pods and
    their [/state], and publishes the samples that Prometheus scrapes and KEDA
    scales on; [stateSnapshot] is the collector that holds them. The samples a
    sweep gathers are threaded through it as they are appended; the snapshot is
    the state of the collector, replaced as a whole by [publish].

    A gauge is a [float64] (file [GoFloat]). *)

From Stdlib Require Import SpecFloat.
From S2P Require Import Prelude GoStrings GoTime GoFloat Json Effects Kube Api Cluster Resources FleetState.

Local Open Scope Z_scope.

(** [func boolToGauge(b bool) float64] *)
Definition boolToGauge (b : bool) : spec_float := if b then float64 1 else float64 0.

(** ** Samples and the collector *)

Definition labelNamespace : string := "namespace".
Definition labelWorkerApp : string := "workerapp".
Definition labelPod : string := "pod".

(** A constant gauge: what [prometheus.MustNewConstMetric] is called with. *)
Record Metric := mkMetric {
  m_Name : string;
  m_Keys : list string;
  m_Value : spec_float;
  m_Labels : list string
}.

(** [type stateSnapshot struct]: the samples a scrape sees. *)
Record stateSnapshot := mkSnapshot { ss_samples : list Metric }.

(** [func (s *stateSnapshot) publish(samples)]: under the lock, so that a scrape
    reads the samples of one sweep. *)
Definition publish (s : stateSnapshot) (samples : list Metric) : stateSnapshot := mkSnapshot samples.

(** [func (s *stateSnapshot) Collect(ch)]: the metrics sent to the channel. *)
Definition Collect (s : stateSnapshot) : list Metric := ss_samples s.

(** The closure [add] of [sweep]. *)
Definition add (name : string) (value : spec_float) (labels : list string) (samples : list Metric)
  : list Metric :=
  let keys := [labelNamespace; labelWorkerApp] ++
              (if Nat.eqb (length labels) 3 then [labelPod] else []) in
  samples ++ [mkMetric name keys value labels].

(** ** [StatePoller.sweep] *)

(** A StatefulSet and a pod list before they are read. *)
Definition zeroSts : StatefulSet :=
  mkStatefulSet (newMeta "" "" ∅ ∅)
    (mkStatefulSetSpec [] None "" None ∅
       (mkPodTemplateSpec ∅ ∅ (mkPodSpec None None ∅ [] None "" None [] [] []))
       (mkUpdateStrategy "" None)) emptyStatus.

Section Poller.
Context `{KubeLib}.

(** The gauges of one sample; a Go map, ranged over in any order. *)
Definition podValues (app : WorkerApp) (state : PodState) : list (string * spec_float) :=
  [("celld_resident_cells", float64 (ps_Occupied state));
   ("celld_evicting", float64 (ps_Evicting state));
   ("celld_restoring", float64 (ps_Restoring state));
   ("celld_shedding", boolToGauge (IsShedding state));
   ("celld_resident_cell_utilization",
     float64_div (float64 (ps_Occupied state)) (float64 (maxResidentCells app)));
   ("celld_rss_bytes", float64 (ps_RSSBytes state));
   ("celld_in_use_bytes", float64 (ps_InUseBytes state))]
  ++ match ps_CgroupCurrentBytes state with
     | Some b => [("celld_cgroup_current_bytes", float64 b)] | None => [] end
  ++ match ps_CgroupWorkingSetBytes state with
     | Some b => [("celld_cgroup_working_set_bytes", float64 b)] | None => [] end.

(** The second loop over the pods: one pod. *)
Definition exportPod (app : WorkerApp) (states : gmap string PodState) (pod : Pod)
    (samples : list Metric) : M (list Metric) :=
  let labels := [app_Namespace app; app_Name app; pod_Name pod] in
  let '(restarts, fenced) := celldRestarts pod in
  let samples := add "celld_container_restarts" (float64 restarts) labels samples in
  let samples := add "celld_self_fenced" (boolToGauge fenced) labels samples in
  let up := match states !! pod_Name pod with Some _ => true | None => false end in
  let samples := add "celld_state_up" (boolToGauge up) labels samples in
  match states !! pod_Name pod with
  | None => Ret samples
  | Some state =>
      order ← trigger (Order (podValues app state));
      Ret (foldl (fun samples nv => add (fst nv) (snd nv) labels samples) samples (proj1_sig order))
  end.

(** The condition before the pods are looked at one by one. *)
Definition fleetListed (sts : StatefulSet) (pods : list Pod) : bool :=
  let replicas := deref (sts_Replicas (sts_Spec sts)) 0 in
  (0 <? replicas) && (wrap32 (Z.of_nat (length pods)) =? replicas)
  && (sts_ObservedGeneration (sts_Status sts) =? meta_Generation (sts_Meta sts)).

(** The first loop over the pods. *)
Definition allServing (sts : StatefulSet) (pods : list Pod) : bool :=
  forallb (fun pod => IsControlledBy (pod_Meta pod) (sts_Meta sts) && podReady pod) pods.

(** The loop body of [sweep]: one app. *)
Definition sweepApp (app : WorkerApp) (samples : list Metric) : M (list Metric) :=
  sampledAt ← trigger Now;
  got ← trigger (Get Cached KStatefulSet "" (app_Namespace app) (fleetName app));
  listed ← (match got with
            | inl e => Ret (inl e)
            | inr _ => trigger (ListPods Cached (app_Namespace app) (selectorLabels app))
            end);
  let sts := match got with inl _ => zeroSts | inr sts => sts end in
  let pods := match listed with inl _ => [] | inr pods => pods end in
  let complete := match listed with inl _ => false | inr _ => fleetListed sts pods end in
  let complete := complete && allServing sts pods in
  swept ← FleetSweep pods;
  let '(states, _, sweepErr) := swept in
  let complete := complete && match sweepErr with None => true | Some _ => false end
                  && Nat.eqb (size states) (length pods) in
  let labels := [app_Namespace app; app_Name app] in
  let samples := add "celld_fleet_complete" (boolToGauge complete) labels samples in
  let samples := add "celld_fleet_sample_timestamp_seconds" (float64 (sampledAt / Second)) labels samples in
  foldM (exportPod app states) pods samples.

(** [func (p *StatePoller) sweep(ctx) error], with the collector it publishes
    to. *)
Definition sweep (snapshot : stateSnapshot) : M (option error * stateSnapshot) :=
  apps ← trigger ListApps;
  match apps with
  | inl e => Ret (Some e, snapshot)
  | inr items =>
      samples ← foldM sweepApp items [];
      Ret (None, publish snapshot samples)
  end.

(** ** [StatePoller.Start] *)

(** [type StatePoller struct]: the client and the state client are the requests
    of [req]. *)
Record StatePoller := mkStatePoller { p_Interval : Z }.

(** [func (p *StatePoller) NeedLeaderElection() bool] *)
Definition NeedLeaderElection (p : StatePoller) : bool := true.

(** The interval the ticker gets; [time.NewTicker] panics on one that is not
    positive. *)
Definition tickerInterval (p : StatePoller) : Z :=
  if p_Interval p <=? 0 then 15 * Second else p_Interval p.

Definition NewTicker (d : Z) : option Z := if 0 <? d then Some d else None.

(** The loop: [ticks] ticks arrive before the context is done. An error of a
    sweep is logged and the loop goes on. *)
Fixpoint pollLoop (ticks : nat) (snapshot : stateSnapshot) : M stateSnapshot :=
  match ticks with
  | O => Ret snapshot
  | S ticks' => r ← sweep snapshot; pollLoop ticks' (snd r)
  end.

(** [func (p *StatePoller) Start(ctx) error]; [None] is a panic. *)
Definition Start (p : StatePoller) (ticks : nat) (snapshot : stateSnapshot)
  : M (option stateSnapshot) :=
  match NewTicker (tickerInterval p) with
  | None => Ret None
  | Some _ =>
      snapshot ← pollLoop ticks snapshot;
      Ret (Some (publish snapshot []))
  end.

End Poller.
