(* ===== verification/Ensure.v ===== *)
(** * Creating and updating owned objects
      ([internal/controller/workerapp_controller.go])

    Ownership, metadata merging, [ensureUnstructured] for the objects without
    linked Go types, and the KEDA ScaledObject built on it. *)

From S2P Require Import Prelude Effects Kube Api Cluster Resources.

Local Open Scope Z_scope.

(** [type WorkerAppReconciler struct]: its configuration. The client, the
    uncached reader and the state client are the requests of [req]. *)
Record WorkerAppReconciler := mkReconciler {
  r_AllowedImagePrefixes : list string;
  r_AllowedIAMRoles : list string;
  r_AllowedAzureClientIDs : list string;
  r_AllowedBucketEndpoints : list string;
  r_HTTPRouteRetries : bool;
  r_IngressMode : string;
  r_GatewayName : string;
  r_GatewayNamespace : string;
  r_IstioGateways : list string;
  r_IngressClassName : string;
  r_ClusterIssuer : string;
  r_PrometheusURL : string;
  r_OperatorNamespace : string;
  r_OperatorPrincipal : string
}.

(** [type fleetOutcome struct] *)
Record fleetOutcome := mkOutcome {
  out_Phase : string;
  out_Partition : Z;
  out_WaitingOn : string;
  out_Requeue : Z;
  out_RolledOut : bool
}.

Definition zeroOutcome : fleetOutcome := mkOutcome "" 0 "" 0 false.

(** Condition types and reasons. *)
Definition condBucketCredentialsReady : string := "BucketCredentialsReady".
Definition condIngressReady : string := "IngressReady".
Definition condMeshPolicyReady : string := "MeshPolicyReady".
Definition condAutoscalingReady : string := "AutoscalingReady".
Definition condDeployTrackingReady : string := "DeployTrackingReady".
Definition reasonRouteError : string := "RouteError".

(** [func mergeStringMaps(live, desired)]: our keys win, foreign keys survive. *)
Definition mergeStringMaps (live desired : gmap string string) : gmap string string :=
  desired ∪ live.

(** [func stringMapSubset(sub, of)] *)
Definition stringMapSubset (sub super : gmap string string) : bool :=
  forallb (fun kv => match super !! fst kv with
                     | Some actual => String.eqb actual (snd kv)
                     | None => false
                     end) (map_to_list sub).

(** [func autoscalingEnabled(app)] *)
Definition autoscalingEnabled (app : WorkerApp) : bool :=
  match spec_Autoscaling (app_Spec app) with Some a => as_Enabled a | None => false end.

(** [reflect.DeepEqual] on the values of unstructured specs: maps compare as
    sets of entries. *)
Fixpoint anyLookup (k : string) (m : list (string * any)) : option any :=
  match m with
  | [] => None
  | (k', v) :: m' => if String.eqb k' k then Some v else anyLookup k m'
  end.

Fixpoint anyEq (a b : any) {struct a} : bool :=
  match a, b with
  | AString x, AString y => String.eqb x y
  | AInt x, AInt y => x =? y
  | ABool x, ABool y => Bool.eqb x y
  | AList x, AList y =>
      (fix go (x y : list any) : bool :=
         match x, y with
         | [], [] => true
         | u :: x', v :: y' => anyEq u v && go x' y'
         | _, _ => false
         end) x y
  | AMap x, AMap y =>
      Nat.eqb (length x) (length y) &&
      (fix go (x : list (string * any)) : bool :=
         match x with
         | [] => true
         | (k, u) :: x' =>
             match anyLookup k y with Some v => anyEq u v | None => false end && go x'
         end) x
  | _, _ => false
  end.

Definition setUnstructuredMeta (u : Unstructured) (m : ObjectMeta) : Unstructured :=
  mkUnstructured (u_APIVersion u) (u_Kind u) m (u_Spec u) (u_StatusObject u).

Definition setUnstructuredSpec (u : Unstructured) (s : any) : Unstructured :=
  mkUnstructured (u_APIVersion u) (u_Kind u) (u_Meta u) s (u_StatusObject u).

Definition gvk (u : Unstructured) : string := u_APIVersion u +:+ "/" +:+ u_Kind u.

Definition writeError {A} (r : error + A) : option error :=
  match r with inl e => Some e | inr _ => None end.

Section Ensure.
Context `{KubeLib}.

(** [func requireOwnership(app, obj)]; [typeName] is the [%T] of the object. *)
Definition requireOwnership (app : WorkerApp) (typeName : string) (m : ObjectMeta) : option error :=
  if negb (IsControlledBy m (app_Meta app)) then
    Some (Errorf ("refusing to modify " +:+ typeName +:+ " " +:+ meta_Namespace m +:+ "/" +:+
                  meta_Name m +:+ ": not controlled by WorkerApp " +:+ app_Namespace app +:+ "/" +:+
                  app_Name app))
  else None.

(** [func (r *WorkerAppReconciler) ensureUnstructured(ctx, app, desired)] *)
Definition ensureUnstructured (app : WorkerApp) (desired : Unstructured) : M (option error) :=
  match SetControllerReference (app_Meta app) (u_Meta desired) with
  | inl e => Ret (Some e)
  | inr m =>
      let desired := setUnstructuredMeta desired m in
      got ← trigger (Get Cached KUnstructured (gvk desired) (meta_Namespace m) (meta_Name m));
      match got with
      | inl e =>
          if IsNotFound e then
            r ← trigger (Create KUnstructured desired);
            Ret (writeError r)
          else Ret (Some e)
      | inr live =>
          match requireOwnership app "*unstructured.Unstructured" (u_Meta live) with
          | Some e => Ret (Some e)
          | None =>
              let lm := u_Meta live in
              if anyEq (u_Spec live) (u_Spec desired)
                 && stringMapSubset (meta_Labels m) (meta_Labels lm)
                 && stringMapSubset (meta_Annotations m) (meta_Annotations lm)
              then Ret None
              else
                let live := setUnstructuredSpec live (u_Spec desired) in
                let lm := setLabels lm (mergeStringMaps (meta_Labels lm) (meta_Labels m)) in
                let lm := setAnnotations lm
                            (mergeStringMaps (meta_Annotations lm) (meta_Annotations m)) in
                r ← trigger (Update KUnstructured (setUnstructuredMeta live lm));
                Ret (writeError r)
          end
      end
  end.

Definition scaledObjectGVK : string := "keda.sh/v1alpha1/ScaledObject".

Definition condition (type status reason message : string) : Condition :=
  mkCondition type status reason message 0.

(** The condition reported when the scaler could not be reconciled. *)
Definition scaledObjectError (e : error) : list Condition * bool :=
  ([condition condAutoscalingReady "False" "ScaledObjectError" (errorText e)], true).

(** The cleanup half of [ensureScaledObject], for an app without autoscaling:
    the scaler goes if it is there and ours. *)
Definition removeScaledObject (app : WorkerApp) : M (list Condition * bool) :=
  got ← trigger (Get Cached KUnstructured scaledObjectGVK (app_Namespace app) (fleetName app));
  match got with
  | inl e =>
      if IsNotFound e || IsNoMatchError e then Ret ([], false) else Ret (scaledObjectError e)
  | inr o =>
      match requireOwnership app "*unstructured.Unstructured" (u_Meta o) with
      | Some e => Ret (scaledObjectError e)
      | None =>
          err ← trigger (Delete KUnstructured o (meta_UID (u_Meta o))
                           (meta_ResourceVersion (u_Meta o)));
          match err with
          | None => Ret ([], false)
          | Some e => if IsNotFound e then Ret ([], false) else Ret (scaledObjectError e)
          end
      end
  end.

(** [func (r *WorkerAppReconciler) ensureScaledObject(ctx, app, outcome, conditions)]:
    the conditions it appends, and whether it hit a transient error. *)
Definition ensureScaledObject (r : WorkerAppReconciler) (app : WorkerApp) (outcome : fleetOutcome)
  : M (list Condition * bool) :=
  match spec_Autoscaling (app_Spec app) with
  | Some a =>
      if as_Enabled a then
        let paused := negb (String.eqb (out_Phase outcome) PhaseReady) in
        err ← ensureUnstructured app (buildScaledObject app a (r_PrometheusURL r) paused);
        match err with
        | None =>
            Ret ([condition condAutoscalingReady "True" "ScaledObjectReconciled" ""], false)
        | Some e =>
            if IsNoMatchError e then
              Ret ([condition condAutoscalingReady "False" "KEDAUnavailable"
                      "keda.sh CRDs are not installed; spec.autoscaling has no effect"], false)
            else Ret (scaledObjectError e)
        end
      else removeScaledObject app
  | None => removeScaledObject app
  end.

End Ensure.
