(* ===== verification/Owned.v ===== *)
(** * Typed owned objects ([internal/controller/workerapp_controller.go])

    [ensureObject] and its callers of [ensureFoundation], and the inventory of
    managed annotations it keeps on Services and Ingresses. *)

From S2P Require Import Prelude GoStrings Sha256 Json Effects Kube Api Cluster Resources Ensure.
From Stdlib Require Import Ascii.

Local Open Scope Z_scope.

(** ** [client.Object]

    What [ensureObject] uses of an object: its metadata, its Go type name, and
    [apiequality.Semantic.DeepEqual] of the object before and after the callback.
    That is equality of the modelled fields, which include every field a callback
    may change; the others are the same on both sides. (A nil and an empty map or
    slice are not told apart by either.) *)

Class ClientObject (k : kind) := {
  objMeta : obj k -> ObjectMeta;
  setObjMeta : obj k -> ObjectMeta -> obj k;
  typeName : string;
  objEqDec : EqDecision (obj k);
  (** A setter sets. *)
  objMeta_set : forall o m, objMeta (setObjMeta o m) = m
}.

#[export] Instance OwnerReference_eq_dec : EqDecision OwnerReference.
Proof. solve_decision. Defined.
#[export] Instance ObjectMeta_eq_dec : EqDecision ObjectMeta.
Proof. solve_decision. Defined.
#[export] Instance ServiceAccount_eq_dec : EqDecision ServiceAccount.
Proof. solve_decision. Defined.
#[export] Instance IntOrString_eq_dec : EqDecision IntOrString.
Proof. solve_decision. Defined.
#[export] Instance ServicePort_eq_dec : EqDecision ServicePort.
Proof. solve_decision. Defined.
#[export] Instance Service_eq_dec : EqDecision Service.
Proof. solve_decision. Defined.
#[export] Instance NetworkPolicyPeer_eq_dec : EqDecision NetworkPolicyPeer.
Proof. solve_decision. Defined.
#[export] Instance NetworkPolicyPort_eq_dec : EqDecision NetworkPolicyPort.
Proof. solve_decision. Defined.
#[export] Instance NetworkPolicyIngressRule_eq_dec : EqDecision NetworkPolicyIngressRule.
Proof. solve_decision. Defined.
#[export] Instance NetworkPolicy_eq_dec : EqDecision NetworkPolicy.
Proof. solve_decision. Defined.
#[export] Instance PodDisruptionBudget_eq_dec : EqDecision PodDisruptionBudget.
Proof. solve_decision. Defined.
#[export] Instance IngressRule_eq_dec : EqDecision IngressRule.
Proof. solve_decision. Defined.
#[export] Instance IngressTLS_eq_dec : EqDecision IngressTLS.
Proof. solve_decision. Defined.
#[export] Instance Ingress_eq_dec : EqDecision Ingress.
Proof. solve_decision. Defined.
#[export] Instance ParentReference_eq_dec : EqDecision ParentReference.
Proof. solve_decision. Defined.
#[export] Instance HTTPRouteRetry_eq_dec : EqDecision HTTPRouteRetry.
Proof. solve_decision. Defined.
#[export] Instance HTTPRouteMatch_eq_dec : EqDecision HTTPRouteMatch.
Proof. solve_decision. Defined.
#[export] Instance HTTPBackendRef_eq_dec : EqDecision HTTPBackendRef.
Proof. solve_decision. Defined.
#[export] Instance HTTPRouteRule_eq_dec : EqDecision HTTPRouteRule.
Proof. solve_decision. Defined.
#[export] Instance Condition_eq_dec : EqDecision Condition.
Proof. solve_decision. Defined.
#[export] Instance RouteParentStatus_eq_dec : EqDecision RouteParentStatus.
Proof. solve_decision. Defined.
#[export] Instance HTTPRoute_eq_dec : EqDecision HTTPRoute.
Proof. solve_decision. Defined.

#[export] Instance serviceAccountObject : ClientObject KServiceAccount := {
  objMeta := sa_Meta;
  setObjMeta _ m := mkServiceAccount m;
  typeName := "*v1.ServiceAccount";
  objEqDec := ServiceAccount_eq_dec;
  objMeta_set _ _ := eq_refl
}.

#[export] Instance serviceObject : ClientObject KService := {
  objMeta := svc_Meta;
  setObjMeta s m := mkService m (svc_Type s) (svc_ClusterIP s) (svc_Selector s)
                      (svc_PublishNotReadyAddresses s) (svc_Ports s);
  typeName := "*v1.Service";
  objEqDec := Service_eq_dec;
  objMeta_set _ _ := eq_refl
}.

#[export] Instance networkPolicyObject : ClientObject KNetworkPolicy := {
  objMeta := np_Meta;
  setObjMeta s m := mkNetworkPolicy m (np_PodSelector s) (np_PolicyTypes s) (np_Ingress s) (np_SpecRest s);
  typeName := "*v1.NetworkPolicy";
  objEqDec := NetworkPolicy_eq_dec;
  objMeta_set _ _ := eq_refl
}.

#[export] Instance pdbObject : ClientObject KPodDisruptionBudget := {
  objMeta := pdb_Meta;
  setObjMeta s m := mkPodDisruptionBudget m (pdb_MaxUnavailable s) (pdb_Selector s);
  typeName := "*v1.PodDisruptionBudget";
  objEqDec := PodDisruptionBudget_eq_dec;
  objMeta_set _ _ := eq_refl
}.

#[export] Instance ingressObject : ClientObject KIngress := {
  objMeta := ing_Meta;
  setObjMeta s m := mkIngress m (ing_Rules s) (ing_ClassName s) (ing_TLS s) (ing_SpecRest s);
  typeName := "*v1.Ingress";
  objEqDec := Ingress_eq_dec;
  objMeta_set _ _ := eq_refl
}.

#[export] Instance httpRouteObject : ClientObject KHTTPRoute := {
  objMeta := route_Meta;
  setObjMeta s m := mkHTTPRoute m (route_ParentRefs s) (route_Hostnames s) (route_Rules s)
                      (route_SpecRest s) (route_StatusParents s);
  typeName := "*v1.HTTPRoute";
  objEqDec := HTTPRoute_eq_dec;
  objMeta_set _ _ := eq_refl
}.

(** ** The inventory of managed annotations *)

Definition managedAnnotationsKey : string := "celld-operator.io/managed-annotations".

Definition legacyIngressKeys : list string :=
  ["nginx.ingress.kubernetes.io/proxy-read-timeout"; "nginx.ingress.kubernetes.io/proxy-send-timeout";
   "cert-manager.io/cluster-issuer"].

(** [json.Unmarshal] of the inventory into a [[]string], its error ignored: an
    element of another kind leaves an empty string, anything but an array leaves
    the slice empty. *)
Definition decodeKeys (raw : string) : list string :=
  match parseJSON raw with
  | Some (JArr l) => map (fun v => match v with JStr s => s | _ => "" end) l
  | _ => []
  end.

(** [json.Marshal] of a string, after its opening quote: quotes, backslashes,
    control bytes, the characters HTML cares about and the two line separators
    are escaped, a byte that is not well-formed UTF-8 becomes the replacement
    escape. [copy] counts bytes of a sequence to copy as they are. *)
Definition bslash (s : string) : string := String (ascii_of_nat 92) s.

Definition marshalByte (c : ascii) : string :=
  let b := byte c in
  if (b =? 34) || (b =? 92) then bslash (String c "")
  else if b =? 8 then bslash "b"
  else if b =? 12 then bslash "f"
  else if b =? 10 then bslash "n"
  else if b =? 13 then bslash "r"
  else if b =? 9 then bslash "t"
  else if (b <? 32) || (b =? 38) || (b =? 60) || (b =? 62) then bslash ("u00" +:+ EncodeToString [b])
  else String c "".

Fixpoint marshalString' (s : string) (copy : nat) : string :=
  match s with
  | EmptyString => ""
  | String c s' =>
      match copy with
      | S n => String c (marshalString' s' n)
      | O =>
          if byte c <? 0x80 then marshalByte c +:+ marshalString' s' 0
          else match utf8Len s with
               | O => bslash "ufffd" +:+ marshalString' s' 0
               | S n => String c (marshalString' s' n)
               end
      end
  end.

(** The line separators U+2028 and U+2029 in the encoded text. *)
Fixpoint escapeSeparators (s : string) : string :=
  match s with
  | String a (String b (String c s3) as s2) =>
      if (byte a =? 0xE2) && (byte b =? 0x80) && ((byte c =? 0xA8) || (byte c =? 0xA9))
      then bslash ("u202" +:+ (if byte c =? 0xA8 then "8" else "9")) +:+ escapeSeparators s3
      else String a (escapeSeparators s2)
  | _ => s
  end.

Definition marshalString (s : string) : string :=
  dquote +:+ escapeSeparators (marshalString' s 0) +:+ dquote.

(** [json.Marshal] of a [[]string]; a nil slice is [null]. *)
Definition marshalStrings (keys : list string) : string :=
  match keys with
  | [] => "null"
  | _ => "[" +:+ Join (map marshalString keys) "," +:+ "]"
  end.

(** [func reconcileAnnotations(obj, desired)] on an object's annotations. *)
Definition reconcileAnnotations (isIngress : bool) (annotations desired : gmap string string)
  : gmap string string :=
  let keys := decodeKeys (mapGet annotations managedAnnotationsKey) ++
              (if isIngress then legacyIngressKeys else []) in
  let annotations := foldr (fun key a => if decide (is_Some (desired !! key)) then a else delete key a)
                       annotations keys in
  let ours := delete managedAnnotationsKey desired in
  <[managedAnnotationsKey := marshalStrings (sortStrings (map fst (map_to_list ours)))]>
    (ours ∪ annotations).

(** ** [ensureObject] *)

Section Owned.
Context `{KubeLib}.

(** The annotations [ensureObject] puts on the desired object before it is
    compared or created: Services and Ingresses carry the inventory. *)
Definition inventoried (k : kind) (a : gmap string string) : gmap string string :=
  match k with
  | KService => reconcileAnnotations false a a
  | KIngress => reconcileAnnotations true a a
  | _ => a
  end.

(** [func (r *WorkerAppReconciler) ensureObject(ctx, app, desired, mutate)]: its
    error, and the caller's [desired] as the call leaves it (the owner reference
    is set on it, and a creation decodes its answer into it). *)
Definition ensureObject {k : kind} `{!ClientObject k} (app : WorkerApp) (desired : obj k)
    (mutate : obj k -> obj k -> obj k) : M (option error * obj k) :=
  let m := objMeta desired in
  let desired := setObjMeta desired (setAnnotations m (inventoried k (meta_Annotations m))) in
  match SetControllerReference (app_Meta app) (objMeta desired) with
  | inl e => Ret (Some e, desired)
  | inr m =>
      let desired := setObjMeta desired m in
      got ← trigger (Get Cached k "" (meta_Namespace m) (meta_Name m));
      match got with
      | inl e =>
          if IsNotFound e then
            r ← trigger (Create k desired);
            Ret (match r with inl e => (Some e, desired) | inr created => (None, created) end)
          else Ret (Some e, desired)
      | inr before =>
          match requireOwnership app typeName (objMeta before) with
          | Some e => Ret (Some e, desired)
          | None =>
              let live := mutate before desired in
              let lm := objMeta live in
              let live := setObjMeta live
                            (setLabels lm (mergeStringMaps (meta_Labels lm) (meta_Labels m))) in
              if @bool_decide (before = live) (objEqDec before live) then Ret (None, desired)
              else
                r ← trigger (Update k live);
                Ret (writeError r, desired)
          end
      end
  end.

(** ** The foundation of a fleet *)

Abbreviation sa_Annotations s := (meta_Annotations (sa_Meta s)).

(** The callback for the ServiceAccount: identity annotations that are no longer
    wanted go, unless the role is provisioned by someone else. *)
Definition mutateServiceAccount (app : WorkerApp) (live desired : ServiceAccount) : ServiceAccount :=
  let annotations := mergeStringMaps (sa_Annotations live) (sa_Annotations desired) in
  let auto := String.eqb (creds_IAMRole (bucket_CredentialsFrom (spec_Bucket (app_Spec app)))) iamRoleAuto in
  let annotations :=
    foldr (fun key a => if decide (is_Some (sa_Annotations desired !! key)) then a
                        else if auto then a else delete key a)
      annotations ["eks.amazonaws.com/role-arn"; azureClientIDAnnotation] in
  mkServiceAccount (setAnnotations (sa_Meta live) annotations).

Definition mutateInternalService (live desired : Service) : Service :=
  mkService (svc_Meta live) (svc_Type live) (svc_ClusterIP live) (svc_Selector desired)
    (svc_PublishNotReadyAddresses desired) (svc_Ports desired).

(** A desired port with the node port of the live port of the same name; the
    last one wins. *)
Definition keepNodePort (live : list ServicePort) (p : ServicePort) : ServicePort :=
  foldl (fun p l => if String.eqb (sport_Name l) (sport_Name p)
                    then mkServicePort (sport_Name p) (sport_Protocol p) (sport_AppProtocol p) (sport_Port p)
                           (sport_TargetPort p) (sport_NodePort l)
                    else p) p live.

Definition mutatePublicService (live desired : Service) : Service :=
  let nodePorts := String.eqb (svc_Type desired) "NodePort" || String.eqb (svc_Type desired) "LoadBalancer" in
  let ports := if nodePorts then map (keepNodePort (svc_Ports live)) (svc_Ports desired)
               else svc_Ports desired in
  let m := svc_Meta live in
  mkService (setAnnotations m (reconcileAnnotations false (meta_Annotations m)
                                 (meta_Annotations (svc_Meta desired))))
    (svc_Type desired) (svc_ClusterIP live) (svc_Selector desired)
    (svc_PublishNotReadyAddresses live) ports.

Definition mutateNetworkPolicy (live desired : NetworkPolicy) : NetworkPolicy :=
  mkNetworkPolicy (np_Meta live) (np_PodSelector desired) (np_PolicyTypes desired) (np_Ingress desired)
    (np_SpecRest desired).

Definition mutatePDB (live desired : PodDisruptionBudget) : PodDisruptionBudget :=
  mkPodDisruptionBudget (pdb_Meta live) (pdb_MaxUnavailable desired) (pdb_Selector desired).

(** One step of [ensureFoundation]: the rest runs only after a success, an error
    is wrapped with the name of the object. *)
Definition orWrap {A} (what : string) (p : M (option error * A)) (k : M (option error))
  : M (option error) :=
  res ← p;
  match fst res with
  | Some e => Ret (Some (Wrapf what e))
  | None => k
  end.

(** The condition [ensureFoundation] appends for the bucket credentials. *)
Definition credentialsCondition (app : WorkerApp) : Condition :=
  if String.eqb (creds_IAMRole (bucket_CredentialsFrom (spec_Bucket (app_Spec app)))) iamRoleAuto
  then condition condBucketCredentialsReady "False" "ProvisioningNotImplemented"
         ("iamRole: auto is not implemented; annotate ServiceAccount " +:+ fleetName app +:+
          " with the role for prefix " +:+ bucket_Name (spec_Bucket (app_Spec app)))
  else condition condBucketCredentialsReady "True" "Configured" "".

(** [func (r *WorkerAppReconciler) ensureFoundation(ctx, app, conditions)]: its
    error; on success it has appended [credentialsCondition]. *)
Definition ensureFoundation (r : WorkerAppReconciler) (app : WorkerApp) : M (option error) :=
  orWrap "service account"
    (ensureObject (k := KServiceAccount) app (buildServiceAccount app) (mutateServiceAccount app))
  (orWrap "internal service"
    (ensureObject (k := KService) app (buildInternalService app) mutateInternalService)
  (orWrap "public service"
    (ensureObject (k := KService) app (buildPublicService app) mutatePublicService)
  (orWrap "network policy"
    (ensureObject (k := KNetworkPolicy) app (buildNetworkPolicy app (r_OperatorNamespace r)) mutateNetworkPolicy)
  (orWrap "pod disruption budget"
    (ensureObject (k := KPodDisruptionBudget) app (buildPDB app) mutatePDB)
  (Ret None))))).

End Owned.
