(* ===== verification/Annotations.v ===== *)
(** * The inventory of managed annotations

    [reconcileAnnotations] keeps, as a JSON array in an annotation, the keys it
    set last time. The theorems: the inventory written is read back, so an
    annotation that is no longer wanted goes, and annotations of other
    controllers stay. *)

From S2P Require Import Prelude GoStrings Json Effects Kube Api Owned.
From Stdlib Require Import Ascii.

Local Open Scope Z_scope.

(** ** Plain keys

    The bytes [json.Marshal] copies: printable ASCII but the quote, the
    backslash and the three characters HTML cares about. The characters of a
    qualified annotation name (letters, digits and [-_./]) are among them. *)

Definition plainByte (c : ascii) : bool :=
  let b := byte c in
  (32 <=? b) && (b <? 128) && negb (b =? 34) && negb (b =? 92) && negb (b =? 38) && negb (b =? 60)
  && negb (b =? 62).

Fixpoint plainKey (s : string) : bool :=
  match s with
  | EmptyString => true
  | String c s' => plainByte c && plainKey s'
  end.

Definition plainKeys (m : gmap string string) : Prop := forall k v, m !! k = Some v -> plainKey k = true.

(** What the encoder and the decoder do on such a byte. *)
Lemma plainByte_spec c :
  plainByte c = true ->
  marshalByte c = String c "" /\ (byte c <? 0x80) = true /\ (byte c =? 34) = false /\
  (byte c <? 32) = false /\ (byte c =? 92) = false.
Proof. destruct c as [[] [] [] [] [] [] [] []]; intros H; first [discriminate H | by vm_compute]. Qed.

Lemma marshalString'_plain s : plainKey s = true -> marshalString' s 0 = s.
Proof.
  induction s as [|c s IH]; [done|]. simpl. intros H. bool_simp.
  destruct (plainByte_spec c) as (Hm & H80 & _); [done|]. rewrite H80, Hm, IH by done. by str_simpl.
Qed.

Lemma escapeSeparators_plain s : plainKey s = true -> escapeSeparators s = s.
Proof.
  induction s as [|c s IH]; [done|]. cbn [plainKey]. intros H. bool_simp.
  assert (Hc : (byte c =? 0xE2) = false).
  { apply Z.eqb_neq. intros E. unfold plainByte in H. rewrite E in H. discriminate H. }
  specialize (IH H0). destruct s as [|d [|e s]]; [done..|].
  cbn [escapeSeparators] in *. rewrite Hc. cbn [andb]. by rewrite IH.
Qed.

Lemma marshalString_plain s : plainKey s = true -> marshalString s = dquote +:+ s +:+ dquote.
Proof. intros H. unfold marshalString. by rewrite marshalString'_plain, escapeSeparators_plain. Qed.

Lemma stringLit_plain s rest : plainKey s = true -> stringLit (s +:+ dquote +:+ rest) 0 = Some (s, rest).
Proof.
  induction s as [|c s IH]; [done|]. cbn [plainKey]. intros H. bool_simp.
  destruct (plainByte_spec c) as (_ & H80 & H34 & H32 & H92); [done|].
  change (String c s +:+ ?t) with (String c (s +:+ t)). cbn [stringLit].
  rewrite H34, H32, H92, H80, IH by done. by str_simpl.
Qed.

(** ** The round trip of the inventory *)

Lemma value_string fuel d s rest :
  plainKey s = true -> value (S fuel) d (marshalString s +:+ rest) = POk (JStr s) rest.
Proof.
  intros H. rewrite marshalString_plain, string_app_assoc, string_app_assoc by done.
  change (dquote +:+ s +:+ dquote +:+ rest) with (String (ascii_of_nat 34) (s +:+ dquote +:+ rest)).
  generalize (stringLit_plain s rest H). generalize (s +:+ dquote +:+ rest). intros u Hu.
  cbn [value skipSpace]. change (isSpace (ascii_of_nat 34)) with false. cbv iota.
  change (byte (ascii_of_nat 34)) with 34. cbn [Z.eqb Pos.eqb]. by rewrite Hu.
Qed.

(** One element of an array and what follows it. *)
Lemma elements_cons fuel d s v r vs :
  value fuel d s = POk v (String "," r) -> elements fuel d r = POk vs "" ->
  elements (S fuel) d s = POk (v :: vs) "".
Proof. intros Hv Hr. cbn [elements]. rewrite Hv. cbn [skipSpace]. change (isSpace ",") with false. cbv iota. by rewrite Hr. Qed.

Lemma elements_strings fuel d keys :
  Forall (fun k => plainKey k = true) keys -> keys <> [] -> (length keys < fuel)%nat ->
  elements fuel d (Join (map marshalString keys) "," +:+ "]") = POk (map JStr keys) "".
Proof.
  revert fuel. induction keys as [|k keys IH]; intros fuel Hk Hne Hf; [done|].
  apply Forall_cons in Hk as [Hk Hks]. destruct fuel as [|[|fuel]]; simpl in Hf; [lia..|].
  destruct keys as [|k' keys].
  - cbn [map Join elements]. by rewrite value_string.
  - change (Join (map marshalString (k :: k' :: keys)) ",")
      with (marshalString k +:+ "," +:+ Join (map marshalString (k' :: keys)) ",").
    rewrite !string_app_assoc. apply (elements_cons _ _ _ _ (Join (map marshalString (k' :: keys)) "," +:+ "]")).
    + by apply value_string.
    + apply IH; [done..|]. simpl in *. lia.
Qed.

Lemma Join_length keys : (length keys <= S (String.length (Join (map marshalString keys) ",")))%nat.
Proof.
  induction keys as [|k keys IH]; [simpl; lia|]. destruct keys as [|k' keys]; [simpl; lia|].
  change (Join (map marshalString (k :: k' :: keys)) ",")
    with (marshalString k +:+ "," +:+ Join (map marshalString (k' :: keys)) ",").
  rewrite !string_app_length. change (String.length ",") with 1%nat. simpl in *. lia.
Qed.

Lemma decodeKeys_marshalStrings keys :
  Forall (fun k => plainKey k = true) keys -> decodeKeys (marshalStrings keys) = keys.
Proof.
  intros Hk. destruct keys as [|k keys]; [reflexivity|]. unfold decodeKeys, parseJSON, marshalStrings.
  set (ks := k :: keys) in *. set (body := Join (map marshalString ks) "," +:+ "]").
  change ("[" +:+ body) with (String "[" body).
  assert (Hel : forall fuel d, (length ks < fuel)%nat -> elements fuel d body = POk (map JStr ks) "")
    by (intros; by apply elements_strings).
  assert (Hq : exists r, body = dquote +:+ r).
  { exists (k +:+ dquote +:+ (match keys with [] => "" | _ => "," +:+ Join (map marshalString keys) "," end) +:+ "]").
    apply Forall_cons in Hk as [Hk _]. unfold body, ks. cbn [map Join].
    destruct keys; simpl map; cbn [Join]; rewrite marshalString_plain by done; by rewrite !string_app_assoc. }
  assert (Hl : (length ks <= String.length body)%nat).
  { unfold body. rewrite string_app_length. pose proof (Join_length ks). simpl in *. lia. }
  destruct Hq as [r Hr].
  replace (2 * String.length (String "[" body) + 2)%nat with (S (2 * String.length body + 3)) by (simpl; lia).
  cbn [value skipSpace]. change (isSpace "[") with false. cbv iota.
  change (byte "[" =? 123) with false. change (byte "[" =? 91) with true. cbv iota.
  change (maxNestingDepth <? 0 + 1) with false. cbv iota.
  rewrite Hel by lia. rewrite Hr.
  change (skipSpace (dquote +:+ r)) with (String (Ascii.Ascii false true false false false true false false) r).
  cbv iota. cbn [skipSpace is_empty]. rewrite map_map. apply map_id.
Qed.

(** ** [reconcileAnnotations] *)

(** The value of the inventory annotation for wanted annotations. *)
Definition inventory (desired : gmap string string) : string :=
  marshalStrings (sortStrings (map fst (map_to_list (delete managedAnnotationsKey desired)))).

Lemma elem_of_sortStrings k l : k ∈ sortStrings l <-> k ∈ l.
Proof. unfold sortStrings. by rewrite merge_sort_Permutation. Qed.

Lemma elem_of_keys k (m : gmap string string) : k ∈ map fst (map_to_list m) <-> is_Some (m !! k).
Proof.
  change (map fst (map_to_list m)) with (fst <$> map_to_list m). rewrite list_elem_of_fmap. split.
  - intros ([k' v] & -> & Hin). apply elem_of_map_to_list in Hin. by exists v.
  - intros [v Hv]. exists (k, v). split; [done|]. by apply elem_of_map_to_list.
Qed.

Lemma decodeKeys_inventory d k :
  plainKeys d -> k ∈ decodeKeys (inventory d) <-> k <> managedAnnotationsKey /\ is_Some (d !! k).
Proof.
  intros Hp. unfold inventory. rewrite decodeKeys_marshalStrings.
  - rewrite elem_of_sortStrings, elem_of_keys. rewrite lookup_delete_is_Some. naive_solver.
  - apply Forall_forall. intros k' Hk'. rewrite elem_of_sortStrings, elem_of_keys in Hk'.
    apply lookup_delete_is_Some in Hk' as [_ [v Hv]]. by eapply Hp.
Qed.

Lemma plainKeys_check m : forallb (fun kv => plainKey (fst kv)) (map_to_list m) = true -> plainKeys m.
Proof.
  intros Hm k v Hk. apply elem_of_map_to_list, list_elem_of_In in Hk.
  exact (proj1 (forallb_forall _ _) Hm (k, v) Hk).
Qed.

Lemma plainKeys_insert k v m : plainKey k = true -> plainKeys m -> plainKeys (<[k := v]> m).
Proof. intros Hk Hm k' v' [[<- _]|[_ ?]]%lookup_insert_Some; [done|by eapply Hm]. Qed.

Lemma plainKeys_empty : plainKeys ∅.
Proof. intros k v Hk. by rewrite lookup_empty in Hk. Qed.

Lemma lookup_unwanted (desired annotations : gmap string string) keys k :
  foldr (fun key a => if decide (is_Some (desired !! key)) then a else delete key a) annotations keys !! k
  = if decide (k ∈ keys /\ desired !! k = None) then None else annotations !! k.
Proof.
  induction keys as [|key keys IH]; cbn [foldr].
  - rewrite decide_False; [done|]. set_solver.
  - destruct (decide (is_Some (desired !! key))) as [Hs|Hn].
    + rewrite IH. apply decide_ext. split; [set_solver|]. intros [[->|]%elem_of_cons Hk]; [|done].
      rewrite Hk in Hs. by destruct Hs.
    + apply eq_None_not_Some in Hn. destruct (decide (k = key)) as [->|Hne].
      * rewrite lookup_delete_eq, decide_True; [done|]. set_solver.
      * rewrite lookup_delete_ne by done. rewrite IH. apply decide_ext. set_solver.
Qed.

Lemma reconcileAnnotations_inventory ingress a d :
  mapGet (reconcileAnnotations ingress a d) managedAnnotationsKey = inventory d.
Proof. unfold reconcileAnnotations. by rewrite mapGet_insert. Qed.

Lemma reconcileAnnotations_lookup ingress a d k :
  k <> managedAnnotationsKey ->
  reconcileAnnotations ingress a d !! k =
  match d !! k with
  | Some v => Some v
  | None => if decide (k ∈ decodeKeys (mapGet a managedAnnotationsKey) ++ (if ingress then legacyIngressKeys else []))
            then None else a !! k
  end.
Proof.
  intros Hk. unfold reconcileAnnotations. rewrite lookup_insert_ne by done.
  rewrite lookup_union, lookup_delete_ne, lookup_unwanted by done.
  destruct (d !! k) as [v|]; [by rewrite union_Some_l|]. assert (Hu : forall o : option string, None ∪ o = o) by (by intros []). rewrite Hu.
  destruct (decide (_ ∧ _)) as [[Hin _]|Hn]; [by rewrite decide_True|]. by rewrite decide_False by naive_solver.
Qed.

(** The wanted annotations are the same with their inventory. *)
Lemma reconcileAnnotations_self ingress d k :
  k <> managedAnnotationsKey -> reconcileAnnotations ingress d d !! k = d !! k.
Proof.
  intros Hk. rewrite reconcileAnnotations_lookup by done. destruct (d !! k); [done|].
  by destruct (decide _).
Qed.

Lemma inventory_self ingress d : inventory (reconcileAnnotations ingress d d) = inventory d.
Proof.
  unfold inventory. do 4 f_equal. apply map_eq. intros k.
  destruct (decide (k = managedAnnotationsKey)) as [->|Hk]; [by rewrite !lookup_delete_eq|].
  rewrite !lookup_delete_ne by done. by apply reconcileAnnotations_self.
Qed.

Lemma plainKeys_self ingress d : plainKeys d -> plainKeys (reconcileAnnotations ingress d d).
Proof.
  intros Hp k v Hk. destruct (decide (k = managedAnnotationsKey)) as [->|Hne]; [reflexivity|].
  rewrite reconcileAnnotations_self in Hk by done. by eapply Hp.
Qed.

(** Reconciling once more changes nothing. *)
Lemma reconcileAnnotations_idempotent ingress a d :
  plainKeys d ->
  reconcileAnnotations ingress (reconcileAnnotations ingress a d) d = reconcileAnnotations ingress a d.
Proof.
  intros Hp. apply map_eq. intros k. destruct (decide (k = managedAnnotationsKey)) as [->|Hk].
  { unfold reconcileAnnotations at 1 3. by rewrite !lookup_insert_eq. }
  rewrite reconcileAnnotations_lookup by done. rewrite reconcileAnnotations_inventory.
  rewrite reconcileAnnotations_lookup by done. destruct (d !! k) as [v|] eqn:Hd; [done|].
  destruct (decide (k ∈ decodeKeys (inventory d) ++ _)) as [Hin|_]; [|done].
  apply elem_of_app in Hin as [[_ [v Hv]]%decodeKeys_inventory|Hin]; [congruence|done|].
  rewrite decide_True; [done|]. apply elem_of_app. by right.
Qed.

(** What the operator manages of an object before it is given [d]: the keys of
    its inventory, and on an Ingress the keys of earlier releases. *)
Definition managedBefore (ingress : bool) (a : gmap string string) (k : string) : Prop :=
  k ∈ decodeKeys (mapGet a managedAnnotationsKey) \/ (ingress = true /\ k ∈ legacyIngressKeys).

#[export] Instance managedBefore_dec ingress a k : Decision (managedBefore ingress a k).
Proof. unfold managedBefore. apply _. Defined.

(** C37: reconciling annotations for [d1] and then for [d2] leaves exactly the
    annotations of [d2] and the foreign ones: a key of [d1] that is no longer
    wanted is gone, a key the operator never managed keeps its value. The
    inventory survives its JSON encoding for every plain key. *)
Theorem managed_annotations_exact ingress a d1 d2 k :
  plainKeys d1 -> k <> managedAnnotationsKey ->
  let wanted d := reconcileAnnotations ingress d d in
  let a1 := reconcileAnnotations ingress a (wanted d1) in
  let a2 := reconcileAnnotations ingress a1 (wanted d2) in
  a2 !! k = match d2 !! k with
            | Some v => Some v
            | None => if decide (is_Some (d1 !! k) \/ managedBefore ingress a k) then None else a !! k
            end.
Proof.
  intros Hp Hk wanted a1 a2.
  assert (Hinv : mapGet a1 managedAnnotationsKey = inventory d1).
  { unfold a1, wanted. rewrite reconcileAnnotations_inventory. apply inventory_self. }
  unfold a2, wanted. rewrite reconcileAnnotations_lookup, reconcileAnnotations_self, Hinv by done.
  destruct (d2 !! k); [done|].
  unfold a1, wanted. rewrite reconcileAnnotations_lookup, reconcileAnnotations_self by done.
  assert (Hkeys : forall l, k ∈ l ++ (if ingress then legacyIngressKeys else []) <->
                       k ∈ l \/ (ingress = true /\ k ∈ legacyIngressKeys)).
  { intros l. destruct ingress; set_solver. }
  destruct (d1 !! k) as [v|] eqn:Hd1.
  - rewrite decide_True by (apply Hkeys; left; apply decodeKeys_inventory; [done|by rewrite Hd1]).
    by rewrite decide_True by (left; by exists v).
  - assert (Hold : k ∈ decodeKeys (inventory d1) -> False).
    { intros [_ Hs]%decodeKeys_inventory; [|done]. rewrite Hd1 in Hs. by destruct Hs. }
    destruct (decide (managedBefore ingress a k)) as [Hm|Hm].
    + rewrite (decide_True (P := k ∈ decodeKeys (mapGet a managedAnnotationsKey) ++ _)) by by apply Hkeys.
      rewrite (decide_True (P := is_Some (None : option string) \/ managedBefore ingress a k)) by by right.
      by destruct (decide _).
    + rewrite !decide_False; [done|..].
      * intros [[? [=]]|?]; contradiction.
      * by rewrite Hkeys.
      * rewrite Hkeys. intros [?|?]; [by apply Hold|]. apply Hm. by right.
Qed.

Lemma managed_annotations_exact_witness :
  let d1 : gmap string string := {[ "lb.example.com/scheme" := "internal"; "lb.example.com/idle" := "60" ]} in
  let d2 : gmap string string := {[ "lb.example.com/idle" := "90" ]} in
  let a : gmap string string := {[ "cloud.example.com/arn" := "lb-1" ]} in
  let wanted d := reconcileAnnotations false d d in
  let a2 := reconcileAnnotations false (reconcileAnnotations false a (wanted d1)) (wanted d2) in
  a2 !! "lb.example.com/scheme" = None /\ a2 !! "lb.example.com/idle" = Some "90" /\
  a2 !! "cloud.example.com/arn" = Some "lb-1".
Proof.
  intros d1 d2 a wanted a2.
  assert (Hp : plainKeys d1).
  { apply plainKeys_check. vm_compute. reflexivity. }
  split_and!; unfold a2, wanted; rewrite (managed_annotations_exact false a d1 d2) by done;
    vm_compute; reflexivity.
Defined.
