(* ===== verification/Routes.v ===== *)
(** * Edge routing ([internal/controller/workerapp_controller.go])

    The Ingress, VirtualService or HTTPRoute of an app, the removal of routes of
    another mode, the readiness of an HTTPRoute, and the latch that works around
    Gateway API CRDs that drop the retry field. Each [ensure...] function
    returns the conditions it appends and whether it hit a transient error. *)

From S2P Require Import Prelude GoStrings GoTime Effects Kube Api Cluster Resources Ensure Owned.

Local Open Scope Z_scope.

Definition IngressModeHTTPRoute : string := "httproute".
Definition IngressModeVirtualService : string := "virtualservice".
Definition IngressModeIngress : string := "ingress".
Definition IngressModeNone : string := "none".

Definition retryRequestedAnnotation : string := "celld-operator.io/retry-requested".
Definition retryRecheckAnnotation : string := "celld-operator.io/retry-recheck-after".

Definition virtualServiceGVK : string := "networking.istio.io/v1/VirtualService".

(** The condition for a route that could not be reconciled. *)
Definition routeError (e : error) : list Condition * bool :=
  ([condition condIngressReady "False" reasonRouteError (errorText e)], true).

Abbreviation route_Annotations r := (meta_Annotations (route_Meta r)).

Definition setRouteAnnotations (r : HTTPRoute) (a : gmap string string) : HTTPRoute :=
  mkHTTPRoute (setAnnotations (route_Meta r) a) (route_ParentRefs r) (route_Hostnames r) (route_Rules r)
    (route_SpecRest r) (route_StatusParents r).

Definition dropRetry (rule : HTTPRouteRule) : HTTPRouteRule :=
  mkHTTPRouteRule (hrule_Matches rule) (hrule_BackendRefs rule) None (hrule_RequestTimeout rule).

Definition dropRetries (r : HTTPRoute) : HTTPRoute :=
  mkHTTPRoute (route_Meta r) (route_ParentRefs r) (route_Hostnames r) (map dropRetry (route_Rules r))
    (route_SpecRest r) (route_StatusParents r).

(** [len(route.Spec.Rules) > 0 && route.Spec.Rules[0].Retry == nil] *)
Definition firstRetryMissing (r : HTTPRoute) : bool :=
  match route_Rules r with
  | rule :: _ => match hrule_Retry rule with None => true | Some _ => false end
  | [] => false
  end.

(** [l.Spec = d.Spec] of the two typed routes. *)
Definition mutateHTTPRoute (live desired : HTTPRoute) : HTTPRoute :=
  mkHTTPRoute (route_Meta live) (route_ParentRefs desired) (route_Hostnames desired) (route_Rules desired)
    (route_SpecRest desired) (route_StatusParents live).

Definition mutateIngress (live desired : Ingress) : Ingress :=
  let m := ing_Meta live in
  mkIngress (setAnnotations m (reconcileAnnotations true (meta_Annotations m)
                                 (meta_Annotations (ing_Meta desired))))
    (ing_Rules desired) (ing_ClassName desired) (ing_TLS desired) (ing_SpecRest desired).

Section Routes.
Context `{KubeLib}.

(** ** Routes of another mode *)

(** The body of the loop of [removeObsoleteRoutes] for one kind of route. *)
Definition removeRoute (k : kind) (gvk : string) (metaOf : obj k -> ObjectMeta) (app : WorkerApp)
  : M (control error unit) :=
  got ← trigger (Get Live k gvk (app_Namespace app) (fleetName app));
  match got with
  | inl e => Ret (if IsNotFound e || IsNoMatchError e then Continue tt else Return e)
  | inr o =>
      if negb (IsControlledBy (metaOf o) (app_Meta app)) then Ret (Continue tt)
      else
        err ← trigger (Delete k o (meta_UID (metaOf o)) (meta_ResourceVersion (metaOf o)));
        Ret (match err with
             | None => Continue tt
             | Some e => if IsNotFound e then Continue tt else Return e
             end)
  end.

Definition removeMode (app : WorkerApp) (mode : string) (kind : string) (_ : unit)
  : M (control error unit) :=
  if String.eqb kind mode then Ret (Continue tt)
  else if String.eqb kind IngressModeIngress then removeRoute KIngress "" ing_Meta app
  else if String.eqb kind IngressModeHTTPRoute then removeRoute KHTTPRoute "" route_Meta app
  else removeRoute KUnstructured virtualServiceGVK u_Meta app.

(** The mode whose route stays. *)
Definition keptMode (r : WorkerAppReconciler) (app : WorkerApp) : string :=
  match spec_Hostnames (app_Spec app) with
  | [] => IngressModeNone
  | _ => if is_empty (r_IngressMode r) then IngressModeHTTPRoute else r_IngressMode r
  end.

(** [func (r *WorkerAppReconciler) removeObsoleteRoutes(ctx, app)] *)
Definition removeObsoleteRoutes (r : WorkerAppReconciler) (app : WorkerApp) : M (option error) :=
  kinds ← trigger (Order [IngressModeIngress; IngressModeHTTPRoute; IngressModeVirtualService]);
  c ← forRange (proj1_sig kinds) (removeMode app (keptMode r app)) tt;
  Ret (match c with Return e => Some e | Continue _ => None end).

(** ** The retry latch *)

(** [func (r *WorkerAppReconciler) configureHTTPRouteRetries(ctx, route)]: the
    route as it leaves the call, and whether the CRDs dropped the retries. *)
Definition configureHTTPRouteRetries (r : WorkerAppReconciler) (route : HTTPRoute)
  : M (HTTPRoute * bool) :=
  if negb (r_HTTPRouteRetries r) then Ret (dropRetries route, false)
  else
    let route := setRouteAnnotations route
                   (<[retryRequestedAnnotation := annotationTrue]> (route_Annotations route)) in
    got ← trigger (Get Cached KHTTPRoute "" (meta_Namespace (route_Meta route)) (meta_Name (route_Meta route)));
    match got with
    | inl _ => Ret (route, false)
    | inr live =>
        let dropped := String.eqb (mapGet (route_Annotations live) retryRequestedAnnotation) annotationTrue
                       && firstRetryMissing live in
        if negb dropped then Ret (route, false)
        else
          deadline ← match parseRFC3339Nano (mapGet (route_Annotations live) retryRecheckAnnotation) with
                     | Some d => Ret d
                     | None => now ← trigger Now; Ret (now + 5 * Minute)
                     end;
          now ← trigger Now;
          let route :=
            if now <? deadline
            then setRouteAnnotations route
                   (<[retryRecheckAnnotation := formatRFC3339Nano deadline]> (route_Annotations route))
            else setRouteAnnotations route (delete retryRequestedAnnotation (route_Annotations route)) in
          Ret (dropRetries route, true)
    end.

(** [func (r *WorkerAppReconciler) httpRouteRetryDropped(ctx, desired)] *)
Definition httpRouteRetryDropped (desired : HTTPRoute) : M (error + bool) :=
  match route_Rules desired with
  | rule :: _ =>
      match hrule_Retry rule with
      | None => Ret (inr false)
      | Some _ =>
          got ← trigger (Get Cached KHTTPRoute "" (meta_Namespace (route_Meta desired))
                           (meta_Name (route_Meta desired)));
          Ret (match got with inl e => inl e | inr live => inr (firstRetryMissing live) end)
      end
  | [] => Ret (inr false)
  end.

(** ** Readiness of an HTTPRoute *)

(** The last condition of type [ty] for the current generation is true. *)
Definition currentCondition (ty : string) (generation : Z) (conditions : list Condition) : bool :=
  foldl (fun acc c => if negb (cond_ObservedGeneration c =? generation) then acc
                      else if String.eqb (cond_Type c) ty then String.eqb (cond_Status c) "True" else acc)
    false conditions.

Definition programmed (gateway : Gateway) : bool :=
  existsb (fun c => String.eqb (cond_Type c) "Programmed"
                    && (cond_ObservedGeneration c =? meta_Generation (gw_Meta gateway))
                    && String.eqb (cond_Status c) "True") (gw_Conditions gateway).

(** The body of the loop over the parents a route reports. *)
Definition parentReady (r : WorkerAppReconciler) (live : HTTPRoute) (parent : RouteParentStatus) (_ : unit)
  : M (control string unit) :=
  let ref := rps_ParentRef parent in
  let namespace := deref (parent_Namespace ref) (meta_Namespace (route_Meta live)) in
  if negb (String.eqb (parent_Name ref) (r_GatewayName r)) then Ret (Continue tt)
  else if negb (String.eqb namespace (r_GatewayNamespace r)) then Ret (Continue tt)
  else
    let generation := meta_Generation (route_Meta live) in
    if currentCondition "Accepted" generation (rps_Conditions parent)
       && currentCondition "ResolvedRefs" generation (rps_Conditions parent)
    then
      got ← trigger (Get Live KGateway "" namespace (parent_Name ref));
      Ret (match got with
           | inl _ => Return "Unknown"
           | inr gateway => if programmed gateway then Return "True" else Continue tt
           end)
    else Ret (Continue tt).

(** [func (r *WorkerAppReconciler) httpRouteReady(ctx, desired)] *)
Definition httpRouteReady (r : WorkerAppReconciler) (desired : HTTPRoute) : M string :=
  got ← trigger (Get Live KHTTPRoute "" (meta_Namespace (route_Meta desired)) (meta_Name (route_Meta desired)));
  match got with
  | inl _ => Ret "Unknown"
  | inr live =>
      c ← forRange (route_StatusParents live) (parentReady r live) tt;
      Ret (match c with Return s => s | Continue _ => "False" end)
  end.

(** ** Reconciling the route *)

(** [func (r *WorkerAppReconciler) ensureV1Ingress(ctx, app, conditions)] *)
Definition ensureV1Ingress (r : WorkerAppReconciler) (app : WorkerApp) : M (list Condition * bool) :=
  res ← ensureObject (k := KIngress) app (buildIngress app (r_IngressClassName r) (r_ClusterIssuer r))
          mutateIngress;
  Ret (match fst res with
       | Some e => routeError e
       | None => ([condition condIngressReady "Unknown" "IngressReconciled"
                     "Ingress configuration reconciled; check ingress controller readiness"], false)
       end).

(** [func (r *WorkerAppReconciler) ensureVirtualService(ctx, app, conditions)] *)
Definition ensureVirtualService (r : WorkerAppReconciler) (app : WorkerApp) : M (list Condition * bool) :=
  err ← ensureUnstructured app (buildVirtualService app (r_IstioGateways r));
  Ret (match err with
       | None => ([condition condIngressReady "Unknown" "VirtualServiceReconciled"
                     "VirtualService reconciled; verify gateway programming"], false)
       | Some e =>
           if IsNoMatchError e
           then ([condition condIngressReady "False" "IstioUnavailable"
                    "networking.istio.io CRDs are not installed; hostnames are not routed"], false)
           else routeError e
       end).

(** [func (r *WorkerAppReconciler) ensureHTTPRoute(ctx, app, conditions)] *)
Definition ensureHTTPRoute (r : WorkerAppReconciler) (app : WorkerApp) : M (list Condition * bool) :=
  res ← configureHTTPRouteRetries r (buildHTTPRoute app (r_GatewayName r) (r_GatewayNamespace r));
  let '(route, retryDropped) := res in
  res ← ensureObject (k := KHTTPRoute) app route mutateHTTPRoute;
  let '(err, route) := res in
  match err with
  | None =>
      check ← httpRouteRetryDropped route;
      if retryDropped || match check with inr dropped => dropped | inl _ => false end
      then Ret ([condition condIngressReady "False" "RouteReconciledRetryDropped"
                   ("cluster Gateway API CRDs dropped the retry field (standard channel); " +:+
                    "drain 503s are not retried at the gateway")], true)
      else
        status ← httpRouteReady r route;
        Ret ([condition condIngressReady status "RouteObserved" ""], false)
  | Some e =>
      Ret (if IsNoMatchError e
           then ([condition condIngressReady "False" "GatewayAPIUnavailable"
                    "gateway.networking.k8s.io CRDs are not installed; hostnames are not routed"], false)
           else routeError e)
  end.

(** [func (r *WorkerAppReconciler) ensureIngress(ctx, app, conditions)] *)
Definition ensureIngress (r : WorkerAppReconciler) (app : WorkerApp) : M (list Condition * bool) :=
  err ← removeObsoleteRoutes r app;
  match err with
  | Some e => Ret (routeError e)
  | None =>
      match spec_Hostnames (app_Spec app) with
      | [] => Ret ([], false)
      | _ =>
          if String.eqb (r_IngressMode r) IngressModeNone then Ret ([], false)
          else if String.eqb (r_IngressMode r) IngressModeVirtualService then ensureVirtualService r app
          else if String.eqb (r_IngressMode r) IngressModeIngress then ensureV1Ingress r app
          else ensureHTTPRoute r app
      end
  end.

(** [func (r *WorkerAppReconciler) ensureAuthorizationPolicy(ctx, app, conditions)] *)
Definition ensureAuthorizationPolicy (r : WorkerAppReconciler) (app : WorkerApp)
  : M (list Condition * bool) :=
  err ← ensureUnstructured app (buildAuthorizationPolicy app (r_OperatorPrincipal r));
  Ret (match err with
       | None => ([condition condMeshPolicyReady "True" "PolicyReconciled" ""], false)
       | Some e =>
           if IsNoMatchError e
           then ([condition condMeshPolicyReady "False" "IstioUnavailable"
                    ("security.istio.io CRDs are not installed; " +:+
                     "NetworkPolicy alone guards the internal listener")], false)
           else ([condition condMeshPolicyReady "False" "PolicyError" (errorText e)], true)
       end).

End Routes.
