(* ===== verification/Deploys.v ===== *)
(** * Deploy tracking ([internal/controller/deploytracker.go])

    The bucket's deploy pointer, the cache in front of it, and the application
    version a fleet should serve. The manager reconciles one app at a time, so
    the cache is a state that is passed along. *)

From S2P Require Import Prelude GoStrings GoTime Sha256 Json Effects Kube Api Cluster Resources FleetState Ensure Owned.
From Stdlib Require Import Ascii.

Local Open Scope Z_scope.

Definition AppVersionAuto : string := "auto".

(** [type trackedVersion struct] *)
Record trackedVersion := mkTrackedVersion {
  tv_version : string;
  tv_fetchedAt : Z;
  tv_identity : string;
  tv_failure : option error
}.

(** [type DeployTracker struct], without its mutex. The keys of the cache are
    namespaced names. *)
Record DeployTracker := mkDeployTracker {
  dt_Interval : Z;
  dt_cache : gmap (string * string) trackedVersion
}.

(** [func NewDeployTracker(interval)] *)
Definition NewDeployTracker (interval : Z) : DeployTracker :=
  mkDeployTracker (if interval <=? 0 then 60 * Second else interval) ∅.

Definition setCache (t : DeployTracker) (c : gmap (string * string) trackedVersion) : DeployTracker :=
  mkDeployTracker (dt_Interval t) c.

Definition trackerKey (app : WorkerApp) : string * string := (app_Namespace app, app_Name app).

(** [func (t *DeployTracker) Forget(key)] *)
Definition Forget (t : DeployTracker) (key : string * string) : DeployTracker :=
  setCache t (delete key (dt_cache t)).

(** ** The pointer *)

(** The key of the pointer object below the bucket's prefix. *)
Definition pointerKey (prefix : string) : string :=
  if is_empty prefix then "deploy/current.json" else TrimSuffix prefix "/" +:+ "/deploy/current.json".

(** [json.Unmarshal] into the [deployPointer] struct. *)
Definition decodePointerMember (kv : string * json) (version : string) : option string :=
  if matchesField "version" (fst kv) then decodeString version (snd kv) else Some version.

Definition decodePointer (key raw : string) : error + string :=
  if 64 * 2 ^ 10 <? Z.of_nat (String.length raw) then inl (Errorf "deploy pointer exceeds 64 KiB")
  else
    let version := match parseJSON raw with
                   | Some JNull => Some ""
                   | Some (JObj fields) => decodeMembers decodePointerMember fields ""
                   | _ => None
                   end in
    match version with
    | None => inl (Errorf ("decoding " +:+ key))
    | Some version => if is_empty version then inl (Errorf (key +:+ " has no version")) else inr version
    end.

Definition bucketRegion (b : BucketSpec) : string :=
  if is_empty (bucket_Region b)
  then if is_empty (bucket_Endpoint b) then "us-east-1" else defaultBucketRegion
  else bucket_Region b.

Section Deploys.
Context `{KubeLib}.

(** [func (r *WorkerAppReconciler) currentBucketVersion(ctx, app)] *)
Definition currentBucketVersion (app : WorkerApp) : M (error + string) :=
  let spec := spec_Bucket (app_Spec app) in
  let '(rest, ok) := CutPrefix (bucket_Name spec) "s3://" in
  if negb ok then
    Ret (inl (Errorf ("deploy tracking supports s3:// buckets only (got " +:+ bucket_Name spec +:+ ")")))
  else
    let '(bucket, prefix, _) := Cut "/"%char rest in
    let key := pointerKey prefix in
    let ref := spec_DeployTrackingSecretRef (app_Spec app) in
    if is_empty ref then
      Ret (inl (Errorf "deployTrackingSecretRef is required; ambient cloud credentials are never used"))
    else
      got ← trigger (Get Live KSecret "" (app_Namespace app) ref);
      match got with
      | inl e => Ret (inl (Wrapf "reading tracking credentials" e))
      | inr secret =>
          let data := secret_Data secret in
          if is_empty (mapGet data "AWS_ACCESS_KEY_ID") || is_empty (mapGet data "AWS_SECRET_ACCESS_KEY")
          then Ret (inl (Errorf "tracking Secret requires AWS_ACCESS_KEY_ID and AWS_SECRET_ACCESS_KEY"))
          else
            out ← trigger (GetObject
              {| or_Region := bucketRegion spec;
                 or_Endpoint := bucket_Endpoint spec;
                 or_AccessKeyID := mapGet data "AWS_ACCESS_KEY_ID";
                 or_SecretAccessKey := mapGet data "AWS_SECRET_ACCESS_KEY";
                 or_SessionToken := mapGet data "AWS_SESSION_TOKEN";
                 or_Bucket := bucket;
                 or_Key := key |});
            Ret (match out with
                 | inl e => inl (Wrapf ("reading " +:+ key) e)
                 | inr (inl e) => inl e
                 | inr (inr raw) => decodePointer key raw
                 end)
      end.

(** ** The cache *)

(** [json.Marshal] of the bucket and of the fields that identify a tracked
    pointer; empty optional members are left out. *)
Definition omitempty (name value : string) : list string :=
  if is_empty value then [] else [marshalString name +:+ ":" +:+ marshalString value].

Definition marshalObject (members : list string) : string := "{" +:+ Join members "," +:+ "}".

Definition marshalBucket (b : BucketSpec) : string :=
  let creds := bucket_CredentialsFrom b in
  let credMembers := omitempty "iamRole" (creds_IAMRole creds) ++ omitempty "secretRef" (creds_SecretRef creds)
                     ++ omitempty "azureClientID" (creds_AzureClientID creds) in
  marshalObject
    ((marshalString "name" +:+ ":" +:+ marshalString (bucket_Name b)) ::
     omitempty "endpoint" (bucket_Endpoint b) ++ omitempty "storageAccount" (bucket_StorageAccount b) ++
     omitempty "region" (bucket_Region b) ++
     match credMembers with
     | [] => []
     | _ => [marshalString "credentialsFrom" +:+ ":" +:+ marshalObject credMembers]
     end).

(** The identity of what is tracked: the app, its bucket and the Secret as it is
    now. *)
Definition pointerIdentity (app : WorkerApp) (secretUID secretVersion : string) : string :=
  EncodeToString (Sum256 (
    "[" +:+ Join [marshalString (meta_UID (app_Meta app)); marshalBucket (spec_Bucket (app_Spec app));
                  marshalString (spec_DeployTrackingSecretRef (app_Spec app)); marshalString secretUID;
                  marshalString secretVersion] "," +:+ "]")).

(** The eviction before an insertion: when the cache is full the expired
    entries go, then an arbitrary one. *)
Definition maxTracked : nat := 1024.

Definition evictExpired (interval : Z) (kv : (string * string) * trackedVersion)
    (cache : gmap (string * string) trackedVersion) : M (gmap (string * string) trackedVersion) :=
  now ← trigger Now;
  Ret (if interval <=? timeSub now (tv_fetchedAt (snd kv)) then delete (fst kv) cache else cache).

Definition evict (tracker : DeployTracker) : M (gmap (string * string) trackedVersion) :=
  let cache := dt_cache tracker in
  if (maxTracked <=? size cache)%nat then
    entries ← trigger (Order (map_to_list cache));
    cache ← foldM (evictExpired (dt_Interval tracker)) (proj1_sig entries) cache;
    if (maxTracked <=? size cache)%nat then
      keys ← trigger (Order (map fst (map_to_list cache)));
      Ret (match proj1_sig keys with k :: _ => delete k cache | [] => cache end)
    else Ret cache
  else Ret cache.

(** [tracker.cache[key]] when it is about the same pointer. *)
Definition cachedVersion (tracker : DeployTracker) (app : WorkerApp) (identity : string)
  : option trackedVersion :=
  match dt_cache tracker !! trackerKey app with
  | Some cached => if String.eqb (tv_identity cached) identity then Some cached else None
  | None => None
  end.

(** The read behind the cache and the insertion of its outcome. *)
Definition refreshPointer (app : WorkerApp) (tracker : DeployTracker) (identity : string)
    (cached : option trackedVersion) : M (DeployTracker * (string * bool * option error)) :=
  got ← currentBucketVersion app;
  let '(fresh, err) := match got with
                       | inr v => (v, None)
                       | inl e => (match cached with Some c => tv_version c | None => "" end, Some e)
                       end in
  cache ← evict tracker;
  now ← trigger Now;
  Ret (setCache tracker (<[trackerKey app := mkTrackedVersion fresh now identity err]> cache),
       (fresh, match err with Some _ => negb (is_empty fresh) | None => false end, err)).

(** [func (r *WorkerAppReconciler) pointerVersion(ctx, app)]: the version, whether
    it is served past its time because the read failed, and the error. *)
Definition pointerVersion (app : WorkerApp) (tracker : DeployTracker)
  : M (DeployTracker * (string * bool * option error)) :=
  let ref := spec_DeployTrackingSecretRef (app_Spec app) in
  got ← (if is_empty ref then Ret (inr ("", ""))
         else
           got ← trigger (Get Live KSecret "" (app_Namespace app) ref);
           Ret (match got with
                | inl e => inl e
                | inr s => inr (meta_UID (secret_Meta s), meta_ResourceVersion (secret_Meta s))
                end));
  match got with
  | inl e => Ret (tracker, ("", false, Some e))
  | inr (secretUID, secretVersion) =>
      let identity := pointerIdentity app secretUID secretVersion in
      match cachedVersion tracker app identity with
      | None => refreshPointer app tracker identity None
      | Some cached =>
          now ← trigger Now;
          if timeSub now (tv_fetchedAt cached) <? dt_Interval tracker then
            Ret (tracker, (tv_version cached,
                           match tv_failure cached with
                           | Some _ => negb (is_empty (tv_version cached))
                           | None => false
                           end, tv_failure cached))
          else refreshPointer app tracker identity (Some cached)
      end
  end.

(** ** The version to serve *)

(** [func trackableBucket(app)] *)
Definition trackableBucket (app : WorkerApp) : bool := HasPrefix "s3://" (bucket_Name (spec_Bucket (app_Spec app))).

(** [func (r *WorkerAppReconciler) liveTemplateVersion(ctx, app)] *)
Definition liveTemplateVersion (app : WorkerApp) : M string :=
  got ← trigger (Get Live KStatefulSet "" (app_Namespace app) (fleetName app));
  Ret (match got with
       | inl _ => ""
       | inr sts => mapGet (tmpl_Annotations (sts_Template (sts_Spec sts))) appVersionAnnotation
       end).

Definition trackingCondition (status reason message : string) : Condition :=
  condition condDeployTrackingReady status reason message.

(** [func (r *WorkerAppReconciler) resolveAppVersion(ctx, app, conditions)]: the
    tracker as the call leaves it, the conditions it appends, the version and
    whether it is tracked. *)
Definition resolveAppVersion (app : WorkerApp) (tracker : DeployTracker)
  : M (DeployTracker * list Condition * string * bool) :=
  let pinned := spec_AppVersion (app_Spec app) in
  if negb (trackableBucket app) then
    if negb (String.eqb pinned AppVersionAuto) then Ret (tracker, [], pinned, false)
    else
      version ← liveTemplateVersion app;
      Ret (tracker, [trackingCondition "False" "UnsupportedStore"
             ("appVersion " +:+ dquote +:+ "auto" +:+ dquote +:+
              " reads deploy/current.json over the S3 API only; pin appVersion for " +:+
              bucket_Name (spec_Bucket (app_Spec app)))], version, false)
  else if negb (String.eqb pinned AppVersionAuto) then
    if is_empty (spec_DeployTrackingSecretRef (app_Spec app)) then Ret (tracker, [], pinned, false)
    else
      res ← pointerVersion app tracker;
      let '(tracker, (current, _, err)) := res in
      Ret (tracker,
           match err with
           | None =>
               if negb (String.eqb current pinned) then
                 [trackingCondition "False" "VersionMismatch"
                    ("bucket deploy/current.json is " +:+ current +:+ " but spec.appVersion is " +:+ pinned +:+
                     "; nodes load the bucket's version")]
               else []
           | Some _ => []
           end, pinned, false)
  else
    res ← pointerVersion app tracker;
    let '(tracker, (current, stale, err)) := res in
    match err with
    | None => Ret (tracker, [trackingCondition "True" "Tracking" ("following " +:+ current)], current, true)
    | Some e =>
        if stale : bool then
          Ret (tracker, [trackingCondition "False" "BucketUnreachable"
                 ("holding last known version " +:+ current +:+ ": " +:+ errorText e)], current, true)
        else
          version ← liveTemplateVersion app;
          Ret (tracker, [trackingCondition "False" "BucketUnreachable" (errorText e)], version, true)
    end.

End Deploys.
