(* ===== verification/Validation.v ===== *)
(** * Spec validation ([internal/controller/validation.go])

    Every check the reconciler makes before it creates anything, in the order
    of the code; [None] is the nil error. *)

From S2P Require Import Prelude GoStrings Versions Effects Kube Api Cluster Resources Ensure Deploys.
From Stdlib Require Import Ascii.

Local Open Scope Z_scope.

(** ** [runtimeImageTag]: ^v?[0-9]+\.[0-9]+\.[0-9]+([-.+][a-zA-Z0-9.-]+)?$ *)

(** The longest run of digits at the start of a string, which must not be
    empty, and the rest. A run is never followed by a digit, so no shorter run
    could match what comes next. *)
Fixpoint digitRun (s : string) : string * string :=
  match s with
  | String c s' => if isDigit c then let '(d, r) := digitRun s' in (String c d, r) else ("", s)
  | EmptyString => ("", "")
  end.

Definition matchDigits (s : string) : option string :=
  let '(d, r) := digitRun s in if is_empty d then None else Some r.

Definition matchDot (s : string) : option string :=
  match s with String "." r => Some r | _ => None end.

Definition isSuffixStart (c : ascii) : bool :=
  Ascii.eqb c "-" || Ascii.eqb c "." || Ascii.eqb c "+".

Definition isSuffixByte (c : ascii) : bool :=
  let n := N_of_ascii c in
  ((97 <=? n) && (n <=? 122) || (65 <=? n) && (n <=? 90) || (48 <=? n) && (n <=? 57))%N
  || Ascii.eqb c "." || Ascii.eqb c "-".

Fixpoint allBytes (f : ascii -> bool) (s : string) : bool :=
  match s with EmptyString => true | String c s' => f c && allBytes f s' end.

(** The optional group and the end of the text. *)
Definition matchSuffix (s : string) : bool :=
  match s with
  | EmptyString => true
  | String c r => isSuffixStart c && negb (is_empty r) && allBytes isSuffixByte r
  end.

Definition runtimeImageTag (tag : string) : bool :=
  let tag := match tag with String "v" r => r | _ => tag end in
  match (r ← matchDigits tag; r ← matchDot r; r ← matchDigits r; r ← matchDot r; matchDigits r) with
  | Some r => matchSuffix r
  | None => false
  end.

(** The tag of an image reference: after the first colon of its last path
    segment, without a digest. *)
Definition imageTag (image : string) : string * bool :=
  let '(image, _, _) := Cut "@" image in
  let '(_, tag, tagged) := Cut ":" (sliceFrom (Z.to_nat (LastIndex "/" image + 1)) image) in
  (tag, tagged).

Section Validation.
Context `{KubeLib}.

(** [func validateVars(app)] *)
Definition validateVars (app : WorkerApp) : option error :=
  match spec_Vars (app_Spec app) with
  | None => None
  | Some vars =>
      if is_empty (vars_SecretRef vars) || negb (IsDNS1123Subdomain (vars_SecretRef vars)) then
        Some (Errorf "vars.secretRef is required and must be a Secret name")
      else match minorOf (celld_Image (spec_Celld (app_Spec app))) with
      | Some version =>
          if 0 <=? cmp version (MinorVersion 0 5) then
            Some (Errorf ("vars.secretRef is unsupported by celld v0.5+; move vars into the deployment's " +:+
                          "Wrangler configuration and remove spec.vars"))
          else None
      | None => None
      end
  end.

Definition allowedPrefixes (r : WorkerAppReconciler) : list string :=
  match r_AllowedImagePrefixes r with [] => ["ghcr.io/denoland/celld:"] | prefixes => prefixes end.

(** [slices.Contains] *)
Definition contains (l : list string) (s : string) : bool := existsb (fun x => String.eqb x s) l.

Definition endpointAllowed (r : WorkerAppReconciler) (endpoint : string) : bool :=
  match urlParse endpoint with
  | None => false
  | Some u => String.eqb (parsed_Scheme u) "https" && negb (is_empty (parsed_Hostname u))
              && negb (parsed_User u) && is_empty (parsed_RawQuery u) && is_empty (parsed_Fragment u)
              && contains (r_AllowedBucketEndpoints r) endpoint
  end.

(** [func (r *WorkerAppReconciler) validateTrust(app)] *)
Definition validateTrust (r : WorkerAppReconciler) (app : WorkerApp) : option error :=
  let creds := bucket_CredentialsFrom (spec_Bucket (app_Spec app)) in
  let count := length (List.filter (fun v => negb (is_empty v))
                         [creds_IAMRole creds; creds_SecretRef creds; creds_AzureClientID creds]) in
  let endpoint := bucket_Endpoint (spec_Bucket (app_Spec app)) in
  if negb (existsb (fun p => HasPrefix p (celld_Image (spec_Celld (app_Spec app)))) (allowedPrefixes r)) then
    Some (Errorf "celld image is not in the operator image allowlist")
  else if (1 <? count)%nat then Some (Errorf "select only one bucket credential family")
  else if negb (is_empty (creds_IAMRole creds)) && negb (String.eqb (creds_IAMRole creds) iamRoleAuto)
          && negb (contains (r_AllowedIAMRoles r) (creds_IAMRole creds)) then
    Some (Errorf "IAM role is not in the operator allowlist")
  else if negb (is_empty (creds_AzureClientID creds))
          && negb (contains (r_AllowedAzureClientIDs r) (creds_AzureClientID creds)) then
    Some (Errorf "azure identity is not in the operator allowlist")
  else if negb (is_empty endpoint) && negb (endpointAllowed r endpoint) then
    Some (Errorf ("bucket endpoint must be an explicitly allowed HTTPS URL without credentials, query, " +:+
                  "or fragment"))
  else None.

(** A hostname is a DNS name or a wildcard for one. *)
Definition validHost (host : string) : bool := IsDNS1123Subdomain host || IsWildcardDNS1123Subdomain host.

Definition validRef (ref : string) : bool := is_empty ref || IsDNS1123Subdomain ref.

(** Fleet durability on too few nodes, or on nodes without a volume. *)
Definition durabilityShort (app : WorkerApp) : bool :=
  String.eqb (spec_Durability (app_Spec app)) DurabilityFleet &&
  (match spec_Storage (app_Spec app) with None => true | Some _ => false end
   || (desiredReplicas app <? 3)
   || (autoscalingEnabled app &&
       match spec_Autoscaling (app_Spec app) with
       | Some a => defaultPositive (as_MinReplicas a) 2 <? 3
       | None => false
       end)).

Definition scalingInverted (app : WorkerApp) : bool :=
  match spec_Autoscaling (app_Spec app) with
  | Some a => as_Enabled a && (defaultPositive (as_MaxReplicas a) 10 <? defaultPositive (as_MinReplicas a) 2)
  | None => false
  end.

(** [func (r *WorkerAppReconciler) validateApp(app)] *)
Definition validateApp (r : WorkerAppReconciler) (app : WorkerApp) : option error :=
  let spec := app_Spec app in
  let creds := bucket_CredentialsFrom (spec_Bucket spec) in
  let '(tag, tagged) := imageTag (celld_Image (spec_Celld spec)) in
  if (48 <? Z.of_nat (String.length (app_Name app))) || negb (IsDNS1123Label (app_Name app)) then
    Some (Errorf "name must be a DNS label of at most 48 characters")
  else match list_find (fun host => validHost host = false) (spec_Hostnames spec) with
  | Some (_, host) => Some (Errorf ("invalid hostname " +:+ Quote host))
  | None =>
      if is_empty (spec_AppVersion spec) then Some (Errorf "appVersion is required")
      else if negb tagged || negb (runtimeImageTag tag) then
        Some (Errorf ("celld image must include a numeric major.minor.patch tag, " +:+
                      "including when digest-pinned"))
      else if String.eqb (spec_AppVersion spec) AppVersionAuto
              && (negb (trackableBucket app) || is_empty (spec_DeployTrackingSecretRef spec)) then
        Some (Errorf "auto requires an s3 bucket and deployTrackingSecretRef")
      else if negb (validRef (creds_SecretRef creds)) || negb (validRef (spec_DeployTrackingSecretRef spec)) then
        Some (Errorf "invalid Secret reference")
      else match validateVars app with
      | Some e => Some e
      | None =>
          if (desiredReplicas app <? 1) || (res_MemoryGi (spec_Resources spec) <? 0)
             || (65536 <? res_MemoryGi (spec_Resources spec)) then
            Some (Errorf "invalid replica or memory configuration")
          else if scalingInverted app then Some (Errorf "minReplicas exceeds maxReplicas")
          else if durabilityShort app then
            Some (Errorf "fleet durability requires persistent storage and at least three replicas")
          else if negb (IsDNS1123Subdomain (clusterDomain app)) then Some (Errorf "invalid clusterDomain")
          else validateTrust r app
      end
  end.

End Validation.
