(* ===== verification/Rollout.v ===== *)
(** * The gated rollout ([internal/controller/rollout.go])

    The StatefulSet state machine of one reconcile pass: [reconcileFleet]
    decides between creating the fleet, refusing, recreating, starting a rolling
    update, advancing one ([rolloutStep]) and observing the steady state
    ([steadyFleet]). *)

From S2P Require Import Prelude GoStrings GoTime Sha256 Versions Effects Kube Api Cluster Resources.
From S2P Require Import FleetState Ensure.

Local Open Scope Z_scope.

Definition settleAnnotation : string := "celld-operator.io/settle-until".
Definition recreateAnnotation : string := "celld-operator.io/recreating".

(** ** Pure helpers *)

(** [func stsContainerImage(sts)] *)
Definition stsContainerImage (sts : StatefulSet) : string :=
  match list_find (fun c => ctr_Name c = celldContainerName)
          (pod_Containers (tmpl_Spec (sts_Template (sts_Spec sts)))) with
  | Some (_, c) => ctr_Image c
  | None => ""
  end.

(** [func usesFleetDurability(sts)]: the first [CELLD_DURABILITY] of a celld
    container decides; celld defaults to fleet when there is none. *)
Definition usesFleetDurability (sts : StatefulSet) : bool :=
  let celld := filter (fun c => ctr_Name c = celldContainerName)
                 (pod_Containers (tmpl_Spec (sts_Template (sts_Spec sts)))) in
  match list_find (fun e => env_Name e = "CELLD_DURABILITY") (celld ≫= ctr_Env) with
  | Some (_, e) => negb (String.eqb (env_Value e) DurabilityBucket)
  | None => true
  end.

(** [func fleetBreakingReason(existing, desired)] *)
Definition fleetBreakingReason (existing desired : StatefulSet) : string :=
  let fromImage := stsContainerImage existing in
  let toImage := stsContainerImage desired in
  let reason := breakingReason fromImage toImage in
  if negb (is_empty reason) then reason
  else match minorOf fromImage, minorOf toImage with
  | Some from, Some to =>
      let v06 := MinorVersion 0 6 in
      let crosses := ((cmp from v06 <? 0) && (0 <=? cmp to v06))
                     || ((0 <=? cmp from v06) && (cmp to v06 <? 0)) in
      if crosses && (usesFleetDurability existing || usesFleetDurability desired)
      then "v0.5 and v0.6 fleet replication streams are incompatible; stop the whole fleet first"
      else ""
  | _, _ => ""
  end.

(** [func stsPartition(sts)] *)
Definition stsPartition (sts : StatefulSet) : Z :=
  match us_RollingUpdate (sts_UpdateStrategy (sts_Spec sts)) with
  | Some (Some p) => p
  | _ => 0
  end.

Definition setSpec (sts : StatefulSet) (spec : StatefulSetSpec) : StatefulSet :=
  mkStatefulSet (sts_Meta sts) spec (sts_Status sts).

Definition setStsUpdateStrategy (sts : StatefulSet) (u : StatefulSetUpdateStrategy) : StatefulSet :=
  let s := sts_Spec sts in
  setSpec sts (mkStatefulSetSpec (sts_VolumeClaimTemplates s) (sts_RetentionPolicy s)
    (sts_ServiceName s) (sts_Replicas s) (sts_Selector s) (sts_Template s) u).

Definition setStsTemplate (sts : StatefulSet) (t : PodTemplateSpec) : StatefulSet :=
  let s := sts_Spec sts in
  setSpec sts (mkStatefulSetSpec (sts_VolumeClaimTemplates s) (sts_RetentionPolicy s)
    (sts_ServiceName s) (sts_Replicas s) (sts_Selector s) t (sts_UpdateStrategy s)).

Definition setStsReplicas (sts : StatefulSet) (n : Z) : StatefulSet :=
  let s := sts_Spec sts in
  setSpec sts (mkStatefulSetSpec (sts_VolumeClaimTemplates s) (sts_RetentionPolicy s)
    (sts_ServiceName s) (Some n) (sts_Selector s) (sts_Template s) (sts_UpdateStrategy s)).

Definition setStsAnnotations (sts : StatefulSet) (a : gmap string string) : StatefulSet :=
  mkStatefulSet (setAnnotations (sts_Meta sts) a) (sts_Spec sts) (sts_Status sts).

Abbreviation sts_Annotations s := (meta_Annotations (sts_Meta s)).
Abbreviation liveReplicas s := (deref (sts_Replicas (sts_Spec s)) 0).

(** [func setStsPartition(sts, partition)] *)
Definition setStsPartition (sts : StatefulSet) (partition : Z) : StatefulSet :=
  setStsUpdateStrategy sts (mkUpdateStrategy "RollingUpdate" (Some (Some partition))).

Definition annotate (sts : StatefulSet) (k v : string) : StatefulSet :=
  setStsAnnotations sts (<[k := v]> (sts_Annotations sts)).

(** [func conflictOutcome(app)] *)
Definition conflictOutcome (app : WorkerApp) : fleetOutcome :=
  let phase := status_Phase (app_Status app) in
  mkOutcome (if is_empty phase then PhasePending else phase) 0
    "statefulset write conflicted; retrying" (3 * Second) false.

(** [func runtimeChangeRefusal(app, oldImage)] *)
Definition runtimeChangeRefusal (app : WorkerApp) (oldImage : string) : string :=
  let image := celld_Image (spec_Celld (app_Spec app)) in
  let from := minorOf oldImage in
  let to := minorOf image in
  let v03 := MinorVersion 0 3 in
  let downgrade := match from, to with
                   | Some f, Some t => (0 <=? cmp f v03) && (cmp t v03 <? 0)
                   | _, _ => false
                   end in
  if downgrade
  then "downgrade requires offline durability verification and migration to a new WorkerApp"
  else
    let unknown := match from, to with Some _, Some _ => false | _, _ => true end in
    if negb (String.eqb oldImage image) && unknown
       && negb (String.eqb (celld_UpdateStrategy (spec_Celld (app_Spec app))) UpdateStrategyRecreate)
    then "unrecognized live image requires Recreate"
    else "".

(** ** Writing the StatefulSet *)

(** [func (r *WorkerAppReconciler) updateFleet(ctx, sts)]: the object after the
    call, whether the write conflicted, and any other error. *)
Definition updateFleet (sts : StatefulSet) : M (StatefulSet * bool * option error) :=
  r ← trigger (Update KStatefulSet sts);
  Ret (match r with
       | inr sts' => (sts', false, None)
       | inl e => if IsConflict e then (sts, true, None) else (sts, false, Some e)
       end).

(** The three-way continuation after [updateFleet] that every caller has. *)
Definition afterUpdate (app : WorkerApp) (sts : StatefulSet)
    (k : StatefulSet -> M (fleetOutcome * option error)) : M (fleetOutcome * option error) :=
  u ← updateFleet sts;
  match u with
  | (_, _, Some e) => Ret (zeroOutcome, Some e)
  | (_, true, None) => Ret (conflictOutcome app, None)
  | (sts', false, None) => k sts'
  end.

(** ** The Secret digest *)

Definition nul : string := String Ascii.zero EmptyString.

(** What the [write] closure feeds the digest. *)
Definition writeParts (parts : list string) : string :=
  foldr (fun p acc => p +:+ nul +:+ acc) "" parts.

Definition sortedKeys (data : gmap string string) : list string :=
  sortStrings (map fst (map_to_list data)).

(** The parts one Secret contributes. *)
Definition secretParts (name : string) (data : gmap string string) : list string :=
  "secret" :: name :: (sortedKeys data ≫= (fun k => [k; mapGet data k])).

Definition configRefs (app : WorkerApp) : list string :=
  (match spec_Vars (app_Spec app) with
   | Some v => if negb (is_empty (vars_SecretRef v)) then [vars_SecretRef v] else []
   | None => []
   end) ++
  (let ref := creds_SecretRef (bucket_CredentialsFrom (spec_Bucket (app_Spec app))) in
   if negb (is_empty ref) then [ref] else []).

Definition digestSecret (app : WorkerApp) (name : string) (acc : string)
  : M (control error string) :=
  got ← trigger (Get Cached KSecret "" (app_Namespace app) name);
  match got with
  | inl e =>
      if IsNotFound e then Ret (Continue (acc +:+ writeParts ["missing"; name]))
      else Ret (Return (Wrapf ("reading secret " +:+ name) e))
  | inr secret => Ret (Continue (acc +:+ writeParts (secretParts name (secret_Data secret))))
  end.

(** [func (r *WorkerAppReconciler) configHash(ctx, app)] *)
Definition configHash (app : WorkerApp) : M (error + string) :=
  match configRefs app with
  | [] => Ret (inr "")
  | refs =>
      c ← forRange refs (digestSecret app) "";
      Ret (match c with
           | Return e => inl e
           | Continue bytes => inr (sliceTo 16 (EncodeToString (Sum256 bytes)))
           end)
  end.

Section Rollout.
Context `{KubeLib}.

(** ** Live pods against a template change *)

(** The StatefulSet literal [liveFleetBreakingReason] wraps a pod's spec in. *)
Definition podAsStatefulSet (pod : Pod) : StatefulSet :=
  mkStatefulSet (newMeta "" "" ∅ ∅)
    (mkStatefulSetSpec [] None "" None ∅ (mkPodTemplateSpec ∅ ∅ (pod_Spec pod))
       (mkUpdateStrategy "" None)) emptyStatus.

Definition podBreaking (existing desired : StatefulSet) (pod : Pod) : bool :=
  IsControlledBy (pod_Meta pod) (sts_Meta existing)
  && negb (is_empty (fleetBreakingReason (podAsStatefulSet pod) desired)).

(** [func (r *WorkerAppReconciler) liveFleetBreakingReason(ctx, app, existing, desired)] *)
Definition liveFleetBreakingReason (app : WorkerApp) (existing desired : StatefulSet)
  : M (error + string) :=
  let reason := fleetBreakingReason existing desired in
  if negb (is_empty reason) then Ret (inr reason)
  else
    got ← trigger (ListPods Live (app_Namespace app) (selectorLabels app));
    Ret (match got with
         | inl e => inl e
         | inr pods =>
             match list_find (fun p => podBreaking existing desired p = true) pods with
             | Some (_, pod) =>
                 inr ("pod " +:+ pod_Name pod +:+ ": "
                      +:+ fleetBreakingReason (podAsStatefulSet pod) desired)
             | None => inr ""
             end
         end).

(** ** Observing the fleet *)

Definition ordinalName (stsName : string) (ord : Z) : string := stsName +:+ "-" +:+ pretty ord.

(** [0, 1, ..., n-1] as the source's [range n] over an [int32]. *)
Definition ordinals (n : Z) : list Z := seqZ 0 n.

(** [func (r *WorkerAppReconciler) observeFleet(ctx, app, sts)] *)
Definition observeFleet (app : WorkerApp) (sts : StatefulSet)
  : M (gmap string PodState * Z * option error) :=
  got ← trigger (ListPods Live (app_Namespace app) (selectorLabels app));
  match got with
  | inl e => Ret (∅, 0, Some e)
  | inr pods =>
      let expected := liveReplicas sts in
      if (expected <? 1) || negb (wrap32 (Z.of_nat (length pods)) =? expected) then
        Ret (∅, 0, Some (Errorf ("expected " +:+ pretty expected +:+ " pods, found "
                                 +:+ pretty (Z.of_nat (length pods)))))
      else match list_find (fun p => (IsControlledBy (pod_Meta p) (sts_Meta sts) && podReady p) = false)
                   pods with
      | Some (_, pod) =>
          Ret (∅, 0, Some (Errorf ("pod " +:+ pod_Name pod +:+ " is not ready or not owned by the fleet")))
      | None =>
          let names : gset string := list_to_set (map (fun p => pod_Name p) pods) in
          match list_find (fun i => ordinalName (meta_Name (sts_Meta sts)) i ∉ names)
                  (ordinals expected) with
          | Some (_, i) => Ret (∅, 0, Some (Errorf ("missing ordinal " +:+ pretty i)))
          | None => FleetSweep pods
          end
      end
  end.

(** ** Advancing a rolling update *)

(** The body of gate 1's loop: one released ordinal. *)
Definition gateOrdinal (app : WorkerApp) (updateRevision : string) (out : fleetOutcome)
    (ord : Z) (_ : unit) : M (control (fleetOutcome * option error) unit) :=
  let waiting why := mkOutcome (out_Phase out) (out_Partition out)
                       (ordinalName (fleetName app) ord +:+ why) (out_Requeue out) (out_RolledOut out) in
  got ← trigger (Get Cached KPod "" (app_Namespace app) (ordinalName (fleetName app) ord));
  Ret (match got with
       | inl e => Return (waiting ": missing", IgnoreNotFound e)
       | inr pod =>
           if negb (String.eqb (mapGet (meta_Labels (pod_Meta pod)) "controller-revision-hash")
                      updateRevision)
           then Return (waiting ": updating", None)
           else if negb (podReady pod) then Return (waiting ": not ready", None)
           else Continue tt
       end).

Definition waitingOn (out : fleetOutcome) (w : string) : fleetOutcome :=
  mkOutcome (out_Phase out) (out_Partition out) w (out_Requeue out) (out_RolledOut out).

(** [rolloutStep] from the point where [partition] is at most the live replica
    count. *)
Definition rolloutGates (app : WorkerApp) (sts : StatefulSet) (partition live : Z)
  : M (fleetOutcome * option error) :=
  let out := mkOutcome PhaseRollingOut partition "" (10 * Second) false in
  if (partition <=? 0)
     || negb (sts_ObservedGeneration (sts_Status sts) =? meta_Generation (sts_Meta sts))
  then Ret (waitingOn out "waiting for StatefulSet observation", None)
  else
    let settle := parseRFC3339Nano (mapGet (sts_Annotations sts) settleAnnotation) in
    settling ← match settle with
               | Some deadline =>
                   now ← trigger Now;
                   Ret (if now <? deadline then Some deadline else None)
               | None => Ret None
               end;
    match settling with
    | Some deadline =>
        now ← trigger Now;
        Ret (mkOutcome PhaseRollingOut partition "waiting for rollout settle interval"
               (timeSub deadline now) false, None)
    | None =>
        if is_empty (sts_UpdateRevision (sts_Status sts))
        then Ret (waitingOn out "statefulset: update revision pending", None)
        else
          c ← forRange (seqZ partition (live - partition))
                (gateOrdinal app (sts_UpdateRevision (sts_Status sts)) out) tt;
          match c with
          | Return r => Ret r
          | Continue _ =>
              obs ← observeFleet app sts;
              let '(_, restoring, err) := obs in
              if (match err with Some _ => true | None => false end) || negb (restoring =? 0)
              then Ret (waitingOn out ("fleet state: restoring=" +:+ pretty restoring
                                       +:+ ", error=" +:+ errorV err), None)
              else
                let partition := partition - 1 in
                now ← trigger Now;
                let sts := annotate sts settleAnnotation (formatRFC3339Nano (now + 10 * Second)) in
                let sts := setStsPartition sts partition in
                afterUpdate app sts (fun _ =>
                  Ret (mkOutcome PhaseRollingOut partition
                         (ordinalName (fleetName app) partition +:+ ": updating")
                         (10 * Second) false, None))
          end
    end.

(** [func (r *WorkerAppReconciler) rolloutStep(ctx, app, sts)] *)
Definition rolloutStep (app : WorkerApp) (sts : StatefulSet) : M (fleetOutcome * option error) :=
  let partition := stsPartition sts in
  let live := liveReplicas sts in
  if live <? partition then
    afterUpdate app (setStsPartition sts live) (fun sts' => rolloutGates app sts' live live)
  else rolloutGates app sts partition live.

(** ** Stop-all-then-start *)

(** [func (r *WorkerAppReconciler) recreateStep(ctx, app, existing, desired, hazard)] *)
Definition recreateStep (app : WorkerApp) (existing desired : StatefulSet) (hazard : string)
  : M (fleetOutcome * option error) :=
  let out w := mkOutcome PhaseRecreating 0 w (10 * Second) false in
  if negb (liveReplicas existing =? 0) then
    let existing := annotate (setStsReplicas existing 0) recreateAnnotation annotationTrue in
    afterUpdate app existing (fun _ =>
      Ret (out ("scaling to zero for non-rolling celld change" +:+
                (if negb (is_empty hazard) then ": " +:+ hazard else "")), None))
  else
    got ← trigger (ListPods Live (app_Namespace app) (selectorLabels app));
    match got with
    | inl e => Ret (out "", Some e)
    | inr oldPods =>
        let st := sts_Status existing in
        if negb (sts_ObservedGeneration st =? meta_Generation (sts_Meta existing))
           || (0 <? Z.of_nat (length oldPods)) || (0 <? sts_StatusReplicas st)
        then Ret (out (pretty (sts_StatusReplicas st) +:+ " pods draining"), None)
        else
          let existing := setStsTemplate existing (sts_Template (sts_Spec desired)) in
          let existing := annotate existing templateHashAnnotation
                            (mapGet (sts_Annotations desired) templateHashAnnotation) in
          let existing := setStsAnnotations existing
                            (delete recreateAnnotation (sts_Annotations existing)) in
          let existing := setStsReplicas existing (desiredReplicas app) in
          let existing := setStsPartition existing 0 in
          afterUpdate app existing (fun _ => Ret (out "starting new fleet", None))
    end.

(** ** Pausing the autoscaler *)

(** A status condition of an unstructured object with [type] Paused and
    [status] True. *)
Definition isPausedCondition (c : any) : bool :=
  match c with
  | AMap m =>
      match anyLookup "type" m, anyLookup "status" m with
      | Some (AString t), Some (AString s) => String.eqb t "Paused" && String.eqb s "True"
      | _, _ => false
      end
  | _ => false
  end.

(** [unstructured.NestedSlice(obj.Object, "status", "conditions")] *)
Definition statusConditions (u : Unstructured) : list any :=
  match u_StatusObject u with
  | AMap m => match anyLookup "conditions" m with Some (AList l) => l | _ => [] end
  | _ => []
  end.

(** The final check: no HPA targets the fleet. *)
Definition noHPA (app : WorkerApp) : M (error + bool) :=
  got ← trigger (ListHPAs (app_Namespace app));
  Ret (match got with
       | inl e => inl e
       | inr hpas =>
           inr (negb (existsb (fun h => String.eqb (hpa_TargetKind h) "StatefulSet"
                                        && String.eqb (hpa_TargetName h) (fleetName app)) hpas))
       end).

(** [func (r *WorkerAppReconciler) pauseScaling(ctx, app)] *)
Definition pauseScaling (r : WorkerAppReconciler) (app : WorkerApp) : M (error + bool) :=
  got ← trigger (Get Live KUnstructured scaledObjectGVK (app_Namespace app) (fleetName app));
  match spec_Autoscaling (app_Spec app), autoscalingEnabled app with
  | Some a, true =>
      match got with
      | inl e =>
          if IsNoMatchError e then noHPA app
          else if negb (IsNotFound e) then Ret (inl e)
          else
            err ← ensureUnstructured app (buildScaledObject app a (r_PrometheusURL r) true);
            Ret (match err with Some e => inl e | None => inr false end)
      | inr obj =>
          if negb (String.eqb (mapGet (meta_Annotations (u_Meta obj)) kedaPausedAnnotation) annotationTrue)
          then
            err ← ensureUnstructured app (buildScaledObject app a (r_PrometheusURL r) true);
            Ret (match err with Some e => inl e | None => inr false end)
          else match requireOwnership app "*unstructured.Unstructured" (u_Meta obj) with
          | Some e => Ret (inl e)
          | None =>
              if existsb isPausedCondition (statusConditions obj) then noHPA app else Ret (inr false)
          end
      end
  | _, _ =>
      match got with
      | inr _ =>
          res ← ensureScaledObject r app zeroOutcome;
          Ret (if (snd res : bool) then inl (Errorf "could not remove disabled scaler") else inr false)
      | inl e =>
          if negb (IsNotFound e) && negb (IsNoMatchError e) then Ret (inl e) else noHPA app
      end
  end.

(** ** The steady state *)

(** A sample that has not converged on [appVersion]. *)
Definition notConverged (appVersion : string) (state : PodState) : bool :=
  match ps_Deployment state with
  | None => true
  | Some d =>
      negb (String.eqb (dep_Version d) appVersion)
      || (0 <? Z.of_nat (length (dep_Draining d))) || negb (dep_Swapping d =? 0)
  end.

(** [func (r *WorkerAppReconciler) steadyFleet(ctx, app, existing, appVersion)] *)
Definition steadyFleet (app : WorkerApp) (existing : StatefulSet) (appVersion : string)
  : M (fleetOutcome * option error) :=
  let pending w requeue := mkOutcome PhasePending 0 w (requeue * Second) false in
  if negb (autoscalingEnabled app) && negb (liveReplicas existing =? desiredReplicas app) then
    afterUpdate app (setStsReplicas existing (desiredReplicas app)) (fun _ => Ret (pending "" 10, None))
  else
    let live := liveReplicas existing in
    let st := sts_Status existing in
    let converged := (sts_ReadyReplicas st =? live) && (sts_UpdatedReplicas st =? live)
                     && (sts_ObservedGeneration st =? meta_Generation (sts_Meta existing)) in
    if negb converged then
      Ret (pending ("fleet: " +:+ pretty (sts_ReadyReplicas st) +:+ "/" +:+ pretty live +:+ " ready") 15,
           None)
    else
      obs ← observeFleet app existing;
      let '(states, restoring, err) := obs in
      if (match err with Some _ => true | None => false end) || negb (restoring =? 0) then
        Ret (pending ("waiting for complete fleet state: restoring=" +:+ pretty restoring
                      +:+ ", error=" +:+ errorV err) 15, None)
      else
        order ← trigger (Order (map_to_list states));
        match list_find (fun kv => notConverged appVersion (snd kv) = true) (proj1_sig order) with
        | Some (_, (name, _)) =>
            Ret (pending (name +:+ ": deployment not converged") 15, None)
        | None => Ret (mkOutcome PhaseReady 0 "" (30 * Second) true, None)
        end.

(** ** One reconcile pass over the fleet *)

(** The branch of [reconcileFleet] for a changed template: refuse, recreate, or
    apply the template frozen at the live replica count. *)
Definition templateStep (app : WorkerApp) (desired existing : StatefulSet)
  : M (fleetOutcome * option error) :=
  let desiredHash := mapGet (sts_Annotations desired) templateHashAnnotation in
  let oldImage := stsContainerImage existing in
  let recreateStrategy :=
    String.eqb (celld_UpdateStrategy (spec_Celld (app_Spec app))) UpdateStrategyRecreate in
  b ← liveFleetBreakingReason app existing desired;
  match b with
  | inl e => Ret (zeroOutcome, Some e)
  | inr breaking =>
      if negb (is_empty breaking) && negb recreateStrategy then
        Ret (mkOutcome PhaseDegraded 0
               ("celld " +:+ oldImage +:+ " -> " +:+ celld_Image (spec_Celld (app_Spec app))
                +:+ " is not rolling-safe: " +:+ breaking
                +:+ "; set celld.updateStrategy: Recreate") 0 false, None)
      else if recreateStrategy then recreateStep app existing desired breaking
      else
        let live := liveReplicas existing in
        let sts := setStsTemplate existing (sts_Template (sts_Spec desired)) in
        let sts := annotate sts templateHashAnnotation desiredHash in
        now ← trigger Now;
        let sts := annotate sts settleAnnotation (formatRFC3339Nano (now + 10 * Second)) in
        let sts := setStsPartition sts live in
        afterUpdate app sts (fun _ =>
          Ret (mkOutcome PhaseRollingOut live "" (10 * Second) false, None))
  end.

(** [reconcileFleet] once the StatefulSet was read and is ours. *)
Definition reconcileExisting (r : WorkerAppReconciler) (app : WorkerApp) (appVersion : string)
    (desired existing : StatefulSet) : M (fleetOutcome * option error) :=
  let desiredHash := mapGet (sts_Annotations desired) templateHashAnnotation in
  let templateChanged :=
    negb (String.eqb (mapGet (sts_Annotations existing) templateHashAnnotation) desiredHash) in
  let recreating := String.eqb (mapGet (sts_Annotations existing) recreateAnnotation) annotationTrue in
  let oldImage := stsContainerImage existing in
  paused ← (if templateChanged || (0 <? stsPartition existing) || recreating
               || (negb (autoscalingEnabled app) && negb (liveReplicas existing =? desiredReplicas app))
            then pauseScaling r app else Ret (inr true));
  match paused with
  | inl e => Ret (zeroOutcome, Some e)
  | inr false =>
      Ret (mkOutcome PhaseRollingOut 0 "waiting for KEDA pause and HPA removal" (5 * Second) false, None)
  | inr true =>
      let refusal := runtimeChangeRefusal app oldImage in
      if negb (is_empty refusal) then Ret (mkOutcome PhaseDegraded 0 refusal Minute false, None)
      else if recreating then recreateStep app existing desired ""
      else if templateChanged then templateStep app desired existing
      else if 0 <? stsPartition existing then rolloutStep app existing
      else steadyFleet app existing appVersion
  end.

(** [func (r *WorkerAppReconciler) reconcileFleet(ctx, app, appVersion)] *)
Definition reconcileFleet (r : WorkerAppReconciler) (app : WorkerApp) (appVersion : string)
  : M (fleetOutcome * option error) :=
  h ← configHash app;
  match h with
  | inl e => Ret (zeroOutcome, Some e)
  | inr configHash =>
      let desired := buildStatefulSet app configHash appVersion in
      match SetControllerReference (app_Meta app) (sts_Meta desired) with
      | inl e => Ret (zeroOutcome, Some e)
      | inr m =>
          let desired := mkStatefulSet m (sts_Spec desired) (sts_Status desired) in
          got ← trigger (Get Live KStatefulSet "" (app_Namespace app) (fleetName app));
          match got with
          | inl e =>
              if IsNotFound e then
                c ← trigger (Create KStatefulSet desired);
                Ret (match c with
                     | inl e => (zeroOutcome, Some e)
                     | inr _ => (mkOutcome PhasePending 0 "" (10 * Second) false, None)
                     end)
              else Ret (zeroOutcome, Some e)
          | inr existing =>
              match requireOwnership app "*v1.StatefulSet" (sts_Meta existing) with
              | Some e => Ret (zeroOutcome, Some e)
              | None => reconcileExisting r app appVersion desired existing
              end
          end
      end
  end.

End Rollout.
