(* ===== verification/Reconcile.v ===== *)
(** * Reconciling a WorkerApp ([internal/controller/workerapp_controller.go])

    [Reconcile] itself: the order of validation, foundation, version, fleet,
    edge, mesh and scaling, the status it reports and when it comes back. *)

From S2P Require Import Prelude GoStrings GoTime Effects Kube Api Cluster Resources FleetState Ensure Owned Routes.
From S2P Require Import Deploys Validation Rollout.

Local Open Scope Z_scope.

(** [ctrl.Result] *)
Record Result := mkResult { res_Requeue : bool; res_RequeueAfter : Z }.

Definition zeroResult : Result := mkResult false 0.

(** ** Status *)

#[export] Instance PodDeployment_eq_dec : EqDecision PodDeployment.
Proof. solve_decision. Defined.
#[export] Instance RolloutStatus_eq_dec : EqDecision RolloutStatus.
Proof. solve_decision. Defined.
#[export] Instance FleetStatus_eq_dec : EqDecision FleetStatus.
Proof. solve_decision. Defined.
#[export] Instance WorkerAppStatus_eq_dec : EqDecision WorkerAppStatus.
Proof. solve_decision. Defined.

Definition setStatus (app : WorkerApp) (s : WorkerAppStatus) : WorkerApp :=
  mkWorkerApp (app_Meta app) (app_Spec app) s.

Definition setGeneration (c : Condition) (generation : Z) : Condition :=
  mkCondition (cond_Type c) (cond_Status c) (cond_Reason c) (cond_Message c) generation.

(** [func boolToCondition(b)] *)
Definition boolToCondition (b : bool) : string := if b then "True" else "False".

(** The zero value a failed read leaves behind. *)
Definition zeroStatefulSet : StatefulSet :=
  mkStatefulSet (newMeta "" "" ∅ ∅)
    (mkStatefulSetSpec [] None "" None ∅
       (mkPodTemplateSpec ∅ ∅ (mkPodSpec None None ∅ [] None "" None [] [] []))
       (mkUpdateStrategy "" None))
    emptyStatus.

(** The entry of one pod in the list of deployments. *)
Definition podDeployment (kv : string * PodState) : option PodDeployment :=
  (fun d => mkPodDeployment (fst kv) (dep_Version d) (dep_Generation d)
              (wrap32 (Z.of_nat (length (dep_Draining d)))) (dep_Swapping d))
    <$> ps_Deployment (snd kv).

(** [slices.SortFunc] by name. *)
Definition sortDeployments (l : list PodDeployment) : list PodDeployment :=
  merge_sort (fun a b => Is_true (String.leb (pd_Name a) (pd_Name b))) l.

Definition optionalConditions : list string := [condIngressReady; condAutoscalingReady; condDeployTrackingReady].

(** The three conditions that summarize a phase. *)
Definition phaseConditions (outcome : fleetOutcome) : list Condition :=
  let phase := out_Phase outcome in
  let progressing := String.eqb phase PhasePending || String.eqb phase PhaseRollingOut
                     || String.eqb phase PhaseRecreating in
  [condition "Available" (boolToCondition (String.eqb phase PhaseReady)) phase "";
   condition "Progressing" (boolToCondition progressing) phase (out_WaitingOn outcome);
   condition "Degraded" (boolToCondition (String.eqb phase PhaseDegraded)) phase (out_WaitingOn outcome)].

Section Reconcile.
Context `{KubeLib}.

(** The conditions of the app after those of this pass: a condition of a part
    that did not report goes. *)
Definition mergeConditions (generation : Z) (old conditions : list Condition) : list Condition :=
  let kept := foldl (fun l kind => if existsb (fun c => String.eqb (cond_Type c) kind) conditions then l
                                   else RemoveStatusCondition l kind) old optionalConditions in
  foldl (fun l c => SetStatusCondition l (setGeneration c generation)) kept conditions.

(** What [updateStatus] observes of the fleet: the number of ready pods, the
    deployments, the restoring sum and the condition it appends. *)
Definition observeStatus (app : WorkerApp) (ready : Z) (sts : StatefulSet)
  : M (FleetStatus * list PodDeployment * Condition) :=
  res ← observeFleet app sts;
  let '(states, restoring, err) := res in
  match err with
  | None =>
      order ← trigger (Order (map_to_list (states : gmap string PodState)));
      Ret (mkFleetStatus ready (wrap32 restoring), sortDeployments (omap podDeployment (proj1_sig order)),
           condition "FleetStateReady" "True" "Observed" "")
  | Some e => Ret (mkFleetStatus ready 0, [], condition "FleetStateReady" "False" "Unavailable" (errorText e))
  end.

(** [func (r *WorkerAppReconciler) updateStatus(ctx, app, outcome, appVersion, conditions)] *)
Definition updateStatus (app : WorkerApp) (outcome : fleetOutcome) (appVersion : string)
    (conditions : list Condition) : M (option error) :=
  let before := app_Status app in
  got ← trigger (Get Cached KStatefulSet "" (app_Namespace app) (fleetName app));
  let '(ready, sts) := match got with
                       | inr sts => (sts_ReadyReplicas (sts_Status sts), sts)
                       | inl _ => (fleet_Ready (status_Fleet before), zeroStatefulSet)
                       end in
  res ← observeStatus app ready sts;
  let '(fleet, deployments, observed) := res in
  let status :=
    {| status_ExpectedAppVersion := appVersion;
       status_Deployments := deployments;
       status_Phase := out_Phase outcome;
       status_RolledOutAppVersion := if out_RolledOut outcome then appVersion else "";
       status_Rollout := mkRolloutStatus (out_Partition outcome) (out_WaitingOn outcome);
       status_Fleet := fleet;
       status_Conditions := mergeConditions (meta_Generation (app_Meta app)) (status_Conditions before)
                              (conditions ++ [observed] ++ phaseConditions outcome) |} in
  if bool_decide (before = status) then Ret None
  else
    r ← trigger (StatusUpdate (setStatus app status));
    Ret (writeError r).

(** ** An app that does not validate *)

(** The status of an app that is not accepted. *)
Definition invalidStatus (app : WorkerApp) (e : error) : WorkerAppStatus :=
  let s := app_Status app in
  let generation := meta_Generation (app_Meta app) in
  let conditions := foldl RemoveStatusCondition (status_Conditions s) optionalConditions in
  let conditions := SetStatusCondition conditions
                      (mkCondition "SpecValid" "False" "InvalidConfiguration" (errorText e) generation) in
  let conditions := SetStatusCondition conditions
                      (mkCondition "Available" "False" "InvalidConfiguration" "" generation) in
  mkWorkerAppStatus (status_ExpectedAppVersion s) (status_Deployments s) PhaseDegraded ""
    (status_Rollout s) (status_Fleet s) conditions.

Definition rejectApp (app : WorkerApp) (e : error) : M (Result * option error) :=
  let status := invalidStatus app e in
  if bool_decide (app_Status app = status) then Ret (mkResult false Minute, None)
  else
    r ← trigger (StatusUpdate (setStatus app status));
    Ret (zeroResult, writeError r).

(** ** [Reconcile] *)

(** An upper bound on the time until the next pass. *)
Definition capRequeue (requeue cap : Z) : Z := if (requeue =? 0) || (cap <? requeue) then cap else requeue.

(** The pass over an accepted app, after the foundation. *)
Definition reconcileAccepted (r : WorkerAppReconciler) (app : WorkerApp) (tracker : DeployTracker)
  : M (DeployTracker * Result * option error) :=
  res ← resolveAppVersion app tracker;
  let '(tracker, trackingConditions, appVersion, tracking) := res in
  res ← reconcileFleet r app appVersion;
  let '(outcome, err) := res in
  match err with
  | Some e => Ret (tracker, zeroResult, Some e)
  | None =>
      let requeue := if (tracking : bool) then capRequeue (out_Requeue outcome) (dt_Interval tracker)
                     else out_Requeue outcome in
      ingress ← ensureIngress r app;
      mesh ← ensureAuthorizationPolicy r app;
      scaled ← ensureScaledObject r app outcome;
      let transient := (snd scaled : bool) || (snd mesh || snd ingress) in
      let requeue := if transient then capRequeue requeue (15 * Second) else requeue in
      let conditions := [condition "SpecValid" "True" "Validated" ""; credentialsCondition app] ++
                        trackingConditions ++ fst ingress ++ fst mesh ++ fst scaled in
      err ← updateStatus app outcome appVersion conditions;
      Ret (match err with
           | None => (tracker, mkResult false requeue, None)
           | Some e => if IsConflict e then (tracker, mkResult true 0, None) else (tracker, zeroResult, Some e)
           end)
  end.

(** [func (r *WorkerAppReconciler) Reconcile(ctx, req)] *)
Definition Reconcile (r : WorkerAppReconciler) (tracker : DeployTracker) (namespace name : string)
  : M (DeployTracker * Result * option error) :=
  got ← trigger (Get Cached KWorkerApp "" namespace name);
  match got with
  | inl e =>
      Ret (if IsNotFound e then Forget tracker (namespace, name) else tracker, zeroResult, IgnoreNotFound e)
  | inr app =>
      match meta_DeletionTimestamp (app_Meta app) with
      | Some _ => Ret (Forget tracker (namespace, name), zeroResult, None)
      | None =>
          match validateApp r app with
          | Some e => res ← rejectApp app e; Ret (tracker, fst res, snd res)
          | None =>
              err ← ensureFoundation r app;
              match err with
              | Some e => Ret (tracker, zeroResult, Some e)
              | None => reconcileAccepted r app tracker
              end
          end
      end
  end.

End Reconcile.
