(* ===== verification/Manager.v ===== *)
(** * The manager ([cmd/main.go])

    What the command line turns into: the checks on the flags, the options of
    the manager and its servers, the reconciler with its allow-lists and the
    poller. The flag values are those after [flag.Parse]; what is asked of
    controller-runtime is a step of [mgrStep], and [os.Exit] is the result of
    [main]. *)

From Stdlib Require Import Ascii.
From S2P Require Import Prelude GoStrings GoTime Effects Kube Cluster Ensure Routes FleetState Poller Deploys.

Local Open Scope Z_scope.

(** ** Flags *)

(** The variables of [main] that flags set. *)
Record flagValues := mkFlagValues {
  fl_metricsAddr : string;
  fl_probeAddr : string;
  fl_enableLeaderElection : bool;
  fl_secureMetrics : bool;
  fl_webhookCertPath : string;
  fl_webhookCertName : string;
  fl_webhookCertKey : string;
  fl_metricsCertPath : string;
  fl_metricsCertName : string;
  fl_metricsCertKey : string;
  fl_enableHTTP2 : bool;
  fl_ingressMode : string;
  fl_ingressClass : string;
  fl_clusterIssuer : string;
  fl_istioGateways : string;
  fl_gatewayName : string;
  fl_gatewayNamespace : string;
  fl_prometheusURL : string;
  fl_operatorNamespace : string;
  fl_operatorPrincipal : string;
  fl_statePollInterval : Z;
  fl_deployPollInterval : Z;
  fl_watchNamespace : string;
  fl_imagePrefixes : string;
  fl_iamRoles : string;
  fl_azureIDs : string;
  fl_bucketEndpoints : string;
  fl_routeRetries : bool
}.

(** The defaults the flags are declared with. *)
Definition defaultFlags : flagValues :=
  {| fl_metricsAddr := "0";
     fl_probeAddr := ":8081";
     fl_enableLeaderElection := false;
     fl_secureMetrics := true;
     fl_webhookCertPath := "";
     fl_webhookCertName := "tls.crt";
     fl_webhookCertKey := "tls.key";
     fl_metricsCertPath := "";
     fl_metricsCertName := "tls.crt";
     fl_metricsCertKey := "tls.key";
     fl_enableHTTP2 := false;
     fl_ingressMode := IngressModeHTTPRoute;
     fl_ingressClass := "";
     fl_clusterIssuer := "";
     fl_istioGateways := "";
     fl_gatewayName := "edge";
     fl_gatewayNamespace := "infra";
     fl_prometheusURL := "http://prometheus-operated.monitoring.svc:9090";
     fl_operatorNamespace := "celld-operator-system";
     fl_operatorPrincipal := "cluster.local/ns/celld-operator-system/sa/celld-operator-controller-manager";
     fl_statePollInterval := 15 * Second;
     fl_deployPollInterval := 60 * Second;
     fl_watchNamespace := "";
     fl_imagePrefixes := "ghcr.io/denoland/celld:";
     fl_iamRoles := "";
     fl_azureIDs := "";
     fl_bucketEndpoints := "";
     fl_routeRetries := false |}.

(** [func splitList(value string) []string] *)
Definition splitList (value : string) : list string :=
  List.filter (fun item => negb (is_empty item)) (map TrimSpace (Split ","%char value)).

Definition validModes : list string :=
  [IngressModeHTTPRoute; IngressModeIngress; IngressModeVirtualService; IngressModeNone].

(** The check after [flag.Parse]. *)
Definition invalidFlags (f : flagValues) : bool :=
  negb (existsb (String.eqb (fl_ingressMode f)) validModes)
  || (fl_statePollInterval f <=? 0) || (fl_deployPollInterval f <=? 0).

(** ** Options of the manager *)

(** What a TLS option does to [NextProtos]. *)
Definition tlsOpt : Type := list string -> list string.
Definition disableHTTP2 : tlsOpt := fun _ => ["http/1.1"].

Definition tlsOpts (f : flagValues) : list tlsOpt :=
  if negb (fl_enableHTTP2 f) then [disableHTTP2] else [].

(** A server's certificate files, empty when it makes its own. *)
Record certFiles := mkCertFiles { CertDir : string; CertName : string; KeyName : string }.

Definition certOptions (path name key : string) : certFiles :=
  if (0 <? Z.of_nat (String.length path)) then mkCertFiles path name key else mkCertFiles "" "" "".

(** [webhook.Options] *)
Record webhookOptions := mkWebhookOptions { wh_TLSOpts : list tlsOpt; wh_Certs : certFiles }.

Definition webhookServerOptions (f : flagValues) : webhookOptions :=
  mkWebhookOptions (tlsOpts f)
    (certOptions (fl_webhookCertPath f) (fl_webhookCertName f) (fl_webhookCertKey f)).

(** [metricsserver.Options]; [ms_FilterProvider] is whether requests are
    authenticated and authorized. *)
Record metricsOptions := mkMetricsOptions {
  ms_BindAddress : string;
  ms_SecureServing : bool;
  ms_TLSOpts : list tlsOpt;
  ms_FilterProvider : bool;
  ms_Certs : certFiles
}.

Definition metricsServerOptions (f : flagValues) : metricsOptions :=
  mkMetricsOptions (fl_metricsAddr f) (fl_secureMetrics f) (tlsOpts f)
    (if fl_secureMetrics f then true else false)
    (certOptions (fl_metricsCertPath f) (fl_metricsCertName f) (fl_metricsCertKey f)).

(** [ctrl.Options]: [mo_Namespaces] are the keys of [Cache.DefaultNamespaces]
    (none means all), [mo_Uncached] the kinds of [DisableFor]. *)
Record managerOptions := mkManagerOptions {
  mo_Namespaces : list string;
  mo_Metrics : metricsOptions;
  mo_Webhook : webhookOptions;
  mo_HealthProbeBindAddress : string;
  mo_LeaderElection : bool;
  mo_LeaderElectionID : string;
  mo_Uncached : list kind
}.

Definition optionsOf (f : flagValues) : managerOptions :=
  {| mo_Namespaces := if negb (is_empty (fl_watchNamespace f)) then [fl_watchNamespace f] else [];
     mo_Metrics := metricsServerOptions f;
     mo_Webhook := webhookServerOptions f;
     mo_HealthProbeBindAddress := fl_probeAddr f;
     mo_LeaderElection := fl_enableLeaderElection f;
     mo_LeaderElectionID := "c849b945.celld-operator.io";
     mo_Uncached := [KSecret; KHTTPRoute] |}.

(** ** The reconciler *)

(** [type StateClient struct]: the timeout of its HTTP client, and
    [func NewStateClient()]. *)
Record StateClient := mkStateClient { sc_Timeout : Z }.
Definition NewStateClient : StateClient := mkStateClient (3 * Second).

(** A [WorkerAppReconciler] with the pointers it holds, which may be nil. *)
Record reconciler := mkReconcilerSetup {
  rec_Config : WorkerAppReconciler;
  rec_State : option StateClient;
  rec_Reader : option source;
  rec_Deploys : option DeployTracker
}.

Definition reconcilerOf (f : flagValues) : reconciler :=
  {| rec_Config :=
       {| r_AllowedImagePrefixes := splitList (fl_imagePrefixes f);
          r_AllowedIAMRoles := splitList (fl_iamRoles f);
          r_AllowedAzureClientIDs := splitList (fl_azureIDs f);
          r_AllowedBucketEndpoints := splitList (fl_bucketEndpoints f);
          r_HTTPRouteRetries := fl_routeRetries f;
          r_IngressMode := fl_ingressMode f;
          r_GatewayName := fl_gatewayName f;
          r_GatewayNamespace := fl_gatewayNamespace f;
          r_IstioGateways := if negb (is_empty (fl_istioGateways f)) then Split ","%char (fl_istioGateways f) else [];
          r_IngressClassName := fl_ingressClass f;
          r_ClusterIssuer := fl_clusterIssuer f;
          r_PrometheusURL := fl_prometheusURL f;
          r_OperatorNamespace := fl_operatorNamespace f;
          r_OperatorPrincipal := fl_operatorPrincipal f |};
     rec_State := Some NewStateClient;
     rec_Reader := None;
     rec_Deploys := Some (NewDeployTracker (fl_deployPollInterval f)) |}.

(** The controller the builder completes. *)
Record controllerSpec := mkController {
  c_Reconciler : reconciler;
  c_For : kind;
  c_Owns : list kind;
  c_Name : string
}.

(** What is asked of controller-runtime. *)
Inductive mgrStep :=
(** [ctrl.GetConfigOrDie()], which exits with status 1 on an error *)
| GetConfigOrDie
(** [ctrl.NewManager] *)
| NewManager (o : managerOptions)
(** [Complete] of the controller builder *)
| Complete (c : controllerSpec)
(** [mgr.Add] of the poller *)
| AddPoller (p : StatePoller)
| AddHealthzCheck (name : string)
| AddReadyzCheck (name : string)
(** [mgr.Start], which returns when the process is told to stop *)
| StartManager.

(** Every step answers nil or an error. *)
Inductive mgrReq : Type -> Type :=
| Do (step : mgrStep) : mgrReq (option error).

(** [func (r *WorkerAppReconciler) SetupWithManager(mgr)]; the reader of the
    manager's [GetAPIReader] is the uncached one. *)
Definition SetupWithManager (r : reconciler) : prog mgrReq (option error) :=
  let r := mkReconcilerSetup (rec_Config r)
             (match rec_State r with None => Some NewStateClient | Some c => Some c end)
             (match rec_Reader r with None => Some Live | Some src => Some src end)
             (match rec_Deploys r with None => Some (NewDeployTracker 0) | Some d => Some d end) in
  trigger (Do (Complete (mkController r KWorkerApp
    [KStatefulSet; KService; KServiceAccount; KNetworkPolicy; KPodDisruptionBudget; KIngress] "workerapp"))).

(** A step of [main]: an error is logged and the process exits with status 1. *)
Definition orExit (step : prog mgrReq (option error)) (rest : prog mgrReq Z) : prog mgrReq Z :=
  err ← step;
  match err with Some _ => Ret 1 | None => rest end.

(** [func main()] after [flag.Parse]: the exit status. *)
Definition main (f : flagValues) : prog mgrReq Z :=
  if invalidFlags f then Ret 1
  else
    orExit (trigger (Do GetConfigOrDie))
    (orExit (trigger (Do (NewManager (optionsOf f))))
    (orExit (SetupWithManager (reconcilerOf f))
    (orExit (trigger (Do (AddPoller (mkStatePoller (fl_statePollInterval f)))))
    (orExit (trigger (Do (AddHealthzCheck "healthz")))
    (orExit (trigger (Do (AddReadyzCheck "readyz")))
    (orExit (trigger (Do StartManager)) (Ret 0))))))).
