(* ===== verification/CasHammer.v ===== *)
(** * The CAS hammer ([hack/cas-hammer/main.go])

    The probe that decides whether an object store may carry celld's fencing:
    in every round several writers race one conditional PUT on one key, and
    exactly one must win. What the tool asks of the store and of the scheduler
    is a request of [s3req], answered by anything; the writers of a round are
    goroutines, so the order in which their PUTs reach the store and the order
    in which they enter the critical section are two answers of [Schedule].
    Progress lines are output only and have no model; [os.Exit] is the result
    of [main]. *)

From S2P Require Import Prelude GoStrings Effects.

Local Open Scope Z_scope.

(** An error of the S3 client: the code of the [smithy.APIError] that
    [errors.As] finds in its chain, if there is one, and its text. *)
Record s3error := mkS3Error { err_code : option string; err_text : string }.

(** The fields of [s3.PutObjectInput] the tool sets. *)
Record putInput := mkPutInput {
  put_Bucket : string;
  put_Key : string;
  put_Body : string;
  put_IfNoneMatch : option string;
  put_IfMatch : option string
}.

(** What the S3 client is built with: a custom endpoint goes with path-style
    addressing. *)
Record s3Options := mkS3Options { o_BaseEndpoint : option string; o_UsePathStyle : bool }.

Inductive s3req : Type -> Type :=
(** [time.Now().UnixNano()] *)
| UnixNano : s3req Z
(** [config.LoadDefaultConfig] with a region *)
| LoadDefaultConfig (region : string) : s3req (option s3error)
(** [s3.NewFromConfig] *)
| NewFromConfig (o : s3Options) : s3req unit
| PutObject (input : putInput) : s3req (option s3error)
(** the [ETag] of the output; the output and the field may be nil *)
| HeadObject (bucket key : string) : s3req (s3error + option (option string))
| DeleteObject (bucket key : string) : s3req (option s3error)
(** an order of concurrent goroutines *)
| Schedule {A : Type} (l : list A) : s3req {l' : list A | l' ≡ₚ l}.

Abbreviation C := (prog s3req).

(** [type flags struct], parsed *)
Record flags := mkFlags {
  f_bucket : string;
  f_endpoint : string;
  f_region : string;
  f_writers : Z;
  f_rounds : Z;
  f_prefix : string
}.

(** The function that configures the client. *)
Definition clientOptions (f : flags) : s3Options :=
  if negb (is_empty (f_endpoint f)) then mkS3Options (Some (f_endpoint f)) true else mkS3Options None false.

(** [func classify(err error) (bool, error)] *)
Definition classify (err : option s3error) : bool * option s3error :=
  match err with
  | None => (true, None)
  | Some e =>
      match err_code e with
      | Some code =>
          if String.eqb code "PreconditionFailed" || String.eqb code "ConditionalRequestConflict"
          then (false, None) else (false, Some e)
      | None => (false, Some e)
      end
  end.

(** [type racer func(...) (won bool, err error)] *)
Definition racer : Type := flags -> string -> Z -> option string -> C (bool * option s3error).

Definition writerBody (writer : Z) : string := "writer-" +:+ pretty writer.

(** [func raceCreate(...)]: a conditional create. *)
Definition raceCreate : racer := fun f key writer etag =>
  err ← trigger (PutObject (mkPutInput (f_bucket f) key (writerBody writer) (Some "*") None));
  Ret (classify err).

(** [func raceUpdate(...)]: a conditional overwrite. *)
Definition raceUpdate : racer := fun f key writer etag =>
  err ← trigger (PutObject (mkPutInput (f_bucket f) key (writerBody writer) None etag));
  Ret (classify err).

(** [fmt.Sprintf("%s/%s/%d-%d", f.prefix, name, nanos, round)] *)
Definition roundKey (f : flags) (name : string) (nanos round : Z) : string :=
  f_prefix f +:+ "/" +:+ name +:+ "/" +:+ pretty nanos +:+ "-" +:+ pretty round.

(** The seeded object of a round in the update phase and the ETag all its
    writers share; the create phase has none. [Return] is [os.Exit]. *)
Definition seed (f : flags) (name key : string) : C (control Z (option string)) :=
  if String.eqb name "update" then
    put ← trigger (PutObject (mkPutInput (f_bucket f) key "seed" None None));
    match put with
    | Some _ => Ret (Return 2)
    | None =>
        head ← trigger (HeadObject (f_bucket f) key);
        match head with
        | inr (Some (Some tag)) => Ret (Continue (Some tag))
        | _ => Ret (Return 2)
        end
    end
  else Ret (Continue None).

(** The critical section of a writer: [winners] and [hardErr]. *)
Definition tally (r : bool * option s3error) (s : Z * option s3error) : Z * option s3error :=
  match snd r with
  | Some e => (fst s, Some e)
  | None => (if fst r then fst s + 1 else fst s, snd s)
  end.

(** The race of one round: the writers, then what they counted. *)
Definition raceWriters (f : flags) (race : racer) (key : string) (etag : option string)
  : C (Z * option s3error) :=
  order ← trigger (Schedule (seqZ 0 (f_writers f)));
  results ← foldM (fun w acc => r ← race f key w etag; Ret (acc ++ [r])) (proj1_sig order) [];
  entered ← trigger (Schedule results);
  Ret (foldl (fun s r => tally r s) (0, None) (proj1_sig entered)).

(** The loop body of [runPhase]. *)
Definition runRound (f : flags) (name : string) (race : racer) (round : Z) (violations : Z)
  : C (control Z Z) :=
  nanos ← trigger UnixNano;
  let key := roundKey f name nanos round in
  s ← seed f name key;
  match s with
  | Return code => Ret (Return code)
  | Continue etag =>
      counted ← raceWriters f race key etag;
      match snd counted with
      | Some _ => Ret (Return 2)
      | None =>
          let violations := if fst counted =? 1 then violations else violations + 1 in
          _ ← trigger (DeleteObject (f_bucket f) key);
          Ret (Continue violations)
      end
  end.

(** [func runPhase(ctx, cli, f, name, race) int] *)
Definition runPhase (f : flags) (name : string) (race : racer) : C (control Z Z) :=
  forRange (seqZ 0 (f_rounds f)) (runRound f name race) 0.

(** [func main()], after [flag.Parse]: the exit status. *)
Definition main (f : flags) : C Z :=
  if is_empty (f_bucket f) then Ret 2
  else if (f_writers f <? 2) || (f_rounds f <? 1) then Ret 2
  else
    err ← trigger (LoadDefaultConfig (f_region f));
    match err with
    | Some _ => Ret 2
    | None =>
        _ ← trigger (NewFromConfig (clientOptions f));
        created ← runPhase f "create" raceCreate;
        match created with
        | Return code => Ret code
        | Continue v1 =>
            updated ← runPhase f "update" raceUpdate;
            match updated with
            | Return code => Ret code
            | Continue v2 => if 0 <? v1 + v2 then Ret 1 else Ret 0
            end
        end
    end.
