(* ===== verification/CasHammerTheorems.v ===== *)
(** * The properties of the CAS hammer

    What its exit status tells about the store: the status is decided by the
    number of winners of every round, whatever order the writers ran in, and a
    store that checks preconditions atomically always passes. *)

From S2P Require Import Prelude GoStrings Effects CasHammer.
From Stdlib Require Import Ascii.

Local Open Scope Z_scope.

(** ** The races of a trace *)

Definition conditional (i : putInput) : bool :=
  match put_IfNoneMatch i, put_IfMatch i with None, None => false | _, _ => true end.

(** A conditional PUT and its answer. *)
Definition condPut (ev : event s3req) : option (putInput * option s3error) :=
  (match ev_req ev in s3req X return X -> option (putInput * option s3error) with
   | PutObject i => fun r => if conditional i then Some (i, r) else None
   | _ => fun _ => None
   end) (ev_resp ev).

Definition condPuts (t : trace s3req) : list (putInput * option s3error) := omap condPut t.

Lemma condPuts_app t1 t2 : condPuts (t1 ++ t2) = condPuts t1 ++ condPuts t2.
Proof. apply omap_app. Qed.

(** What a writer of phase [name] asks for. *)
Definition racePut (f : flags) (name key : string) (etag : option string) (w : Z) : putInput :=
  if String.eqb name "update" then mkPutInput (f_bucket f) key (writerBody w) None etag
  else mkPutInput (f_bucket f) key (writerBody w) (Some "*") None.

Definition raceOf (name : string) : racer := if String.eqb name "update" then raceUpdate else raceCreate.

Lemma raceOf_put f name key w etag :
  raceOf name f key w etag
  = (err ← trigger (PutObject (racePut f name key etag w)); Ret (classify err)).
Proof. unfold raceOf, racePut, raceUpdate, raceCreate. by destruct (String.eqb name "update"). Qed.

(** The ETag of the seed exists exactly in the update phase. *)
Definition seeded (name : string) (etag : option string) : Prop :=
  if String.eqb name "update" then exists tag, etag = Some tag else etag = None.

Lemma racePut_conditional f name key etag w :
  seeded name etag -> conditional (racePut f name key etag w) = true.
Proof.
  unfold seeded, racePut. destruct (String.eqb name "update"); [by intros [tag ->]|done].
Qed.

(** ** Counting *)

Definition won (r : option s3error) : bool := match r with None => true | Some _ => false end.
(** A success, or a loss the protocol knows: 412 PreconditionFailed or 409
    ConditionalRequestConflict. *)
Definition cleanCodes : list string := ["PreconditionFailed"; "ConditionalRequestConflict"].
Definition clean (r : option s3error) : bool :=
  match r with
  | None => true
  | Some e => match err_code e with Some code => existsb (String.eqb code) cleanCodes | None => false end
  end.
Definition winners (l : list (option s3error)) : nat := length (List.filter won l).

#[export] Instance winners_proper : Proper ((≡ₚ) ==> (=)) winners.
Proof.
  unfold winners. induction 1 as [|x l l' _ IH|x y l|l1 l2 l3 _ IH1 _ IH2]; simpl; [done| | |congruence].
  - destruct (won x); simpl; congruence.
  - destruct (won x), (won y); done.
Qed.

#[export] Instance forallb_proper {A} (p : A -> bool) : Proper ((≡ₚ) ==> (=)) (forallb p).
Proof.
  induction 1 as [|x l l' _ IH|x y l|]; simpl; [done|congruence| |congruence].
  by rewrite !andb_assoc, (andb_comm (p x)).
Qed.

(** [classify] tells the two apart. *)
Lemma classify_clean r : clean r = true -> classify r = (won r, None).
Proof.
  unfold clean, classify, won, cleanCodes. destruct r as [e|]; [|done]. destruct (err_code e); [|done].
  simpl. rewrite orb_false_r. by intros ->.
Qed.

Lemma classify_dirty r : clean r = false -> snd (classify r) <> None.
Proof.
  unfold clean, classify, cleanCodes. destruct r as [e|]; [|done]. destruct (err_code e); [|done].
  simpl. rewrite orb_false_r. by intros ->.
Qed.

Abbreviation tallied l s := (foldl (fun acc r => tally r acc) s (map classify l)).

Lemma tally_sticky l s : snd s <> None -> snd (tallied l s) <> None.
Proof.
  revert s. induction l as [|r l IH]; intros s Hs; simpl; [done|]. apply IH.
  unfold tally. by destruct (snd (classify r)).
Qed.

(** The critical sections, in whatever order, count the winners or keep an
    error. *)
Lemma tally_clean l n err :
  forallb clean l = true -> tallied l (n, err) = (n + Z.of_nat (winners l), err).
Proof.
  revert n. induction l as [|r l IH]; intros n; simpl; intros Hl; [f_equal; unfold winners; simpl; lia|].
  bool_simp. unfold tally at 2. rewrite classify_clean by done. cbn [fst snd].
  rewrite IH by done. f_equal. unfold winners. simpl. destruct (won r); simpl; lia.
Qed.

Lemma tally_dirty l s : forallb clean l = false -> snd (tallied l s) <> None.
Proof.
  revert s. induction l as [|r l IH]; intros s; simpl; [done|].
  intros [Hr|Hr]%andb_false_iff; [|by apply IH].
  apply tally_sticky. apply classify_dirty in Hr. unfold tally. by destruct (snd (classify r)).
Qed.

(** ** A round *)

(** The race of round [round] in phase [name]: every writer sent one PUT on one
    key with one precondition (the ETag of the seed, read before the race, in
    the update phase), and every answer was a success or a clean loss. [n] of
    them won. *)
Definition contested (f : flags) (name : string) (round : Z) (t : trace s3req) (n : nat) : Prop :=
  exists nanos etag order,
    let key := roundKey f name nanos round in
    order ≡ₚ seqZ 0 (f_writers f) /\
    (if String.eqb name "update"
     then exists tag, etag = Some tag /\ Ev (HeadObject (f_bucket f) key) (inr (Some (Some tag))) ∈ t
     else etag = None) /\
    map fst (condPuts t) = map (racePut f name key etag) order /\
    Forall (fun r => clean r = true) (map snd (condPuts t)) /\
    winners (map snd (condPuts t)) = n.

(** An answer that ends the run: the store or the configuration failed, or a
    writer got neither a success nor a clean loss. *)
Definition hardFailure (ev : event s3req) : Prop :=
  (match ev_req ev in s3req X return X -> Prop with
   | LoadDefaultConfig _ => fun r => r <> None
   | PutObject i => fun r => if conditional i then clean r = false else r <> None
   | HeadObject _ _ => fun r => forall tag, r <> inr (Some (Some tag))
   | _ => fun _ => False
   end) (ev_resp ev).

Lemma condPuts_put i r : conditional i = true -> condPuts [Ev (PutObject i) r] = [(i, r)].
Proof. intros Hc. unfold condPuts, condPut. simpl. by rewrite Hc. Qed.

Lemma wp_raceWriters f name key etag :
  seeded name etag ->
  wp (raceWriters f (raceOf name) key etag) (fun t r =>
    exists order,
      order ≡ₚ seqZ 0 (f_writers f) /\
      map fst (condPuts t) = map (racePut f name key etag) order /\
      let answers := map snd (condPuts t) in
      if forallb clean answers then r = (Z.of_nat (winners answers), None)
      else snd r <> None /\ Exists hardFailure t).
Proof.
  intros Hs. unfold raceWriters. apply wp_trigger. intros [order Ho]. cbn [proj1_sig].
  eapply wp_seq.
  { apply (wp_foldM _ order [] (fun dn t acc =>
      map fst (condPuts t) = map (racePut f name key etag) dn /\
      acc = map classify (map snd (condPuts t)) /\
      (forallb clean (map snd (condPuts t)) = false -> Exists hardFailure t))).
    - done.
    - intros dn w t acc (Hi & -> & Hh). rewrite raceOf_put. intros r.
      apply wp_ret. rewrite condPuts_app, condPuts_put, !map_app, Hi by (by apply racePut_conditional).
      split_and!; [done|done|]. rewrite forallb_app. simpl. rewrite andb_true_r.
      intros [Hd|Hd]%andb_false_iff; apply Exists_app; [left; auto|right].
      constructor. unfold hardFailure. simpl. by rewrite racePut_conditional. }
  intros t acc (Hi & -> & Hh). apply wp_trigger. intros [entered He]. apply wp_ret. cbn [proj1_sig].
  set (t' := t ++ _). exists order.
  assert (Et : condPuts (Ev (Schedule (seqZ 0 (f_writers f))) (order ↾ Ho) :: t') = condPuts t).
  { change (condPuts t' = condPuts t). unfold t'. rewrite condPuts_app. apply app_nil_r. }
  change (condPuts (?ev :: t')) with (condPuts t') in *. rewrite Et.
  split_and!; [done|done|]. cbv zeta.
  destruct (Permutation_map_inv _ _ He) as (l & El & Hl).
  assert (Hc : forallb clean (map snd (condPuts t)) = forallb clean l) by (by rewrite Hl).
  assert (Hw : winners (map snd (condPuts t)) = winners l) by (by rewrite Hl).
  rewrite El, Hc, Hw. destruct (forallb clean l) eqn:Hcl.
  - by rewrite tally_clean.
  - split; [by apply tally_dirty|]. right. apply Exists_app. left. by apply Hh.
Qed.

Lemma wp_seed f name key :
  wp (seed f name key) (fun t s => condPuts t = [] /\
    match s with
    | Return code => code = 2 /\ Exists hardFailure t
    | Continue etag =>
        if String.eqb name "update"
        then exists tag, etag = Some tag /\ Ev (HeadObject (f_bucket f) key) (inr (Some (Some tag))) ∈ t
        else etag = None
    end).
Proof.
  unfold seed. destruct (String.eqb name "update"); [|by apply wp_ret].
  apply wp_trigger. intros [e|].
  { apply wp_ret. split_and!; [done|done|]. left. done. }
  apply wp_trigger. intros [e|[[tag|]|]]; apply wp_ret.
  2: { split; [done|]. exists tag. split; [done|]. set_solver. }
  all: split_and!; [done|done|]; right; left; intros tag; discriminate.
Qed.

(** A round either leaves with status 2 on a hard failure, or counts one
    violation unless exactly one writer won. *)
Lemma wp_runRound f name round violations :
  wp (runRound f name (raceOf name) round violations) (fun t c =>
    match c with
    | Return code => code = 2 /\ Exists hardFailure t
    | Continue violations' =>
        exists n, contested f name round t n /\
          violations' = if Nat.eqb n 1 then violations else violations + 1
    end).
Proof.
  unfold runRound. apply wp_trigger. intros nanos. cbv zeta. set (key := roundKey _ _ _ _).
  eapply wp_seq; [apply wp_seed|]. intros t1 [code|etag] [Ht1 Hs].
  { apply wp_ret. rewrite app_nil_r. destruct Hs as [-> Hs]. split; [done|by right]. }
  assert (Hseed : seeded name etag).
  { unfold seeded. destruct (String.eqb name "update"); [|done]. destruct Hs as (tag & -> & _). by exists tag. }
  eapply wp_seq; [by apply wp_raceWriters|]. intros t2 [n err] (order & Ho & Hi & Hr). cbn [fst snd] in *.
  cbv zeta in Hr. destruct (forallb clean _) eqn:Hc.
  - injection Hr as -> ->. apply wp_trigger. intros del. apply wp_ret.
    set (t := _ :: _). assert (Et : condPuts t = condPuts t2).
    { unfold t. change (condPuts (t1 ++ t2 ++ [Ev (DeleteObject (f_bucket f) key) del]) = condPuts t2).
      rewrite !condPuts_app, Ht1. apply app_nil_r. }
    exists (winners (map snd (condPuts t2))). split.
    + exists nanos, etag, order. fold key. rewrite Et. split_and!; [done| |done| |done].
      * destruct (String.eqb name "update"); [|done]. destruct Hs as (tag & -> & Hin).
        exists tag. split; [done|]. unfold t. set_solver.
      * apply Forall_forall. intros r Hr%list_elem_of_In. rewrite forallb_forall in Hc. by apply Hc.
    + destruct (Z.eqb_spec (Z.of_nat (winners (map snd (condPuts t2)))) 1) as [E|E];
        destruct (Nat.eqb_spec (winners (map snd (condPuts t2))) 1); lia.
  - destruct Hr as [Herr Hh]. destruct err as [e|]; [|done]. apply wp_ret. split; [done|].
    right. rewrite app_nil_r. apply Exists_app. by right.
Qed.

(** ** A phase *)

(** The rounds of a phase: the stretch of the trace and the winners of each. *)
Definition phaseRun (f : flags) (name : string) (t : trace s3req) (rounds : list (trace s3req * nat)) : Prop :=
  t = concat (map fst rounds) /\
  Forall2 (fun round tn => contested f name round (fst tn) (snd tn)) (seqZ 0 (f_rounds f)) rounds.

Definition violationsOf (rounds : list (trace s3req * nat)) : nat :=
  length (List.filter (fun tn => negb (Nat.eqb (snd tn) 1)) rounds).

Lemma wp_runPhase f name :
  wp (runPhase f name (raceOf name)) (fun t c =>
    match c with
    | Return code => code = 2 /\ Exists hardFailure t
    | Continue violations =>
        exists rounds, phaseRun f name t rounds /\ violations = Z.of_nat (violationsOf rounds)
    end).
Proof.
  eapply wp_mono; [|unfold runPhase;
  apply (wp_forRange (seqZ 0 (f_rounds f)) (runRound f name (raceOf name)) 0
    (fun dn t violations => exists rounds, t = concat (map fst rounds) /\
       Forall2 (fun round tn => contested f name round (fst tn) (snd tn)) dn rounds /\
       violations = Z.of_nat (violationsOf rounds))
    (fun t code => code = 2 /\ Exists hardFailure t))].
  - intros t [code|violations]; [done|]. intros (rounds & ? & ? & ?). by exists rounds.
  - exists []. by split_and!.
  - intros dn round todo t violations _ (rounds & -> & Hr & ->).
    eapply wp_mono; [|apply wp_runRound]. intros t' [code|violations'].
    + intros [-> Hh]. split; [done|]. apply Exists_app. by right.
    + intros (n & Hn & ->). exists (rounds ++ [(t', n)]). split_and!.
      * rewrite map_app, concat_app. simpl. by rewrite app_nil_r.
      * apply Forall2_app; [done|]. by constructor.
      * unfold violationsOf. rewrite List.filter_app, length_app. simpl.
        destruct (Nat.eqb n 1); simpl; lia.
Qed.

(** ** The verdict *)

(** No round of the phases was a violation. *)
Definition allFenced (rounds : list (trace s3req * nat)) : bool :=
  forallb (fun tn => Nat.eqb (snd tn) 1) rounds.

Lemma allFenced_violations rounds : allFenced rounds = Nat.eqb (violationsOf rounds) 0.
Proof.
  unfold allFenced, violationsOf. induction rounds as [|[t n] rounds IH]; simpl; [done|].
  destruct (Nat.eqb n 1); simpl; [exact IH|done].
Qed.

Lemma violationsOf_app l1 l2 : violationsOf (l1 ++ l2) = (violationsOf l1 + violationsOf l2)%nat.
Proof. unfold violationsOf. by rewrite List.filter_app, length_app. Qed.

Lemma wp_hammerMain f :
  wp (main f) (fun t code =>
    (code = 2 /\ (f_bucket f = "" \/ f_writers f < 2 \/ f_rounds f < 1 \/ Exists hardFailure t)) \/
    exists t1 t2 created updated,
      t = Ev (LoadDefaultConfig (f_region f)) None :: Ev (NewFromConfig (clientOptions f)) tt :: t1 ++ t2 /\
      phaseRun f "create" t1 created /\ phaseRun f "update" t2 updated /\
      code = if allFenced (created ++ updated) then 0 else 1).
Proof.
  unfold main. destruct (is_empty (f_bucket f)) eqn:Hb; [left; apply is_empty_true in Hb; auto|].
  destruct ((f_writers f <? 2) || (f_rounds f <? 1)) eqn:Hf.
  { left. split; [done|]. apply orb_true_iff in Hf as [?|?]; bool_simp; auto. }
  apply wp_trigger. intros [e|]. { left. split; [done|]. right; right; right. by left. }
  apply wp_trigger. intros []. eapply wp_seq; [exact (wp_runPhase f "create")|]. intros t1 [code|v1].
  { intros [-> Hh]. left. split; [done|]. right; right; right. right. right. by rewrite app_nil_r. }
  intros (created & Hc & ->). eapply wp_seq; [exact (wp_runPhase f "update")|]. intros t2 [code|v2].
  { intros [-> Hh]. left. split; [done|]. right; right; right. right. right. rewrite app_nil_r. apply Exists_app. by right. }
  intros (updated & Hu & ->). destruct (Z.ltb_spec 0 (Z.of_nat (violationsOf created) + Z.of_nat (violationsOf updated)));
    right; exists t1, t2, created, updated; rewrite app_nil_r, allFenced_violations, violationsOf_app; split_and!; try done;
    destruct (Nat.eqb_spec (violationsOf created + violationsOf updated) 0); lia.
Qed.

(** C30: the exit status of the hammer is the verdict of its races. Status 2
    comes only from flags it refuses or from an answer that is neither a success
    nor a clean loss. Otherwise the run is made of all rounds of both phases, in
    each of which every writer sent one PUT on one key with the same
    precondition and was answered by a success or a clean loss, in any order of
    the writers; the status is 0 when every round had exactly one winner and 1
    when some round did not. *)
Theorem hammer_verdict f t code :
  exec (main f) t code ->
  (code = 2 /\ (f_bucket f = "" \/ f_writers f < 2 \/ f_rounds f < 1 \/ Exists hardFailure t)) \/
  exists t1 t2 created updated,
    t = Ev (LoadDefaultConfig (f_region f)) None :: Ev (NewFromConfig (clientOptions f)) tt :: t1 ++ t2 /\
    phaseRun f "create" t1 created /\ phaseRun f "update" t2 updated /\
    code = if allFenced (created ++ updated) then 0 else 1.
Proof. intros Hx. exact (proj1 (wp_exec _ _) (wp_hammerMain f) _ _ Hx). Qed.

(** ** An atomic store

    A bucket as the ETags of its objects, answering one request after the other:
    a PUT whose precondition holds replaces the object, one whose precondition
    fails changes nothing and is a clean loss of either kind; a DELETE may be
    lost. Nothing is assumed of the clock and the scheduler. *)

Abbreviation bucket := (gmap string string).

Section AtomicStore.
Variable etagOf : string -> string.

Definition preconditionHolds (s : bucket) (i : putInput) : bool :=
  (match put_IfNoneMatch i with
   | Some _ => bool_decide (s !! put_Key i = None) | None => true end)
  && (match put_IfMatch i with
      | Some tag => bool_decide (s !! put_Key i = Some tag) | None => true end).

Definition cleanLoss (e : s3error) : Prop :=
  err_code e = Some "PreconditionFailed" \/ err_code e = Some "ConditionalRequestConflict".

(** [s3step s ev s1]: the store in state [s] may answer as recorded in [ev] and
    go on as [s1]. *)
Definition s3step (s : bucket) (ev : event s3req) (s1 : bucket) : Prop :=
  (match ev_req ev in s3req X return X -> Prop with
   | UnixNano | NewFromConfig _ | Schedule _ => fun _ => s1 = s
   | LoadDefaultConfig _ => fun r => r = None /\ s1 = s
   | PutObject i => fun r =>
       if preconditionHolds s i then r = None /\ s1 = <[put_Key i := etagOf (put_Body i)]> s
       else (exists e, r = Some e /\ cleanLoss e) /\ s1 = s
   | HeadObject _ key => fun r =>
       match s !! key with
       | Some tag => r = inr (Some (Some tag))
       | None => exists e, r = inl e
       end /\ s1 = s
   | DeleteObject _ key => fun r => s1 = delete key s \/ (r <> None /\ s1 = s)
   end) (ev_resp ev).

Inductive s3run (s : bucket) : trace s3req -> bucket -> Prop :=
| RunNil : s3run s [] s
| RunStep ev s1 t s2 : s3step s ev s1 -> s3run s1 t s2 -> s3run s (ev :: t) s2.

Lemma s3run_app s t1 t2 s' : s3run s (t1 ++ t2) s' -> exists s1, s3run s t1 s1 /\ s3run s1 t2 s'.
Proof.
  revert s. induction t1 as [|ev t1 IH]; simpl; intros s Hr; [by exists s; split; [constructor|]|].
  inversion Hr as [|? s1 ? ? Hs Ht]; subst. destruct (IH _ Ht) as (s2 & ? & ?).
  exists s2. split; [|done]. by econstructor.
Qed.

(** The cases of an answer of the store. *)
Ltac s3_answer H :=
  unfold s3step in H; cbn [ev_req ev_resp put_Key put_Body] in H;
  try change (preconditionHolds _ (mkPutInput _ _ _ None None)) with true in H; cbn iota in H.

(** What holds after every run of a program against the store. *)
Definition after {R} (p : C R) (s : bucket) (Q : R -> bucket -> Prop) : Prop :=
  forall t r s', exec p t r -> s3run s t s' -> Q r s'.

Lemma after_ret {R} (r : R) s (Q : R -> bucket -> Prop) : Q r s -> after (Ret r) s Q.
Proof. intros HQ t r' s' [-> ->] Hr. by inversion Hr; subst. Qed.

Lemma after_seq {A B} (p : C A) (f : A -> C B) s (P : A -> bucket -> Prop) (Q : B -> bucket -> Prop) :
  after p s P -> (forall a s1, P a s1 -> after (f a) s1 Q) -> after (p ≫= f) s Q.
Proof.
  intros Hp Hf t b s' (t1 & t2 & a & -> & Hx1 & Hx2)%exec_bind (s1 & Hr1 & Hr2)%s3run_app.
  eapply Hf; [|exact Hx2|exact Hr2]. by eapply Hp.
Qed.

Lemma after_mono {R} (p : C R) s (P Q : R -> bucket -> Prop) :
  (forall r s', P r s' -> Q r s') -> after p s P -> after p s Q.
Proof. intros HPQ Hp t r s' Hx Hr. apply HPQ. by eapply Hp. Qed.

Lemma after_trigger {X R} (e : s3req X) (k : X -> C R) s (Q : R -> bucket -> Prop) :
  (forall x s1, s3step s (Ev e x) s1 -> after (k x) s1 Q) -> after (trigger e ≫= k) s Q.
Proof.
  intros Hk t r s' (x & t' & -> & Hx)%exec_trigger Hr. inversion Hr as [|? s1 ? ? Hs Ht]; subst.
  by eapply Hk.
Qed.

(** ** A race against it *)

Lemma cleanLoss_clean e : cleanLoss e -> clean (Some e) = true.
Proof. unfold clean. by intros [-> | ->]. Qed.

(** The object of the race is taken: no later writer can win. *)
Definition taken (f : flags) (name key : string) (etag : option string) (s : bucket) : Prop :=
  forall w, preconditionHolds s (racePut f name key etag w) = false.

Abbreviation racing f name key etag := (fun w acc => r ← raceOf name f key w etag; Ret (acc ++ [r])).

Lemma after_put f name key etag w acc s (Q : list (bool * option s3error) -> bucket -> Prop) :
  (forall r s1, s3step s (Ev (PutObject (racePut f name key etag w)) r) s1 -> Q (acc ++ [classify r]) s1) ->
  after (racing f name key etag w acc) s Q.
Proof.
  intros HQ. cbv beta. rewrite raceOf_put.
  change (after (trigger (PutObject (racePut f name key etag w)) ≫= (fun err => Ret (acc ++ [classify err]))) s Q).
  apply after_trigger. intros r s1 Hs. apply after_ret. by apply HQ.
Qed.

Lemma after_taken f name key etag l acc s :
  taken f name key etag s ->
  after (foldM (racing f name key etag) l acc) s
    (fun acc' s' => s' = s /\ exists answers, acc' = acc ++ map classify answers /\
       forallb clean answers = true /\ winners answers = 0%nat).
Proof.
  intros Ht. revert acc. induction l as [|w l IH]; intros acc.
  - apply after_ret. split; [done|]. exists []. by rewrite app_nil_r.
  - apply (after_seq (racing f name key etag w acc) (fun acc => foldM (racing f name key etag) l acc) s
      (fun acc1 s1 => s1 = s /\ exists e, cleanLoss e /\ acc1 = acc ++ [classify (Some e)])).
    + apply after_put. unfold s3step. cbn [ev_req ev_resp]. rewrite Ht.
      intros r s1 [(e & -> & He) ->]. split; [done|]. by exists e.
    + intros acc1 s1 [-> (e & He & ->)]. eapply after_mono; [|apply IH].
      intros acc' s' [-> (answers & -> & Hc & Hw)]. split; [done|].
      exists (Some e :: answers). cbn [map forallb]. rewrite <- app_assoc, Hc, cleanLoss_clean by done. done.
Qed.

(** A fair race has one winner, whoever comes first. *)
Lemma after_race f name key etag l acc s :
  l <> [] -> (forall w, preconditionHolds s (racePut f name key etag w) = true) ->
  (forall w, taken f name key etag (<[key := etagOf (writerBody w)]> s)) ->
  after (foldM (racing f name key etag) l acc) s
    (fun acc' s' => (exists tag, s' = <[key := tag]> s) /\
       exists answers, acc' = acc ++ map classify answers /\
         forallb clean answers = true /\ winners answers = 1%nat).
Proof.
  intros Hl Hp Ht. destruct l as [|w l]; [done|].
  apply (after_seq (racing f name key etag w acc) (fun acc => foldM (racing f name key etag) l acc) s
    (fun acc1 s1 => acc1 = acc ++ [classify None] /\ s1 = <[key := etagOf (writerBody w)]> s)).
  - apply after_put. unfold s3step. cbn [ev_req ev_resp]. rewrite Hp. intros r s1 [-> ->]. split; [done|].
    unfold racePut. by destruct (String.eqb name "update").
  - intros acc1 s1 [-> ->]. eapply after_mono; [|by apply after_taken].
    intros acc' s' [-> (answers & -> & Hc & Hw)]. split; [by exists (etagOf (writerBody w))|].
    exists (None :: answers). split_and!; [by rewrite <- app_assoc|done|].
    unfold winners in *. simpl. by rewrite Hw.
Qed.

Lemma after_raceWriters f name key etag s :
  2 <= f_writers f -> (forall w, preconditionHolds s (racePut f name key etag w) = true) ->
  (forall w, taken f name key etag (<[key := etagOf (writerBody w)]> s)) ->
  after (raceWriters f (raceOf name) key etag) s
    (fun r s' => r = (1, None) /\ exists tag, s' = <[key := tag]> s).
Proof.
  intros Hw Hp Ht. unfold raceWriters. apply after_trigger. intros [order Ho] s1 ->. cbn [proj1_sig].
  eapply after_seq; [apply after_race; [|exact Hp|exact Ht]|].
  - intros ->. apply Permutation_nil_l in Ho. apply (f_equal length) in Ho. rewrite length_seqZ in Ho. simpl in Ho. lia.
  - intros acc s2 [Hs2 (answers & -> & Hc & Hwin)]. apply after_trigger. intros [entered He] s3 Hs3.
    s3_answer Hs3. subst s3. apply after_ret. split; [|done]. cbn [proj1_sig]. simpl in He.
    apply Permutation_map_inv in He as (l & -> & Hl).
    rewrite tally_clean by (by rewrite <- Hl). by rewrite <- Hl, Hwin.
Qed.

(** No writer's body has the ETag of the seed: the tag tells contents apart. *)
Hypothesis etag_seed : forall w, etagOf (writerBody w) <> etagOf "seed".

(** The keys of the create phase are unused for the rounds [l]. *)
Definition unused (f : flags) (l : list Z) (s : bucket) : Prop :=
  forall nanos round, round ∈ l -> s !! roundKey f "create" nanos round = None.

Lemma roundKey_round f name n1 n2 r1 r2 :
  0 <= r1 -> 0 <= r2 -> roundKey f name n1 r1 = roundKey f name n2 r2 -> r1 = r2.
Proof.
  assert (Hk : forall n r, roundKey f name n r
    = (f_prefix f +:+ "/" +:+ name +:+ "/" +:+ pretty n) +:+ String "-"%char (pretty r)).
  { intros n r. unfold roundKey. by rewrite !string_app_assoc. }
  intros H1 H2 E. apply (inj pretty). rewrite !Hk in E. eapply suffix_inj; [| |exact E]; apply all_digits_no_byte; auto using pretty_digits.
Qed.

Lemma after_seed_update f key s :
  after (seed f "update" key) s
    (fun c s' => c = Continue (Some (etagOf "seed")) /\ s' = <[key := etagOf "seed"]> s).
Proof.
  unfold seed. cbn [String.eqb]. simpl. apply (after_trigger (PutObject _)).
  intros r s1 Hr. s3_answer Hr. destruct Hr as [-> ->].
  apply (after_trigger (HeadObject _ _)). intros head s2 Hh. s3_answer Hh. rewrite lookup_insert_eq in Hh. destruct Hh as [-> ->]. by apply after_ret.
Qed.

(** The end of a round: the key, and nothing else, may have changed. *)
Lemma after_round f name round violations s :
  2 <= f_writers f -> name = "update" \/ name = "create" /\ unused f [round] s ->
  after (runRound f name (raceOf name) round violations) s
    (fun c s' => c = Continue violations /\
       exists nanos, forall key, key <> roundKey f name nanos round -> s' !! key = s !! key).
Proof.
  intros Hw Hn. unfold runRound. apply after_trigger. intros nanos s1 ->. cbv zeta.
  set (key := roundKey f name nanos round).
  eapply (after_seq _ _ _ (fun c s1 => exists etag, c = Continue etag /\
    (forall k, k <> key -> s1 !! k = s !! k) /\
    (forall w, preconditionHolds s1 (racePut f name key etag w) = true) /\
    (forall w, taken f name key etag (<[key := etagOf (writerBody w)]> s1)))).
  { destruct Hn as [->|[-> Hu]].
    - eapply after_mono; [|apply after_seed_update]. intros c s1 [-> ->]. eexists. split; [done|].
      split_and!; intros; unfold taken, preconditionHolds, racePut; simpl.
      + by rewrite lookup_insert_ne.
      + by rewrite lookup_insert_eq, bool_decide_eq_true_2.
      + intros w'. rewrite lookup_insert_eq, bool_decide_eq_false_2; [done|]. intros [= E]. by apply etag_seed in E.
    - apply after_ret. exists None. split; [done|].
      split_and!; intros; unfold taken, preconditionHolds, racePut; simpl.
      + done.
      + rewrite bool_decide_eq_true_2; [done|]. apply Hu. set_solver.
      + intros w'. rewrite lookup_insert_eq, bool_decide_eq_false_2; done. }
  intros c s1 (etag & -> & Hsame & Hp & Ht). eapply after_seq; [by apply after_raceWriters|].
  intros [n err] s2 [[= -> ->] [tag ->]]. cbn [fst snd]. apply after_trigger. intros del s3 Hd.
  apply after_ret. split; [done|]. exists nanos. intros k Hk. s3_answer Hd.
  destruct Hd as [->|[_ ->]]; rewrite ?lookup_delete_ne, lookup_insert_ne by done; auto.
Qed.

Lemma after_rounds f name l violations s :
  2 <= f_writers f -> NoDup l -> Forall (fun r => 0 <= r) l ->
  name = "update" \/ name = "create" /\ unused f l s ->
  after (forRange l (runRound f name (raceOf name)) violations) s (fun c _ => c = Continue violations).
Proof.
  intros Hw. revert s. induction l as [|round l IH]; intros s Hd Hl Hn; [by apply after_ret|].
  apply NoDup_cons in Hd as [Hd1 Hd]. apply Forall_cons in Hl as [Hr Hl].
  assert (Hn1 : name = "update" \/ name = "create" /\ unused f [round] s).
  { destruct Hn as [->|[-> Hu]]; [by left|right; split; [done|]].
    intros n r ->%list_elem_of_singleton. apply Hu. by left. }
  apply (after_seq (runRound f name (raceOf name) round violations)
    (fun c => match c with
              | Return r => Ret (Return r)
              | Continue s' => forRange l (runRound f name (raceOf name)) s'
              end) s _ _ (after_round f name round violations s Hw Hn1)).
  intros c s1 [-> [nanos Hsame]]. apply IH; [done|done|]. destruct Hn as [->|[-> Hu]]; [by left|right].
  split; [done|]. intros n r Hin. rewrite Hsame; [apply Hu; by right|].
  intros E%roundKey_round; [by subst|by eapply Forall_forall in Hl|done].
Qed.

Lemma after_phase f name s :
  2 <= f_writers f -> name = "update" \/ name = "create" /\ unused f (seqZ 0 (f_rounds f)) s ->
  after (runPhase f name (raceOf name)) s (fun c _ => c = Continue 0).
Proof.
  intros Hw Hn. apply after_rounds; [done|apply NoDup_seqZ| |done].
  apply Forall_forall. intros r Hr%elem_of_seqZ. lia.
Qed.

(** C31: no false alarm. Against a store that checks preconditions atomically,
    that answers a failed one by a clean loss and whose ETags tell the writers'
    contents from the seed, the hammer exits with status 0: whatever the clock
    reads, whatever order the writers run in and even when deletes are lost, as
    long as the flags are accepted and the bucket holds none of the keys of its
    create phase. *)
Theorem atomic_store_passes f s t code s' :
  f_bucket f <> "" -> 2 <= f_writers f -> 1 <= f_rounds f ->
  unused f (seqZ 0 (f_rounds f)) s ->
  exec (main f) t code -> s3run s t s' -> code = 0.
Proof.
  intros Hb Hw Hr Hu Hx Hrun.
  assert (H : after (main f) s (fun code _ => code = 0)); [|by eapply H].
  unfold main. apply is_empty_false in Hb. rewrite Hb.
  destruct (Z.ltb_spec (f_writers f) 2); [lia|]. destruct (Z.ltb_spec (f_rounds f) 1); [lia|].
  apply after_trigger. intros r s1 Hc. s3_answer Hc. destruct Hc as [-> ->].
  apply after_trigger. intros [] s1 ->. eapply after_seq; [apply (after_phase f "create"); auto|]. intros c1 s1 ->.
  eapply after_seq; [apply (after_phase f "update"); auto|]. intros c2 s2 ->. by apply after_ret.
Qed.

End AtomicStore.

(** ** A store that ignores preconditions *)

Lemma winners_all l : Forall (fun r => r = None) l -> winners l = length l.
Proof. unfold winners. induction 1 as [|r l -> _ IH]; simpl; [done|by f_equal]. Qed.

Lemma contested_blind f name round t n :
  contested f name round t n -> Forall (fun pr => snd pr = None) (condPuts t) ->
  n = Z.to_nat (f_writers f).
Proof.
  intros (nanos & etag & order & Ho & _ & Hi & _ & <-) Hp.
  rewrite winners_all by (by apply Forall_map).
  apply (f_equal length) in Hi. rewrite !length_map in Hi. rewrite length_map, Hi, Ho. apply length_seqZ.
Qed.

(** the hammer catches a store that takes the conditional headers and
    ignores them: when every conditional PUT of a run that could be completed
    was accepted, the status is 1. *)
Theorem blind_store_fails f t code :
  f_bucket f <> "" -> 2 <= f_writers f -> 1 <= f_rounds f ->
  exec (main f) t code -> Forall (fun ev => ~ hardFailure ev) t ->
  Forall (fun pr => snd pr = None) (condPuts t) -> code = 1.
Proof.
  intros Hb Hw Hr Hx Hh Hp.
  destruct (proj1 (wp_exec _ _) (wp_hammerMain f) _ _ Hx)
    as [(_ & [?|[?|[?|He]]])|(t1 & t2 & created & updated & -> & [Ht1 Hc] & _ & ->)]; [done|lia|lia| |].
  { apply Exists_exists in He as (ev & Hin & He). rewrite Forall_forall in Hh. by apply Hh in He. }
  destruct created as [|[t0 n] created].
  { apply Forall2_length in Hc. rewrite length_seqZ in Hc. simpl in Hc. lia. }
  assert (Hn : n = Z.to_nat (f_writers f)).
  { inversion Hc as [|round ? ? ? Hn Hrest E]; subst. eapply contested_blind; [exact Hn|].
    rewrite Forall_forall in Hp |- *. intros pr Hpr. apply Hp.
    change (pr ∈ condPuts ((t0 ++ concat (map fst created)) ++ t2)). rewrite !condPuts_app. set_solver. }
  unfold allFenced. simpl. destruct (Nat.eqb_spec n 1); [lia|done].
Qed.

(** ** Two stores that run *)

(** Atomic, with the body as ETag, writers in order. *)
Definition serveS3 (honest : bool) (X : Type) (e : s3req X) (s : bucket) : X * bucket :=
  match e with
  | UnixNano => (1782907200000000000, s)
  | LoadDefaultConfig _ => (None, s)
  | NewFromConfig _ => (tt, s)
  | PutObject i =>
      if preconditionHolds s i || negb honest then (None, <[put_Key i := put_Body i]> s)
      else (Some (mkS3Error (Some "PreconditionFailed") "412"), s)
  | HeadObject _ key =>
      (match s !! key with
       | Some tag => inr (Some (Some tag))
       | None => inl (mkS3Error (Some "NotFound") "404")
       end, s)
  | DeleteObject _ key => (None, delete key s)
  | Schedule l => (l ↾ Permutation_refl l, s)
  end.

Definition sampleFlags : flags := mkFlags "probe" "" "auto" 3 2 "cas-hammer".

Definition hammerRun (honest : bool) := run (serveS3 honest) (main sampleFlags) ∅.
Definition hammerTrace (honest : bool) : trace s3req := fst (fst (hammerRun honest)).
Definition hammerCode (honest : bool) : Z := snd (fst (hammerRun honest)).

Lemma hammerRun_exec honest : exec (main sampleFlags) (hammerTrace honest) (hammerCode honest).
Proof.
  unfold hammerTrace, hammerCode. destruct (hammerRun honest) as [[t r] s] eqn:E. cbn [fst snd].
  by eapply run_exec.
Qed.

Lemma serveS3_step X (e : s3req X) s :
  s3step id s (Ev e (fst (serveS3 true X e s))) (snd (serveS3 true X e s)).
Proof.
  destruct e as [| | |i|b key| |A l]; unfold s3step, serveS3; cbn [ev_req ev_resp]; try done.
  - rewrite orb_false_r. destruct (preconditionHolds s i); cbn [fst snd]; [done|]. split; [|done].
    eexists. split; [done|]. by left.
  - cbn [fst snd]. split; [|done]. destruct (s !! key); [done|]. by eexists.
  - by left.
Qed.

Lemma run_s3run {R} (p : C R) s :
  s3run id s (fst (fst (run (serveS3 true) p s))) (snd (run (serveS3 true) p s)).
Proof.
  revert s. induction p as [r|X e k IH]; intros s; simpl; [constructor|].
  pose proof (serveS3_step X e s) as Hs. destruct (serveS3 true X e s) as [x s1]. cbn [fst snd] in Hs.
  specialize (IH x s1). destruct (run (serveS3 true) (k x) s1) as [[t r] s2]. cbn [fst snd] in *.
  by econstructor.
Qed.

Lemma hammer_verdict_witness :
  hammerCode false = 1 /\
  ((hammerCode false = 2 /\ (f_bucket sampleFlags = "" \/ f_writers sampleFlags < 2 \/
     f_rounds sampleFlags < 1 \/ Exists hardFailure (hammerTrace false))) \/
   exists t1 t2 created updated,
     hammerTrace false = Ev (LoadDefaultConfig (f_region sampleFlags)) None
       :: Ev (NewFromConfig (clientOptions sampleFlags)) tt :: t1 ++ t2 /\
     phaseRun sampleFlags "create" t1 created /\ phaseRun sampleFlags "update" t2 updated /\
     hammerCode false = if allFenced (created ++ updated) then 0 else 1).
Proof.
  split; [vm_compute; reflexivity|].
  exact (hammer_verdict sampleFlags (hammerTrace false) (hammerCode false) (hammerRun_exec false)).
Defined.

Lemma atomic_store_passes_witness : hammerCode true = 0.
Proof.
  apply (atomic_store_passes id (fun w E => ltac:(discriminate E)) sampleFlags ∅ (hammerTrace true)
           (hammerCode true) (snd (hammerRun true))).
  - discriminate.
  - simpl. lia.
  - simpl. lia.
  - intros nanos round _. apply lookup_empty.
  - apply hammerRun_exec.
  - exact (run_s3run (main sampleFlags) ∅).
Defined.

Lemma blind_store_fails_witness : hammerCode false = 1.
Proof.
  apply (blind_store_fails sampleFlags (hammerTrace false) (hammerCode false)).
  - discriminate.
  - simpl. lia.
  - simpl. lia.
  - apply hammerRun_exec.
  - vm_compute. repeat constructor; intros Hf; first [done|exact (Hf eq_refl)|exact (Hf _ eq_refl)].
  - vm_compute. repeat constructor.
Defined.
