(* ===== verification/RolloutSpec.v ===== *)
(** * What a reconcile pass may do to a fleet

    The contract of [reconcileFleet]: [fleetStep] names the transitions of the
    StatefulSet a pass may write, each with the evidence that must be in the
    pass's own requests before it. The first half of the file states the
    contract, the second proves that the handlers of [Rollout] keep it against
    every sequence of answers. *)

From S2P Require Import Prelude GoStrings GoTime Versions Effects Kube Api Cluster Resources.
From S2P Require Import FleetState Ensure Rollout.

Local Open Scope Z_scope.

Section Spec.
Context `{KubeLib}.

(** ** Evidence *)

(** An ordinal was read, runs revision [rev] and is ready. *)
Definition ordinalUpdated (app : WorkerApp) (rev : string) (t : tr) (ord : Z) : Prop :=
  exists pod : Pod,
    Ev (Get Cached KPod "" (app_Namespace app) (ordinalName (fleetName app) ord)) (inr pod) ∈ t /\
    mapGet (meta_Labels (pod_Meta pod)) "controller-revision-hash" = rev /\
    podReady pod = true.

(** The live pods were listed: as many as there are replicas, all of them ready
    and controlled by the StatefulSet, every ordinal among them, and each one
    answered a valid sample. *)
Definition fleetObserved (app : WorkerApp) (sts : StatefulSet) (t : tr)
    (pods : list Pod) (samples : list PodState) : Prop :=
  Ev (ListPods Live (app_Namespace app) (selectorLabels app)) (inr pods) ∈ t /\
  1 <= liveReplicas sts /\
  wrap32 (Z.of_nat (length pods)) = liveReplicas sts /\
  Forall (fun p => IsControlledBy (pod_Meta p) (sts_Meta sts) = true /\ podReady p = true) pods /\
  (forall i, 0 <= i < liveReplicas sts ->
     ordinalName (meta_Name (sts_Meta sts)) i ∈ map (fun p => pod_Name p) pods) /\
  Forall2 (podSampled t) pods samples.

(** The fleet was observed and the restoring counters sum to zero. *)
Definition fleetWarm (app : WorkerApp) (sts : StatefulSet) (t : tr) : Prop :=
  exists pods samples, fleetObserved app sts t pods samples /\
                       wrap64 (sumZ (map ps_Restoring samples)) = 0.

(** The settle interval is over, if the annotation names one. *)
Definition settled (sts : StatefulSet) (t : tr) : Prop :=
  match parseRFC3339Nano (mapGet (sts_Annotations sts) settleAnnotation) with
  | Some deadline => exists now, Ev Now now ∈ t /\ deadline <= now
  | None => True
  end.

(** The live pods were listed and none of them that the StatefulSet controls
    forms a forbidden mix with [desired]. *)
Definition podsCompatible (app : WorkerApp) (existing desired : StatefulSet) (t : tr) : Prop :=
  exists pods, Ev (ListPods Live (app_Namespace app) (selectorLabels app)) (inr pods) ∈ t /\
    Forall (fun p => IsControlledBy (pod_Meta p) (sts_Meta existing) = true ->
                     fleetBreakingReason (podAsStatefulSet p) desired = "") pods.

(** The fleet is stopped. *)
Definition fleetStopped (app : WorkerApp) (existing : StatefulSet) (t : tr) : Prop :=
  liveReplicas existing = 0 /\
  sts_ObservedGeneration (sts_Status existing) = meta_Generation (sts_Meta existing) /\
  sts_StatusReplicas (sts_Status existing) <= 0 /\
  Ev (ListPods Live (app_Namespace app) (selectorLabels app)) (inr []) ∈ t.

(** No HorizontalPodAutoscaler of the namespace targets the fleet. *)
Definition noHPATargets (app : WorkerApp) (hpas : list HorizontalPodAutoscaler) : Prop :=
  Forall (fun h => ~ (hpa_TargetKind h = "StatefulSet" /\ hpa_TargetName h = fleetName app)) hpas.

(** The scaler is out of the way: with autoscaling on, our ScaledObject asks for
    the pause and KEDA acknowledged it (or KEDA is not installed); with it off,
    there is no ScaledObject. Either way no HPA is left. *)
Definition scalingPaused (app : WorkerApp) (t : tr) : Prop :=
  (exists hpas, Ev (ListHPAs (app_Namespace app)) (inr hpas) ∈ t /\ noHPATargets app hpas) /\
  exists got : error + Unstructured,
    Ev (Get Live KUnstructured scaledObjectGVK (app_Namespace app) (fleetName app)) got ∈ t /\
    match got with
    | inl e => IsNoMatchError e = true \/ (autoscalingEnabled app = false /\ IsNotFound e = true)
    | inr o => autoscalingEnabled app = true /\ IsControlledBy (u_Meta o) (app_Meta app) = true /\
               mapGet (meta_Annotations (u_Meta o)) kedaPausedAnnotation = annotationTrue /\
               exists c, c ∈ statusConditions o /\ isPausedCondition c = true
    end.

(** What any write of a pass requires. *)
Definition mayWrite (app : WorkerApp) (existing : StatefulSet) (t : tr) : Prop :=
  scalingPaused app t /\ runtimeChangeRefusal app (stsContainerImage existing) = "".

(** ** Transitions *)

Definition recreateStrategy (app : WorkerApp) : Prop :=
  celld_UpdateStrategy (spec_Celld (app_Spec app)) = UpdateStrategyRecreate.

Definition recreating (sts : StatefulSet) : Prop :=
  mapGet (sts_Annotations sts) recreateAnnotation = annotationTrue.

Definition hashOf (sts : StatefulSet) : string := mapGet (sts_Annotations sts) templateHashAnnotation.

(** The object each transition writes. *)
Definition releaseOf (sts : StatefulSet) (partition now : Z) : StatefulSet :=
  setStsPartition (annotate sts settleAnnotation (formatRFC3339Nano (now + 10 * Second)))
    (partition - 1).

Definition startOf (existing desired : StatefulSet) (now : Z) : StatefulSet :=
  setStsPartition
    (annotate (annotate (setStsTemplate existing (sts_Template (sts_Spec desired)))
                 templateHashAnnotation (hashOf desired))
       settleAnnotation (formatRFC3339Nano (now + 10 * Second)))
    (liveReplicas existing).

Definition stopOf (existing : StatefulSet) : StatefulSet :=
  annotate (setStsReplicas existing 0) recreateAnnotation annotationTrue.

Definition restartOf (app : WorkerApp) (existing desired : StatefulSet) : StatefulSet :=
  let sts := annotate (setStsTemplate existing (sts_Template (sts_Spec desired)))
               templateHashAnnotation (hashOf desired) in
  let sts := setStsAnnotations sts (delete recreateAnnotation (sts_Annotations sts)) in
  setStsPartition (setStsReplicas sts (desiredReplicas app)) 0.

(** The gates of a release at [partition] of [live] replicas. *)
Record releaseGates (app : WorkerApp) (sts : StatefulSet) (partition live : Z) (t : tr) : Prop := {
  gate_partition : 0 < partition;
  gate_observed : sts_ObservedGeneration (sts_Status sts) = meta_Generation (sts_Meta sts);
  gate_settled : settled sts t;
  gate_revision : sts_UpdateRevision (sts_Status sts) <> "";
  gate_ordinals : forall ord, partition <= ord < live ->
                    ordinalUpdated app (sts_UpdateRevision (sts_Status sts)) t ord;
  gate_warm : fleetWarm app sts t
}.

(** One write of the operator, and what the pass must have seen before it. *)
Inductive fleetStep (app : WorkerApp) (desired : StatefulSet) (t : tr)
  : StatefulSet -> StatefulSet -> Prop :=
| FleetClamp sts :
    hashOf sts = hashOf desired -> liveReplicas sts < stsPartition sts ->
    fleetStep app desired t sts (setStsPartition sts (liveReplicas sts))
| FleetRelease sts now :
    hashOf sts = hashOf desired -> stsPartition sts <= liveReplicas sts ->
    releaseGates app sts (stsPartition sts) (liveReplicas sts) t -> Ev Now now ∈ t ->
    fleetStep app desired t sts (releaseOf sts (stsPartition sts) now)
| FleetStart sts now :
    hashOf sts <> hashOf desired -> ~ recreateStrategy app -> ~ recreating sts ->
    fleetBreakingReason sts desired = "" -> podsCompatible app sts desired t ->
    Ev Now now ∈ t ->
    fleetStep app desired t sts (startOf sts desired now)
| FleetStop sts :
    recreating sts \/ (hashOf sts <> hashOf desired /\ recreateStrategy app) ->
    liveReplicas sts <> 0 ->
    fleetStep app desired t sts (stopOf sts)
| FleetRestart sts :
    recreating sts \/ (hashOf sts <> hashOf desired /\ recreateStrategy app) ->
    fleetStopped app sts t ->
    fleetStep app desired t sts (restartOf app sts desired)
| FleetScale sts :
    hashOf sts = hashOf desired -> stsPartition sts <= 0 -> ~ recreating sts ->
    autoscalingEnabled app = false -> liveReplicas sts <> desiredReplicas app ->
    fleetStep app desired t sts (setStsReplicas sts (desiredReplicas app)).

(** The requests of one pass that read [existing], in order: no write to the
    StatefulSet; or one transition, last, after nothing but reads; or a clamp,
    after which the answer may go through the gates and be released. A write
    comes only once the scaler is out of the way and the image change is not
    refused. *)
Inductive fleetPass (app : WorkerApp) (desired existing : StatefulSet) : tr -> Prop :=
| PassQuiet t : stsWrites t = [] -> fleetPass app desired existing t
| PassWrite t s x :
    readOnly t -> mayWrite app existing t -> fleetStep app desired t existing s ->
    fleetPass app desired existing (t ++ [Ev (Update KStatefulSet s) x])
| PassClamp t c c' t' :
    readOnly t -> mayWrite app existing t -> fleetStep app desired t existing c ->
    c = setStsPartition existing (liveReplicas existing) ->
    liveReplicas existing < stsPartition existing -> readOnly t' ->
    fleetPass app desired existing (t ++ Ev (Update KStatefulSet c) (inr c') :: t')
| PassClampRelease t c c' t' now x :
    readOnly t -> mayWrite app existing t -> fleetStep app desired t existing c ->
    c = setStsPartition existing (liveReplicas existing) ->
    liveReplicas existing < stsPartition existing -> readOnly t' ->
    releaseGates app c' (liveReplicas existing) (liveReplicas existing) t' -> Ev Now now ∈ t' ->
    fleetPass app desired existing
      (t ++ Ev (Update KStatefulSet c) (inr c') :: t'
         ++ [Ev (Update KStatefulSet (releaseOf c' (liveReplicas existing) now)) x]).

(** ** Evidence only grows *)

Lemma ordinalUpdated_mono app rev t t' ord :
  t ⊆ t' -> ordinalUpdated app rev t ord -> ordinalUpdated app rev t' ord.
Proof. intros Ht (pod & ? & ?). exists pod. auto. Qed.

Lemma fleetObserved_mono app sts t t' pods samples :
  t ⊆ t' -> fleetObserved app sts t pods samples -> fleetObserved app sts t' pods samples.
Proof.
  intros Ht (? & ? & ? & ? & ? & HF). split_and!; auto.
  eapply Forall2_impl; [exact HF|]. intros. by eapply podSampled_mono.
Qed.

Lemma fleetWarm_mono app sts t t' : t ⊆ t' -> fleetWarm app sts t -> fleetWarm app sts t'.
Proof. intros Ht (pods & l & ? & ?). exists pods, l. eauto using fleetObserved_mono. Qed.

Lemma settled_mono sts t t' : t ⊆ t' -> settled sts t -> settled sts t'.
Proof. unfold settled. intros Ht. case_match; [|done]. intros (now & ? & ?). eauto. Qed.

Lemma podsCompatible_mono app e d t t' :
  t ⊆ t' -> podsCompatible app e d t -> podsCompatible app e d t'.
Proof. intros Ht (pods & ? & ?). exists pods. auto. Qed.

Lemma fleetStopped_mono app e t t' : t ⊆ t' -> fleetStopped app e t -> fleetStopped app e t'.
Proof. intros Ht (? & ? & ? & ?). split_and!; auto. Qed.

Lemma scalingPaused_mono app t t' : t ⊆ t' -> scalingPaused app t -> scalingPaused app t'.
Proof.
  intros Ht [(hpas & ? & ?) (got & ? & ?)]. split; [exists hpas|exists got]; auto.
Qed.

Lemma mayWrite_mono app existing t t' : t ⊆ t' -> mayWrite app existing t -> mayWrite app existing t'.
Proof. intros ? []. split; eauto using scalingPaused_mono. Qed.

Lemma releaseGates_mono app sts p live t t' :
  t ⊆ t' -> releaseGates app sts p live t -> releaseGates app sts p live t'.
Proof.
  intros Ht []. split; eauto using ordinalUpdated_mono, fleetWarm_mono, settled_mono.
Qed.

Lemma fleetStep_mono app desired t t' s s' :
  t ⊆ t' -> fleetStep app desired t s s' -> fleetStep app desired t' s s'.
Proof.
  intros Ht []; [apply FleetClamp|apply FleetRelease|apply FleetStart|apply FleetStop
                |apply FleetRestart|apply FleetScale];
    eauto using releaseGates_mono, podsCompatible_mono, fleetStopped_mono.
Qed.

End Spec.
