(* ===== verification/RolloutProofs.v ===== *)
(** * The rollout handlers keep the contract of [RolloutSpec]

    One lemma per handler of [internal/controller/rollout.go], about every
    execution of it. *)

From S2P Require Import Prelude GoStrings GoTime Versions Effects Kube Api Cluster Resources.
From S2P Require Import FleetState Ensure Rollout RolloutSpec.

Local Open Scope Z_scope.

(** Closes [readOnly] of a concrete trace and inclusions between traces. *)
Ltac ro := repeat first [apply readOnly_app; split | apply Forall_cons; split | done | constructor].

Section Proofs.
Context `{KubeLib}.

(** ** Pieces *)

Lemma wp_afterUpdate app sts k (Q : tr -> fleetOutcome * option error -> Prop) :
  (forall e r, r = (zeroOutcome, Some e) \/ r = (conflictOutcome app, None) ->
     Q [Ev (Update KStatefulSet sts) (inl e)] r) ->
  (forall s', wp (k s') (fun t r => Q (Ev (Update KStatefulSet sts) (inr s') :: t) r)) ->
  wp (afterUpdate app sts k) Q.
Proof.
  intros Herr Hk. unfold afterUpdate, updateFleet. simpl. intros [e|s']; simpl; [|apply Hk].
  destruct (IsConflict e); simpl; apply Herr; auto.
Qed.

Lemma wp_gateLoop app rev out l :
  wp (forRange l (gateOrdinal app rev out) tt)
    (fun t c => readOnly t /\
       match c with
       | Continue _ => Forall (ordinalUpdated app rev t) l
       | Return r => out_RolledOut (fst r) = out_RolledOut out
       end).
Proof.
  eapply wp_mono; cycle 1.
  - apply (wp_forRange l (gateOrdinal app rev out) tt
             (fun dn t _ => readOnly t /\ Forall (ordinalUpdated app rev t) dn)
             (fun t r => readOnly t /\ out_RolledOut (fst r) = out_RolledOut out)).
    + split; constructor.
    + intros dn ord todo t [] _ [Hro Hd]. unfold gateOrdinal. simpl. intros [e|pod]; simpl.
      { split; [ro|done]. }
      destruct (String.eqb _ _) eqn:Hrev; simpl; [|split; [ro|done]].
      destruct (podReady pod) eqn:Hready; simpl; [|split; [ro|done]].
      bool_simp. split; [ro|]. apply Forall_app. split.
      * eapply Forall_impl; [exact Hd|]. intros ?. apply ordinalUpdated_mono. set_solver.
      * constructor; [|constructor]. exists pod. split_and!; [set_solver|done..].
  - intros t [r|s]; simpl; tauto.
Qed.

(** What [observeFleet] returns without an error. *)
Definition observation (app : WorkerApp) (sts : StatefulSet) (t : tr)
    (states : gmap string PodState) (restoring : Z) : Prop :=
  exists pods samples,
    fleetObserved app sts t pods samples /\
    restoring = wrap64 (sumZ (map ps_Restoring samples)) /\
    dom states = list_to_set (map (fun p => pod_Name p) pods) /\
    map_Forall (fun n st => exists pod, pod ∈ pods /\ pod_Name pod = n /\ podSampled t pod st) states.

Lemma wp_observeFleet app sts :
  wp (observeFleet app sts)
    (fun t res => readOnly t /\
       let '(states, restoring, err) := res in
       err = None -> observation app sts t states restoring).
Proof.
  unfold observeFleet. apply wp_trigger. intros [e|pods]; [split; [ro|done]|]. cbv beta iota zeta.
  destruct (_ || _) eqn:Hcount; [split; [ro|done]|]. bool_simp.
  destruct (list_find _ pods) as [[? ?]|] eqn:Hpods; [split; [ro|done]|].
  destruct (list_find _ (ordinals _)) as [[? ?]|] eqn:Hords; [split; [ro|done]|].
  apply list_find_None in Hpods. apply list_find_None in Hords.
  eapply wp_mono; [|apply wp_FleetSweep].
  intros t [[states restoring] err] [Hro Hs]. split; [ro|]. intros ->. simpl in Hs.
  destruct Hs as (l & Hl & -> & Hdom & Hall).
  set (ev := Ev _ (inr pods)). assert (Hsub : t ⊆ ev :: t) by set_solver.
  exists pods, l. split_and!; try done.
  - split_and!; try done; [set_solver| | |].
    + eapply Forall_impl; [exact Hpods|]. intros p Hp%not_false_iff_true. by bool_simp.
    + intros i Hi. rewrite Forall_forall in Hords.
      specialize (Hords i). unfold ordinals in Hords. rewrite elem_of_seqZ in Hords.
      apply dec_stable. intros Hn. apply Hords; [lia|]. by rewrite elem_of_list_to_set.
    + eapply Forall2_impl; [exact Hl|]. intros. by eapply podSampled_mono.
  - intros n st (p & ? & ? & ?)%Hall. exists p. split_and!; [done..|]. by eapply podSampled_mono.
Qed.

(** ** [rolloutStep] *)

(** [t] does nothing but read until its last request, which writes [s] on the
    evidence [P] of the requests before it. *)
Definition writesLast (t : tr) (s : StatefulSet) (P : tr -> Prop) : Prop :=
  exists t0 x, t = t0 ++ [Ev (Update KStatefulSet s) x] /\ readOnly t0 /\ P t0.

Lemma writesLast_prefix t1 t s (P P' : tr -> Prop) :
  readOnly t1 -> (forall t0, P t0 -> P' (t1 ++ t0)) -> writesLast t s P -> writesLast (t1 ++ t) s P'.
Proof.
  intros Hro HP (t0 & x & -> & ? & ?). exists (t1 ++ t0), x.
  split_and!; [by rewrite app_assoc|by apply readOnly_app|by apply HP].
Qed.

Lemma writesLast_now s (P : tr -> Prop) x : P [] -> writesLast [Ev (Update KStatefulSet s) x] s P.
Proof. intros. exists [], x. split_and!; [done|constructor|done]. Qed.

Lemma writesLast_writes t s P : writesLast t s P -> stsWrites t = [s].
Proof. intros (t0 & x & -> & ? & ?). rewrite stsWrites_app, (readOnly_stsWrites t0); done. Qed.

Lemma writesLast_evidence t s (P : tr -> Prop) :
  (forall t t', t ⊆ t' -> P t -> P t') -> writesLast t s P -> P t.
Proof. intros Hm (t0 & x & -> & ? & ?). eapply Hm; [|done]. set_solver. Qed.

Definition releaseEvidence (app : WorkerApp) (sts : StatefulSet) (p live now : Z) (t : tr) : Prop :=
  Ev Now now ∈ t /\ releaseGates app sts p live t.

Definition gatesPost (app : WorkerApp) (sts : StatefulSet) (p live : Z) (t : tr)
    (r : fleetOutcome * option error) : Prop :=
  out_RolledOut (fst r) = false /\
  (readOnly t \/ exists now, writesLast t (releaseOf sts p now) (releaseEvidence app sts p live now)).

Lemma gatesPost_quiet app sts p live t r :
  readOnly t -> out_RolledOut (fst r) = false -> gatesPost app sts p live t r.
Proof. split; auto. Qed.

Lemma releaseEvidence_mono app sts p live now t t' :
  t ⊆ t' -> releaseEvidence app sts p live now t -> releaseEvidence app sts p live now t'.
Proof. intros ? []. split; eauto using releaseGates_mono. Qed.

Lemma failedUpdate_notRolledOut app e (r : fleetOutcome * option error) :
  r = (zeroOutcome, Some e) \/ r = (conflictOutcome app, None) -> out_RolledOut (fst r) = false.
Proof. by intros [-> | ->]. Qed.

(** The tail of [rolloutGates]: sweep, then release. [t0] is what came before. *)
Lemma wp_settling (settle : option Z) :
  wp (match settle with
      | Some deadline => now ← trigger Now; Ret (if now <? deadline then Some deadline else None)
      | None => Ret None
      end)
    (fun (t : tr) r => readOnly t /\ (r = None -> match settle with
                                        | Some d => exists now, Ev Now now ∈ t /\ d <= now
                                        | None => True
                                        end)).
Proof.
  destruct settle as [d|]; simpl.
  - intros now. split; [ro|]. destruct (now <? d) eqn:E; [done|]. bool_simp.
    intros _. exists now. split; [set_solver|done].
  - split; [ro|done].
Qed.

Lemma wp_rolloutGates app sts p live :
  wp (rolloutGates app sts p live) (gatesPost app sts p live).
Proof.
  unfold rolloutGates. cbv zeta.
  destruct (_ || _) eqn:Hgen; [by apply gatesPost_quiet; [ro|]|]. bool_simp.
  eapply wp_seq; [apply wp_settling|]. intros t1 [d|] [Hro1 Hsettled].
  { apply wp_trigger. intros now. apply gatesPost_quiet; [ro|done]. }
  specialize (Hsettled eq_refl).
  destruct (is_empty _) eqn:Hrev; [by apply gatesPost_quiet; [ro|]|].
  apply is_empty_false in Hrev.
  eapply wp_seq; [apply wp_gateLoop|]. intros t2 [r|u] [Hro2 Hords].
  { apply gatesPost_quiet; [ro|done]. }
  eapply wp_seq; [apply wp_observeFleet|]. intros t3 [[states restoring] err] [Hro3 Hobs].
  cbv beta iota. destruct (_ || _) eqn:Hbad; [apply gatesPost_quiet; [ro|done]|].
  destruct err as [e|]; [done|]. bool_simp. specialize (Hobs eq_refl).
  destruct Hobs as (pods & samples & Hobs & Hres & _ & _).
  apply wp_trigger. intros now.
  set (t0 := t1 ++ t2 ++ t3 ++ [Ev Now now]).
  assert (Hev : releaseEvidence app sts p live now t0).
  { split; [set_solver|]. split; try done.
    - eapply settled_mono; [|exact Hsettled]. set_solver.
    - intros ord Hord. rewrite Forall_forall in Hords.
      eapply ordinalUpdated_mono; [|apply Hords, elem_of_seqZ; lia]. set_solver.
    - exists pods, samples. split; [|congruence]. eapply fleetObserved_mono; [|done]. set_solver. }
  assert (Hlast : forall x, writesLast (t1 ++ t2 ++ t3 ++ [Ev Now now; Ev (Update KStatefulSet (releaseOf sts p now)) x])
                    (releaseOf sts p now) (releaseEvidence app sts p live now)).
  { intros x. exists t0, x. split_and!; [|ro|done]. unfold t0. by rewrite <- !app_assoc. }
  apply wp_afterUpdate.
  - intros e r Hr. split; [by eapply failedUpdate_notRolledOut|]. right. exists now. apply Hlast.
  - intros s'. split; [done|]. right. exists now. apply Hlast.
Qed.

(** Either the gates of the object as read, or a clamp whose answer went through
    the gates. *)
Definition stepPost (app : WorkerApp) (sts : StatefulSet) (t : tr)
    (r : fleetOutcome * option error) : Prop :=
  out_RolledOut (fst r) = false /\
  ((stsPartition sts <= liveReplicas sts /\ gatesPost app sts (stsPartition sts) (liveReplicas sts) t r)
   \/ (liveReplicas sts < stsPartition sts /\
       let c := setStsPartition sts (liveReplicas sts) in
       ((exists e, t = [Ev (Update KStatefulSet c) (inl e)]) \/
        exists c' t', t = Ev (Update KStatefulSet c) (inr c') :: t' /\
                      gatesPost app c' (liveReplicas sts) (liveReplicas sts) t' r))).

Lemma wp_rolloutStep app sts : wp (rolloutStep app sts) (stepPost app sts).
Proof.
  unfold rolloutStep. cbv zeta. destruct (_ <? _) eqn:Hc; bool_simp.
  - apply wp_afterUpdate.
    + intros e r Hr. split; [by eapply failedUpdate_notRolledOut|]. eauto.
    + intros c'. eapply wp_mono; [|apply wp_rolloutGates].
      intros t r Hp. pose proof Hp as [? _]. split; [done|]. right. split; [done|]. eauto.
  - eapply wp_mono; [|apply wp_rolloutGates]. intros t r Hp. pose proof Hp as [? _]. split; auto.
Qed.

(** ** [recreateStep] *)

Definition recreatePost (app : WorkerApp) (existing desired : StatefulSet) (t : tr)
    (r : fleetOutcome * option error) : Prop :=
  out_RolledOut (fst r) = false /\
  (readOnly t
   \/ (liveReplicas existing <> 0 /\ writesLast t (stopOf existing) (fun _ => True))
   \/ writesLast t (restartOf app existing desired) (fleetStopped app existing)).

Lemma wp_recreateStep app existing desired hazard :
  wp (recreateStep app existing desired hazard) (recreatePost app existing desired).
Proof.
  unfold recreateStep. cbv zeta. destruct (_ =? 0) eqn:Hlive; cbn [negb]; bool_simp.
  - apply wp_trigger. intros [e|pods]; [split; [done|left; ro]|]. cbv beta iota.
    destruct (_ || _) eqn:Hbusy; [split; [done|left; ro]|]. bool_simp.
    assert (pods = []) as -> by (destruct pods; [done|simpl in *; lia]).
    assert (Hlast : forall x, writesLast
      [Ev (ListPods Live (app_Namespace app) (selectorLabels app)) (inr []);
       Ev (Update KStatefulSet (restartOf app existing desired)) x]
      (restartOf app existing desired) (fleetStopped app existing)).
    { intros x. exists [Ev (ListPods Live (app_Namespace app) (selectorLabels app)) (inr [])], x.
      split_and!; [done|ro|]. split_and!; [done..|set_solver]. }
    apply wp_afterUpdate.
    + intros e r Hr. split; [by eapply failedUpdate_notRolledOut|]. right; right. apply Hlast.
    + intros s'. split; [done|]. right; right. apply Hlast.
  - apply wp_afterUpdate.
    + intros e r Hr. split; [by eapply failedUpdate_notRolledOut|]. right; left.
      split; [done|]. by apply writesLast_now.
    + intros s'. split; [done|]. right; left. split; [done|]. by apply writesLast_now.
Qed.

(** ** [steadyFleet] *)

(** What a pass has seen when it reports the fleet ready on [v]. *)
Definition steadyEvidence (app : WorkerApp) (sts : StatefulSet) (v : string) (t : tr) : Prop :=
  sts_ReadyReplicas (sts_Status sts) = liveReplicas sts /\
  sts_UpdatedReplicas (sts_Status sts) = liveReplicas sts /\
  sts_ObservedGeneration (sts_Status sts) = meta_Generation (sts_Meta sts) /\
  exists states, observation app sts t states 0 /\
                 map_Forall (fun _ st => notConverged v st = false) states.

Definition steadyPost (app : WorkerApp) (sts : StatefulSet) (v : string) (t : tr)
    (r : fleetOutcome * option error) : Prop :=
  (readOnly t /\ (out_RolledOut (fst r) = true ->
     r = (mkOutcome PhaseReady 0 "" (30 * Second) true, None) /\ steadyEvidence app sts v t))
  \/ (out_RolledOut (fst r) = false /\ autoscalingEnabled app = false /\
      liveReplicas sts <> desiredReplicas app /\
      writesLast t (setStsReplicas sts (desiredReplicas app)) (fun _ => True)).

Lemma observation_mono app sts t t' states n :
  t ⊆ t' -> observation app sts t states n -> observation app sts t' states n.
Proof.
  intros Ht (pods & l & ? & ? & ? & Hall). exists pods, l.
  split_and!; [by eapply fleetObserved_mono|done..|].
  intros k st (p & ? & ? & ?)%Hall. exists p. split_and!; [done..|]. by eapply podSampled_mono.
Qed.

Lemma wp_steadyFleet app sts v : wp (steadyFleet app sts v) (steadyPost app sts v).
Proof.
  unfold steadyFleet. cbv zeta. destruct (_ && _) eqn:Hscale; bool_simp.
  { apply wp_afterUpdate.
    - intros e r Hr. right. split_and!; [by eapply failedUpdate_notRolledOut|done..|].
      by apply writesLast_now.
    - intros s'. right. split_and!; [done..|]. by apply writesLast_now. }
  clear Hscale. destruct (_ && _) eqn:Hconv; cbn [negb]; [|left; split; [ro|done]]. bool_simp.
  eapply wp_seq; [apply wp_observeFleet|]. intros t1 [[states restoring] err] [Hro Hobs].
  cbv beta iota. destruct (_ || _) eqn:Hbad; [left; split; [ro|done]|].
  destruct err as [e|]; [done|]. bool_simp. subst restoring. specialize (Hobs eq_refl).
  apply wp_trigger. intros [order Hp]. cbv beta. simpl proj1_sig.
  destruct (list_find _ order) as [[i [name st]]|] eqn:Hf; [left; split; [ro|done]|].
  apply list_find_None in Hf. left. split; [ro|]. intros _. split; [done|].
  split_and!; [done..|]. exists states. split.
  - eapply observation_mono; [|exact Hobs]. set_solver.
  - intros n st Hst. rewrite Forall_forall in Hf.
    apply not_true_iff_false, (Hf (n, st)). rewrite Hp. by apply elem_of_map_to_list.
Qed.

(** ** The other handlers of a pass write no StatefulSet *)

Lemma wp_ensureUnstructured_sts app desired :
  wp (ensureUnstructured app desired) (fun t _ => stsWrites t = []).
Proof.
  unfold ensureUnstructured. destruct (SetControllerReference _ _) as [e|m]; [done|].
  cbv zeta. apply wp_trigger. intros [e|live]; cbv beta iota.
  - destruct (IsNotFound e); [|done]. by apply wp_trigger; intros ?.
  - destruct (requireOwnership _ _ _); [done|]. destruct (_ && _); [done|].
    by apply wp_trigger; intros ?.
Qed.

Lemma wp_ensureScaledObject_sts r app outcome :
  wp (ensureScaledObject r app outcome) (fun t _ => stsWrites t = []).
Proof.
  assert (Hrm : wp (removeScaledObject app) (fun t _ => stsWrites t = [])).
  { unfold removeScaledObject. apply wp_trigger. intros [e|o]; cbv beta iota.
    - by destruct (_ || _).
    - destruct (requireOwnership _ _ _); [done|]. apply wp_trigger. intros [e|]; [|done].
      by destruct (IsNotFound e). }
  unfold ensureScaledObject. destruct (spec_Autoscaling _) as [a|]; [|done].
  destruct (as_Enabled a); [|done]. cbv zeta.
  eapply wp_seq; [apply wp_ensureUnstructured_sts|]. intros t [e|] Ht; [destruct (IsNoMatchError e)|];
    apply wp_ret; by rewrite app_nil_r.
Qed.

Lemma wp_configHash app : wp (configHash app) (fun t _ => readOnly t).
Proof.
  unfold configHash. destruct (configRefs app) as [|ref refs]; [constructor|].
  eapply wp_seq; [|intros t c Ht; apply wp_ret; rewrite app_nil_r; exact Ht].
  eapply wp_mono; cycle 1.
  - apply (wp_forRange (ref :: refs) (digestSecret app) "" (fun _ t _ => readOnly t)
             (fun t _ => readOnly t)); [constructor|].
    intros dn name todo t acc _ Ht. unfold digestSecret. apply wp_trigger.
    intros [e|s]; cbv beta iota; [destruct (IsNotFound e)|]; apply wp_ret; ro.
  - by intros t [r|s].
Qed.

(** ** [pauseScaling] *)

Lemma wp_noHPA app :
  wp (noHPA app) (fun t r => readOnly t /\ (r = inr true ->
    exists hpas, Ev (ListHPAs (app_Namespace app)) (inr hpas) ∈ t /\ noHPATargets app hpas)).
Proof.
  unfold noHPA. apply wp_trigger. intros [e|hpas]; apply wp_ret; (split; [ro|]); [done|].
  intros [= Hx]. apply negb_true_iff in Hx. exists hpas. split; [set_solver|].
  apply Forall_forall. intros h Hh [Hk Hn].
  apply not_true_iff_false in Hx. apply Hx, existsb_exists. exists h.
  split; [by apply list_elem_of_In|]. by rewrite Hk, Hn, !String.eqb_refl.
Qed.

Lemma IsNotFound_not_NoMatch e : IsNotFound e = true -> IsNoMatchError e = false.
Proof. unfold IsNotFound, IsNoMatchError. by destruct (errorKind e) as [[]|]. Qed.

Lemma requireOwnership_None app ty m :
  requireOwnership app ty m = None -> IsControlledBy m (app_Meta app) = true.
Proof. unfold requireOwnership. by destruct (IsControlledBy _ _). Qed.

Definition pausePost (app : WorkerApp) (t : tr) (r : error + bool) : Prop :=
  stsWrites t = [] /\ (r = inr true -> readOnly t /\ scalingPaused app t).

(** The common end: the HPA check after the ScaledObject answered [got]. *)
Lemma wp_pause_noHPA app got :
  (match got with
   | inl e => IsNoMatchError e = true \/ (autoscalingEnabled app = false /\ IsNotFound e = true)
   | inr o => autoscalingEnabled app = true /\ IsControlledBy (u_Meta o) (app_Meta app) = true /\
              mapGet (meta_Annotations (u_Meta o)) kedaPausedAnnotation = annotationTrue /\
              exists c, c ∈ statusConditions o /\ isPausedCondition c = true
   end) ->
  wp (noHPA app) (fun t r => pausePost app
    (Ev (Get Live KUnstructured scaledObjectGVK (app_Namespace app) (fleetName app)) got :: t) r).
Proof.
  intros Hgot. eapply wp_mono; [|apply wp_noHPA]. intros t r [Hro Hr].
  set (ev := Ev _ got). assert (Hro' : readOnly (ev :: t)) by ro.
  split; [by apply readOnly_stsWrites|]. intros Htrue. split; [done|].
  destruct (Hr Htrue) as (hpas & Hin & ?). split; [exists hpas|exists got].
  - split; [set_solver|done].
  - split; [set_solver|done].
Qed.

Lemma wp_pauseScaling rc app : wp (pauseScaling rc app) (pausePost app).
Proof.
  unfold pauseScaling. apply wp_trigger. intros got. cbv beta.
  assert (Hensure : forall a, wp
    (err ← ensureUnstructured app (buildScaledObject app a (r_PrometheusURL rc) true);
     Ret (match err with Some e => inl e | None => inr false end))
    (fun t r => pausePost app
      (Ev (Get Live KUnstructured scaledObjectGVK (app_Namespace app) (fleetName app)) got :: t) r)).
  { intros a. eapply wp_seq; [apply wp_ensureUnstructured_sts|]. intros t err Ht.
    apply wp_ret. rewrite app_nil_r. split; [exact Ht|]. by destruct err. }
  assert (Hoff : autoscalingEnabled app = false -> wp
    (match got with
     | inr _ => res ← ensureScaledObject rc app zeroOutcome;
                Ret (if (snd res : bool) then inl (Errorf "could not remove disabled scaler") else inr false)
     | inl e => if negb (IsNotFound e) && negb (IsNoMatchError e) then Ret (inl e) else noHPA app
     end)
    (fun t r => pausePost app
      (Ev (Get Live KUnstructured scaledObjectGVK (app_Namespace app) (fleetName app)) got :: t) r)).
  { intros Has. destruct got as [e|o].
    - destruct (_ && _) eqn:Hkind; [apply wp_ret; by split|].
      apply wp_pause_noHPA. apply andb_false_iff in Hkind as [?|?]; bool_simp; auto.
    - eapply wp_seq; [apply wp_ensureScaledObject_sts|]. intros t res Ht.
      apply wp_ret. rewrite app_nil_r. split; [exact Ht|]. by destruct (snd res). }
  destruct (spec_Autoscaling (app_Spec app)) as [a|] eqn:Hspec.
  2: { apply Hoff. unfold autoscalingEnabled. by rewrite Hspec. }
  destruct (autoscalingEnabled app) eqn:Has; [|by apply Hoff].
  destruct got as [e|o].
  - destruct (IsNoMatchError e) eqn:?; [apply wp_pause_noHPA; by left|].
    destruct (negb _); [apply wp_ret; by split|]. apply Hensure.
  - destruct (String.eqb _ _) eqn:Hann; cbn [negb]; [|apply Hensure]. bool_simp.
    destruct (requireOwnership _ _ _) as [e|] eqn:Hown; [apply wp_ret; by split|].
    apply requireOwnership_None in Hown.
    destruct (existsb _ _) eqn:Hex; [|apply wp_ret; by split].
    apply wp_pause_noHPA. split_and!; [done..|].
    apply existsb_exists in Hex as (c & Hin & Hc). exists c. split; [by apply list_elem_of_In|done].
Qed.

(** ** [liveFleetBreakingReason] *)

Lemma wp_liveFleetBreakingReason app existing desired :
  wp (liveFleetBreakingReason app existing desired)
    (fun t r => readOnly t /\ (r = inr "" ->
       fleetBreakingReason existing desired = "" /\ podsCompatible app existing desired t)).
Proof.
  unfold liveFleetBreakingReason. cbv zeta. destruct (is_empty _) eqn:He; cbn [negb].
  - apply is_empty_true in He. apply wp_trigger. intros [e|pods]; apply wp_ret; (split; [ro|]); [done|].
    destruct (list_find _ pods) as [[i p]|] eqn:Hf.
    { intros [=]. }
    intros _. split; [done|]. exists pods. split; [set_solver|].
    apply list_find_None in Hf. eapply Forall_impl; [exact Hf|].
    intros p Hp Hctl. unfold podBreaking in Hp. rewrite Hctl in Hp. simpl in Hp.
    apply not_true_iff_false, negb_false_iff, is_empty_true in Hp. done.
  - apply is_empty_false in He. apply wp_ret. split; [ro|]. intros [= ?]. done.
Qed.

(** ** One pass over an existing fleet *)

(** The result of a pass that reports the fleet rolled out. *)
Definition readyEvidence (app : WorkerApp) (v : string) (desired existing : StatefulSet) (t : tr)
    (r : fleetOutcome * option error) : Prop :=
  r = (mkOutcome PhaseReady 0 "" (30 * Second) true, None) /\ readOnly t /\
  hashOf existing = hashOf desired /\ stsPartition existing <= 0 /\ ~ recreating existing /\
  runtimeChangeRefusal app (stsContainerImage existing) = "" /\ steadyEvidence app existing v t.

Definition existingPost (app : WorkerApp) (v : string) (desired existing : StatefulSet) (t : tr)
    (r : fleetOutcome * option error) : Prop :=
  fleetPass app desired existing t /\
  (out_RolledOut (fst r) = true -> readyEvidence app v desired existing t r).

Lemma existingPost_quiet app v desired existing t r :
  stsWrites t = [] -> out_RolledOut (fst r) = false -> existingPost app v desired existing t r.
Proof. intros ? Hr. split; [by apply PassQuiet|]. by rewrite Hr. Qed.

(** A write that comes last, after the pause. *)
Lemma existingPost_write app v desired existing t1 t s (P : tr -> Prop) r :
  readOnly t1 -> mayWrite app existing t1 ->
  (forall t0, P t0 -> fleetStep app desired t0 existing s) ->
  writesLast t s P -> out_RolledOut (fst r) = false ->
  existingPost app v desired existing (t1 ++ t) r.
Proof.
  intros Hro Hmay HP (t0 & x & -> & ? & Ht0) Hr. split; [|by rewrite Hr].
  rewrite app_assoc. apply PassWrite.
  - ro.
  - eapply mayWrite_mono; [|done]. set_solver.
  - eapply fleetStep_mono; [|by apply HP]. set_solver.
Qed.

Lemma rolloutStep_post app v desired existing t1 t r :
  readOnly t1 -> mayWrite app existing t1 -> hashOf existing = hashOf desired ->
  stepPost app existing t r -> existingPost app v desired existing (t1 ++ t) r.
Proof.
  intros Hro Hmay Hhash [Hr [[Hle Hg]|[Hlt Hc]]].
  { destruct Hg as [_ [Hro2|(now & Hw)]].
    - apply existingPost_quiet; [|done]. apply readOnly_stsWrites. ro.
    - eapply existingPost_write; [done..| |exact Hw|done].
      intros t0 [??]. by apply FleetRelease. }
  assert (Hstep : fleetStep app desired t1 existing
                    (setStsPartition existing (liveReplicas existing))) by by apply FleetClamp.
  destruct Hc as [[e ->]|(c' & t' & -> & _ & [Hro2|(now & t0 & x & -> & ? & [??])])];
    (split; [|by rewrite Hr]).
  - by apply PassWrite.
  - by eapply PassClamp.
  - by eapply PassClampRelease.
Qed.

Lemma recreateStep_post app v desired existing t1 t r :
  readOnly t1 -> mayWrite app existing t1 ->
  recreating existing \/ (hashOf existing <> hashOf desired /\ recreateStrategy app) ->
  recreatePost app existing desired t r -> existingPost app v desired existing (t1 ++ t) r.
Proof.
  intros Hro Hmay Hwhy [Hr [Hro2|[[Hlive Hw]|Hw]]].
  - apply existingPost_quiet; [|done]. apply readOnly_stsWrites. ro.
  - eapply existingPost_write; [done..| |exact Hw|done]. intros. by apply FleetStop.
  - eapply existingPost_write; [done..| |exact Hw|done]. intros. by apply FleetRestart.
Qed.

Lemma steadyFleet_post app v desired existing t1 t r :
  readOnly t1 -> (liveReplicas existing <> desiredReplicas app -> autoscalingEnabled app = false ->
                  mayWrite app existing t1) ->
  hashOf existing = hashOf desired -> stsPartition existing <= 0 -> ~ recreating existing ->
  runtimeChangeRefusal app (stsContainerImage existing) = "" ->
  steadyPost app existing v t r -> existingPost app v desired existing (t1 ++ t) r.
Proof.
  intros Hro Hmay Hhash Hp Hrec Href [[Hro2 Hready]|(Hr & Has & Hne & Hw)].
  - assert (readOnly (t1 ++ t)) by ro.
    split; [by apply PassQuiet, readOnly_stsWrites|]. intros Htrue.
    destruct (Hready Htrue) as [-> (? & ? & ? & states & Hobs & ?)].
    split_and!; try done. split_and!; [done..|]. exists states. split; [|done].
    eapply observation_mono; [|exact Hobs]. set_solver.
  - eapply existingPost_write; [done|by apply Hmay| |exact Hw|done]. intros. by apply FleetScale.
Qed.

Lemma wp_templateStep app v desired existing t1 :
  readOnly t1 -> mayWrite app existing t1 -> hashOf existing <> hashOf desired ->
  ~ recreating existing ->
  wp (templateStep app desired existing)
    (fun t r => existingPost app v desired existing (t1 ++ t) r).
Proof.
  intros Hro Hmay Hhash Hrec. unfold templateStep. cbv zeta.
  fold (hashOf existing) (hashOf desired).
  assert (Hquiet : forall t r, readOnly t -> out_RolledOut (fst r) = false ->
    existingPost app v desired existing (t1 ++ t) r).
  { intros. apply existingPost_quiet; [|done]. apply readOnly_stsWrites. ro. }
  eapply wp_seq; [apply wp_liveFleetBreakingReason|]. intros t2 [e|breaking] [Hro2 Hb].
  { apply wp_ret, Hquiet; [ro|done]. }
  destruct (_ && _) eqn:Hrefuse; [apply wp_ret, Hquiet; [ro|done]|].
  destruct (String.eqb _ _) eqn:Hstrat; bool_simp.
  { eapply wp_mono; [|apply wp_recreateStep]. intros t r Hp. rewrite app_assoc.
    eapply recreateStep_post; eauto; [ro|]. eapply mayWrite_mono; [|done]. set_solver. }
  rewrite andb_true_r in Hrefuse. apply negb_false_iff, is_empty_true in Hrefuse as ->.
  destruct (Hb eq_refl) as [Hnb Hpods].
  apply wp_trigger. intros now.
  assert (Hlast : forall x r, out_RolledOut (fst r) = false -> existingPost app v desired existing
    (t1 ++ t2 ++ [Ev Now now; Ev (Update KStatefulSet (startOf existing desired now)) x]) r).
  { intros x r Hr. eapply (existingPost_write _ _ _ _ t1 _ _
      (fun t0 => podsCompatible app existing desired t0 /\ Ev Now now ∈ t0)); [done..| | |done].
    - intros t0 []. by apply FleetStart.
    - exists (t2 ++ [Ev Now now]), x. split_and!; [by rewrite <- app_assoc|ro| |set_solver].
      eapply podsCompatible_mono; [|done]. set_solver. }
  apply wp_afterUpdate.
  - intros e r Hr. apply Hlast. by eapply failedUpdate_notRolledOut.
  - intros s'. by apply Hlast.
Qed.

Lemma wp_reconcileExisting rc app v desired existing :
  wp (reconcileExisting rc app v desired existing) (existingPost app v desired existing).
Proof.
  unfold reconcileExisting. cbv zeta.
  fold (hashOf existing) (hashOf desired).
  set (guard := _ || (negb (autoscalingEnabled app) && _)).
  eapply (wp_seq _ _ (fun t paused => stsWrites t = [] /\ (paused = inr true ->
    readOnly t /\ (guard = true -> scalingPaused app t)))).
  { destruct guard.
    - eapply wp_mono; [|apply wp_pauseScaling]. intros t p [Hw Hp]. split; [done|].
      intros Ht. by destruct (Hp Ht).
    - apply wp_ret. split; [done|]. intros _. split; [constructor|done]. }
  intros t1 [e|[]] [Hw1 Hpaused]; [|clear Hw1|]; cycle 1.
  2, 3: apply wp_ret; rewrite app_nil_r; by apply existingPost_quiet.
  destruct (Hpaused eq_refl) as [Hro Hpause]. clear Hpaused.
  destruct (is_empty (runtimeChangeRefusal _ _)) eqn:Href; cbn [negb].
  2: { apply wp_ret. rewrite app_nil_r. apply existingPost_quiet; [|done].
       by apply readOnly_stsWrites. }
  apply is_empty_true in Href.
  assert (Hmay : guard = true -> mayWrite app existing t1) by (intros; split; auto).
  unfold guard in *. clear guard Hpause.
  destruct (String.eqb (mapGet _ recreateAnnotation) _) eqn:Hrec; bool_simp.
  { rewrite !orb_true_r in Hmay. specialize (Hmay eq_refl).
    eapply wp_mono; [|apply wp_recreateStep]. intros t r Hp.
    eapply recreateStep_post; eauto. }
  destruct (String.eqb (hashOf existing) _) eqn:Hhash; cbn [negb orb] in *; bool_simp.
  2: { apply wp_templateStep; auto. }
  destruct (0 <? stsPartition existing) eqn:Hpart; bool_simp.
  - eapply wp_mono; [|apply wp_rolloutStep]. intros t r Hp. eapply rolloutStep_post; eauto.
  - eapply wp_mono; [|apply wp_steadyFleet]. intros t r Hp.
    eapply steadyFleet_post; eauto. intros Hne Has. apply Hmay. rewrite Has.
    apply Z.eqb_neq in Hne. by rewrite Hne.
Qed.

(** ** [reconcileFleet] *)

(** The StatefulSet a pass drives towards: what [buildStatefulSet] makes of some
    Secret digest, owned by the app. *)
Definition desiredOf (app : WorkerApp) (v : string) (desired : StatefulSet) : Prop :=
  exists hash m, SetControllerReference (app_Meta app) (sts_Meta (buildStatefulSet app hash v)) = inr m /\
    desired = mkStatefulSet m (sts_Spec (buildStatefulSet app hash v)) emptyStatus.

(** The live read of the StatefulSet every decision rests on. *)
Definition readFleet (app : WorkerApp) (got : error + StatefulSet) : event req :=
  Ev (Get Live KStatefulSet "" (app_Namespace app) (fleetName app)) got.

(** The four ways a pass goes. *)
Inductive fleetReconciled (app : WorkerApp) (v : string)
  : tr -> fleetOutcome * option error -> Prop :=
| RecFailed t e :
    readOnly t -> fleetReconciled app v t (zeroOutcome, Some e)
| RecCreated t e desired c r :
    readOnly t -> desiredOf app v desired -> IsNotFound e = true -> out_RolledOut (fst r) = false ->
    fleetReconciled app v (t ++ [readFleet app (inl e); Ev (Create KStatefulSet desired) c]) r
| RecForeign t existing e :
    readOnly t -> IsControlledBy (sts_Meta existing) (app_Meta app) = false ->
    fleetReconciled app v (t ++ [readFleet app (inr existing)]) (zeroOutcome, Some e)
| RecExisting t desired existing t' r :
    readOnly t -> desiredOf app v desired ->
    IsControlledBy (sts_Meta existing) (app_Meta app) = true ->
    existingPost app v desired existing t' r ->
    fleetReconciled app v (t ++ readFleet app (inr existing) :: t') r.

Lemma wp_reconcileFleet rc app v : wp (reconcileFleet rc app v) (fleetReconciled app v).
Proof.
  unfold reconcileFleet. eapply wp_seq; [apply wp_configHash|]. intros t [e|hash] Hro.
  { apply wp_ret. rewrite app_nil_r. by apply RecFailed. }
  cbv zeta. destruct (SetControllerReference _ _) as [e|m] eqn:Hm.
  { apply wp_ret. rewrite app_nil_r. by apply RecFailed. }
  apply wp_trigger. intros [e|existing]; cbv beta iota.
  - destruct (IsNotFound e) eqn:He; [|apply wp_ret, RecFailed; ro].
    apply wp_trigger. intros c. apply wp_ret. apply RecCreated; [done| |done|].
    + by exists hash, m.
    + by destruct c.
  - destruct (requireOwnership _ _ _) as [e|] eqn:Hown.
    + apply wp_ret, RecForeign; [done|]. revert Hown. unfold requireOwnership.
      by destruct (IsControlledBy _ _).
    + eapply wp_mono; [|apply wp_reconcileExisting]. intros t' r Hp.
      apply (RecExisting app v t (mkStatefulSet m (sts_Spec (buildStatefulSet app hash v)) emptyStatus));
        [done|by exists hash, m|by eapply requireOwnership_None|done].
Qed.

End Proofs.
