(* ===== verification/RolloutRequeue.v ===== *)
(** * When a pass over the fleet comes back

    The delay that [reconcileFleet] asks for is never negative, but for one race
    in [rolloutStep]: the settle deadline is compared with one clock reading and
    the delay computed from the next. [crossed] names that race. *)

From S2P Require Import Prelude GoStrings GoTime Effects Kube Api Cluster Resources.
From S2P Require Import FleetState Ensure Rollout RolloutSpec RolloutProofs.

Local Open Scope Z_scope.

(** ** Programs by what they return *)

Definition yields {A} (P : A -> Prop) (p : M A) : Prop := wp p (fun _ a => P a).

Lemma yields_seq {A B} (P : B -> Prop) (p : M A) (f : A -> M B) :
  (forall a, yields P (f a)) -> yields P (p ≫= f).
Proof.
  intros Hf. eapply (wp_seq _ _ (fun _ _ => True)); [by apply wp_exec|]. intros t a _.
  eapply wp_mono; [|apply Hf]. done.
Qed.

(** Steps through a handler up to its results. *)
Ltac yields_step :=
  cbv beta zeta;
  lazymatch goal with
  | |- yields _ (Ret _) => apply wp_ret
  | |- yields _ (match ?x with _ => _ end) => destruct x
  | |- yields _ (_ ≫= _) => apply yields_seq; intros ?
  end.

(** The two clock readings of [t] lie on both sides of the settle deadline of
    [sts]. *)
Definition crossedBy (sts : StatefulSet) (t : tr) : Prop :=
  exists deadline now now', parseRFC3339Nano (mapGet (sts_Annotations sts) settleAnnotation) = Some deadline /\
    Ev Now now ∈ t /\ now < deadline /\ Ev Now now' ∈ t /\ deadline <= now'.

Lemma crossedBy_mono sts t t' : t ⊆ t' -> crossedBy sts t -> crossedBy sts t'.
Proof. intros Ht (d & n & n' & ? & ? & ? & ? & ?). exists d, n, n'. auto 10. Qed.

(** A StatefulSet the pass knows: read, or answered to an update. *)
Definition knownSts (t : tr) (sts : StatefulSet) : Prop :=
  (exists src gvk ns name, Ev (Get src KStatefulSet gvk ns name) (inr sts) ∈ t) \/
  (exists o, Ev (Update KStatefulSet o) (inr sts) ∈ t).

(** The clock passed a settle deadline during [t]. *)
Definition crossed (t : tr) : Prop := exists sts, knownSts t sts /\ crossedBy sts t.

Lemma crossed_mono t t' : t ⊆ t' -> crossed t -> crossed t'.
Proof.
  intros Ht (sts & Hk & Hc). exists sts. split; [|by eapply crossedBy_mono].
  destruct Hk as [(src & g & ns & n & ?)|[o ?]]; [left; exists src, g, ns, n|right; exists o]; auto.
Qed.

Section Requeue.
Context `{KubeLib}.

(** The delay of an outcome is not negative. *)
Definition delays (r : fleetOutcome * option error) : Prop := 0 <= out_Requeue (fst r).

Lemma delays_afterUpdate app o k : (forall s', yields delays (k s')) -> yields delays (afterUpdate app o k).
Proof.
  intros Hk. unfold afterUpdate. apply yields_seq. intros [[s' []] [e|]]; first [apply Hk|apply wp_ret]; done.
Qed.

Lemma delays_recreateStep app existing desired hazard : yields delays (recreateStep app existing desired hazard).
Proof.
  unfold recreateStep. repeat first [yields_step | apply delays_afterUpdate; intros ?]; done.
Qed.

Lemma delays_steadyFleet app existing v : yields delays (steadyFleet app existing v).
Proof.
  unfold steadyFleet. repeat first [yields_step | apply delays_afterUpdate; intros ?]; done.
Qed.

Lemma delays_templateStep app desired existing : yields delays (templateStep app desired existing).
Proof.
  unfold templateStep.
  repeat first [apply delays_recreateStep | yields_step | apply delays_afterUpdate; intros ?]; done.
Qed.

Lemma delays_gateLoop app rev out l :
  0 <= out_Requeue out ->
  wp (forRange l (gateOrdinal app rev out) tt) (fun _ c => match c with Return r => delays r | Continue _ => True end).
Proof.
  intros Hout. apply (wp_forRange l (gateOrdinal app rev out) tt (fun _ _ _ => True) (fun _ r => delays r)); [done|].
  intros dn a todo t [] _ _. unfold gateOrdinal. apply wp_trigger. intros [e|pod]; apply wp_ret; [done|].
  destruct (negb _); [done|]. by destruct (negb _).
Qed.

Lemma timeSub_positive t u : u < t -> 0 <= timeSub t u.
Proof. unfold timeSub. lia. Qed.

(** The gates behind the settle interval. *)
Ltac delays_tail :=
  destruct (is_empty _); [done|]; eapply wp_seq; [by apply delays_gateLoop|];
  intros ? [?|?] ?; [by apply wp_ret|];
  match goal with |- wp ?q _ => change (yields delays q) end;
  apply yields_seq; intros [[? ?] ?]; destruct (_ || _); [done|];
  apply yields_seq; intros ?; apply delays_afterUpdate; intros ?; done.

Lemma wp_rolloutGates_delay app sts p live :
  wp (rolloutGates app sts p live) (fun t r => delays r \/ crossedBy sts t).
Proof.
  assert (Hleft : forall (q : M (fleetOutcome * option error)) t, yields delays q ->
            wp q (fun t' r => delays r \/ crossedBy sts (t ++ t'))).
  { intros q t. apply wp_mono. by left. }
  unfold rolloutGates. cbv zeta. destruct (_ || _); [by left|].
  destruct (parseRFC3339Nano _) as [deadline|] eqn:Hd.
  - apply wp_bind, wp_trigger. intros now. apply wp_ret. destruct (Z.ltb_spec now deadline) as [Hlt|_].
    + apply wp_trigger. intros now'. apply wp_ret.
      destruct (Z.le_gt_cases deadline now') as [Hle|Hgt]; [right|left; apply timeSub_positive; lia].
      exists deadline, now, now'. split_and!; [done|set_solver|done|set_solver|done].
    + apply (Hleft _ [_]). delays_tail.
  - apply wp_bind, wp_ret, (Hleft _ []). delays_tail.
Qed.

(** The same of a step, whose clamp may answer another deadline. *)
Lemma wp_rolloutStep_delay app sts :
  wp (rolloutStep app sts) (fun t r => delays r \/ crossedBy sts t \/ crossed t).
Proof.
  unfold rolloutStep. cbv zeta. destruct (_ <? _).
  - apply wp_afterUpdate; [intros e r [-> | ->]; by left|]. intros s'.
    eapply wp_mono; [|apply wp_rolloutGates_delay]. intros t r [Hr|Hc]; [by left|right; right].
    exists s'. split; [right; eexists; left|]. eapply crossedBy_mono; [|exact Hc]. set_solver.
  - eapply wp_mono; [|apply wp_rolloutGates_delay]. intros t r [Hr|Hc]; auto.
Qed.

Lemma wp_reconcileExisting_delay r app v desired existing :
  wp (reconcileExisting r app v desired existing) (fun t res => delays res \/ crossedBy existing t \/ crossed t).
Proof.
  assert (Hleft : forall (q : M (fleetOutcome * option error)) t, yields delays q ->
            wp q (fun t' r => delays r \/ crossedBy existing (t ++ t') \/ crossed (t ++ t'))).
  { intros q t. apply wp_mono. by left. }
  unfold reconcileExisting. cbv zeta. eapply (wp_seq _ _ (fun _ _ => True)); [by apply wp_exec|].
  intros t1 [e|[]] _; [by apply Hleft| |by apply Hleft]. destruct (negb _); [by apply Hleft|].
  destruct (String.eqb _ annotationTrue); [apply Hleft, delays_recreateStep|].
  destruct (negb _); [apply Hleft, delays_templateStep|].
  destruct (_ <? _); [|apply Hleft, delays_steadyFleet].
  eapply wp_mono; [|apply wp_rolloutStep_delay]. intros t res [Hr|[Hc|Hc]]; [by left| |]; right.
  - left. eapply crossedBy_mono; [|exact Hc]. set_solver.
  - right. eapply crossed_mono; [|exact Hc]. set_solver.
Qed.

(** A pass over the fleet asks for no negative delay unless the clock passed a
    settle deadline meanwhile. *)
Lemma wp_reconcileFleet_delay r app v :
  wp (reconcileFleet r app v) (fun t res => delays res \/ crossed t).
Proof.
  unfold reconcileFleet. eapply (wp_seq _ _ (fun _ _ => True)); [by apply wp_exec|].
  intros t1 [e|hash] _; [by left|]. cbv zeta. destruct (SetControllerReference _ _) as [e|m]; [by left|].
  apply wp_trigger. intros [e|existing].
  - destruct (IsNotFound e); [|by left]. apply wp_trigger. intros [?|?]; by left.
  - destruct (requireOwnership _ _ _); [by left|].
    eapply wp_mono; [|apply wp_reconcileExisting_delay]. intros t res [Hr|[Hc|Hc]]; [by left|right|right].
    + exists existing. split; [left; do 4 eexists; apply elem_of_app; right; left|]. eapply crossedBy_mono; [|exact Hc]. set_solver.
    + eapply crossed_mono; [|exact Hc]. set_solver.
Qed.

End Requeue.
