(* ===== verification/Guard.v ===== *)
(** * Writes are guarded by ownership

    A trace is guarded when every object it updates is, but for labels,
    annotations and specification, the very object that was read earlier in the
    same trace and found controlled by the app, or the API server's answer to an
    earlier update of it; every object it deletes has been read and found
    controlled likewise, and the deletion carries the UID and resource version of
    that read as preconditions; every object it creates carries the app's
    controller reference; and a status update changes nothing but the status of
    the app. The predicate composes, so each handler is shown guarded once and a
    whole reconcile follows. *)

From S2P Require Import Prelude GoStrings GoTime Effects Kube Api Cluster Resources FleetState Ensure Owned Routes.
From S2P Require Import Rollout RolloutSpec RolloutProofs.

Local Open Scope Z_scope.

(** The metadata of any object. *)
Definition kindMeta (k : kind) : obj k -> ObjectMeta :=
  match k with
  | KStatefulSet => sts_Meta
  | KPod => pod_Meta
  | KSecret => secret_Meta
  | KUnstructured => u_Meta
  | KServiceAccount => sa_Meta
  | KService => svc_Meta
  | KNetworkPolicy => np_Meta
  | KPodDisruptionBudget => pdb_Meta
  | KIngress => ing_Meta
  | KHTTPRoute => route_Meta
  | KGateway => gw_Meta
  | KWorkerApp => app_Meta
  end.

Section Guard.
Context `{KubeLib}.

(** [o] was read in [seen] and is controlled by [app]. *)
Definition readOwned (app : WorkerApp) (seen : tr) (k : kind) (o : obj k) : Prop :=
  IsControlledBy (kindMeta k o) (app_Meta app) = true /\
  exists src gvk ns name, Ev (Get src k gvk ns name) (inr o) ∈ seen.

(** [m'] is the metadata of the object of [m], at the version that was read, with
    the same owners: only labels and annotations may differ. *)
Definition sameIdentity (m m' : ObjectMeta) : Prop :=
  meta_Name m' = meta_Name m /\ meta_Namespace m' = meta_Namespace m /\ meta_UID m' = meta_UID m /\
  meta_ResourceVersion m' = meta_ResourceVersion m /\ meta_Generation m' = meta_Generation m /\
  meta_DeletionTimestamp m' = meta_DeletionTimestamp m /\ meta_OwnerReferences m' = meta_OwnerReferences m.

(** The Go type of an object is its kind; an unstructured one says what it is. *)
Definition sameType {k} : obj k -> obj k -> Prop :=
  match k return obj k -> obj k -> Prop with
  | KUnstructured => fun o o' => u_APIVersion o' = u_APIVersion o /\ u_Kind o' = u_Kind o
  | _ => fun _ _ => True
  end.

(** [o] is the app's, as the trace knows it: read and controlled, or answered to
    an update. *)
Definition held (app : WorkerApp) (seen : tr) (k : kind) (o : obj k) : Prop :=
  readOwned app seen k o \/ exists o0, Ev (Update k o0) (inr o) ∈ seen.

(** [o'] is what is known of [o], changed in place. *)
Definition changeOf {k} (o o' : obj k) : Prop := sameIdentity (kindMeta k o) (kindMeta k o') /\ sameType o o'.

(** What an event needs to have been seen before it. *)
Definition guardEv (app : WorkerApp) (seen : tr) (ev : event req) : Prop :=
  match ev_req ev with
  | Create k o => exists m, SetControllerReference (app_Meta app) m = inr (kindMeta k o)
  | Update k o' => exists o, held app seen k o /\ changeOf o o'
  | Delete k o uid rv => readOwned app seen k o /\ uid = meta_UID (kindMeta k o) /\
                         rv = meta_ResourceVersion (kindMeta k o)
  | StatusUpdate a => app_Meta a = app_Meta app /\ app_Spec a = app_Spec app
  | _ => True
  end.

Fixpoint guardedFrom (app : WorkerApp) (seen t : tr) : Prop :=
  match t with
  | [] => True
  | ev :: t' => guardEv app seen ev /\ guardedFrom app (seen ++ [ev]) t'
  end.

Definition guarded (app : WorkerApp) (t : tr) : Prop := guardedFrom app [] t.

Lemma sameType_trans {k} (o o' o'' : obj k) : sameType o o' -> sameType o' o'' -> sameType o o''.
Proof. destruct k; simpl; try done. intros [-> ->] [-> ->]. done. Qed.

Lemma readOwned_mono app seen seen' k o :
  seen ⊆ seen' -> readOwned app seen k o -> readOwned app seen' k o.
Proof. intros Hs (Hc & src & g & ns & n & Hin). split; [done|]. exists src, g, ns, n. auto. Qed.

Lemma held_mono app seen seen' k o : seen ⊆ seen' -> held app seen k o -> held app seen' k o.
Proof. intros Hs [Hr|[o0 Hin]]; [left; by eapply readOwned_mono|right; exists o0; auto]. Qed.

Lemma guardEv_mono app seen seen' ev : seen ⊆ seen' -> guardEv app seen ev -> guardEv app seen' ev.
Proof.
  intros Hs. unfold guardEv. destruct (ev_req ev); try done.
  - intros (o' & Ho & Hc). exists o'. split; [by eapply held_mono|done].
  - intros (Ho & ? & ?). split_and!; [by eapply readOwned_mono|done..].
Qed.

Lemma guardedFrom_mono app t seen seen' : seen ⊆ seen' -> guardedFrom app seen t -> guardedFrom app seen' t.
Proof.
  revert seen seen'. induction t as [|ev t IH]; intros seen seen' Hs; [done|].
  simpl. intros [He Ht]. split; [by eapply guardEv_mono|].
  eapply IH; [|exact Ht]. set_solver.
Qed.

Lemma guardedFrom_app app t1 t2 seen :
  guardedFrom app seen (t1 ++ t2) <-> guardedFrom app seen t1 /\ guardedFrom app (seen ++ t1) t2.
Proof.
  revert seen. induction t1 as [|ev t1 IH]; intros seen; simpl.
  - rewrite app_nil_r. tauto.
  - rewrite IH, <- app_assoc. simpl. tauto.
Qed.

Lemma guarded_readOnly app seen t : readOnly t -> guardedFrom app seen t.
Proof.
  intros Hr. revert seen. induction Hr as [|[X e x] t He _ IH]; intros seen; [done|]. simpl. split; [|apply IH].
  by destruct e.
Qed.

(** ** Guarded handlers *)

(** Every execution of [p] after [seen] is guarded. *)
Definition safe {A} (app : WorkerApp) (seen : tr) (p : M A) : Prop :=
  wp p (fun t _ => guardedFrom app seen t).

Lemma safe_ret {A} app seen (a : A) : safe app seen (Ret a).
Proof. done. Qed.

Lemma safe_mono {A} app seen seen' (p : M A) : seen ⊆ seen' -> safe app seen p -> safe app seen' p.
Proof. intros Hs. apply wp_mono. intros t _. by apply guardedFrom_mono. Qed.

Lemma safe_seq {A B} app seen (p : M A) (f : A -> M B) :
  safe app seen p -> (forall a, safe app seen (f a)) -> safe app seen (p ≫= f).
Proof.
  intros Hp Hf. eapply wp_seq; [exact Hp|]. intros t a Ht.
  eapply wp_mono; [|apply Hf]. intros t' b Ht'. apply guardedFrom_app. split; [done|].
  eapply guardedFrom_mono; [|exact Ht']. set_solver.
Qed.

(** A request that needs no guard, or whose guard has been seen; what follows
    has seen its answer too. *)
Lemma safe_trigger {X B} app seen (e : req X) (f : X -> M B) :
  (forall x, guardEv app seen (Ev e x)) -> (forall x, safe app (seen ++ [Ev e x]) (f x)) ->
  safe app seen (trigger e ≫= f).
Proof.
  intros He Hf. apply wp_trigger. intros x. eapply wp_mono; [|apply Hf].
  intros t r Ht. by split.
Qed.

(** The same when what follows needs nothing of the answer. *)
Lemma safe_trigger_here {X B} app seen (e : req X) (f : X -> M B) :
  (forall x, guardEv app seen (Ev e x)) -> (forall x, safe app seen (f x)) ->
  safe app seen (trigger e ≫= f).
Proof.
  intros He Hf. apply safe_trigger; [done|]. intros x. eapply safe_mono; [|apply Hf]. set_solver.
Qed.

Lemma safe_forRange {A R S} app seen (l : list A) (body : A -> S -> M (control R S)) s :
  (forall a s, safe app seen (body a s)) -> safe app seen (forRange l body s).
Proof.
  intros Hb. revert s. induction l as [|a l IH]; intros s; [done|].
  change (safe app seen (body a s ≫= (fun c => match c with
                                               | Return r => Ret (Return r)
                                               | Continue s' => forRange l body s'
                                               end))).
  apply safe_seq; [apply Hb|]. intros [r|s']; [done|apply IH].
Qed.

Lemma safe_foldM {A S} app seen (body : A -> S -> M S) (l : list A) s :
  (forall a s, safe app seen (body a s)) -> safe app seen (foldM body l s).
Proof.
  intros Hb. revert s. induction l as [|a l IH]; intros s; [done|].
  change (safe app seen (body a s ≫= (fun s' => foldM body l s'))).
  apply safe_seq; [apply Hb|]. intros s'. apply IH.
Qed.

Lemma safe_readOnly {A} app seen (p : M A) : wp p (fun t _ => readOnly t) -> safe app seen p.
Proof. apply wp_mono. intros t _. apply guarded_readOnly. Qed.

(** The object just read. *)
Lemma readOwned_last app seen k src gvk ns name (o : obj k) :
  IsControlledBy (kindMeta k o) (app_Meta app) = true ->
  readOwned app (seen ++ [Ev (Get src k gvk ns name) (inr o)]) k o.
Proof. intros Hc. split; [done|]. exists src, gvk, ns, name. set_solver. Qed.

Lemma safe_update {A} app seen k (live o : obj k) (f : error + obj k -> M A) :
  held app seen k live -> changeOf live o -> (forall x, safe app (seen ++ [Ev (Update k o) x]) (f x)) ->
  safe app seen (trigger (Update k o) ≫= f).
Proof. intros Hr Hc Hf. apply safe_trigger; [|exact Hf]. intros x. by exists live. Qed.

Lemma safe_create {A} app seen k (o : obj k) m (f : error + obj k -> M A) :
  SetControllerReference (app_Meta app) m = inr (kindMeta k o) ->
  (forall x, safe app (seen ++ [Ev (Create k o) x]) (f x)) -> safe app seen (trigger (Create k o) ≫= f).
Proof. intros Hr Hf. apply safe_trigger; [|exact Hf]. intros x. by exists m. Qed.

Lemma safe_delete {A} app seen k (o : obj k) (f : option error -> M A) :
  readOwned app seen k o ->
  (forall x, safe app (seen ++ [Ev (Delete k o (meta_UID (kindMeta k o)) (meta_ResourceVersion (kindMeta k o))) x]) (f x)) ->
  safe app seen (trigger (Delete k o (meta_UID (kindMeta k o)) (meta_ResourceVersion (kindMeta k o))) ≫= f).
Proof. intros Hr Hf. apply safe_trigger; [|exact Hf]. intros x. by split_and!. Qed.

(** Steps through reads, creations, branches and returns. *)
Ltac safe_step :=
  lazymatch goal with
  | |- safe _ _ (Ret _) => apply safe_ret
  | |- safe _ _ (trigger (Create _ _) ≫= _) => fail
  | |- safe _ _ (trigger (Update _ _) ≫= _) => fail
  | |- safe _ _ (trigger (StatusUpdate _) ≫= _) => fail
  | |- safe _ _ (trigger (Delete _ _ _ _) ≫= _) => fail
  | |- safe _ _ (trigger _ ≫= _) => apply safe_trigger; [done|intros ?; cbv beta]
  | |- safe _ _ (match ?x with _ => _ end) => destruct x eqn:?
  end.

(** ** Owned objects *)

(** A callback changes an object in place. *)
Definition inPlace {k} (mutate : obj k -> obj k -> obj k) : Prop :=
  forall live desired, changeOf live (mutate live desired).

Lemma safe_ensureObject {k} `{!ClientObject k} app seen (desired : obj k) mutate :
  (forall o : obj k, objMeta o = kindMeta k o) -> (forall (o : obj k) m, sameType o (setObjMeta o m)) ->
  inPlace mutate -> safe app seen (ensureObject app desired mutate).
Proof.
  intros Hmeta Htype Hmut. unfold ensureObject. cbv zeta. destruct (SetControllerReference _ _) as [e|m] eqn:Hm; [done|].
  safe_step. destruct x as [e|before].
  { destruct (IsNotFound e); [|done]. eapply safe_create; [|intros x; repeat safe_step].
    rewrite <- Hmeta, objMeta_set. exact Hm. }
  destruct (requireOwnership _ _ _) as [e|] eqn:Ho; [done|].
  apply requireOwnership_None in Ho. rewrite Hmeta in Ho. destruct (bool_decide _); [done|].
  eapply safe_update; [left; by apply readOwned_last| |done].
  destruct (Hmut before (setObjMeta (setObjMeta desired (setAnnotations (objMeta desired)
              (inventoried k (meta_Annotations (objMeta desired))))) m)) as [Hid Ht].
  split; [|by eapply sameType_trans; [exact Ht|apply Htype]].
  rewrite <- !Hmeta, objMeta_set in *. exact Hid.
Qed.

Lemma safe_ensureUnstructured app seen desired : safe app seen (ensureUnstructured app desired).
Proof.
  unfold ensureUnstructured. destruct (SetControllerReference _ _) as [e|m] eqn:Hm; [done|]. cbv zeta.
  safe_step. destruct x as [e|live].
  { destruct (IsNotFound e); [|done]. eapply safe_create; [exact Hm|intros x; repeat safe_step]. }
  destruct (requireOwnership _ _ _) as [e|] eqn:Ho; [done|].
  apply requireOwnership_None in Ho. destruct (_ && _); [done|].
  eapply safe_update; [left; by apply (readOwned_last app seen KUnstructured)|done..].
Qed.

Lemma safe_ensureScaledObject r app seen outcome : safe app seen (ensureScaledObject r app outcome).
Proof.
  assert (Hrm : safe app seen (removeScaledObject app)).
  { unfold removeScaledObject. safe_step. destruct x as [e|o]; [repeat safe_step|].
    destruct (requireOwnership _ _ _) as [e|] eqn:Ho; [done|]. apply requireOwnership_None in Ho.
    apply (safe_delete app _ KUnstructured); [by apply (readOwned_last app seen KUnstructured)|].
    intros x. repeat safe_step. }
  unfold ensureScaledObject. destruct (spec_Autoscaling _) as [a|]; [|done].
  destruct (as_Enabled a); [|done]. cbv zeta.
  apply safe_seq; [apply safe_ensureUnstructured|]. intros err. repeat safe_step.
Qed.

Lemma safe_orWrap {A} app seen what (p : M (option error * A)) k :
  safe app seen p -> safe app seen k -> safe app seen (orWrap what p k).
Proof. intros Hp Hk. unfold orWrap. apply safe_seq; [done|]. intros res. by destruct (fst res). Qed.

Lemma safe_ensureFoundation r app seen : safe app seen (ensureFoundation r app).
Proof.
  unfold ensureFoundation.
  repeat (apply safe_orWrap; [by apply safe_ensureObject; [..|intros live desired]|]). done.
Qed.

(** ** Routes *)

Lemma safe_removeRoute k gvk app seen : safe app seen (removeRoute k gvk (kindMeta k) app).
Proof.
  unfold removeRoute. safe_step. destruct x as [e|o]; [done|].
  destruct (IsControlledBy _ _) eqn:Hc; cbn [negb]; [|done].
  apply safe_delete; [by apply readOwned_last|]. intros x. repeat safe_step.
Qed.

Lemma safe_removeObsoleteRoutes r app seen : safe app seen (removeObsoleteRoutes r app).
Proof.
  unfold removeObsoleteRoutes. safe_step. apply safe_seq; [|done]. apply safe_forRange.
  intros kind []. unfold removeMode. destruct (String.eqb _ _); [done|].
  destruct (String.eqb _ _); [apply (safe_removeRoute KIngress)|].
  destruct (String.eqb _ _); [apply (safe_removeRoute KHTTPRoute)|].
  apply (safe_removeRoute KUnstructured).
Qed.

Lemma safe_ensureHTTPRoute r app seen : safe app seen (ensureHTTPRoute r app).
Proof.
  unfold ensureHTTPRoute. apply safe_seq.
  { unfold configureHTTPRouteRetries. cbv zeta. repeat safe_step.
    apply safe_seq; [|intros d]; repeat safe_step. }
  intros [route dropped]. apply safe_seq; [by apply (safe_ensureObject (k := KHTTPRoute))|].
  intros [err route']. destruct err as [e|]; [done|]. apply safe_seq.
  { unfold httpRouteRetryDropped. repeat safe_step. }
  intros check. destruct (_ || _); [done|]. apply safe_seq; [|done].
  unfold httpRouteReady. safe_step. destruct x as [e|live]; [done|]. apply safe_seq; [|done].
  apply safe_forRange. intros parent []. unfold parentReady. cbv zeta. repeat safe_step.
Qed.

Lemma safe_ensureIngress r app seen : safe app seen (ensureIngress r app).
Proof.
  unfold ensureIngress. apply safe_seq; [apply safe_removeObsoleteRoutes|]. intros [e|]; [done|].
  destruct (spec_Hostnames _); [done|]. destruct (String.eqb _ _); [done|].
  destruct (String.eqb _ _).
  { unfold ensureVirtualService. apply safe_seq; [apply safe_ensureUnstructured|done]. }
  destruct (String.eqb _ _); [|apply safe_ensureHTTPRoute].
  unfold ensureV1Ingress. apply safe_seq; [by apply (safe_ensureObject (k := KIngress))|done].
Qed.

Lemma safe_ensureAuthorizationPolicy r app seen : safe app seen (ensureAuthorizationPolicy r app).
Proof.
  unfold ensureAuthorizationPolicy. apply safe_seq; [apply safe_ensureUnstructured|done].
Qed.

(** ** The fleet *)

Lemma safe_pauseScaling r app seen : safe app seen (pauseScaling r app).
Proof.
  assert (Hn : forall seen, safe app seen (noHPA app)) by (intros; unfold noHPA; repeat safe_step).
  assert (Hens : forall seen a, safe app seen
    (err ← ensureUnstructured app (buildScaledObject app a (r_PrometheusURL r) true);
     Ret (match err with Some e => inl e | None => inr false end)))
    by (intros; apply safe_seq; [apply safe_ensureUnstructured|done]).
  assert (Hoff : forall seen (got : error + Unstructured), safe app seen
    (match got with
     | inr _ => res ← ensureScaledObject r app zeroOutcome;
                Ret (if (snd res : bool) then inl (Errorf "could not remove disabled scaler") else inr false)
     | inl e => if negb (IsNotFound e) && negb (IsNoMatchError e) then Ret (inl e) else noHPA app
     end)).
  { intros s [e|o]; [destruct (_ && _); [done|apply Hn]|].
    apply safe_seq; [apply safe_ensureScaledObject|done]. }
  unfold pauseScaling. safe_step. destruct (spec_Autoscaling _) as [a|]; [|apply Hoff].
  destruct (autoscalingEnabled _); [|apply Hoff]. repeat first [safe_step|apply Hens|apply Hn].
Qed.

(** Updates of the StatefulSet [sts] that was read, or answered. *)
Abbreviation heldSts app seen sts := (held app seen KStatefulSet sts).

Lemma safe_afterUpdate app seen sts o k :
  heldSts app seen sts -> sameIdentity (sts_Meta sts) (sts_Meta o) ->
  (forall s' seen', heldSts app seen' s' -> safe app seen' (k s')) -> safe app seen (afterUpdate app o k).
Proof.
  intros Hh Hid Hk. unfold afterUpdate, updateFleet. simpl. intros x.
  assert (Hg : guardEv app seen (Ev (Update KStatefulSet o) x)) by (by exists sts).
  destruct x as [e|s']; simpl.
  - destruct (IsConflict e); by split.
  - eapply wp_mono; [|apply (Hk s' (seen ++ [Ev (Update KStatefulSet o) (inr s')]))].
    + intros t r Ht. by split.
    + right. exists o. set_solver.
Qed.

Lemma safe_observeFleet app seen o : safe app seen (observeFleet app o).
Proof. apply safe_readOnly. eapply wp_mono; [|apply wp_observeFleet]. by intros t r []. Qed.

Lemma safe_rolloutGates app seen o p live : heldSts app seen o -> safe app seen (rolloutGates app o p live).
Proof.
  intros Hh. unfold rolloutGates. cbv zeta. safe_step; [done|]. apply safe_seq.
  { apply safe_readOnly. eapply wp_mono; [|apply wp_settling]. by intros t r []. }
  intros [d|]; [repeat safe_step|]. safe_step; [done|]. apply safe_seq.
  { apply safe_readOnly. eapply wp_mono; [|apply wp_gateLoop]. by intros t r []. }
  intros [r|u]; [done|]. apply safe_seq; [apply safe_observeFleet|].
  intros [[states restoring] err]. safe_step; [done|].
  apply safe_trigger_here; [done|]. intros now. by eapply safe_afterUpdate.
Qed.

Lemma safe_rolloutStep app seen o : heldSts app seen o -> safe app seen (rolloutStep app o).
Proof.
  intros Hh. unfold rolloutStep. cbv zeta. safe_step; [|by apply safe_rolloutGates].
  eapply safe_afterUpdate; [exact Hh|done|]. intros s' seen'. apply safe_rolloutGates.
Qed.

Lemma safe_recreateStep app seen o desired hazard :
  heldSts app seen o -> safe app seen (recreateStep app o desired hazard).
Proof.
  intros Hh. unfold recreateStep. cbv zeta. safe_step; [by eapply safe_afterUpdate|].
  apply safe_trigger_here; [done|].
  intros [e|pods]; [done|]. safe_step; [done|]. by eapply safe_afterUpdate.
Qed.

Lemma safe_steadyFleet app seen o v : heldSts app seen o -> safe app seen (steadyFleet app o v).
Proof.
  intros Hh. unfold steadyFleet. cbv zeta. safe_step; [by eapply safe_afterUpdate|]. safe_step; [done|].
  apply safe_seq; [apply safe_observeFleet|]. intros [[states restoring] err].
  safe_step; [done|]. safe_step. destruct (list_find _ _) as [[? [? ?]]|]; done.
Qed.

Lemma safe_templateStep app seen desired o :
  heldSts app seen o -> safe app seen (templateStep app desired o).
Proof.
  intros Hh. unfold templateStep. cbv zeta. apply safe_seq.
  { apply safe_readOnly. eapply wp_mono; [|apply wp_liveFleetBreakingReason]. by intros t r []. }
  intros [e|b]; [done|]. safe_step; [done|].
  destruct (String.eqb _ _); [by apply safe_recreateStep|].
  apply safe_trigger_here; [done|]. intros now. by eapply safe_afterUpdate.
Qed.

Lemma safe_reconcileExisting r app seen v desired o :
  heldSts app seen o -> safe app seen (reconcileExisting r app v desired o).
Proof.
  intros Hh. unfold reconcileExisting. cbv zeta. apply safe_seq.
  { destruct (_ || _); [apply safe_pauseScaling|done]. }
  intros [e|[]]; [done| |done]. safe_step; [done|].
  safe_step; [by apply safe_recreateStep|]. safe_step; [by apply safe_templateStep|].
  safe_step; [by apply safe_rolloutStep|by apply safe_steadyFleet].
Qed.

Lemma safe_reconcileFleet r app seen v : safe app seen (reconcileFleet r app v).
Proof.
  unfold reconcileFleet. apply safe_seq; [apply safe_readOnly, wp_configHash|].
  intros [e|hash]; [done|]. cbv zeta. destruct (SetControllerReference _ _) as [e|m] eqn:Hm; [done|].
  safe_step. destruct x as [e|existing].
  { destruct (IsNotFound e); [|done]. eapply (safe_create _ _ KStatefulSet); [exact Hm|intros x; repeat safe_step]. }
  destruct (requireOwnership _ _ _) as [e|] eqn:Ho; [done|]. apply requireOwnership_None in Ho.
  apply safe_reconcileExisting. left. by apply (readOwned_last app seen KStatefulSet).
Qed.

End Guard.
