(* ===== verification/Sample.v ===== *)
(** * A concrete cluster

    The theorems hold for every [KubeLib] and every sequence of answers. This
    file has one executable instance of each, on which the examples and the
    witnesses of the other files evaluate: a library that keeps owner
    references the way apimachinery documents them, a WorkerApp, and a small
    in-memory API server with a fleet of pods behind it. *)

From S2P Require Import Prelude GoStrings GoTime Versions Effects Kube Api Cluster Resources.
From S2P Require Import FleetState Ensure Rollout.

Local Open Scope Z_scope.

(** ** A library *)

(** An object is controlled by the owner whose UID its controller reference
    carries. *)
Definition sampleIsControlledBy (m owner : ObjectMeta) : bool :=
  existsb (fun o => owner_Controller o && String.eqb (owner_UID o) (meta_UID owner))
    (meta_OwnerReferences m).

(** Adds the controller reference, refusing an object that has another one. *)
Definition sampleSetControllerReference (owner m : ObjectMeta) : error + ObjectMeta :=
  if sampleIsControlledBy m owner then inr m
  else if existsb owner_Controller (meta_OwnerReferences m)
  then inl (Errorf "already owned")
  else inr (mkObjectMeta (meta_Name m) (meta_Namespace m) (meta_UID m) (meta_ResourceVersion m)
              (meta_Generation m) (meta_DeletionTimestamp m) (meta_Labels m) (meta_Annotations m)
              (mkOwnerReference (meta_UID owner) true :: meta_OwnerReferences m)).

(** A serialization that tells templates apart by images and annotations. *)
Definition sampleMarshal (t : PodTemplateSpec) : error + string :=
  inr (Join (map ctr_Image (pod_Containers (tmpl_Spec t))) "," +:+ "|" +:+
       mapGet (tmpl_Annotations t) appVersionAnnotation +:+ "|" +:+
       mapGet (tmpl_Annotations t) configHashAnnotation).

(** Letters, digits, dashes and dots. *)
Definition dnsByte (c : Ascii.ascii) : bool :=
  let n := Ascii.N_of_ascii c in
  ((97 <=? n) && (n <=? 122) || (48 <=? n) && (n <=? 57) || (n =? 45) || (n =? 46))%N.

Fixpoint dnsBytes (s : string) : bool :=
  match s with EmptyString => true | String c s' => dnsByte c && dnsBytes s' end.

Definition sampleSubdomain (s : string) : bool := negb (is_empty s) && dnsBytes s.

(** Replaces the condition of the same type, or appends. *)
Definition sampleSetStatusCondition (l : list Condition) (c : Condition) : list Condition :=
  if existsb (fun c' => String.eqb (cond_Type c') (cond_Type c)) l
  then map (fun c' => if String.eqb (cond_Type c') (cond_Type c) then c else c') l
  else l ++ [c].

#[export] Instance sampleLib : KubeLib := {
  IsControlledBy := sampleIsControlledBy;
  SetControllerReference := sampleSetControllerReference;
  marshalPodTemplate := sampleMarshal;
  IsDNS1123Label s := sampleSubdomain s && negb (has_byte (Ascii.ascii_of_nat 46) s);
  IsDNS1123Subdomain := sampleSubdomain;
  IsWildcardDNS1123Subdomain s := HasPrefix "*." s && sampleSubdomain (sliceFrom 2 s);
  urlParse s := if HasPrefix "https://" s
                then Some (mkParsedURL "https" (fst (fst (Cut (Ascii.ascii_of_nat 47) (sliceFrom 8 s)))) false "" "")
                else None;
  Quote s := dquote +:+ s +:+ dquote;
  SetStatusCondition := sampleSetStatusCondition;
  RemoveStatusCondition l ty := List.filter (fun c => negb (String.eqb (cond_Type c) ty)) l
}.

(** ** An app *)

Definition ownedMeta (name uid owner : string) (generation : Z) (labels annotations : gmap string string)
  : ObjectMeta :=
  mkObjectMeta name "prod" uid "1" generation None labels annotations [mkOwnerReference owner true].

(** The app [shop] in namespace [prod] on [image]. *)
Definition sampleApp (image strategy : string) (replicas : Z) (autoscaling : option AutoscalingSpec)
  : WorkerApp :=
  {| app_Meta := mkObjectMeta "shop" "prod" "app-uid" "1" 1 None ∅ ∅ [];
     app_Spec :=
       {| spec_DeployTrackingSecretRef := "";
          spec_DeploymentPolicy := "InPlace";
          spec_ClusterDomain := "";
          spec_Storage := None;
          spec_Scheduling := mkSchedulingSpec ∅ [] false;
          spec_Hostnames := ["shop.example.com"];
          spec_AppVersion := "v7";
          spec_Celld := mkCelldSpec image strategy;
          spec_Replicas := Some replicas;
          spec_Bucket := mkBucketSpec "s3://shop" "" "" "auto" (mkBucketCredentials "auto" "" "");
          spec_Resources := mkResourcesSpec 0 0 0 0;
          spec_Service := mkServiceSpec "" ∅;
          spec_Vars := None;
          spec_WebSockets := false;
          spec_Autoscaling := autoscaling;
          spec_Telemetry := mkTelemetrySpec None "" "" "";
          spec_Durability := "";
          spec_TrustForwardedHeaders := false |};
     app_Status := mkWorkerAppStatus "" [] "" "" (mkRolloutStatus 0 "") (mkFleetStatus 0 0) [] |}.

Definition v051 : string := "ghcr.io/celld/celld:v0.5.1".
Definition v060 : string := "ghcr.io/celld/celld:v0.6.0".

(** ** A fleet *)

(** Pod [ord] of the fleet, ready on revision [rev]. *)
Definition samplePod (app : WorkerApp) (template : PodTemplateSpec) (rev : string) (ord : Z) : Pod :=
  mkPod (ownedMeta (ordinalName (fleetName app) ord) ("pod-" +:+ pretty ord) "sts-uid" 1
           (<["controller-revision-hash" := rev]> (selectorLabels app)) ∅)
    (tmpl_Spec template) ("10.0.0." +:+ pretty ord) "Running" [mkPodCondition "Ready" "True"]
    [mkContainerStatus celldContainerName 0 None].

(** The StatefulSet of [app] on [template], with [live] replicas, all ready, at
    [partition] and with extra annotations. *)
Definition sampleSts (app : WorkerApp) (live partition : Z) (annotations : gmap string string)
  : StatefulSet :=
  let built := buildStatefulSet app "" "v7" in
  let s := sts_Spec built in
  mkStatefulSet
    (ownedMeta (fleetName app) "sts-uid" "app-uid" 4 (fleetLabels app)
       (annotations ∪ sts_Annotations built))
    (mkStatefulSetSpec (sts_VolumeClaimTemplates s) (sts_RetentionPolicy s) (sts_ServiceName s)
       (Some live) (sts_Selector s) (sts_Template s)
       (mkUpdateStrategy "RollingUpdate" (Some (Some partition))))
    (mkStatefulSetStatus 4 live live live "rev2").

Definition quoted (s : string) : string := dquote +:+ s +:+ dquote.

(** A [/state] body: nothing restoring, the deployment [version] settled. *)
Definition stateBody (version : string) (restoring : Z) : string :=
  "{" +:+ quoted "deployment" +:+ ":{" +:+ quoted "version" +:+ ":" +:+ quoted version +:+ "," +:+
  quoted "generation" +:+ ":3," +:+ quoted "draining" +:+ ":[]," +:+ quoted "swapping" +:+ ":0}," +:+
  quoted "occupied" +:+ ":12," +:+ quoted "restoring" +:+ ":" +:+ pretty restoring +:+ "," +:+
  quoted "shedding" +:+ ":null}".

(** ** A world *)

Record world := mkWorld {
  w_now : Z;
  w_sts : option StatefulSet;
  w_pods : list Pod;
  w_scaler : option Unstructured;
  w_hpas : list HorizontalPodAutoscaler;
  w_secrets : gmap string Secret;
  w_state : string
}.

Definition setWorldSts (w : world) (s : StatefulSet) : world :=
  mkWorld (w_now w) (Some s) (w_pods w) (w_scaler w) (w_hpas w) (w_secrets w) (w_state w).

Definition notFound : error := APIError NotFound "not found".

Definition orNotFound {A} (o : option A) : error + A :=
  match o with Some a => inr a | None => inl notFound end.

Definition getObject (w : world) (k : kind) (name : string) : error + obj k :=
  match k with
  | KStatefulSet => orNotFound (w_sts w)
  | KPod => orNotFound (snd <$> list_find (fun p => pod_Name p = name) (w_pods w))
  | KSecret => orNotFound (w_secrets w !! name)
  | KUnstructured => orNotFound (w_scaler w)
  | _ => inl notFound
  end.

Definition storeObject (w : world) (k : kind) : obj k -> world :=
  match k with
  | KStatefulSet => fun o => setWorldSts w o
  | _ => fun _ => w
  end.

(** Answers a request from the world; each clock read takes a microsecond. *)
Definition serve (X : Type) (e : req X) (w : world) : X * world :=
  match e with
  | Now => (w_now w, mkWorld (w_now w + 1000) (w_sts w) (w_pods w) (w_scaler w) (w_hpas w)
                       (w_secrets w) (w_state w))
  | Get _ k _ _ name => (getObject w k name, w)
  | ListPods _ _ _ => (inr (w_pods w), w)
  | ListHPAs _ => (inr (w_hpas w), w)
  | Create k o => (inr o, storeObject w k o)
  | Update k o => (inr o, storeObject w k o)
  | Delete _ _ _ _ => (None, w)
  | StatusUpdate app => (inr app, w)
  | HttpGet _ => (inr (mkHttpResponse 200 (inr (w_state w))), w)
  | Order l => (l ↾ Permutation_refl l, w)
  | GetObject _ => (inl notFound, w)
  | ListApps => (inr [], w)
  end.

(** A request tree run in a world: its trace and its result. *)
Definition traceIn {R} (p : M R) (w : world) : tr := fst (fst (run serve p w)).
Definition resultIn {R} (p : M R) (w : world) : R := snd (fst (run serve p w)).
Definition worldAfter {R} (p : M R) (w : world) : world := snd (run serve p w).

Lemma execIn {R} (p : M R) w : exec p (traceIn p w) (resultIn p w).
Proof.
  unfold traceIn, resultIn. destruct (run serve p w) as [[t r] w'] eqn:E.
  by eapply run_exec.
Qed.

(** 2026-07-01T12:00:00Z, in nanoseconds. *)
Definition noon : Z := 1782907200 * Second.

(** Three ready pods of [app], a fleet at [partition] and no scaler. *)
Definition sampleWorld (app : WorkerApp) (partition restoring : Z) (annotations : gmap string string)
  : world :=
  let sts := sampleSts app 3 partition annotations in
  mkWorld noon (Some sts)
    (map (samplePod app (sts_Template (sts_Spec sts)) "rev2") [0; 1; 2]) None [] ∅
    (stateBody "v7" restoring).

Definition sampleReconciler : WorkerAppReconciler :=
  {| r_AllowedImagePrefixes := ["ghcr.io/celld/celld:"];
     r_AllowedIAMRoles := [];
     r_AllowedAzureClientIDs := [];
     r_AllowedBucketEndpoints := [];
     r_HTTPRouteRetries := false;
     r_IngressMode := "httproute";
     r_GatewayName := "public";
     r_GatewayNamespace := "gateways";
     r_IstioGateways := [];
     r_IngressClassName := "";
     r_ClusterIssuer := "";
     r_PrometheusURL := "http://prometheus:9090";
     r_OperatorNamespace := "celld-operator-system";
     r_OperatorPrincipal := "" |}.

(** The last StatefulSet a run updated. *)
Definition lastUpdate (t : tr) (d : StatefulSet) : StatefulSet := List.last (stsUpdates t) d.

Lemma lastUpdate_elem t d : Nat.eqb (length (stsUpdates t)) 0 = false -> lastUpdate t d ∈ stsUpdates t.
Proof.
  unfold lastUpdate. induction (stsUpdates t) as [|s [|s' l] IH]; simpl; intros E; [done| |].
  - set_solver.
  - right. by apply IH.
Qed.

(** ** Named runs *)

Definition app060 : WorkerApp := sampleApp v060 "Rolling" 3 None.
Definition app051 : WorkerApp := sampleApp v051 "Rolling" 3 None.
Definition app051Recreate : WorkerApp := sampleApp v051 "Recreate" 3 None.

(** v0.6.0 half rolled out, two ordinals to go. *)
Definition midSts : StatefulSet := sampleSts app060 3 2 ∅.
Definition midWorld : world := sampleWorld app060 2 0 ∅.

(** v0.5.1 at rest. *)
Definition oldSts : StatefulSet := sampleSts app051 3 0 ∅.
Definition oldWorld : world := sampleWorld app051 0 0 ∅.

(** The world after a write, [seconds] later. *)
Definition later (w : world) (seconds : Z) (sts : StatefulSet) : world :=
  mkWorld (w_now w + seconds * Second) (Some sts) (w_pods w) (w_scaler w) (w_hpas w) (w_secrets w)
    (w_state w).

(** An autoscaled app, its scaler unpaused and labelled by someone else too. *)
Definition sampleScaling : AutoscalingSpec :=
  mkAutoscalingSpec true 2 6 (mkAutoscalingTargets None None).
Definition appScaled : WorkerApp := sampleApp v060 "Rolling" 3 (Some sampleScaling).
Definition sampleScaler (paused : bool) : Unstructured :=
  let built := buildScaledObject appScaled sampleScaling "http://prometheus:9090" paused in
  mkUnstructured (u_APIVersion built) (u_Kind built)
    (ownedMeta (fleetName appScaled) "so-uid" "app-uid" 1
       (<["team" := "shop"]> (meta_Labels (u_Meta built))) (meta_Annotations (u_Meta built)))
    (u_Spec built) (AMap []).

Definition withScaler (w : world) (u : Unstructured) : world :=
  mkWorld (w_now w) (w_sts w) (w_pods w) (Some u) (w_hpas w) (w_secrets w) (w_state w).

(** ** A store of objects *)

(** An API server with at most one object of each kind, at the time [o_now],
    and the deploy pointer of a reachable bucket. *)
Record store := mkFullStore {
  o_now : Z;
  o_object : forall k, option (obj k);
  o_pointer : option string
}.

Definition mkStore (now : Z) (objects : forall k, option (obj k)) : store := mkFullStore now objects None.

Definition noObjects (k : kind) : option (obj k) := None.

Definition withObject (objects : forall k, option (obj k)) (k : kind) (o : option (obj k)) (k' : kind)
  : option (obj k') :=
  match kind_eq_dec k k' with
  | left e => eq_rect k (fun k => option (obj k)) o k' e
  | right _ => objects k'
  end.

Definition setStore (s : store) (k : kind) (o : option (obj k)) : store :=
  mkFullStore (o_now s) (withObject (o_object s) k o) (o_pointer s).

Definition serveStore (X : Type) (e : req X) (s : store) : X * store :=
  match e with
  | Now => (o_now s, s)
  | Get _ k _ _ _ => (orNotFound (o_object s k), s)
  | ListPods _ _ _ => (inr [], s)
  | ListHPAs _ => (inr [], s)
  | Create k o => (inr o, setStore s k (Some o))
  | Update k o => (inr o, setStore s k (Some o))
  | Delete k _ _ _ => (None, setStore s k None)
  | StatusUpdate app => (inr app, s)
  | HttpGet _ => (inr (mkHttpResponse 200 (inr "")), s)
  | Order l => (l ↾ Permutation_refl l, s)
  | GetObject _ => (match o_pointer s with Some raw => inr (inr raw) | None => inl notFound end, s)
  | ListApps => (inr [], s)
  end.

Definition traceOn {R} (p : M R) (s : store) : tr := fst (fst (run serveStore p s)).
Definition resultOn {R} (p : M R) (s : store) : R := snd (fst (run serveStore p s)).
Definition storeAfter {R} (p : M R) (s : store) : store := snd (run serveStore p s).

Lemma execOn {R} (p : M R) (s : store) : exec p (traceOn p s) (resultOn p s).
Proof.
  unfold traceOn, resultOn. destruct (run serveStore p s) as [[t r] s'] eqn:E.
  by eapply run_exec.
Qed.

(** ** A tracked app *)

(** [app] with another [appVersion], following the pointer with the Secret
    [tracking]. *)
Definition withVersion (app : WorkerApp) (version policy : string) : WorkerApp :=
  let s := app_Spec app in
  mkWorkerApp (app_Meta app)
    (mkWorkerAppSpec "tracking" policy (spec_ClusterDomain s) (spec_Storage s) (spec_Scheduling s)
       (spec_Hostnames s) version (spec_Celld s) (spec_Replicas s) (spec_Bucket s) (spec_Resources s)
       (spec_Service s) (spec_Vars s) (spec_WebSockets s) (spec_Autoscaling s) (spec_Telemetry s)
       (spec_Durability s) (spec_TrustForwardedHeaders s))
    (app_Status app).

Definition trackingSecret : Secret :=
  mkSecret (ownedMeta "tracking" "secret-uid" "" 1 ∅ ∅)
    {[ "AWS_ACCESS_KEY_ID" := "AKIA"; "AWS_SECRET_ACCESS_KEY" := "hunter2" ]}.

Definition pointerBody (version : string) : string :=
  "{" +:+ quoted "version" +:+ ":" +:+ quoted version +:+ "}".

Definition trackedStore (now : Z) (pointer : option string) : store :=
  mkFullStore now (withObject noObjects KSecret (Some (trackingSecret : obj KSecret))) pointer.
