(* ===== verification/FleetStateTheorems.v ===== *)
(** * The properties of the fleet sweep and of its samples

    What [internal/controller/fleetstate.go] promises to the rollout gate. *)

From S2P Require Import Prelude GoStrings Json Effects Kube Api Cluster Resources FleetState Ensure Rollout Sample.

Local Open Scope Z_scope.

(** C25: a sweep without an error is complete and exact. Whatever order the
    goroutines finished in, every pod of the list was available and answered a
    valid sample during the sweep, the sum is the (64-bit) sum over all of them,
    and the map has an entry for each pod name and none but samples taken. With
    an error, some pod was unavailable or did not answer a valid sample. Nothing
    was written. *)
Theorem fleetSweep_exact pods t states restoring err :
  exec (FleetSweep pods) t (states, restoring, err) ->
  readOnly t /\
  match err with
  | None =>
      exists samples, Forall2 (podSampled t) pods samples /\
        restoring = wrap64 (sumZ (map ps_Restoring samples)) /\
        dom states = list_to_set (map (fun p => pod_Name p) pods) /\
        map_Forall (fun n st => exists pod, pod ∈ pods /\ pod_Name pod = n /\ podSampled t pod st) states
  | Some _ => exists pod, pod ∈ pods /\ podFailed t pod
  end.
Proof. intros Hx. exact (proj1 (wp_exec _ _) (wp_FleetSweep pods) _ _ Hx). Qed.

Lemma fleetSweep_exact_witness :
  let p := FleetSweep (w_pods midWorld) in
  snd (fst (resultIn p midWorld)) = 0 /\ readOnly (traceIn p midWorld).
Proof.
  intros p. split; [vm_compute; reflexivity|].
  refine (proj1 (fleetSweep_exact (w_pods midWorld) (traceIn p midWorld)
           (fst (fst (resultIn p midWorld))) (snd (fst (resultIn p midWorld))) (snd (resultIn p midWorld)) _)).
  rewrite <- !surjective_pairing. apply execIn.
Defined.

(** C26: [Fetch] fails closed. A sample it returns came with status 200 in at
    most 4 MiB of valid JSON, an object without an [error] member and with
    [occupied], [restoring] and [shedding] present (only the last may be null);
    its safety counters are non-negative, its numbers are [int64]s, and a
    deployment in it has a version, a generation of at least one and no negative
    swap count. *)
Theorem fetch_fails_closed podIP t st :
  exec (Fetch podIP) t (inr st) ->
  exists resp raw fields,
    t = [Ev (HttpGet (stateURL podIP)) (inr resp)] /\
    http_Status resp = 200 /\ http_Body resp = inr raw /\
    Z.of_nat (String.length raw) <= 4 * 2 ^ 20 /\ parseJSON raw = Some (JObj fields) /\
    jsonField fields "error" = None /\
    Forall (fun key => requiredKey fields key = true) ["occupied"; "restoring"; "shedding"] /\
    stateValid st /\ stateInt64 st.
Proof.
  unfold Fetch. intros (x & t' & -> & -> & Hd). destruct x as [e|resp]; [done|].
  symmetry in Hd. pose proof (decodeState_int64 _ _ Hd) as Hi.
  apply decodeState_inr in Hd as (Hs & raw & fields & Hb & Hl & Hp & He & Hr & _ & Hv).
  exists resp, raw, fields. by split_and!.
Qed.

Lemma fetch_fails_closed_witness :
  stateValid (mkPodState (Some (mkDeploymentState "v7" 3 [] 0)) 12 0 0 0 0 0 None 0 0 None None).
Proof.
  destruct (fetch_fails_closed "10.0.0.1" (traceIn (Fetch "10.0.0.1") midWorld)
              (mkPodState (Some (mkDeploymentState "v7" 3 [] 0)) 12 0 0 0 0 0 None 0 0 None None))
    as (resp & raw & fields & _ & _ & _ & _ & _ & _ & _ & Hv & _).
  - assert (Hst : resultIn (Fetch "10.0.0.1") midWorld
                  = inr (mkPodState (Some (mkDeploymentState "v7" 3 [] 0)) 12 0 0 0 0 0 None 0 0 None None))
      by (vm_compute; reflexivity).
    rewrite <- Hst. apply execIn.
  - exact Hv.
Defined.

(** the counter the gate reads is the one the node reported: the last
    member of the answer that names [restoring], in any letter case, decides it,
    and every other member leaves it alone. *)
Theorem restoring_is_reported resp raw pre lit post st :
  http_Body resp = inr raw ->
  parseJSON raw = Some (JObj (pre ++ ("restoring", JNum lit) :: post)) ->
  Forall (fun kv => matchesField "restoring" (fst kv) = false) post ->
  decodeState resp = inr st -> parseInt64 lit = Some (ps_Restoring st).
Proof.
  intros Hb Hp Hpost (_ & raw' & fields & Hb' & _ & Hp' & _ & _ & Hd & _)%decodeState_inr.
  rewrite Hb in Hb'. injection Hb' as <-. rewrite Hp in Hp'. injection Hp' as <-.
  by eapply decode_restoring.
Qed.

Lemma restoring_is_reported_witness : parseInt64 "5" = Some 5.
Proof.
  refine (restoring_is_reported (mkHttpResponse 200 (inr (stateBody "v7" 5))) (stateBody "v7" 5)
    [("deployment", JObj [("version", JStr "v7"); ("generation", JNum "3"); ("draining", JArr []);
                          ("swapping", JNum "0")]); ("occupied", JNum "12")]
    "5" [("shedding", JNull)]
    (mkPodState (Some (mkDeploymentState "v7" 3 [] 0)) 12 0 5 0 0 0 None 0 0 None None) _ _ _ _).
  - reflexivity.
  - vm_compute. reflexivity.
  - repeat constructor.
  - vm_compute. reflexivity.
Defined.

(** Four pods that each report [2^62] restoring activations. *)
Definition saturatedWorld : world := sampleWorld app060 2 (2 ^ 62) ∅.
Definition saturatedPods : list Pod :=
  map (samplePod app060 (sts_Template (sts_Spec midSts)) "rev2") [0; 1; 2; 3].

(** C27: the sum has the width of its counters and wraps: four valid samples of
    [2^62] each read as nothing restoring, without an error. Below [2^64] in
    total the sum is zero only when every counter is. *)
Theorem sweep_sum_wraps :
  snd (fst (resultIn (FleetSweep saturatedPods) saturatedWorld)) = 0 /\
  snd (resultIn (FleetSweep saturatedPods) saturatedWorld) = None /\
  forall pods t states,
    exec (FleetSweep pods) t (states, 0, None) ->
    exists samples, Forall2 (podSampled t) pods samples /\
      (sumZ (map ps_Restoring samples) < 2 ^ 64 -> Forall (fun st => ps_Restoring st = 0) samples).
Proof.
  split_and!; [vm_compute; reflexivity..|]. intros pods t states Hx.
  destruct (proj1 (wp_exec _ _) (wp_FleetSweep pods) _ _ Hx) as [_ (samples & Hl & Hz & _)].
  exists samples. split; [done|]. intros Hlt. simpl in Hz.
  assert (Hnn : Forall (fun z => 0 <= z) (map ps_Restoring samples)).
  { apply Forall_map. clear -Hl. induction Hl as [|pod st pods samples (_ & resp & _ & Hd) _ IH];
      constructor; [|done]. apply decodeState_inr in Hd as (_ & raw & f & _ & _ & _ & _ & _ & _ & Hv).
    unfold stateValid in Hv. simpl. tauto. }
  destruct (wrap64_sum_zero _ Hnn) as [Ha|]; [done| |lia]. by apply Forall_map in Ha.
Qed.
