(* ===== verification/PollerTheorems.v ===== *)
(** * The properties of the state poller

    What a scrape of the operator may rely on: a fleet reads as complete only on
    evidence, every gauge comes from a sample of the same sweep, and the series
    are accepted by the registry. *)

From Stdlib Require Import SpecFloat.
From S2P Require Import Prelude GoStrings GoTime GoFloat Json Effects Kube Api Cluster Resources FleetState Poller.
From S2P Require Import Ensure Rollout Sample.

Local Open Scope Z_scope.

(** ** The samples of one app as a plain function of what was read *)

Definition fleetSeries (app : WorkerApp) (sampledAt : Z) (complete : bool) : list Metric :=
  let m name v := mkMetric name [labelNamespace; labelWorkerApp] v [app_Namespace app; app_Name app] in
  [m "celld_fleet_complete" (boolToGauge complete);
   m "celld_fleet_sample_timestamp_seconds" (float64 (sampledAt / Second))].

Definition podMetric (app : WorkerApp) (pod : Pod) (nv : string * spec_float) : Metric :=
  mkMetric (fst nv) [labelNamespace; labelWorkerApp; labelPod] (snd nv)
    [app_Namespace app; app_Name app; pod_Name pod].

(** Whether the pod answered, which also decides what is known of it. *)
Definition podGauges (app : WorkerApp) (pod : Pod) (state : option PodState)
  : list (string * spec_float) :=
  [("celld_container_restarts", float64 (fst (celldRestarts pod)));
   ("celld_self_fenced", boolToGauge (snd (celldRestarts pod)));
   ("celld_state_up", boolToGauge (match state with Some _ => true | None => false end))]
  ++ match state with Some st => podValues app st | None => [] end.

Definition podSeries (app : WorkerApp) (states : gmap string PodState) (pod : Pod) : list Metric :=
  map (podMetric app pod) (podGauges app pod (states !! pod_Name pod)).

Lemma foldl_add app pod l samples :
  foldl (fun s nv => add (fst nv) (snd nv) [app_Namespace app; app_Name app; pod_Name pod] s) samples l
  = samples ++ map (podMetric app pod) l.
Proof.
  revert samples. induction l as [|nv l IH]; intros samples; simpl; [by rewrite app_nil_r|].
  rewrite IH. unfold add. simpl. by rewrite <- app_assoc.
Qed.

Section PollerTheorems.
Context `{KubeLib}.

Lemma wp_exportPod app states pod samples :
  wp (exportPod app states pod samples)
     (fun t s => readOnly t /\ exists new, s = samples ++ new /\ new ≡ₚ podSeries app states pod).
Proof.
  unfold exportPod, podSeries, podGauges. destruct (celldRestarts pod) as [restarts fenced].
  destruct (states !! pod_Name pod) as [st|] eqn:E; cbn [fst snd].
  - apply wp_trigger. intros [order Hp]. apply wp_ret. split; [by repeat constructor|].
    cbn [proj1_sig]. rewrite foldl_add. unfold add. simpl. rewrite <- !app_assoc.
    eexists. split; [reflexivity|]. simpl. by rewrite Hp.
  - apply wp_ret. split; [constructor|]. unfold add. simpl. rewrite <- !app_assoc.
    eexists. by split.
Qed.

Lemma wp_exportPods app states pods samples :
  wp (foldM (exportPod app states) pods samples)
     (fun t s => readOnly t /\ exists new, s = samples ++ new /\ new ≡ₚ flat_map (podSeries app states) pods).
Proof.
  apply (wp_foldM (exportPod app states) pods samples
    (fun dn t s => readOnly t /\ exists new, s = samples ++ new /\ new ≡ₚ flat_map (podSeries app states) dn)).
  { split; [constructor|]. exists []. by rewrite app_nil_r. }
  intros dn pod t s (Ht & new & -> & Hn). eapply wp_mono; [|apply wp_exportPod].
  intros t' s' (Ht' & new' & -> & Hn'). split; [by apply readOnly_app|].
  exists (new ++ new'). split; [by rewrite app_assoc|].
  rewrite flat_map_app, Hn, Hn'. simpl. by rewrite app_nil_r.
Qed.

(** ** What a sweep of one app establishes *)

(** Every entry of a sweep is a sample taken in it, with or without an error. *)
Definition sampledIn (pods : list Pod) (t : tr) (states : gmap string PodState) : Prop :=
  map_Forall (fun n st => exists pod, pod ∈ pods /\ pod_Name pod = n /\ podSampled t pod st) states.

Lemma sampledIn_mono pods pods' t t' states :
  pods ⊆ pods' -> t ⊆ t' -> sampledIn pods t states -> sampledIn pods' t' states.
Proof.
  intros Hp Ht Hs n st (pod & ? & ? & ?)%Hs. exists pod.
  split_and!; [auto|done|by eapply podSampled_mono].
Qed.

Lemma wp_sweepPod_sampled pods pod t s :
  sampledIn pods t (sw_states s) ->
  wp (sweepPod pod s) (fun t' s' => sampledIn (pods ++ [pod]) (t ++ t') (sw_states s')).
Proof.
  intros Hs.
  assert (Hold : forall t', sampledIn (pods ++ [pod]) (t ++ t') (sw_states s)).
  { intros t'. eapply sampledIn_mono; [| |exact Hs]; set_solver. }
  unfold sweepPod. destruct (podAvailable pod) eqn:Ha; simpl; [|apply Hold].
  intros [e|resp]; simpl; [apply Hold|].
  destruct (decodeState resp) as [e|st] eqn:Hd; simpl; [apply Hold|].
  intros n st' [[<- <-]|[_ Hn]]%lookup_insert_Some; [|by apply Hold].
  exists pod. split_and!; [set_solver|done|]. split; [done|]. exists resp. split; [set_solver|done].
Qed.

Lemma wp_FleetSweep_sampled pods :
  wp (FleetSweep pods) (fun t res => sampledIn pods t (fst (fst res))).
Proof.
  unfold FleetSweep. apply wp_trigger. intros [order Hp]. cbv beta. simpl. eapply wp_seq.
  { apply (wp_foldM sweepPod order _ (fun dn t s => sampledIn dn t (sw_states s))).
    - apply map_Forall_empty.
    - intros dn a t s Hs. by apply wp_sweepPod_sampled. }
  intros t s Hs. apply wp_ret. rewrite app_nil_r. eapply sampledIn_mono; [| |exact Hs]; [|set_solver].
  intros pod. by rewrite Hp.
Qed.

(** The evidence for a complete fleet: within [t] the StatefulSet was read with
    its generation observed, as many pods as it has replicas were listed, at
    least one, each controlled by it, ready and sampled. *)
Definition fleetEvidence (t : tr) (app : WorkerApp) : Prop :=
  exists sts pods,
    Ev (Get Cached KStatefulSet "" (app_Namespace app) (fleetName app)) (inr sts) ∈ t /\
    Ev (ListPods Cached (app_Namespace app) (selectorLabels app)) (inr pods) ∈ t /\
    sts_ObservedGeneration (sts_Status sts) = meta_Generation (sts_Meta sts) /\
    0 < deref (sts_Replicas (sts_Spec sts)) 0 /\
    wrap32 (Z.of_nat (length pods)) = deref (sts_Replicas (sts_Spec sts)) 0 /\
    Forall (fun pod => IsControlledBy (pod_Meta pod) (sts_Meta sts) = true /\ podReady pod = true /\
                       exists st, podSampled t pod st) pods.

(** What one iteration of [sweep] appended, and on what grounds. *)
Definition appSwept (app : WorkerApp) (t : tr) (new : list Metric) : Prop :=
  exists sampledAt complete pods states,
    new ≡ₚ fleetSeries app sampledAt complete ++ flat_map (podSeries app states) pods /\
    Ev Now sampledAt ∈ t /\
    (complete = true -> fleetEvidence t app) /\
    (pods = [] \/ Ev (ListPods Cached (app_Namespace app) (selectorLabels app)) (inr pods) ∈ t) /\
    sampledIn pods t states.

Lemma fleetEvidence_mono t t' app : t ⊆ t' -> fleetEvidence t app -> fleetEvidence t' app.
Proof.
  intros Ht (sts & pods & ? & ? & ? & ? & ? & Hf). exists sts, pods. split_and!; auto.
  eapply Forall_impl; [exact Hf|]. intros pod (? & ? & st & ?). split_and!; auto.
  exists st. by eapply podSampled_mono.
Qed.

Lemma appSwept_mono app t t' new : t ⊆ t' -> appSwept app t new -> appSwept app t' new.
Proof.
  intros Ht (now & complete & pods & states & ? & ? & Hc & Hp & ?). exists now, complete, pods, states.
  split_and!; [done|auto| | |].
  - intros ?. eapply fleetEvidence_mono; [exact Ht|]. auto.
  - destruct Hp; [by left|right; auto].
  - by eapply sampledIn_mono.
Qed.

Lemma Forall2_samples t pods l :
  Forall2 (podSampled t) pods l -> Forall (fun pod => exists st, podSampled t pod st) pods.
Proof. induction 1; constructor; eauto. Qed.

Lemma complete_observed sts pods states restoring err t1 t2 app :
  Ev (Get Cached KStatefulSet "" (app_Namespace app) (fleetName app)) (inr sts) ∈ t1 ->
  Ev (ListPods Cached (app_Namespace app) (selectorLabels app)) (inr pods) ∈ t1 ->
  sweepResult pods t2 (states, restoring, err) ->
  fleetListed sts pods && allServing sts pods && (match err with None => true | Some _ => false end)
    && Nat.eqb (size states) (length pods) = true ->
  fleetEvidence (t1 ++ t2) app.
Proof.
  intros Hg Hl [_ Hs] Hc. unfold fleetListed, allServing in Hc.
  rewrite !andb_true_iff, forallb_forall in Hc.
  destruct Hc as ((([[Hr Hn] Hgen] & Hserving) & He) & _). bool_simp.
  destruct err as [e|]; [done|]. destruct Hs as (l & Hs%Forall2_samples & _).
  exists sts, pods. split_and!; [set_solver..|done|done|done|].
  rewrite Forall_forall in Hs |- *. intros pod Hin. destruct (Hs pod Hin) as [st Hst].
  specialize (Hserving pod (proj1 (list_elem_of_In _ _) Hin)). bool_simp. split_and!; [done..|].
  exists st. eapply podSampled_mono; [|exact Hst]. set_solver.
Qed.

Lemma wp_sweepApp app samples :
  wp (sweepApp app samples)
     (fun t s => readOnly t /\ exists new, s = samples ++ new /\ appSwept app t new).
Proof.
  unfold sweepApp. apply wp_trigger. intros now. apply wp_trigger. intros got.
  set (t0 := [Ev Now now; Ev (Get Cached KStatefulSet "" (app_Namespace app) (fleetName app)) got]).
  eapply (wp_seq _ _ (fun t1 listed => readOnly t1 /\
    match listed with
    | inl _ => True
    | inr pods => t1 = [Ev (ListPods Cached (app_Namespace app) (selectorLabels app)) (inr pods)] /\
                  exists sts, got = inr sts
    end)).
  { destruct got as [e|sts]; [by split; [constructor|]|].
    intros [e|pods]; simpl; (split; [by repeat constructor|]); [done|]. split; [done|]. by exists sts. }
  intros t1 listed [Ht1 Hlisted]. cbv beta zeta. set (pods := match listed with inl _ => [] | inr _ => _ end).
  eapply wp_seq; [exact (wp_conj _ _ _ (wp_FleetSweep pods) (wp_FleetSweep_sampled pods))|].
  intros t2 [[states restoring] err] [Hs Hsamp]. cbn [fst] in Hsamp.
  eapply wp_mono; [|apply wp_exportPods]. intros t3 s (Ht3 & new & -> & Hn). unfold add. cbn [length Nat.eqb].
  rewrite !app_nil_r. rewrite <- !app_assoc.
  split. { repeat constructor; rewrite ?readOnly_app; split_and!; try done. apply Hs. }
  eexists. split; [reflexivity|]. exists now, (match listed with inl _ => false | inr _ => fleetListed
    (match got with inl _ => zeroSts | inr sts => sts end) pods end
    && allServing (match got with inl _ => zeroSts | inr sts => sts end) pods
    && match err with None => true | Some _ => false end && Nat.eqb (size states) (length pods)), pods, states.
  split_and!.
  - by rewrite Hn.
  - set_solver.
  - destruct listed as [e|pods']; [done|]. destruct Hlisted as [-> [sts ->]]. intros Hc.
    eapply fleetEvidence_mono; [|eapply (complete_observed sts pods states restoring err
      (t0 ++ [Ev (ListPods Cached (app_Namespace app) (selectorLabels app)) (inr pods)]) t2);
      [set_solver|set_solver|exact Hs|exact Hc]]. set_solver.
  - destruct listed as [e|pods']; [by left|]. destruct Hlisted as [-> _]. right. set_solver.
  - eapply sampledIn_mono; [| |exact Hsamp]; set_solver.
Qed.

(** ** What a whole sweep establishes *)

(** The samples are those of the listed apps, app by app. *)
Definition appsSwept (t : tr) (apps : list WorkerApp) (samples : list Metric) : Prop :=
  exists parts, samples = concat parts /\ Forall2 (fun app new => appSwept app t new) apps parts.

Lemma wp_sweepApps apps :
  wp (foldM sweepApp apps []) (fun t s => readOnly t /\ appsSwept t apps s).
Proof.
  apply (wp_foldM sweepApp apps [] (fun dn t s => readOnly t /\ appsSwept t dn s)).
  { split; [constructor|]. exists []. by split. }
  intros dn app t s (Ht & parts & -> & Hp). eapply wp_mono; [|apply wp_sweepApp].
  intros t' s' (Ht' & new & -> & Hn). split; [by apply readOnly_app|].
  exists (parts ++ [new]). rewrite concat_app. simpl. rewrite app_nil_r. split; [done|].
  apply Forall2_app.
  - eapply Forall2_impl; [exact Hp|]. intros ? ?. apply appSwept_mono. set_solver.
  - constructor; [|constructor]. eapply appSwept_mono; [|exact Hn]. set_solver.
Qed.

Lemma wp_sweep snapshot :
  wp (sweep snapshot) (fun t r => readOnly t /\
    match fst r with
    | Some e => t = [Ev ListApps (inl e)] /\ snd r = snapshot
    | None => exists apps, Ev ListApps (inr apps) ∈ t /\ appsSwept t apps (Collect (snd r))
    end).
Proof.
  unfold sweep. apply wp_trigger. intros [e|apps].
  { apply wp_ret. split; [by repeat constructor|by split]. }
  eapply wp_seq; [apply wp_sweepApps|]. intros t samples (Ht & parts & -> & Hp). apply wp_ret.
  rewrite app_nil_r. split; [by constructor|]. cbn [fst snd]. exists apps. split; [set_solver|].
  exists parts. split; [done|]. eapply Forall2_impl; [exact Hp|].
  intros ? ?. apply appSwept_mono. set_solver.
Qed.

(** ** The series of a sweep *)

Definition series (m : Metric) : string * list string := (m_Name m, m_Labels m).

(** The names of the two groups of series. *)
Definition fleetNames : list string := ["celld_fleet_complete"; "celld_fleet_sample_timestamp_seconds"].
Definition podNames : list string :=
  ["celld_container_restarts"; "celld_self_fenced"; "celld_state_up"; "celld_resident_cells";
   "celld_evicting"; "celld_restoring"; "celld_shedding"; "celld_resident_cell_utilization";
   "celld_rss_bytes"; "celld_in_use_bytes"; "celld_cgroup_current_bytes"; "celld_cgroup_working_set_bytes"].

(** A sample has the labels of its group. *)
Definition wellLabelled (m : Metric) : Prop :=
  (m_Name m ∈ fleetNames /\ m_Keys m = [labelNamespace; labelWorkerApp] /\ length (m_Labels m) = 2%nat) \/
  (m_Name m ∈ podNames /\ m_Keys m = [labelNamespace; labelWorkerApp; labelPod] /\
   length (m_Labels m) = 3%nat).

Lemma subseteq_decided (l k : list string) :
  forallb (fun x => existsb (String.eqb x) k) l = true -> l ⊆ k.
Proof.
  rewrite forallb_forall. intros Hl x Hx%list_elem_of_In%Hl%existsb_exists.
  destruct Hx as (y & Hy & ->%String.eqb_eq). by apply list_elem_of_In.
Qed.

Lemma podGauges_names app pod st :
  NoDup (map fst (podGauges app pod st)) /\ map fst (podGauges app pod st) ⊆ podNames.
Proof.
  unfold podGauges, podValues. destruct st as [st|];
    [destruct (ps_CgroupCurrentBytes st), (ps_CgroupWorkingSetBytes st)|]; cbn [map fst Datatypes.app];
    (split; [apply (bool_decide_unpack _); vm_compute; exact I|]);
    apply subseteq_decided; vm_compute; reflexivity.
Qed.

Lemma podSeries_series app states pod :
  map series (podSeries app states pod)
  = map (fun n => (n, [app_Namespace app; app_Name app; pod_Name pod]))
      (map fst (podGauges app pod (states !! pod_Name pod))).
Proof. unfold podSeries. by rewrite !map_map. Qed.

Lemma elem_podSeries app states pod m :
  m ∈ podSeries app states pod ->
  wellLabelled m /\ m_Labels m = [app_Namespace app; app_Name app; pod_Name pod] /\
  (m_Name m, m_Value m) ∈ podGauges app pod (states !! pod_Name pod).
Proof.
  unfold podSeries. rewrite list_elem_of_fmap. intros ([n v] & -> & Hin). split_and!; [|done|done].
  right. split_and!; [|done|done]. apply (proj2 (podGauges_names app pod (states !! pod_Name pod))).
  apply list_elem_of_fmap. by exists (n, v).
Qed.

Lemma elem_podsSeries app states pods m :
  m ∈ flat_map (podSeries app states) pods <-> exists pod, pod ∈ pods /\ m ∈ podSeries app states pod.
Proof.
  rewrite list_elem_of_In, in_flat_map. setoid_rewrite list_elem_of_In. done.
Qed.

Lemma elem_fleetSeries app now complete m :
  m ∈ fleetSeries app now complete ->
  wellLabelled m /\ m_Labels m = [app_Namespace app; app_Name app] /\
  (m_Name m = "celld_fleet_complete" -> m_Value m = boolToGauge complete).
Proof.
  unfold fleetSeries. rewrite !elem_of_cons, elem_of_nil. intros [->|[->|[]]];
    (split_and!; [left; split_and!; [set_solver|done|done]|done|done]).
Qed.

Lemma podsSeries_NoDup app states pods :
  NoDup (map (fun p => pod_Name p) pods) ->
  NoDup (map series (flat_map (podSeries app states) pods)).
Proof.
  induction pods as [|pod pods IH]; intros Hp; [constructor|].
  cbn [map flat_map] in *. apply NoDup_cons in Hp as [Hnew Hp]. rewrite map_app. apply NoDup_app. split_and!; [| |by apply IH].
  - rewrite podSeries_series. apply NoDup_fmap_2; [intros ? ? [=]; done|]. apply podGauges_names.
  - intros x (m & -> & Hm)%list_elem_of_fmap (m' & E & Hm')%list_elem_of_fmap.
    apply elem_podsSeries in Hm' as (pod' & Hin & Hm').
    apply elem_podSeries in Hm as (_ & Hm & _). apply elem_podSeries in Hm' as (_ & Hm' & _).
    unfold series in E. injection E as _ E. rewrite Hm, Hm' in E. injection E as E.
    apply Hnew. rewrite E. apply list_elem_of_fmap. by exists pod'.
Qed.

(** Within one app: the fleet's two series, and each pod's under its name. *)
Lemma appSeries_NoDup app now complete states pods :
  NoDup (map (fun p => pod_Name p) pods) ->
  NoDup (map series (fleetSeries app now complete ++ flat_map (podSeries app states) pods)).
Proof.
  intros Hp. rewrite map_app. apply NoDup_app. split_and!; [| |by apply podsSeries_NoDup].
  - constructor; [rewrite list_elem_of_singleton; discriminate|]. apply NoDup_singleton.
  - intros x (m & -> & Hm)%list_elem_of_fmap (m' & E & Hm')%list_elem_of_fmap.
    apply elem_podsSeries in Hm' as (pod & _ & Hm').
    apply elem_fleetSeries in Hm as (_ & Hm & _). apply elem_podSeries in Hm' as (_ & Hm' & _).
    unfold series in E. rewrite Hm, Hm' in E. discriminate.
Qed.

(** The API server keeps names apart: of WorkerApps in a namespace and of pods
    in one. *)
Definition uniqueAnswer (ev : event req) : Prop :=
  (match ev_req ev in req X return X -> Prop with
   | ListApps => fun got => forall apps, got = inr apps ->
       NoDup (map (fun app => (app_Namespace app, app_Name app)) apps)
   | ListPods _ _ _ => fun got => forall pods, got = inr pods -> NoDup (map (fun p => pod_Name p) pods)
   | _ => fun _ => True
   end) (ev_resp ev).

Definition namesUnique (t : tr) : Prop := Forall uniqueAnswer t.

Lemma appSwept_elem app t new m :
  appSwept app t new -> m ∈ new ->
  wellLabelled m /\ take 2 (m_Labels m) = [app_Namespace app; app_Name app].
Proof.
  intros (now & complete & pods & states & -> & _) [Hm|Hm]%elem_of_app.
  - apply elem_fleetSeries in Hm as (? & -> & _). done.
  - apply elem_podsSeries in Hm as (pod & _ & Hm). apply elem_podSeries in Hm as (? & -> & _). done.
Qed.

Lemma appsSwept_elem t apps samples m :
  appsSwept t apps samples -> m ∈ samples -> exists app new, app ∈ apps /\ appSwept app t new /\ m ∈ new.
Proof.
  intros (parts & -> & Hp) Hm. induction Hp as [|app new apps parts Hn _ IH]; simpl in Hm.
  - by apply elem_of_nil in Hm.
  - apply elem_of_app in Hm as [Hm|Hm]; [exists app, new; set_solver|].
    destruct (IH Hm) as (app' & new' & ? & ? & ?). exists app', new'. set_solver.
Qed.

Lemma appsSwept_NoDup t apps samples :
  NoDup (map (fun app => (app_Namespace app, app_Name app)) apps) ->
  namesUnique t -> appsSwept t apps samples -> NoDup (map series samples).
Proof.
  intros Ha Hpods (parts & -> & Hp). induction Hp as [|app new apps parts Hn Hp IH]; [constructor|].
  simpl in Ha. apply NoDup_cons in Ha as [Hnew Ha]. simpl. rewrite map_app.
  apply NoDup_app. split_and!; [| |by apply IH].
  - destruct Hn as (now & complete & pods & states & Hn & _ & _ & Hl & _).
    rewrite Hn. apply appSeries_NoDup. destruct Hl as [->|Hl]; [constructor|].
    by apply (proj1 (Forall_forall _ _) Hpods _ Hl).
  - intros x (m & -> & Hm)%list_elem_of_fmap (m' & E & Hm')%list_elem_of_fmap.
    destruct (appsSwept_elem t apps (concat parts) m') as (app' & new' & Hin & Hn' & Hm''); [by exists parts|done|].
    apply (appSwept_elem app t new) in Hm as [_ Hm]; [|done].
    apply (appSwept_elem app' t new') in Hm'' as [_ Hm'']; [|done].
    injection E as _ E. rewrite E, Hm'' in Hm. injection Hm as E1 E2.
    apply Hnew. rewrite <- E1, <- E2. apply list_elem_of_fmap. by exists app'.
Qed.

(** A stretch of the loop in which no list of apps could be read. *)
Definition noList (ev : event req) : Prop := exists e, ev = Ev ListApps (inl e).

(** The answers to the lists of apps of a trace. *)
Definition appListing (ev : event req) : option (error + list WorkerApp) :=
  (match ev_req ev in req X return X -> option (error + list WorkerApp) with
   | ListApps => fun got => Some got
   | _ => fun _ => None
   end) (ev_resp ev).

Definition appListings (t : tr) : list (error + list WorkerApp) := omap appListing t.

Lemma appListings_none t : Forall (fun ev => appListing ev = None) t -> appListings t = [].
Proof. induction 1 as [|ev t He _ IH]; [done|]. unfold appListings in *. simpl. by rewrite He. Qed.

Lemma unlisted_sweepApp app samples : emits (fun ev => appListing ev = None) (sweepApp app samples).
Proof.
  unfold sweepApp, FleetSweep, sweepPod, Fetch, exportPod.
  repeat first [emits_step | by intros ?; repeat constructor].
Qed.

(** A sweep that succeeds lists the apps once, first. *)
Lemma sweep_listing snapshot t snapshot' :
  exec (sweep snapshot) t (None, snapshot') ->
  exists apps, head t = Some (Ev ListApps (inr apps)) /\ appListings t = [inr apps] /\
               appsSwept t apps (Collect snapshot').
Proof.
  intros Hx. destruct (proj1 (wp_exec _ _) (wp_sweep snapshot) _ _ Hx) as (_ & apps & Hin & Hs).
  destruct Hx as (got & t' & -> & Hx). destruct got as [e|items]; [by destruct Hx as [_ ?]|].
  change (prog_mbind _ _ ?f (Ret ?x)) with (f x) in Hx. cbv beta iota in Hx.
  apply exec_bind in Hx as (t1 & t2 & samples & -> & Hx & [-> _]). rewrite app_nil_r in *.
  assert (Hnone : Forall (fun ev => appListing ev = None) t1).
  { apply (proj1 (wp_exec (foldM sweepApp items []) (fun t _ => Forall (fun ev => appListing ev = None) t))) in Hx; [done|].
    apply emits_foldM. intros. apply unlisted_sweepApp. }
  assert (apps = items) as ->.
  { apply elem_of_cons in Hin as [E|Hin]; [apply (f_equal appListing) in E; by injection E|]. apply (proj1 (Forall_forall _ _) Hnone) in Hin. discriminate Hin. }
  exists items. split_and!; [done| |done]. unfold appListings. simpl. f_equal. by apply appListings_none.
Qed.

(** Where the snapshot of the loop comes from after [ticks] ticks: it is the one
    the loop started with, when no sweep could list the apps; or [ticks] is the
    ticks of an earlier loop, then one sweep, then ticks whose sweeps could not
    list the apps, and the snapshot is the one that this sweep published. *)
Definition lastSweep (ticks : nat) (snapshot : stateSnapshot) (t : tr) (snapshot' : stateSnapshot) : Prop :=
  (snapshot' = snapshot /\ length t = ticks /\ Forall noList t) \/
  exists earlier before s during apps after,
    ticks = (earlier + S (length after))%nat /\ t = before ++ during ++ after /\
    exec (pollLoop earlier snapshot) before s /\
    exec (sweep s) during (None, snapshot') /\ Forall noList after /\
    head during = Some (Ev ListApps (inr apps)) /\ appListings during = [inr apps] /\
    appsSwept during apps (Collect snapshot').

Lemma lastSweep_first ticks snapshot err t0 s t snapshot' :
  exec (sweep snapshot) t0 (err, s) -> lastSweep ticks s t snapshot' -> lastSweep (S ticks) snapshot (t0 ++ t) snapshot'.
Proof.
  intros Hx. pose proof (proj1 (wp_exec _ _) (wp_sweep snapshot) _ _ Hx) as [_ Hr]. cbn [fst snd] in Hr.
  intros [(-> & Hlen & Ht)|(earlier & before & s0 & during & apps & after & -> & -> & Hb & Hd & Ha & Hh & Hone & Hs)].
  - destruct err as [e|].
    + destruct Hr as [-> ->]. left. split_and!; [done|simpl; by f_equal|]. constructor; [by exists e|done].
    + right. destruct (sweep_listing _ _ _ Hx) as (apps & Hh & Hone & Hs).
      exists 0%nat, [], snapshot, t0, apps, t. split_and!; try done. simpl. by f_equal.
  - right. exists (S earlier), (t0 ++ before), s0, during, apps, after. split_and!; try done.
    + by rewrite <- app_assoc.
    + apply exec_bind. by exists t0, before, (err, s).
Qed.

Lemma wp_pollLoop ticks snapshot : wp (pollLoop ticks snapshot) (lastSweep ticks snapshot).
Proof.
  apply wp_exec. revert snapshot. induction ticks as [|ticks IH]; intros snapshot t s.
  { intros [-> ->]. by left. }
  intros (t1 & t2 & [err s1] & -> & Hx & Hl)%exec_bind. eapply lastSweep_first; [exact Hx|]. by apply IH.
Qed.

Lemma Start_ticks p ticks snapshot : tickerInterval p > 0 ->
  Start p ticks snapshot = (snapshot ← pollLoop ticks snapshot; Ret (Some (publish snapshot []))).
Proof.
  intros Hi. unfold Start, NewTicker. destruct (Z.ltb_spec 0 (tickerInterval p)); [done|lia].
Qed.

Lemma tickerInterval_positive p : tickerInterval p > 0.
Proof. unfold tickerInterval. destruct (Z.leb_spec (p_Interval p) 0); unfold Second; lia. Qed.

(** ** Claims *)

(** C13: a fleet is exported as complete only on evidence. A sample
    [celld_fleet_complete] of value one belongs to an app the sweep listed, and
    within that sweep its StatefulSet was read with the generation observed, as
    many pods as it has replicas, at least one, were listed, and every one of
    them is controlled by it, ready, and answered a valid [/state] sample. *)
Theorem complete_fleet_is_observed snapshot t snapshot' m :
  exec (sweep snapshot) t (None, snapshot') -> m ∈ Collect snapshot' ->
  m_Name m = "celld_fleet_complete" -> m_Value m = boolToGauge true ->
  exists apps app, Ev ListApps (inr apps) ∈ t /\ app ∈ apps /\
    m_Labels m = [app_Namespace app; app_Name app] /\ fleetEvidence t app.
Proof.
  intros Hx Hm Hname Hv. destruct (proj1 (wp_exec _ _) (wp_sweep snapshot) _ _ Hx) as (_ & apps & Hin & Hs).
  destruct (appsSwept_elem _ _ _ _ Hs Hm) as (app & new & Happ & Hn & Hmn).
  exists apps, app. destruct Hn as (now & complete & pods & states & Hp & _ & Hc & _).
  rewrite Hp in Hmn. apply elem_of_app in Hmn as [Hf|Hf].
  - apply elem_fleetSeries in Hf as (_ & -> & Hval). split_and!; [done..|]. apply Hc.
    rewrite Hval in Hv by done. by destruct complete.
  - apply elem_podsSeries in Hf as (pod & _ & Hf). apply elem_podSeries in Hf as (Hl & Hl3 & _).
    destruct Hl as [(_ & _ & Hl)|(Hl & _)]; [by rewrite Hl3 in Hl|]. rewrite Hname in Hl. set_solver.
Qed.

(** what a sweep publishes is exactly what it read. It writes nothing to the
    cluster. When the apps cannot be listed it stops there and leaves the
    snapshot alone; otherwise the new snapshot is, app by app in the order of
    the list, the two fleet series with the clock read for that app, and for
    each listed pod the restart series, whether it answered, and, when it did,
    the gauges of the sample it answered in this sweep; series of apps and pods
    that are gone are gone. *)
Theorem sweep_publishes_what_it_read snapshot t err snapshot' :
  exec (sweep snapshot) t (err, snapshot') ->
  readOnly t /\
  match err with
  | Some e => t = [Ev ListApps (inl e)] /\ snapshot' = snapshot
  | None => exists apps, Ev ListApps (inr apps) ∈ t /\ appsSwept t apps (Collect snapshot')
  end.
Proof. intros Hx. exact (proj1 (wp_exec _ _) (wp_sweep snapshot) _ _ Hx). Qed.

(** C28: the registry accepts every snapshot. When the API server keeps names
    unique, no two samples share name and label values, every sample has one
    label value per label, and two samples of one name have the same labels:
    the three conditions under which a scrape does not fail as a whole. *)
Theorem snapshot_is_gatherable snapshot t snapshot' :
  exec (sweep snapshot) t (None, snapshot') -> namesUnique t ->
  NoDup (map series (Collect snapshot')) /\
  Forall (fun m => length (m_Keys m) = length (m_Labels m)) (Collect snapshot') /\
  (forall m1 m2, m1 ∈ Collect snapshot' -> m2 ∈ Collect snapshot' ->
     m_Name m1 = m_Name m2 -> m_Keys m1 = m_Keys m2).
Proof.
  intros Hx Hu. destruct (proj1 (wp_exec _ _) (wp_sweep snapshot) _ _ Hx) as (_ & apps & Hin & Hs).
  assert (Hl : forall m, m ∈ Collect snapshot' -> wellLabelled m).
  { intros m (app & new & _ & Hn & Hm)%(appsSwept_elem _ _ _ _ Hs). by eapply appSwept_elem. }
  split_and!.
  - eapply appsSwept_NoDup; [|exact Hu|exact Hs]. by apply (proj1 (Forall_forall _ _) Hu _ Hin).
  - apply Forall_forall. intros m [(_ & -> & ->)|(_ & -> & ->)]%Hl; done.
  - assert (Hdisj : forall n, n ∈ fleetNames -> n ∉ podNames).
    { apply Forall_forall, (bool_decide_unpack _). vm_compute. exact I. }
    intros m1 m2 [(H1 & -> & _)|(H1 & -> & _)]%Hl [(H2 & -> & _)|(H2 & -> & _)]%Hl E; try done;
      rewrite E in H1; exfalso; by eapply Hdisj.
Qed.

(** C29: the poller never serves a mixture and leaves nothing behind. However
    many ticks arrive and whatever fails, the ticker gets a positive interval
    (it does not panic); the snapshot after a number of ticks is the untouched
    initial one, when no sweep could list the apps, or else exactly what one
    call of [sweep] published, the last that could list them: the ticks after it
    failed to. That sweep listed the apps once, and the samples are those of the
    apps of that list as it read them. When the context ends the snapshot is
    empty. *)
Theorem poller_serves_last_sweep p ticks snapshot :
  (forall t s, exec (pollLoop ticks snapshot) t s -> lastSweep ticks snapshot t s) /\
  (forall t r, exec (Start p ticks snapshot) t r ->
     (exists s, exec (pollLoop ticks snapshot) t s) /\ r = Some (mkSnapshot [])).
Proof.
  split; [apply wp_exec, wp_pollLoop|]. intros t r. rewrite Start_ticks by apply tickerInterval_positive.
  rewrite exec_bind. intros (t1 & t2 & s & -> & Hx & -> & ->). rewrite app_nil_r. split; [by exists s|done].
Qed.

End PollerTheorems.

(** ** The counters of a sample *)

Definition counters (st : PodState) : list (string * Z) :=
  [("celld_resident_cells", ps_Occupied st); ("celld_evicting", ps_Evicting st);
   ("celld_restoring", ps_Restoring st); ("celld_rss_bytes", ps_RSSBytes st);
   ("celld_in_use_bytes", ps_InUseBytes st)].

(** A sample with [occupied] cells and nothing else. *)
Definition occupiedState (occupied : Z) : PodState :=
  mkPodState None occupied 0 0 0 0 0 None 0 0 None None.

(** a counter is exported exactly while it stays below 2^53. Every counter
    of a sample has its gauge, and the float it carries denotes the very integer
    the pod reported; from 2^53 on neighbouring counts share a float, and the
    exported values of two different samples are the same. *)
Theorem gauges_are_exact app :
  (forall st n z, (n, z) ∈ counters st ->
     exists v, (n, v) ∈ podValues app st /\ (- 2 ^ 53 < z < 2 ^ 53 -> floatZ v = Some z)) /\
  podValues app (occupiedState (2 ^ 53 + 1)) = podValues app (occupiedState (2 ^ 53)).
Proof.
  split; [|reflexivity]. intros st n z Hin. exists (float64 z).
  split; [|apply floatZ_float64]. unfold counters in Hin. rewrite !elem_of_cons, elem_of_nil in Hin.
  unfold podValues. rewrite elem_of_app, !elem_of_cons. left.
  destruct Hin as [[= -> ->]|[[= -> ->]|[[= -> ->]|[[= -> ->]|[[= -> ->]|[]]]]]]; tauto.
Qed.

(** ** Witnesses *)

(** The cluster of [Sample], with a list of apps. *)
Definition servePoller (apps : list WorkerApp) (X : Type) (e : req X) (w : world) : X * world :=
  (match e in req X return world -> X * world with
   | ListApps => fun w => (inr apps, w)
   | e => serve _ e
   end) w.

Definition sweepRun (w : world) := run (servePoller [app060]) (sweep (mkSnapshot [])) w.
Definition sweepTrace (w : world) : tr := fst (fst (sweepRun w)).
Definition sweepSnapshot (w : world) : stateSnapshot := snd (snd (fst (sweepRun w))).

Lemma sweepRun_exec w :
  fst (snd (fst (sweepRun w))) = None -> exec (sweep (mkSnapshot [])) (sweepTrace w) (None, sweepSnapshot w).
Proof.
  unfold sweepTrace, sweepSnapshot. destruct (sweepRun w) as [[t [err s]] w'] eqn:E.
  cbn [fst snd]. intros ->. by eapply run_exec.
Qed.

(** The fleet of three ready pods, all answering. *)
Definition completeMetric : Metric :=
  mkMetric "celld_fleet_complete" [labelNamespace; labelWorkerApp] (boolToGauge true) ["prod"; "shop"].

Lemma complete_fleet_is_observed_witness :
  completeMetric ∈ Collect (sweepSnapshot midWorld) /\
  exists apps app, Ev ListApps (inr apps) ∈ sweepTrace midWorld /\ app ∈ apps /\
    m_Labels completeMetric = [app_Namespace app; app_Name app] /\ fleetEvidence (sweepTrace midWorld) app.
Proof.
  assert (Hm : completeMetric ∈ Collect (sweepSnapshot midWorld)).
  { assert (E : exists l, Collect (sweepSnapshot midWorld) = completeMetric :: l)
      by (eexists; vm_compute; reflexivity).
    destruct E as [l ->]. left. }
  split; [exact Hm|].
  refine (complete_fleet_is_observed (mkSnapshot []) (sweepTrace midWorld) (sweepSnapshot midWorld)
            completeMetric (sweepRun_exec midWorld _) Hm _ _); vm_compute; reflexivity.
Defined.

Lemma sweep_publishes_what_it_read_witness :
  length (Collect (sweepSnapshot midWorld)) = 32%nat /\ readOnly (sweepTrace midWorld).
Proof.
  split; [vm_compute; reflexivity|].
  refine (proj1 (sweep_publishes_what_it_read (mkSnapshot []) (sweepTrace midWorld) None
                   (sweepSnapshot midWorld) (sweepRun_exec midWorld _))). vm_compute. reflexivity.
Defined.

Lemma midWorld_unique : namesUnique (sweepTrace midWorld).
Proof.
  apply (run_forall (servePoller [app060]) uniqueAnswer (fun w => w_pods w = w_pods midWorld)); [|done].
  intros X e w Hw. destruct e as [| | | |[] ?|[] ?| | | | | |]; unfold uniqueAnswer; simpl; try done.
  - split; [|done]. intros pods [= <-]. rewrite Hw. apply (bool_decide_unpack _). vm_compute. exact I.
  - split; [|done]. intros apps [= <-]. apply NoDup_singleton.
Qed.

Lemma snapshot_is_gatherable_witness : NoDup (map series (Collect (sweepSnapshot midWorld))).
Proof.
  refine (proj1 (snapshot_is_gatherable (mkSnapshot []) (sweepTrace midWorld) (sweepSnapshot midWorld)
                   (sweepRun_exec midWorld _) midWorld_unique)). vm_compute. reflexivity.
Defined.
