(* ===== verification/ResourcesTheorems.v ===== *)
(** * The properties of the built objects

    What the builders of [internal/controller/fleet_resources.go] promise to
    each other and to the rollout gate that later reads their output back. *)

From S2P Require Import Prelude GoStrings GoTime Sha256 Versions Effects Kube Api Cluster Resources.
From S2P Require Import FleetState Ensure Rollout Sample.

Local Open Scope Z_scope.

Section Builders.
Context `{KubeLib}.

(** every selector the operator builds selects exactly the fleet: the
    StatefulSet, both Services, the PodDisruptionBudget, the NetworkPolicy, the
    spreading constraint and the anti-affinity all use the labels the live pod
    list uses, and the pod template carries them. *)
Theorem selectors_agree app configHash appVersion operatorNamespace :
  let sts := buildStatefulSet app configHash appVersion in
  let selector := selectorLabels app in
  sts_Selector (sts_Spec sts) = selector /\
  selector ⊆ tmpl_Labels (sts_Template (sts_Spec sts)) /\
  svc_Selector (buildInternalService app) = selector /\
  svc_Selector (buildPublicService app) = selector /\
  pdb_Selector (buildPDB app) = selector /\
  np_PodSelector (buildNetworkPolicy app operatorNamespace) = selector /\
  Forall (fun c => spread_MatchLabels c = selector)
    (pod_TopologySpreadConstraints (tmpl_Spec (sts_Template (sts_Spec sts)))) /\
  (forall terms, pod_Affinity (tmpl_Spec (sts_Template (sts_Spec sts))) = Some terms ->
     Forall (fun x => term_MatchLabels x = selector) terms).
Proof.
  cbv zeta. split_and!; try done.
  - unfold buildStatefulSet, buildPodTemplate, podLabels, selectorLabels. simpl.
    assert (Hsub : {[workerAppLabel := app_Name app]} ⊆ fleetLabels app).
    { apply map_singleton_subseteq_l. unfold fleetLabels. apply lookup_insert_eq. }
    destruct (negb _); [|done]. etrans; [exact Hsub|]. apply insert_subseteq.
    vm_compute. reflexivity.
  - repeat constructor.
  - intros terms. simpl. unfold fleetAffinity.
    destruct (spec_Storage _) as [st|]; [|done]. intros [= <-].
    destruct (sched_SpreadAcrossZones _); repeat constructor.
Qed.

(** What the rollout gate reads back from a template the operator built. *)
Lemma stsContainerImage_built app configHash appVersion :
  stsContainerImage (buildStatefulSet app configHash appVersion) = celld_Image (spec_Celld (app_Spec app)).
Proof. done. Qed.

Lemma list_find_env_app k l1 l2 :
  Forall (fun e => env_Name e <> k) l1 ->
  snd <$> list_find (fun e => env_Name e = k) (l1 ++ l2)
  = snd <$> list_find (fun e => env_Name e = k) l2.
Proof.
  induction 1 as [|e l Hne _ IH]; [done|]. simpl. rewrite decide_False by done.
  destruct (list_find _ (l ++ l2)) as [[??]|], (list_find _ l2) as [[??]|]; naive_solver.
Qed.

(** C39: the gate judges a built template by what the app asks for: it reads
    back the app's image, and it sees fleet durability exactly when the app asks
    for something other than bucket durability; an app that asks for nothing
    gets bucket. *)
Theorem gate_reads_built_template app configHash appVersion :
  let sts := buildStatefulSet app configHash appVersion in
  stsContainerImage sts = celld_Image (spec_Celld (app_Spec app)) /\
  usesFleetDurability sts = negb (is_empty (spec_Durability (app_Spec app)))
                            && negb (String.eqb (spec_Durability (app_Spec app)) DurabilityBucket).
Proof.
  cbv zeta. split; [done|].
  assert (Hdur : is_empty (resolvedDurability app) = false)
    by (unfold resolvedDurability; destruct (is_empty (spec_Durability _)) eqn:E; done).
  assert (Hfind : snd <$> list_find (fun e => env_Name e = "CELLD_DURABILITY") (containerEnv app)
                  = Some (plainEnv "CELLD_DURABILITY" (resolvedDurability app))).
  { unfold containerEnv. rewrite Hdur. cbn [negb].
    rewrite list_find_env_app by (unfold baseEnv; by repeat (constructor; [done|])).
    rewrite list_find_env_app
      by (unfold bucketEnv; cbv zeta; repeat case_match; by repeat (constructor; [done|])).
    done. }
  transitivity (negb (String.eqb (resolvedDurability app) DurabilityBucket)).
  - unfold usesFleetDurability. cbn [buildStatefulSet sts_Spec sts_Template buildPodTemplate podSpec tmpl_Spec
      pod_Containers]. rewrite filter_cons_True, filter_nil by done.
    cbn [mbind list_bind]. rewrite app_nil_r. cbn [celldContainer ctr_Env].
    destruct (list_find _ (containerEnv app)) as [[i e]|]; [|done]. by injection Hfind as ->.
  - unfold resolvedDurability. destruct (is_empty (spec_Durability _)); done.
Qed.

(** with the in-place deployment policy a new app version does not touch
    the pod template, so its hash stays and no rollout starts; with any other
    policy two different versions give two different templates. *)
Theorem version_rolls_template_iff_not_inplace app configHash v1 v2 :
  (spec_DeploymentPolicy (app_Spec app) = "InPlace" ->
   buildPodTemplate app configHash v1 = buildPodTemplate app configHash v2 /\
   templateHash (buildPodTemplate app configHash v1) = templateHash (buildPodTemplate app configHash v2)) /\
  (spec_DeploymentPolicy (app_Spec app) <> "InPlace" -> v1 <> v2 ->
   buildPodTemplate app configHash v1 <> buildPodTemplate app configHash v2).
Proof.
  split.
  - intros Hp. assert (Ha : podAnnotations app configHash v1 = podAnnotations app configHash v2).
    { unfold podAnnotations. rewrite Hp. simpl. by rewrite !andb_false_r. }
    unfold buildPodTemplate. by rewrite Ha.
  - intros Hp%String.eqb_neq Hv E. apply Hv.
    apply (f_equal (fun t => mapGet (tmpl_Annotations t) appVersionAnnotation)) in E.
    assert (Hget : forall v, mapGet (podAnnotations app configHash v) appVersionAnnotation = v).
    { intros v. unfold podAnnotations. rewrite Hp. destruct (is_empty configHash); cbn [negb];
        rewrite ?mapGet_insert_ne by done; (destruct v; [done|apply mapGet_insert]). }
    simpl in E. by rewrite !Hget in E.
Qed.

(** C40: every volume mount of the container has its volume: the watch directory
    is an emptyDir or, with storage, the claim of the same name, never both. *)
Theorem mounts_are_backed app configHash appVersion :
  let sts := buildStatefulSet app configHash appVersion in
  let pod := tmpl_Spec (sts_Template (sts_Spec sts)) in
  let names := map volume_Name (pod_Volumes pod) ++ map pvc_Name (sts_VolumeClaimTemplates (sts_Spec sts)) in
  NoDup names /\
  Forall (fun c => NoDup (map mount_Path (ctr_VolumeMounts c)) /\
                   Forall (fun m => mount_Name m ∈ names) (ctr_VolumeMounts c)) (pod_Containers pod).
Proof.
  cbv zeta. cbn [buildStatefulSet sts_Spec sts_Template sts_VolumeClaimTemplates buildPodTemplate
    podSpec tmpl_Spec pod_Volumes pod_Containers].
  rewrite Forall_singleton. cbn [celldContainer ctr_VolumeMounts].
  unfold podVolumes, podMounts, fleetClaims.
  destruct (spec_Vars _) as [v|], (spec_Storage _) as [st|]; simpl; split_and!;
    try (apply (bool_decide_unpack _); vm_compute; exact I); repeat constructor; set_solver.
Qed.

(** the container environment names every variable once, so no setting the
    operator makes is shadowed by another. *)
Theorem env_names_unique app : NoDup (map env_Name (containerEnv app)).
Proof.
  unfold containerEnv, bucketEnv, telemetryEnv. cbv zeta.
  repeat match goal with
  | |- context [if ?b then _ else _] => destruct b
  | |- context [match ?o with Some _ => _ | None => _ end] => destruct o
  end; simpl; apply (bool_decide_unpack _); vm_compute; exact I.
Qed.

(** the shed threshold passed to celld is four fifths of the memory limit
    in MiB, rounded down: positive and below the limit for every memory size the
    field can hold, with no overflow on the way. *)
Theorem rssMb_below_limit app :
  is_int32 (res_MemoryGi (spec_Resources (app_Spec app))) ->
  let limitMb := memoryGi app * 1024 in
  rssMb (memoryGi app) = limitMb * 4 / 5 /\ 0 < rssMb (memoryGi app) < limitMb.
Proof.
  unfold is_int32, int32_min, int32_max. intros Hm.
  assert (Hg : 1 <= memoryGi app <= 2 ^ 31 - 1).
  { unfold memoryGi. destruct (0 <? _) eqn:E; bool_simp; lia. }
  cbv zeta. unfold rssMb.
  rewrite (wrap64_small (memoryGi app * 1024)), wrap64_small
    by (unfold is_int64, int64_min, int64_max; lia).
  rewrite Z.quot_div_nonneg by lia. Z.to_euclidean_division_equations. lia.
Qed.

End Builders.

Lemma rssMb_below_limit_witness : 0 < rssMb (memoryGi app060) < 8192.
Proof. apply (rssMb_below_limit app060). vm_compute. split; discriminate. Defined.
