(* ===== verification/EnsureTheorems.v ===== *)
(** * The properties of [ensureUnstructured]

    Ownership, merging and convergence of the objects the operator reconciles
    without linked Go types ([internal/controller/workerapp_controller.go]). *)

From S2P Require Import Prelude Effects Kube Api Cluster Resources Ensure FleetState Rollout Sample.

Local Open Scope Z_scope.

(** ** [reflect.DeepEqual] on well-formed values *)

(** No map of the value has a key twice, as a Go map never has. *)
Fixpoint anyWf (a : any) : bool :=
  match a with
  | AList l => forallb anyWf l
  | AMap m => bool_decide (NoDup (map fst m)) && forallb (fun kv => anyWf (snd kv)) m
  | _ => true
  end.

Lemma anyLookup_in k v m : NoDup (map fst m) -> (k, v) ∈ m -> anyLookup k m = Some v.
Proof.
  induction m as [|[k' v'] m IH]; simpl; intros Hnd Hin; [set_solver|].
  apply NoDup_cons in Hnd as [Hk Hnd]. apply elem_of_cons in Hin as [[= <- <-]|Hin].
  - by rewrite String.eqb_refl.
  - destruct (String.eqb_spec k' k) as [->|_]; [|auto].
    destruct Hk. apply list_elem_of_fmap. by exists (k, v).
Qed.

(** Induction over the elements of lists and maps. *)
Lemma any_nested_ind (P : any -> Prop) :
  (forall s, P (AString s)) -> (forall z, P (AInt z)) -> (forall b, P (ABool b)) ->
  (forall l, Forall P l -> P (AList l)) ->
  (forall m, Forall (fun kv => P (snd kv)) m -> P (AMap m)) ->
  forall a, P a.
Proof.
  intros Hs Hz Hb Hl Hm. fix IH 1.
  intros [s|z|b|l|m]; [apply Hs|apply Hz|apply Hb|apply Hl|apply Hm].
  - induction l as [|u l IHl]; constructor; [apply IH|apply IHl].
  - induction m as [|[k u] m IHm]; constructor; [apply IH|apply IHm].
Qed.

Lemma anyEq_refl a : anyWf a = true -> anyEq a a = true.
Proof.
  induction a as [s|z|b|l IH|m IH] using any_nested_ind; simpl; intros Hwf.
  - apply String.eqb_refl.
  - apply Z.eqb_refl.
  - by destruct b.
  - induction IH as [|u l Hu _ IHl]; simpl in *; [done|]. bool_simp.
    apply andb_true_iff. auto.
  - bool_simp. rewrite Nat.eqb_refl. simpl.
    assert (Hgen : forall x, x ⊆ m -> Forall (fun kv => anyWf (snd kv) = true -> anyEq (snd kv) (snd kv) = true) x ->
      forallb (fun kv => anyWf (snd kv)) x = true ->
      (fix go (x : list (string * any)) : bool :=
         match x with
         | [] => true
         | (k, u) :: x' =>
             match anyLookup k m with Some v => anyEq u v | None => false end && go x'
         end) x = true); [|by apply Hgen].
    intros x Hsub Hx Hw. induction Hx as [|[k u] x Hu _ IHx]; [done|].
    simpl in Hw, Hu. bool_simp.
    rewrite (anyLookup_in k u m) by (done || set_solver).
    rewrite Hu by done. apply IHx; [set_solver|done].
Qed.

(** ** What one call writes *)

(** [big] has every entry of [small], and the entries of [live] elsewhere. *)
Definition mergedOver (live small big : gmap string string) : Prop :=
  small ⊆ big /\ (forall k, small !! k = None -> big !! k = live !! k).

Lemma mergeStringMaps_merged live desired : mergedOver live desired (mergeStringMaps live desired).
Proof.
  unfold mergeStringMaps. split; [apply map_union_subseteq_l|].
  intros k Hk. by rewrite lookup_union_r.
Qed.

Lemma stringMapSubset_spec sub super : stringMapSubset sub super = true <-> sub ⊆ super.
Proof.
  unfold stringMapSubset. rewrite forallb_forall. rewrite map_subseteq_spec. split.
  - intros Hall k v Hk. specialize (Hall (k, v)). simpl in Hall.
    rewrite <- list_elem_of_In, elem_of_map_to_list in Hall. specialize (Hall Hk).
    destruct (super !! k) as [v'|]; [|done]. apply String.eqb_eq in Hall. by subst.
  - intros Hsub [k v] Hin. rewrite <- list_elem_of_In, elem_of_map_to_list in Hin. simpl.
    rewrite (Hsub _ _ Hin). apply String.eqb_refl.
Qed.

Section Ensure.
Context `{KubeLib}.

Definition readObject (desired : Unstructured) (m : ObjectMeta) (got : error + Unstructured) : event req :=
  Ev (Get Cached KUnstructured (gvk desired) (meta_Namespace m) (meta_Name m)) got.

(** The update of [live] towards [desired] with metadata [m]. *)
Definition mergedObject (live desired : Unstructured) (m : ObjectMeta) : Unstructured :=
  setUnstructuredMeta (setUnstructuredSpec live (u_Spec desired))
    (setAnnotations
       (setLabels (u_Meta live) (mergeStringMaps (meta_Labels (u_Meta live)) (meta_Labels m)))
       (mergeStringMaps (meta_Annotations (u_Meta live)) (meta_Annotations m))).

(** [live] already is what is desired. *)
Definition upToDate (live desired : Unstructured) (m : ObjectMeta) : Prop :=
  anyEq (u_Spec live) (u_Spec desired) = true /\
  meta_Labels m ⊆ meta_Labels (u_Meta live) /\ meta_Annotations m ⊆ meta_Annotations (u_Meta live).

(** The ways a call goes. *)
Inductive ensured (app : WorkerApp) (desired : Unstructured) : tr -> option error -> Prop :=
| EnsureRefused e :
    SetControllerReference (app_Meta app) (u_Meta desired) = inl e -> ensured app desired [] (Some e)
| EnsureUnread m e :
    IsNotFound e = false -> ensured app desired [readObject desired m (inl e)] (Some e)
| EnsureCreated m e x :
    SetControllerReference (app_Meta app) (u_Meta desired) = inr m -> IsNotFound e = true ->
    ensured app desired
      [readObject desired m (inl e); Ev (Create KUnstructured (setUnstructuredMeta desired m)) x] (writeError x)
| EnsureForeign m live e :
    IsControlledBy (u_Meta live) (app_Meta app) = false ->
    ensured app desired [readObject desired m (inr live)] (Some e)
| EnsureKept m live :
    IsControlledBy (u_Meta live) (app_Meta app) = true -> upToDate live desired m ->
    ensured app desired [readObject desired m (inr live)] None
| EnsureUpdated m live x :
    SetControllerReference (app_Meta app) (u_Meta desired) = inr m ->
    IsControlledBy (u_Meta live) (app_Meta app) = true -> ~ upToDate live desired m ->
    ensured app desired
      [readObject desired m (inr live); Ev (Update KUnstructured (mergedObject live desired m)) x] (writeError x).

Lemma upToDate_dec live desired m :
  anyEq (u_Spec live) (u_Spec desired) && stringMapSubset (meta_Labels m) (meta_Labels (u_Meta live))
    && stringMapSubset (meta_Annotations m) (meta_Annotations (u_Meta live)) = true
  <-> upToDate live desired m.
Proof. unfold upToDate. rewrite !andb_true_iff, !stringMapSubset_spec. tauto. Qed.

Lemma wp_ensureUnstructured app desired : wp (ensureUnstructured app desired) (ensured app desired).
Proof.
  unfold ensureUnstructured. destruct (SetControllerReference _ _) as [e|m] eqn:Hm.
  { apply wp_ret. by apply EnsureRefused. }
  cbv zeta. change (gvk (setUnstructuredMeta desired m)) with (gvk desired).
  change (u_Spec (setUnstructuredMeta desired m)) with (u_Spec desired).
  apply wp_trigger. intros [e|live]; cbv beta iota.
  - destruct (IsNotFound e) eqn:He; [|apply wp_ret; by apply (EnsureUnread app desired m)].
    apply wp_trigger. intros x. apply wp_ret. by apply (EnsureCreated app desired m).
  - unfold requireOwnership. destruct (IsControlledBy _ _) eqn:Hc; cbn [negb].
    2: { apply wp_ret. by apply (EnsureForeign app desired m). }
    destruct (_ && _) eqn:Hu.
    + apply upToDate_dec in Hu. apply wp_ret. by apply (EnsureKept app desired m).
    + apply wp_trigger. intros x. apply wp_ret. apply (EnsureUpdated app desired m); [done..|].
      intros Hd%upToDate_dec. by rewrite Hu in Hd.
Qed.

(** one call changes nothing that is not ours, or adds to it. Its only
    write is the creation of an absent object with the owner reference set, or
    the update of an object the app controls that differs from the desired one;
    the update keeps the identity and every foreign label and annotation, and
    carries the desired specification, labels and annotations. *)
Theorem ensureUnstructured_writes app desired t r :
  exec (ensureUnstructured app desired) t r -> ~ readOnly t ->
  (exists m e x, SetControllerReference (app_Meta app) (u_Meta desired) = inr m /\ IsNotFound e = true /\
     t = [readObject desired m (inl e); Ev (Create KUnstructured (setUnstructuredMeta desired m)) x] /\
     r = writeError x) \/
  (exists m live o x, IsControlledBy (u_Meta live) (app_Meta app) = true /\ ~ upToDate live desired m /\
     t = [readObject desired m (inr live); Ev (Update KUnstructured o) x] /\ r = writeError x /\
     u_Spec o = u_Spec desired /\ u_StatusObject o = u_StatusObject live /\
     meta_UID (u_Meta o) = meta_UID (u_Meta live) /\
     meta_ResourceVersion (u_Meta o) = meta_ResourceVersion (u_Meta live) /\
     meta_OwnerReferences (u_Meta o) = meta_OwnerReferences (u_Meta live) /\
     mergedOver (meta_Labels (u_Meta live)) (meta_Labels m) (meta_Labels (u_Meta o)) /\
     mergedOver (meta_Annotations (u_Meta live)) (meta_Annotations m) (meta_Annotations (u_Meta o))).
Proof.
  intros Hx Hn.
  destruct (proj1 (wp_exec _ _) (wp_ensureUnstructured app desired) _ _ Hx) as
    [e He|m e He|m e x Hm He|m live e Hc|m live Hc Hu|m live x Hm Hc Hu];
    try (destruct Hn; by repeat constructor).
  - left. by exists m, e, x.
  - right. exists m, live, (mergedObject live desired m), x.
    split_and!; try done; apply mergeStringMaps_merged.
Qed.

(** Ownership is a matter of owner references, not of labels or annotations. *)
Definition ownershipIgnoresLabels : Prop :=
  forall m owner l a, IsControlledBy (setAnnotations (setLabels m l) a) owner = IsControlledBy m owner.

(** The updates of a trace, and the answer to the read it starts with. *)
Definition unstructuredUpdate (ev : event req) : option Unstructured :=
  match ev_req ev with Update KUnstructured o => Some o | _ => None end.

Definition unstructuredAnswer (ev : event req) : option (error + Unstructured) :=
  (match ev_req ev in req X return X -> option (error + Unstructured) with
   | Get _ KUnstructured _ _ _ => fun got => Some got
   | _ => fun _ => None
   end) (ev_resp ev).

Lemma mergedObject_upToDate live desired m :
  anyWf (u_Spec desired) = true -> upToDate (mergedObject live desired m) desired m.
Proof. intros Hwf. split_and!; [by apply anyEq_refl|apply map_union_subseteq_l..]. Qed.

(** the call converges: on the object that an earlier call wrote, it writes
    nothing and succeeds. *)
Theorem ensureUnstructured_converges app desired t r o t' r' :
  ownershipIgnoresLabels -> anyWf (u_Spec desired) = true ->
  exec (ensureUnstructured app desired) t r -> o ∈ omap unstructuredUpdate t ->
  exec (ensureUnstructured app desired) t' r' -> (head t' ≫= unstructuredAnswer) = Some (inr o) ->
  readOnly t' /\ r' = None.
Proof.
  intros Hown Hwf Hx Ho Hx' Hh.
  destruct (proj1 (wp_exec _ _) (wp_ensureUnstructured app desired) _ _ Hx) as
    [e He|m e He|m e x Hm He|m live e Hc|m live Hc Hu|m live x Hm Hc Hu]; try (simpl in Ho; set_solver).
  apply list_elem_of_singleton in Ho as ->.
  destruct (proj1 (wp_exec _ _) (wp_ensureUnstructured app desired) _ _ Hx') as
    [e' He'|m' e' He'|m' e' x' Hm' He'|m' live' e' Hc'|m' live' Hc' Hu'|m' live' x' Hm' Hc' Hu'];
    simpl in Hh; try discriminate Hh; injection Hh as ->.
  - simpl in Hc'. rewrite Hown in Hc'. congruence.
  - split; [by repeat constructor|done].
  - destruct Hu'. rewrite Hm in Hm'. injection Hm' as <-. by apply mergedObject_upToDate.
Qed.

End Ensure.

Lemma forallb_strings (l : list string) : forallb anyWf (AString <$> l) = true.
Proof. by induction l. Qed.

Lemma anyWf_map m : (forall k v, m !! k = Some v -> anyWf v = true) -> anyWf (anyMap m) = true.
Proof.
  intros Hm. simpl. apply andb_true_iff. split.
  - apply bool_decide_eq_true_2. apply NoDup_fst_map_to_list.
  - apply forallb_forall. intros [k v] Hin. apply (Hm k).
    by apply elem_of_map_to_list, list_elem_of_In.
Qed.

(** the specifications the operator builds for such objects have no
    duplicate keys, so reconciling the ScaledObject, the VirtualService and the
    AuthorizationPolicy settles after one write. *)
Theorem built_specs_well_formed app a url paused gateways principal :
  anyWf (u_Spec (buildScaledObject app a url paused)) = true /\
  anyWf (u_Spec (buildVirtualService app gateways)) = true /\
  anyWf (u_Spec (buildAuthorizationPolicy app principal)) = true.
Proof.
  split_and!.
  - unfold buildScaledObject, scaleQueries. cbv zeta. destruct (targets_P95LatencyMs _); reflexivity.
  - unfold buildVirtualService. cbn -[fmap]. by rewrite !forallb_strings.
  - unfold buildAuthorizationPolicy. cbn -[anyMap pretty].
    rewrite anyWf_map; [done|]. intros k v Hk. unfold toAnyMap in Hk.
    apply lookup_fmap_Some in Hk as (s & <- & _). done.
Qed.

(** ** Witnesses *)

(** Pausing a scaler that runs. *)
Definition pausedScaler : Unstructured :=
  buildScaledObject appScaled sampleScaling "http://prometheus:9090" true.
Definition pauseTrace : tr :=
  traceIn (ensureUnstructured appScaled pausedScaler) (withScaler midWorld (sampleScaler false)).
Definition pausedObject : Unstructured :=
  deref (head (omap unstructuredUpdate pauseTrace)) (sampleScaler false).

Lemma pausedObject_written : pausedObject ∈ omap unstructuredUpdate pauseTrace.
Proof.
  assert (Hl : omap unstructuredUpdate pauseTrace = [pausedObject]) by (vm_compute; reflexivity).
  rewrite Hl. apply list_elem_of_here.
Qed.

Lemma ensureUnstructured_writes_witness :
  mapGet (meta_Annotations (u_Meta pausedObject)) kedaPausedAnnotation = annotationTrue /\
  mapGet (meta_Labels (u_Meta pausedObject)) "team" = "shop" /\
  exists r, exec (ensureUnstructured appScaled pausedScaler) pauseTrace r /\
  ((exists m e x, SetControllerReference (app_Meta appScaled) (u_Meta pausedScaler) = inr m /\
      IsNotFound e = true /\
      pauseTrace = [readObject pausedScaler m (inl e);
                    Ev (Create KUnstructured (setUnstructuredMeta pausedScaler m)) x] /\ r = writeError x) \/
   (exists m live o x, IsControlledBy (u_Meta live) (app_Meta appScaled) = true /\
      ~ upToDate live pausedScaler m /\
      pauseTrace = [readObject pausedScaler m (inr live); Ev (Update KUnstructured o) x] /\ r = writeError x /\
      u_Spec o = u_Spec pausedScaler /\ u_StatusObject o = u_StatusObject live /\
      meta_UID (u_Meta o) = meta_UID (u_Meta live) /\
      meta_ResourceVersion (u_Meta o) = meta_ResourceVersion (u_Meta live) /\
      meta_OwnerReferences (u_Meta o) = meta_OwnerReferences (u_Meta live) /\
      mergedOver (meta_Labels (u_Meta live)) (meta_Labels m) (meta_Labels (u_Meta o)) /\
      mergedOver (meta_Annotations (u_Meta live)) (meta_Annotations m) (meta_Annotations (u_Meta o)))).
Proof.
  split; [vm_compute; reflexivity|]. split; [vm_compute; reflexivity|].
  eexists. split; [apply execIn|].
  apply (ensureUnstructured_writes appScaled pausedScaler pauseTrace _ (execIn _ _)).
  intros Hro. pose proof pausedObject_written as Hin.
  apply list_elem_of_omap in Hin as (ev & Hev & Hu).
  apply (proj1 (Forall_forall _ _) Hro) in Hev. destruct ev as [X e x].
  unfold unstructuredUpdate in Hu. simpl in *. by destruct e.
Defined.

Lemma ensureUnstructured_converges_witness :
  let w := withScaler midWorld pausedObject in
  let p := ensureUnstructured appScaled pausedScaler in
  readOnly (traceIn p w) /\ resultIn p w = None.
Proof.
  intros w p.
  apply (ensureUnstructured_converges appScaled pausedScaler pauseTrace
           (resultIn p (withScaler midWorld (sampleScaler false))) pausedObject).
  - intros m owner l a. reflexivity.
  - vm_compute. reflexivity.
  - apply execIn.
  - apply pausedObject_written.
  - apply execIn.
  - reflexivity.
Defined.
