(* ===== verification/OwnedTheorems.v ===== *)
(** * The properties of [ensureObject]

    The ways a call goes, and for which objects it comes to rest: the
    ServiceAccount, the NetworkPolicy, the PodDisruptionBudget and the Ingress of
    an app do, its Services and its HTTPRoute do not. *)

From S2P Require Import Prelude Effects Kube Api Cluster Resources Ensure Owned Annotations Routes.
From S2P Require Import EnsureTheorems Sample.

Local Open Scope Z_scope.

(** The update of [before] towards [desired]. *)
Definition applied {k} `{!ClientObject k} (mutate : obj k -> obj k -> obj k) (before desired : obj k) : obj k :=
  let live := mutate before desired in
  setObjMeta live (setLabels (objMeta live)
                     (mergeStringMaps (meta_Labels (objMeta live)) (meta_Labels (objMeta desired)))).

Lemma merge_superset (l d : gmap string string) : d ⊆ l -> mergeStringMaps l d = l.
Proof. apply map_subseteq_union. Qed.

(** ** What the API server stores

    An object that was written is read back with its identity assigned, and with
    whatever labels and annotations others have put on it, as long as they are
    not keys the operator takes away. What the operator set is still there. *)

(** The annotations the operator removes where it does not want them. *)
Definition operatorKeys : list string :=
  ["eks.amazonaws.com/role-arn"; azureClientIDAnnotation; managedAnnotationsKey] ++ legacyIngressKeys.

(** [m'] is [m] with keys of others. *)
Definition foreignAdded (m m' : gmap string string) : Prop :=
  m ⊆ m' /\ forall k, is_Some (m' !! k) -> m !! k = None -> k ∉ operatorKeys.

(** The fields of the specification that a callback copies are those that were
    sent. (Not so of an Ingress created without a class where the cluster has a
    default one: the API server fills it in.) *)
Definition specKept {k} : obj k -> obj k -> Prop :=
  match k return obj k -> obj k -> Prop with
  | KService => fun o o' => svc_Selector o' = svc_Selector o /\ svc_Type o' = svc_Type o /\ svc_Ports o' = svc_Ports o /\
                            svc_PublishNotReadyAddresses o' = svc_PublishNotReadyAddresses o
  | KNetworkPolicy => fun o o' => np_PodSelector o' = np_PodSelector o /\ np_PolicyTypes o' = np_PolicyTypes o /\
                                  np_Ingress o' = np_Ingress o /\ np_SpecRest o' = np_SpecRest o
  | KPodDisruptionBudget => fun o o' => pdb_MaxUnavailable o' = pdb_MaxUnavailable o /\ pdb_Selector o' = pdb_Selector o
  | KIngress => fun o o' => ing_Rules o' = ing_Rules o /\ ing_ClassName o' = ing_ClassName o /\
                            ing_TLS o' = ing_TLS o /\ ing_SpecRest o' = ing_SpecRest o
  | KHTTPRoute => fun o o' => route_ParentRefs o' = route_ParentRefs o /\ route_Hostnames o' = route_Hostnames o /\
                              route_Rules o' = route_Rules o /\ route_SpecRest o' = route_SpecRest o
  | _ => fun _ _ => True
  end.

Record storedAs {k} `{!ClientObject k} (o o' : obj k) : Prop := {
  stored_owners : meta_OwnerReferences (objMeta o') = meta_OwnerReferences (objMeta o);
  stored_labels : meta_Labels (objMeta o) ⊆ meta_Labels (objMeta o');
  stored_annotations : foreignAdded (meta_Annotations (objMeta o)) (meta_Annotations (objMeta o'));
  stored_spec : specKept o o'
}.

(** The defaults the API server puts where the operator leaves a field empty: a
    protocol on each port of a Service, a match on each rule of an HTTPRoute. *)
Definition serverDefaults {k} : obj k -> Prop :=
  match k return obj k -> Prop with
  | KService => fun o => svc_Ports o <> [] /\ Forall (fun p => sport_Protocol p <> "") (svc_Ports o)
  | KHTTPRoute => fun o => route_Rules o <> [] /\ Forall (fun rule => hrule_Matches rule <> []) (route_Rules o)
  | _ => fun _ => False
  end.

(** ** Objects that settle *)

(** The object a call towards [desired] sends. *)
Definition sent {k} `{!ClientObject k} (mutate : obj k -> obj k -> obj k) (desired o : obj k) : Prop :=
  o = desired \/ exists live, o = applied mutate live desired.

(** Once an object that was sent is stored, an update would change nothing. *)
Definition settles {k} `{!ClientObject k} (mutate : obj k -> obj k -> obj k) (desired : obj k) : Prop :=
  forall o o', sent mutate desired o -> storedAs o o' -> applied mutate o' desired = o'.

Lemma sent_labels {k} `{!ClientObject k} mutate (desired o o' : obj k) :
  sent mutate desired o -> storedAs o o' -> meta_Labels (objMeta desired) ⊆ meta_Labels (objMeta o').
Proof.
  intros Hs [_ Hl _ _]. etrans; [|exact Hl]. destruct Hs as [-> |[live ->]]; [done|].
  unfold applied. rewrite objMeta_set. simpl. apply map_union_subseteq_l.
Qed.

Lemma networkPolicy_settles desired : settles (k := KNetworkPolicy) mutateNetworkPolicy desired.
Proof.
  intros o o' Hs Hst. pose proof (sent_labels _ _ _ _ Hs Hst) as Hl. destruct Hst as [_ _ _ (H1 & H2 & H3 & H4)].
  destruct Hs as [-> |[live ->]]; simpl in *; destruct o' as [[] ? ? ? ?], desired; simpl in *; subst;
    unfold applied, mutateNetworkPolicy, setLabels; simpl; by rewrite merge_superset.
Qed.

Lemma pdb_settles desired : settles (k := KPodDisruptionBudget) mutatePDB desired.
Proof.
  intros o o' Hs Hst. pose proof (sent_labels _ _ _ _ Hs Hst) as Hl. destruct Hst as [_ _ _ (H1 & H2)].
  destruct Hs as [-> |[live ->]]; simpl in *; destruct o' as [[] ? ?], desired; simpl in *; subst;
    unfold applied, mutatePDB, setLabels; simpl; by rewrite merge_superset.
Qed.

(** The annotations of a ServiceAccount: those that are no longer wanted are
    gone, and only the operator would bring them back. *)
Definition identityAnnotations (auto : bool) (a d : gmap string string) : gmap string string :=
  foldr (fun key a => if decide (is_Some (d !! key)) then a else if auto then a else delete key a)
    (mergeStringMaps a d) ["eks.amazonaws.com/role-arn"; azureClientIDAnnotation].

Lemma identityAnnotations_lookup auto a d k :
  identityAnnotations auto a d !! k
  = if decide (auto = false /\ k ∈ ["eks.amazonaws.com/role-arn"; azureClientIDAnnotation] /\ d !! k = None)
    then None else (d ∪ a) !! k.
Proof.
  unfold identityAnnotations, mergeStringMaps. generalize ["eks.amazonaws.com/role-arn"; azureClientIDAnnotation].
  intros keys. destruct auto.
  - rewrite decide_False by naive_solver. induction keys as [|key keys IH]; [done|]. cbn [foldr].
    by destruct (decide _).
  - rewrite lookup_unwanted. apply decide_ext. naive_solver.
Qed.

Lemma identityAnnotations_settle auto d a a' :
  a = d \/ (exists x, a = identityAnnotations auto x d) -> foreignAdded a a' -> identityAnnotations auto a' d = a'.
Proof.
  intros Ha [Hsub Hforeign].
  assert (Hd : d ⊆ a').
  { etrans; [|exact Hsub]. destruct Ha as [-> |[x ->]]; [done|]. apply map_subseteq_spec. intros k v Hk.
    rewrite identityAnnotations_lookup, decide_False by (rewrite Hk; naive_solver).
    by apply lookup_union_Some_l. }
  apply map_eq. intros k. rewrite identityAnnotations_lookup. destruct (decide _) as [(Hau & Hk & Hn)|_].
  - destruct (a' !! k) eqn:E; [exfalso|done]. apply (Hforeign k); [by rewrite E| |unfold operatorKeys; set_solver].
    destruct Ha as [-> |[x ->]]; [done|]. by rewrite identityAnnotations_lookup, decide_True.
  - by rewrite (map_subseteq_union d a').
Qed.

Lemma serviceAccount_settles app desired : settles (k := KServiceAccount) (mutateServiceAccount app) desired.
Proof.
  intros o o' Hs Hst. pose proof (sent_labels _ _ _ _ Hs Hst) as Hl. destruct Hst as [_ _ Ha _].
  set (auto := String.eqb (creds_IAMRole (bucket_CredentialsFrom (spec_Bucket (app_Spec app)))) iamRoleAuto).
  assert (E : identityAnnotations auto (meta_Annotations (sa_Meta o')) (meta_Annotations (sa_Meta desired))
              = meta_Annotations (sa_Meta o')).
  { eapply identityAnnotations_settle; [|exact Ha]. destruct Hs as [-> |[live ->]]; [by left|right].
    by exists (meta_Annotations (sa_Meta live)). }
  unfold applied, mutateServiceAccount. fold auto. cbn [objMeta setObjMeta serviceAccountObject sa_Meta] in *.
  fold (identityAnnotations auto (meta_Annotations (sa_Meta o')) (meta_Annotations (sa_Meta desired))).
  rewrite E. destruct o' as [[]]. unfold setAnnotations, setLabels. simpl in *. by rewrite merge_superset.
Qed.

(** The same for the inventory of an Ingress. *)
Lemma inventoried_settle a d a' :
  plainKeys d -> mapGet d managedAnnotationsKey = inventory d -> is_Some (d !! managedAnnotationsKey) ->
  a = d \/ (exists x, a = reconcileAnnotations true x d) -> foreignAdded a a' -> reconcileAnnotations true a' d = a'.
Proof.
  intros Hp Hinv [i Hi] Ha [Hsub Hforeign].
  assert (Hai : a !! managedAnnotationsKey = Some (inventory d)).
  { destruct Ha as [-> |[x ->]].
    - unfold mapGet in Hinv. rewrite Hi in Hinv |- *. simpl in Hinv. by rewrite Hinv.
    - unfold reconcileAnnotations. by rewrite lookup_insert_eq. }
  assert (Ha'i : a' !! managedAnnotationsKey = Some (inventory d)) by by eapply lookup_weaken.
  apply map_eq. intros k. destruct (decide (k = managedAnnotationsKey)) as [->|Hk].
  { unfold reconcileAnnotations. by rewrite lookup_insert_eq, Ha'i. }
  rewrite reconcileAnnotations_lookup by done. unfold mapGet. rewrite Ha'i.
  destruct (d !! k) as [v|] eqn:Hd.
  - symmetry. eapply lookup_weaken; [|exact Hsub]. destruct Ha as [-> |[x ->]]; [done|].
    by rewrite reconcileAnnotations_lookup, Hd.
  - destruct (decide _) as [[Hin|Hin]%elem_of_app|_]; [..|done].
    + apply decodeKeys_inventory in Hin as [_ [v Hv]]; [congruence|done].
    + destruct (a' !! k) eqn:E; [exfalso|done]. apply (Hforeign k); [by rewrite E| |unfold operatorKeys; set_solver].
      destruct Ha as [-> |[x ->]]; [done|]. rewrite reconcileAnnotations_lookup, Hd by done.
      rewrite decide_True; [done|]. set_solver.
Qed.

Lemma ingress_settles desired a :
  plainKeys a -> meta_Annotations (ing_Meta desired) = reconcileAnnotations true a a ->
  settles (k := KIngress) mutateIngress desired.
Proof.
  intros Hp Hd o o' Hs Hst. pose proof (sent_labels _ _ _ _ Hs Hst) as Hl.
  destruct Hst as [_ _ Ha (H1 & H2 & H3 & H4)].
  assert (E : reconcileAnnotations true (meta_Annotations (ing_Meta o')) (meta_Annotations (ing_Meta desired))
              = meta_Annotations (ing_Meta o')).
  { eapply inventoried_settle; [..|exact Ha].
    - rewrite Hd. by apply plainKeys_self.
    - by rewrite Hd, reconcileAnnotations_inventory, inventory_self.
    - rewrite Hd. unfold reconcileAnnotations. by rewrite lookup_insert_eq.
    - destruct Hs as [-> |[live ->]]; [by left|right]. by exists (meta_Annotations (ing_Meta live)). }
  destruct Hs as [-> |[live ->]]; simpl in *; destruct o' as [[] ? ? ? ?], desired; simpl in *; subst;
    unfold applied, mutateIngress, setLabels, setAnnotations; simpl in *; by rewrite E, merge_superset.
Qed.

(** ** Objects that do not *)

(** Both callbacks of a Service send ports without a protocol. *)
Lemma applied_ports_differ (mutate : Service -> Service -> Service) (desired o' : Service) :
  (forall p, p ∈ svc_Ports (mutate o' desired) -> sport_Protocol p = "") ->
  serverDefaults (k := KService) o' -> o' <> applied (k := KService) mutate o' desired.
Proof.
  intros Hm [Hne Hall] E. destruct (svc_Ports o') as [|p l] eqn:Hp; [done|].
  apply Forall_cons in Hall as [Hpr _]. apply Hpr, Hm. rewrite E in Hp. simpl in Hp. rewrite Hp. set_solver.
Qed.

Lemma keepNodePort_protocol live p : sport_Protocol (keepNodePort live p) = sport_Protocol p.
Proof.
  unfold keepNodePort. revert p. induction live as [|l live IH]; intros p; [done|]. simpl. rewrite IH.
  by destruct (String.eqb _ _).
Qed.

Lemma publicPorts_protocol (live desired : Service) p :
  Forall (fun q => sport_Protocol q = "") (svc_Ports desired) ->
  p ∈ svc_Ports (mutatePublicService live desired) -> sport_Protocol p = "".
Proof.
  intros Hd. unfold mutatePublicService. cbv zeta. cbn [svc_Ports]. rewrite Forall_forall in Hd.
  destruct (_ || _); [|by apply Hd]. intros (q & -> & Hq)%list_elem_of_fmap.
  rewrite keepNodePort_protocol. by apply Hd.
Qed.

Lemma applied_rules_differ (desired o' : HTTPRoute) :
  Forall (fun rule => hrule_Matches rule = []) (route_Rules desired) ->
  serverDefaults (k := KHTTPRoute) o' -> o' <> applied (k := KHTTPRoute) mutateHTTPRoute o' desired.
Proof.
  intros Hd [Hne Hall] E. destruct (route_Rules o') as [|rule l] eqn:Hr; [done|].
  apply Forall_cons in Hall as [Hm _]. apply Hm. rewrite E in Hr. simpl in Hr.
  rewrite Hr in Hd. by apply Forall_cons in Hd as [? _].
Qed.

(** ** The ways a call goes *)

Section Owned.
Context `{KubeLib}.

(** The object of kind [k] that a request creates or updates. *)
Definition objWrite (k : kind) (ev : event req) : option (obj k) :=
  match ev_req ev with
  | Create k' o => match kind_eq_dec k' k with
                   | left e => Some (eq_rect k' obj o k e)
                   | right _ => None
                   end
  | _ => objUpdate k ev
  end.

Lemma objWrite_create k o x : objWrite k (Ev (Create k o) x) = Some o.
Proof. by destruct k. Qed.

Lemma objWrite_update k o x : objWrite k (Ev (Update k o) x) = Some o.
Proof. by destruct k. Qed.

(** [desired] as the call compares or creates it: with its inventory and its
    owner reference. *)
Definition prepared {k} `{!ClientObject k} (app : WorkerApp) (desired d : obj k) : Prop :=
  let desired := setObjMeta desired (setAnnotations (objMeta desired)
                                       (inventoried k (meta_Annotations (objMeta desired)))) in
  exists m, SetControllerReference (app_Meta app) (objMeta desired) = inr m /\ d = setObjMeta desired m.

Lemma prepared_unique {k} `{!ClientObject k} app (desired d1 d2 : obj k) :
  prepared app desired d1 -> prepared app desired d2 -> d1 = d2.
Proof. intros (m1 & H1 & ->) (m2 & H2 & ->). rewrite H1 in H2. by injection H2 as ->. Qed.

Definition cachedRead {k} `{!ClientObject k} (d : obj k) (m : ObjectMeta) (got : error + obj k) : event req :=
  Ev (Get Cached k "" (meta_Namespace m) (meta_Name m)) got.

Inductive objEnsured {k} `{!ClientObject k} (app : WorkerApp) (desired : obj k)
    (mutate : obj k -> obj k -> obj k) : tr -> option error * obj k -> Prop :=
| ObjRefused e d : objEnsured app desired mutate [] (Some e, d)
| ObjUnread m d e :
    IsNotFound e = false -> objEnsured app desired mutate [cachedRead d m (inl e)] (Some e, d)
| ObjCreated m d e x d' :
    prepared app desired d -> IsNotFound e = true ->
    objEnsured app desired mutate [cachedRead d m (inl e); Ev (Create k d) x] (writeError x, d')
| ObjForeign m d live e :
    IsControlledBy (objMeta live) (app_Meta app) = false ->
    objEnsured app desired mutate [cachedRead d m (inr live)] (Some e, d)
| ObjKept m d live :
    prepared app desired d -> IsControlledBy (objMeta live) (app_Meta app) = true ->
    live = applied mutate live d -> objEnsured app desired mutate [cachedRead d m (inr live)] (None, d)
| ObjUpdated m d live x :
    prepared app desired d -> IsControlledBy (objMeta live) (app_Meta app) = true ->
    live <> applied mutate live d ->
    objEnsured app desired mutate [cachedRead d m (inr live); Ev (Update k (applied mutate live d)) x]
      (writeError x, d).

Lemma wp_ensureObject {k} `{!ClientObject k} app (desired : obj k) mutate :
  wp (ensureObject app desired mutate) (objEnsured app desired mutate).
Proof.
  unfold ensureObject. cbv zeta. destruct (SetControllerReference _ _) as [e|m] eqn:Hm.
  { apply wp_ret, ObjRefused. }
  set (d := setObjMeta _ m). assert (Hp : prepared app desired d) by (by exists m).
  assert (Hd : objMeta d = m) by apply objMeta_set. clearbody d. clear Hm. subst m.
  apply wp_trigger. intros [e|live]; cbv beta iota.
  - destruct (IsNotFound e) eqn:He; [|by apply wp_ret, (ObjUnread app desired mutate (objMeta d))].
    apply wp_trigger. intros [e'|created]; apply wp_ret; by apply (ObjCreated app desired mutate (objMeta d) d e).
  - unfold requireOwnership. destruct (IsControlledBy _ _) eqn:Hc; cbn [negb].
    2: { by apply wp_ret, (ObjForeign app desired mutate (objMeta d)). }
    fold (applied mutate live d). destruct (bool_decide _) eqn:Hb.
    + apply bool_decide_eq_true in Hb. by apply wp_ret, (ObjKept app desired mutate (objMeta d)).
    + apply bool_decide_eq_false in Hb. apply wp_trigger. intros x. apply wp_ret.
      by apply (ObjUpdated app desired mutate (objMeta d)).
Qed.

(** ** Convergence *)

(** What the documentation of [metav1.IsControlledBy] and
    [ctrl.SetControllerReference] says: control is a matter of the owner
    references, and the reference that is set gives control and changes no
    annotation. *)
Record ownershipDocumented : Prop := {
  controlled_by_references : forall m m' owner,
    meta_OwnerReferences m' = meta_OwnerReferences m -> IsControlledBy m' owner = IsControlledBy m owner;
  reference_controls : forall owner m m', SetControllerReference owner m = inr m' -> IsControlledBy m' owner = true;
  reference_keeps_annotations : forall owner m m',
    SetControllerReference owner m = inr m' -> meta_Annotations m' = meta_Annotations m
}.

(** The calls of [ensureFoundation] and [ensureV1Ingress] in which the operator
    sets every field the API server would fill in. *)
Inductive settlingCall (r : WorkerAppReconciler) (app : WorkerApp)
  : forall k, ClientObject k -> obj k -> (obj k -> obj k -> obj k) -> Prop :=
| SettlingServiceAccount :
    settlingCall r app KServiceAccount _ (buildServiceAccount app) (mutateServiceAccount app)
| SettlingNetworkPolicy :
    settlingCall r app KNetworkPolicy _ (buildNetworkPolicy app (r_OperatorNamespace r)) mutateNetworkPolicy
| SettlingPDB : settlingCall r app KPodDisruptionBudget _ (buildPDB app) mutatePDB
| SettlingIngress :
    settlingCall r app KIngress _ (buildIngress app (r_IngressClassName r) (r_ClusterIssuer r)) mutateIngress.

(** The other calls, of [ensureFoundation] and of [ensureHTTPRoute]. *)
Inductive defaultedCall (r : WorkerAppReconciler) (app : WorkerApp)
  : forall k, ClientObject k -> obj k -> (obj k -> obj k -> obj k) -> Prop :=
| DefaultedInternalService :
    defaultedCall r app KService _ (buildInternalService app) mutateInternalService
| DefaultedPublicService :
    defaultedCall r app KService _ (buildPublicService app) mutatePublicService
| DefaultedHTTPRoute t route dropped :
    exec (configureHTTPRouteRetries r (buildHTTPRoute app (r_GatewayName r) (r_GatewayNamespace r))) t (route, dropped) ->
    defaultedCall r app KHTTPRoute _ route mutateHTTPRoute.

Lemma buildIngress_plain app c i : plainKeys (meta_Annotations (ing_Meta (buildIngress app c i))).
Proof.
  unfold buildIngress. cbn [ing_Meta meta_Annotations newMeta].
  destruct (spec_WebSockets _), (is_empty i); cbn [negb];
    repeat (apply plainKeys_insert; [reflexivity|]); apply plainKeys_empty.
Qed.

Lemma settlingCall_settles r app k C desired mutate d :
  ownershipDocumented -> settlingCall r app k C desired mutate -> prepared app desired d -> settles mutate d.
Proof.
  intros Hdoc Hcall (m & Hm & ->). apply (reference_keeps_annotations Hdoc) in Hm. destruct Hcall; simpl in *.
  - apply serviceAccount_settles.
  - apply networkPolicy_settles.
  - apply pdb_settles.
  - eapply ingress_settles; [apply (buildIngress_plain app (r_IngressClassName r) (r_ClusterIssuer r))|exact Hm].
Qed.

Lemma settlingCall_owners r app k C desired mutate live d :
  settlingCall r app k C desired mutate ->
  meta_OwnerReferences (objMeta (applied mutate live d)) = meta_OwnerReferences (objMeta live).
Proof. by destruct 1. Qed.

Lemma wp_configureRetries_rules r route :
  wp (configureHTTPRouteRetries r route) (fun _ res =>
    route_Rules (fst res) = route_Rules route \/ route_Rules (fst res) = map dropRetry (route_Rules route)).
Proof.
  unfold configureHTTPRouteRetries. cbv zeta. destruct (negb _); [by right|].
  apply wp_trigger. intros [e|live]; [by left|]. destruct (negb _); [by left|].
  eapply (wp_seq _ _ (fun _ _ => True)); [by apply wp_exec|]. intros t1 deadline _.
  apply wp_trigger. intros now. apply wp_ret. right. by destruct (now <? deadline).
Qed.

Lemma defaultedCall_differs r app k C desired mutate d live :
  defaultedCall r app k C desired mutate -> prepared app desired d -> serverDefaults live ->
  live <> applied mutate live d.
Proof.
  intros Hcall (m & _ & ->). destruct Hcall as [| |t route dropped Hx].
  - apply (applied_ports_differ mutateInternalService). intros p Hp. simpl in Hp.
    by apply list_elem_of_singleton in Hp as ->.
  - apply (applied_ports_differ mutatePublicService). intros p. apply publicPorts_protocol. by repeat constructor.
  - apply applied_rules_differ.
    destruct (proj1 (wp_exec _ _) (wp_configureRetries_rules r _) _ _ Hx) as [E|E]; simpl in E |- *;
      rewrite E; by repeat constructor.
Qed.

(** What a call sent, and on what. *)
Lemma ensureObject_sent {k} `{!ClientObject k} app (desired : obj k) mutate t res o :
  exec (ensureObject app desired mutate) t res -> o ∈ omap (objWrite k) t ->
  exists d, prepared app desired d /\
    (o = d \/ exists live, IsControlledBy (objMeta live) (app_Meta app) = true /\ o = applied mutate live d).
Proof.
  intros Hx Ho.
  destruct (proj1 (wp_exec _ _) (wp_ensureObject app desired mutate) _ _ Hx) as
    [e d|m d e He|m d e x d' Hd He|m d live e Hc|m d live Hd Hc Hl|m d live x Hd Hc Hl];
    try by apply elem_of_nil in Ho.
  - simpl in Ho. rewrite objWrite_create in Ho. apply list_elem_of_singleton in Ho as ->.
    exists d. split; [done|by left].
  - simpl in Ho. rewrite objWrite_update in Ho. apply list_elem_of_singleton in Ho as ->.
    exists d. split; [done|right]. by exists live.
Qed.

Lemma prepared_controlled {k} `{!ClientObject k} app (desired d : obj k) :
  ownershipDocumented -> prepared app desired d -> IsControlledBy (objMeta d) (app_Meta app) = true.
Proof. intros Hdoc (m & Hm & ->). rewrite objMeta_set. by eapply reference_controls. Qed.

(** What a call does that reads an object of the app's. *)
Lemma ensureObject_on {k} `{!ClientObject k} app (desired : obj k) mutate t res o :
  exec (ensureObject app desired mutate) t res -> (head t ≫= objAnswer k) = Some (inr o) ->
  IsControlledBy (objMeta o) (app_Meta app) = true ->
  exists d read, prepared app desired d /\ mutates read = false /\
    ((o = applied mutate o d /\ t = [read] /\ fst res = None) \/
     (o <> applied mutate o d /\ exists x, t = [read; Ev (Update k (applied mutate o d)) x] /\ fst res = writeError x)).
Proof.
  intros Hx Hh Hc.
  destruct (proj1 (wp_exec _ _) (wp_ensureObject app desired mutate) _ _ Hx) as
    [e d|m d e He|m d e x d' Hd He|m d live e Hc'|m d live Hd Hc' Hl|m d live x Hd Hc' Hl];
    unfold cachedRead in Hh; simpl in Hh; rewrite ?objAnswer_same in Hh; try discriminate Hh; injection Hh as ->.
  - congruence.
  - exists d, (cachedRead d m (inr o)). split_and!; [done..|]. by left.
  - exists d, (cachedRead d m (inr o)). split_and!; [done..|]. right. split; [done|]. by exists x.
Qed.


End Owned.

(** ** Runs *)

Lemma sample_ownership : ownershipDocumented.
Proof.
  split.
  - intros m m' owner E. simpl. unfold sampleIsControlledBy. by rewrite E.
  - intros owner m m' Hm. simpl in *. unfold sampleSetControllerReference in Hm.
    repeat (case_in Hm; simplify_eq); [done|]. unfold sampleIsControlledBy. simpl. by rewrite String.eqb_refl.
  - intros owner m m' Hm. simpl in Hm. unfold sampleSetControllerReference in Hm.
    repeat (case_in Hm; simplify_eq); done.
Qed.

(** The PodDisruptionBudget is created, and read back with the identity the API
    server gave it and a label of someone else's. *)
Definition pdbCall : M (option error * PodDisruptionBudget) :=
  ensureObject (k := KPodDisruptionBudget) app060 (buildPDB app060) mutatePDB.

Definition emptyStore : store := mkStore noon noObjects.

Definition createdPDB : PodDisruptionBudget :=
  match head (omap (objWrite KPodDisruptionBudget) (traceOn pdbCall emptyStore)) with
  | Some o => o
  | None => buildPDB app060
  end.

Definition storedPDB : PodDisruptionBudget :=
  let m := pdb_Meta createdPDB in
  mkPodDisruptionBudget
    (mkObjectMeta (meta_Name m) (meta_Namespace m) "pdb-uid" "17" 1 None
       (<["backup.example.com/include" := "true"]> (meta_Labels m)) (meta_Annotations m) (meta_OwnerReferences m))
    (pdb_MaxUnavailable createdPDB) (pdb_Selector createdPDB).

Definition pdbStore : store :=
  mkStore noon (withObject noObjects KPodDisruptionBudget (Some (storedPDB : obj KPodDisruptionBudget))).

(** The public Service as the API server completed it. *)
Definition defaultedService : Service :=
  mkService (ownedMeta "shop-celld" "svc-uid" "app-uid" 1 (fleetLabels app060)
               (inventoried KService ∅))
    "ClusterIP" "10.96.0.7" (selectorLabels app060) false
    [mkServicePort "public" "TCP" None publicPort (FromInt32 publicPort) 0].

Definition publicCall : M (option error * Service) :=
  ensureObject (k := KService) app060 (buildPublicService app060) mutatePublicService.

Definition serviceStore : store :=
  mkStore noon (withObject noObjects KService (Some (defaultedService : obj KService))).

