(* ===== verification/RoutesTheorems.v ===== *)
(** * The properties of edge routing

    When an HTTPRoute is reported ready, which routes are removed, and the latch
    that guards against Gateway API CRDs which drop the retry field
    ([internal/controller/workerapp_controller.go]). *)

From S2P Require Import Prelude GoStrings GoTime Effects Kube Api Cluster Resources Ensure Owned Routes.
From S2P Require Import FleetState Rollout RolloutSpec RolloutProofs Guard EnsureTheorems OwnedTheorems Sample.

Local Open Scope Z_scope.

(** ** Readiness of an HTTPRoute *)

(** What a condition list says of [ty] at [generation]: the last condition of
    that type and generation is true. *)
Definition reportsTrue (ty : string) (generation : Z) (conditions : list Condition) : Prop :=
  exists before c after, conditions = before ++ c :: after /\
    cond_Type c = ty /\ cond_ObservedGeneration c = generation /\ cond_Status c = "True" /\
    Forall (fun c' => ~ (cond_Type c' = ty /\ cond_ObservedGeneration c' = generation)) after.

Lemma currentCondition_spec ty generation conditions :
  currentCondition ty generation conditions = true <-> reportsTrue ty generation conditions.
Proof.
  unfold currentCondition. induction conditions as [|c l IH] using rev_ind.
  { split; [done|]. intros (before & c & after & Hl & _). by destruct before. }
  rewrite foldl_snoc. set (acc := foldl _ false l) in *. clearbody acc.
  destruct (decide (cond_Type c = ty /\ cond_ObservedGeneration c = generation)) as [[<- <-]|Hn].
  - rewrite Z.eqb_refl. cbn [negb]. rewrite String.eqb_refl, String.eqb_eq. split.
    + intros Hs. exists l, c, []. by split_and!.
    + intros (before & c' & after & Hl & Ht & Hg & Hs & Ha).
      destruct after as [|x after _] using rev_ind.
      * by apply app_inj_tail in Hl as [_ <-].
      * rewrite app_comm_cons, app_assoc in Hl. apply app_inj_tail in Hl as [_ <-].
        apply Forall_app in Ha as [_ Ha]. exfalso. by apply (Forall_inv Ha).
  - assert (Heq : (if negb (cond_ObservedGeneration c =? generation) then acc
                   else if String.eqb (cond_Type c) ty then String.eqb (cond_Status c) "True" else acc) = acc).
    { destruct (Z.eqb_spec (cond_ObservedGeneration c) generation); [|done]. cbn [negb].
      destruct (String.eqb_spec (cond_Type c) ty); [|done]. exfalso. by apply Hn. }
    rewrite Heq, IH. split; intros (before & c' & after & Hl & Ht & Hg & Hs & Ha).
    + exists before, c', (after ++ [c]). split_and!; [by rewrite Hl, <- app_assoc|done..|].
      apply Forall_app. split; [done|]. by apply Forall_singleton.
    + destruct after as [|x after _] using rev_ind.
      * apply app_inj_tail in Hl as [_ <-]. exfalso. by apply Hn.
      * rewrite app_comm_cons, app_assoc in Hl. apply app_inj_tail in Hl as [-> <-].
        exists before, c', after. apply Forall_app in Ha as [Ha _]. by split_and!.
Qed.

(** The parent a route reports is the edge gateway of the operator. *)
Definition ourParent (r : WorkerAppReconciler) (live : HTTPRoute) (parent : RouteParentStatus) : Prop :=
  parent_Name (rps_ParentRef parent) = r_GatewayName r /\
  deref (parent_Namespace (rps_ParentRef parent)) (meta_Namespace (route_Meta live)) = r_GatewayNamespace r.

(** That parent accepted the current generation of the route and resolved its
    references. *)
Definition accepts (live : HTTPRoute) (parent : RouteParentStatus) : Prop :=
  reportsTrue "Accepted" (meta_Generation (route_Meta live)) (rps_Conditions parent) /\
  reportsTrue "ResolvedRefs" (meta_Generation (route_Meta live)) (rps_Conditions parent).

(** The gateway is programmed for its current generation. *)
Definition isProgrammed (gateway : Gateway) : Prop :=
  exists c, c ∈ gw_Conditions gateway /\ cond_Type c = "Programmed" /\
            cond_ObservedGeneration c = meta_Generation (gw_Meta gateway) /\ cond_Status c = "True".

Lemma programmed_spec gateway : programmed gateway = true <-> isProgrammed gateway.
Proof.
  unfold programmed, isProgrammed. rewrite existsb_exists. split.
  - intros (c & Hin & Hc). bool_simp. exists c. rewrite list_elem_of_In. by split_and!.
  - intros (c & Hin & Ht & Hg & Hs). exists c. rewrite <- list_elem_of_In.
    split; [done|]. by rewrite Ht, Hg, Hs, Z.eqb_refl.
Qed.

Section Routes.
Context `{KubeLib}.

Definition routeRead (desired : HTTPRoute) (got : error + HTTPRoute) : event req :=
  Ev (Get Live KHTTPRoute "" (meta_Namespace (route_Meta desired)) (meta_Name (route_Meta desired))) got.

Definition gatewayRead (r : WorkerAppReconciler) (got : error + Gateway) : event req :=
  Ev (Get Live KGateway "" (r_GatewayNamespace r) (r_GatewayName r)) got.

(** What one parent contributes. *)
Lemma wp_parentReady r live parent :
  wp (parentReady r live parent tt) (fun t c =>
    match c with
    | Continue _ => ourParent r live parent /\ accepts live parent ->
                    exists gateway, gatewayRead r (inr gateway) ∈ t /\ ~ isProgrammed gateway
    | Return s => ourParent r live parent /\ accepts live parent /\
                  ((exists gateway, s = "True" /\ gatewayRead r (inr gateway) ∈ t /\ isProgrammed gateway) \/
                   (exists e, s = "Unknown" /\ gatewayRead r (inl e) ∈ t))
    end).
Proof.
  unfold parentReady. cbv zeta.
  destruct (String.eqb_spec (parent_Name (rps_ParentRef parent)) (r_GatewayName r)) as [Hn|Hn]; cbn [negb];
    [|apply wp_ret; intros [[? _] _]; contradiction].
  match goal with |- context [String.eqb ?a ?b] => destruct (String.eqb_spec a b) as [Hns|Hns] end; cbn [negb];
    [|apply wp_ret; intros [[_ ?] _]; contradiction].
  destruct (_ && _) eqn:Hc.
  2: { apply wp_ret. intros [_ [Ha Hr]]. apply currentCondition_spec in Ha, Hr.
       by rewrite Ha, Hr in Hc. }
  apply andb_true_iff in Hc as [Ha%currentCondition_spec Hr%currentCondition_spec].
  rewrite Hn, Hns. apply wp_trigger. intros [e|gateway]; apply wp_ret.
  - split_and!; [done|done|]. right. exists e. split; [done|apply list_elem_of_here].
  - destruct (programmed gateway) eqn:Hp.
    + split_and!; [done|done|]. left. exists gateway. apply programmed_spec in Hp.
      split_and!; [done|apply list_elem_of_here|done].
    + intros _. exists gateway. split; [apply list_elem_of_here|].
      intros Hx%programmed_spec. congruence.
Qed.

Lemma wp_httpRouteReady_readOnly r desired : wp (httpRouteReady r desired) (fun t _ => readOnly t).
Proof.
  unfold httpRouteReady. apply wp_trigger. intros [e|live]; [by repeat constructor|]. eapply wp_seq.
  { apply (wp_forRange _ _ tt (fun _ t _ => readOnly t) (fun t _ => readOnly t)); [constructor|].
    intros seen parent todo t [] _ Ht. unfold parentReady. cbv zeta.
    repeat match goal with
    | |- wp (trigger _ ≫= _) _ => apply wp_trigger; intros [?|?]
    | |- wp (Ret _) _ => apply wp_ret
    | |- wp (if ?b then _ else _) _ => destruct b
    | |- readOnly (_ ++ _) => apply readOnly_app; split; [done|by repeat constructor]
    | |- match (if ?b then _ else _) with _ => _ end => destruct b
    | |- match Return _ with _ => _ end => cbv beta iota
    | |- match Continue _ with _ => _ end => cbv beta iota
    end. }
  intros t c Hc. apply wp_ret. rewrite app_nil_r. constructor; [done|]. by destruct c.
Qed.

(** C35: an HTTPRoute is reported ready exactly on the evidence of one pass: a
    reported parent is the operator's gateway, it accepted the current
    generation of the route and resolved its references, and the gateway read
    after it is programmed for its own current generation. It is reported not
    ready only when every such parent's gateway is not programmed, and unknown
    when the route or the gateway cannot be read. *)
Theorem httpRouteReady_evidence r desired t s :
  exec (httpRouteReady r desired) t s ->
  (s = "True" /\ exists live parent gateway,
     routeRead desired (inr live) ∈ t /\ parent ∈ route_StatusParents live /\
     ourParent r live parent /\ accepts live parent /\
     gatewayRead r (inr gateway) ∈ t /\ isProgrammed gateway) \/
  (s = "False" /\ exists live, routeRead desired (inr live) ∈ t /\
     forall parent, parent ∈ route_StatusParents live -> ourParent r live parent -> accepts live parent ->
       exists gateway, gatewayRead r (inr gateway) ∈ t /\ ~ isProgrammed gateway) \/
  (s = "Unknown" /\ exists e, routeRead desired (inl e) ∈ t \/ gatewayRead r (inl e) ∈ t).
Proof.
  revert t s. apply (proj1 (wp_exec _ _)). unfold httpRouteReady.
  apply wp_trigger. intros [e|live].
  { apply wp_ret. right; right. split; [done|]. exists e. left. apply list_elem_of_here. }
  fold (routeRead desired (inr live)). set (ev := routeRead desired (inr live)).
  eapply wp_seq.
  { apply (wp_forRange _ _ tt
      (fun seen t _ => forall parent, parent ∈ seen -> ourParent r live parent /\ accepts live parent ->
         exists gateway, gatewayRead r (inr gateway) ∈ t /\ ~ isProgrammed gateway)
      (fun t s => exists parent, parent ∈ route_StatusParents live /\ ourParent r live parent /\ accepts live parent /\
         ((exists gateway, s = "True" /\ gatewayRead r (inr gateway) ∈ t /\ isProgrammed gateway) \/
          (exists e, s = "Unknown" /\ gatewayRead r (inl e) ∈ t)))).
    - intros parent Hin. by apply elem_of_nil in Hin.
    - intros seen parent todo t0 [] Hl Hseen. eapply wp_mono; [|apply wp_parentReady].
      intros t1 [s1|[]] Hc.
      + destruct Hc as (Ho & Ha & Hr). exists parent. split; [rewrite Hl; set_solver|].
        split_and!; [done|done|]. destruct Hr as [(g & -> & Hg & Hp)|(e & -> & Hg)].
        * left. exists g. split_and!; [done|set_solver|done].
        * right. exists e. split; [done|set_solver].
      + intros p [Hin|Hin%list_elem_of_singleton]%elem_of_app Hp; [|subst p].
        * destruct (Hseen p Hin Hp) as (g & Hg & Hn). exists g. split; [set_solver|done].
        * destruct (Hc Hp) as (g & Hg & Hn). exists g. split; [set_solver|done]. }
  intros t1 [s1|[]] Hc; apply wp_ret; rewrite app_nil_r.
  - destruct Hc as (parent & Hin & Ho & Ha & [(g & -> & Hg & Hp)|(e & -> & Hg)]).
    + left. split; [done|]. exists live, parent, g.
      split_and!; [apply list_elem_of_here|done|done|done|by right|done].
    + right; right. split; [done|]. exists e. right. by right.
  - right; left. split; [done|]. exists live. split; [apply list_elem_of_here|].
    intros parent Hin Ho Ha. destruct (Hc parent Hin (conj Ho Ha)) as (g & Hg & Hn).
    exists g. split; [by right|done].
Qed.

(** ** Routes of another mode *)

Definition routeModes : list string := [IngressModeIngress; IngressModeHTTPRoute; IngressModeVirtualService].

Definition routeKind (mode : string) : kind :=
  if String.eqb mode IngressModeIngress then KIngress
  else if String.eqb mode IngressModeHTTPRoute then KHTTPRoute else KUnstructured.

Definition routeGVK (mode : string) : string :=
  if String.eqb mode IngressModeVirtualService then virtualServiceGVK else "".

(** The uncached read of the route of a mode, and the deletion of what it
    answered, conditional on the identity and version that were read. *)
Definition obsoleteRead (app : WorkerApp) (mode : string) (got : error + obj (routeKind mode)) : event req :=
  Ev (Get Live (routeKind mode) (routeGVK mode) (app_Namespace app) (fleetName app)) got.

Definition obsoleteDelete (mode : string) (o : obj (routeKind mode)) (err : option error) : event req :=
  Ev (Delete (routeKind mode) o (meta_UID (kindMeta _ o)) (meta_ResourceVersion (kindMeta _ o))) err.

(** There is no route of this mode, it belongs to someone else, or it has been
    deleted. *)
Definition modeRemoved (app : WorkerApp) (t : tr) (mode : string) : Prop :=
  (exists e, obsoleteRead app mode (inl e) ∈ t /\ (IsNotFound e = true \/ IsNoMatchError e = true)) \/
  (exists o, obsoleteRead app mode (inr o) ∈ t /\ IsControlledBy (kindMeta _ o) (app_Meta app) = false) \/
  (exists o err, obsoleteRead app mode (inr o) ∈ t /\ obsoleteDelete mode o err ∈ t /\
                 (err = None \/ exists e, err = Some e /\ IsNotFound e = true)).

(** A request that changes the cluster is the deletion of our own route of a
    mode other than [kept]. *)
Definition deletesObsolete (app : WorkerApp) (kept : string) (t : tr) (ev : event req) : Prop :=
  mutates ev = true ->
  exists mode o err, mode ∈ routeModes /\ mode <> kept /\ ev = obsoleteDelete mode o err /\
    obsoleteRead app mode (inr o) ∈ t /\ IsControlledBy (kindMeta _ o) (app_Meta app) = true.

Lemma modeRemoved_mono app t t' mode : t ⊆ t' -> modeRemoved app t mode -> modeRemoved app t' mode.
Proof.
  intros Hs [(e & Hr & He)|[(o & Hr & Hc)|(o & err & Hr & Hd & He)]].
  - left. exists e. auto.
  - right; left. exists o. auto.
  - right; right. exists o, err. auto.
Qed.

Lemma deletesObsolete_mono app kept t t' ev :
  t ⊆ t' -> deletesObsolete app kept t ev -> deletesObsolete app kept t' ev.
Proof.
  intros Hs Hd Hm. destruct (Hd Hm) as (mode & o & err & ? & ? & ? & ? & ?). exists mode, o, err.
  split_and!; auto.
Qed.

(** One mode, given by the kind of its route. *)
Lemma wp_removeRoute app kept mode :
  mode ∈ routeModes -> mode <> kept ->
  wp (removeRoute (routeKind mode) (routeGVK mode) (kindMeta _) app)
    (fun t c => Forall (deletesObsolete app kept t) t /\
                match c with Return _ => True | Continue _ => modeRemoved app t mode end).
Proof.
  intros Hin Hne. unfold removeRoute. apply wp_trigger. intros [e|o]; cbv beta iota.
  - apply wp_ret. split; [by repeat constructor|]. destruct (IsNotFound e || IsNoMatchError e) eqn:He; [|done].
    apply orb_true_iff in He. left. exists e. split; [apply list_elem_of_here|done].
  - destruct (IsControlledBy _ _) eqn:Hc; cbn [negb].
    2: { apply wp_ret. split; [by repeat constructor|]. right; left. exists o.
         split; [apply list_elem_of_here|done]. }
    apply wp_trigger. intros err. apply wp_ret. split.
    + constructor; [done|]. constructor; [|constructor]. intros _. exists mode, o, err.
      split_and!; [done..|apply list_elem_of_here|done].
    + destruct err as [e|]; [destruct (IsNotFound e) eqn:He; [|done]|];
        (right; right; eexists o, _; split; [apply list_elem_of_here|];
         split; [right; apply list_elem_of_here|]); [right; by exists e|by left].
Qed.

Lemma wp_removeMode app kept mode :
  mode ∈ routeModes ->
  wp (removeMode app kept mode tt)
    (fun t c => Forall (deletesObsolete app kept t) t /\
                match c with Return _ => True | Continue _ => mode <> kept -> modeRemoved app t mode end).
Proof.
  intros Hin. unfold removeMode. destruct (String.eqb_spec mode kept) as [->|Hne]; [by apply wp_ret|].
  pose proof (wp_removeRoute app kept mode Hin Hne) as Hr.
  apply elem_of_cons in Hin as [->|[->|Hl]%elem_of_cons]; [| |apply list_elem_of_singleton in Hl as ->];
    (eapply wp_mono; [|exact Hr]); intros t c [Hd Hc]; (split; [exact Hd|]); by destruct c.
Qed.

(** C36: removing obsolete routes changes nothing but routes of other modes that
    the app controls, each deleted on condition that it still is what was read;
    when it succeeds, every other mode has no route of the app left. The order
    in which Go visits the modes does not matter. *)
Theorem obsolete_routes_removed r app t res :
  exec (removeObsoleteRoutes r app) t res ->
  Forall (deletesObsolete app (keptMode r app) t) t /\
  (res = None -> forall mode, mode ∈ routeModes -> mode <> keptMode r app -> modeRemoved app t mode).
Proof.
  revert t res. apply (proj1 (wp_exec _ _)). unfold removeObsoleteRoutes.
  apply wp_trigger. intros [kinds Hk]. simpl proj1_sig. eapply wp_seq.
  { apply (wp_forRange _ _ tt
      (fun seen t _ => Forall (deletesObsolete app (keptMode r app) t) t /\
         forall mode, mode ∈ seen -> mode <> keptMode r app -> modeRemoved app t mode)
      (fun t _ => Forall (deletesObsolete app (keptMode r app) t) t)).
    - split; [constructor|]. intros mode Hin. by apply elem_of_nil in Hin.
    - intros seen mode todo t0 [] Hl [Hd Hseen].
      assert (Hin : mode ∈ routeModes) by (unfold routeModes; rewrite <- Hk, Hl; set_solver).
      assert (Hboth : forall t1, Forall (deletesObsolete app (keptMode r app) t1) t1 ->
                Forall (deletesObsolete app (keptMode r app) (t0 ++ t1)) (t0 ++ t1)).
      { intros t1 Hd1. apply Forall_app. split.
        - eapply Forall_impl; [exact Hd|]. intros ev. apply deletesObsolete_mono. set_solver.
        - eapply Forall_impl; [exact Hd1|]. intros ev. apply deletesObsolete_mono. set_solver. }
      eapply wp_mono; [|by apply wp_removeMode]. intros t1 [e|[]] [Hd1 Hc]; [by apply Hboth|].
      split; [by apply Hboth|]. intros m [Hm|Hm%list_elem_of_singleton]%elem_of_app Hne.
      + eapply modeRemoved_mono; [|by apply Hseen]. set_solver.
      + subst m. eapply modeRemoved_mono; [|by apply Hc]. set_solver. }
  assert (Hcons : forall ev t1, mutates ev = false -> Forall (deletesObsolete app (keptMode r app) t1) t1 ->
            Forall (deletesObsolete app (keptMode r app) (ev :: t1)) (ev :: t1)).
  { intros ev t1 He Hd. constructor; [unfold deletesObsolete; congruence|].
    eapply Forall_impl; [exact Hd|]. intros ev'. apply deletesObsolete_mono. set_solver. }
  intros t1 [e|[]] Hc; apply wp_ret; rewrite app_nil_r.
  - split; [by apply Hcons|done].
  - destruct Hc as [Hd Hc]. split; [by apply Hcons|]. intros _ mode Hin Hne.
    eapply modeRemoved_mono; [|apply Hc; [|done]]; [set_solver|]. rewrite Hk. exact Hin.
Qed.

(** ** The retry latch *)

(** The route says that retries were requested, and the first rule has none:
    the Gateway API CRDs dropped them. *)
Definition retryLatched (o : HTTPRoute) : Prop :=
  mapGet (route_Annotations o) retryRequestedAnnotation = annotationTrue /\ firstRetryMissing o = true.

Definition routeUpdates (t : tr) : list HTTPRoute := omap (objUpdate KHTTPRoute) t.

(** Reads of the route answer latched routes. *)
Definition readsLatched (ev : event req) : Prop :=
  forall got, objAnswer KHTTPRoute ev = Some got -> exists o, got = inr o /\ retryLatched o.

Lemma firstRetryMissing_dropRetries r : route_Rules r <> [] -> firstRetryMissing (dropRetries r) = true.
Proof. unfold firstRetryMissing, dropRetries. simpl. by destruct (route_Rules r). Qed.

(** Only reads happen, and the retries of a latched route stay dropped. *)
Lemma wp_configureHTTPRouteRetries r route :
  wp (configureHTTPRouteRetries r route) (fun t res =>
    routeUpdates t = [] /\
    (r_HTTPRouteRetries r = true -> route_Rules route <> [] -> Forall readsLatched t ->
     snd res = true /\ firstRetryMissing (fst res) = true)).
Proof.
  unfold configureHTTPRouteRetries. destruct (r_HTTPRouteRetries r); cbn [negb]; [|by apply wp_ret].
  cbv zeta. apply wp_trigger. intros [e|live]; cbv beta iota.
  { apply wp_ret. split; [done|]. intros _ _ Hl. apply Forall_inv in Hl.
    destruct (Hl (inl e)) as (o & ? & _); [apply objAnswer_same|done]. }
  destruct (_ && _) eqn:Hd; cbn [negb].
  2: { apply wp_ret. split; [done|]. intros _ _ Hl. apply Forall_inv in Hl.
       destruct (Hl (inr live)) as (o & [= <-] & Hr & Hm); [apply objAnswer_same|].
       by rewrite Hr, Hm in Hd. }
  set (rt := setRouteAnnotations route _). set (k := fun deadline => _).
  assert (Hk : forall d ev, objUpdate KHTTPRoute ev = None -> wp (k d) (fun t res =>
    routeUpdates (ev :: t) = [] /\ (true = true -> route_Rules route <> [] -> Forall readsLatched (ev :: t) ->
     snd res = true /\ firstRetryMissing (fst res) = true))).
  { intros d ev He. unfold k. apply wp_trigger. intros now. apply wp_ret.
    split; [unfold routeUpdates; simpl; by rewrite He|]. intros _ Hne _. split; [done|].
    apply firstRetryMissing_dropRetries. by destruct (now <? d). }
  destruct (parseRFC3339Nano _) as [d|]; [by apply (Hk d)|].
  apply wp_bind. apply wp_trigger. intros now. apply wp_ret.
  eapply wp_mono; [|apply (Hk (now + 5 * Minute) (Ev (Get Cached KHTTPRoute "" (meta_Namespace (route_Meta rt)) (meta_Name (route_Meta rt))) (inr live))); done].
  intros t res [Hu Hl]. split; [exact Hu|]. intros Hr Hne [Hf1 Hf2]%Forall_cons. apply Hl; [done..|].
  apply Forall_app in Hf2 as [_ Hf2]. by constructor.
Qed.

(** The object an update writes has the annotations of the one it was read as. *)
Definition keepsAnnotations (t : tr) (o : HTTPRoute) : Prop :=
  exists src gvk ns name live, Ev (Get src KHTTPRoute gvk ns name) (inr live) ∈ t /\
    route_Annotations o = route_Annotations live.

Lemma objEnsured_route app desired t res :
  objEnsured (k := KHTTPRoute) app desired mutateHTTPRoute t res ->
  Forall (keepsAnnotations t) (routeUpdates t) /\
  (Forall readsLatched t -> firstRetryMissing desired = true -> Forall retryLatched (routeUpdates t)).
Proof.
  intros [e d|m d e He|m d e x d' Hp He|m d live e Hc|m d live Hp Hc Hl|m d live x Hp Hc Hl]; try done.
  unfold routeUpdates. simpl. split.
  - apply Forall_singleton. eexists _, _, _, _, live. split; [apply list_elem_of_here|done].
  - intros Hr Hf. apply Forall_singleton. apply Forall_inv in Hr.
    destruct (Hr (inr live)) as (o & [= <-] & Hreq & _); [apply objAnswer_same|].
    split; [exact Hreq|]. by destruct Hp as (m' & _ & ->).
Qed.

(** C34: the retry latch of an existing HTTPRoute never opens. Whatever the
    clock says, an update of the route keeps the annotations that were read, so
    neither the recheck deadline nor the removal of the request reaches the API
    server; and when the route that is read is latched, every update leaves it
    latched and the pass reports the dropped retries again. *)
Theorem retry_latch_never_opens r app t res :
  exec (ensureHTTPRoute r app) t res ->
  Forall (keepsAnnotations t) (routeUpdates t) /\
  (r_HTTPRouteRetries r = true -> Forall readsLatched t ->
   Forall retryLatched (routeUpdates t) /\
   exists c, fst res = [c] /\ cond_Status c = "False" /\ cond_Reason c <> "RouteObserved").
Proof.
  revert t res. apply (proj1 (wp_exec _ _)). unfold ensureHTTPRoute.
  eapply wp_seq; [apply wp_configureHTTPRouteRetries|]. intros t1 [route dropped] [Hu1 Hl1]; cbv beta iota.
  eapply wp_seq; [apply (wp_ensureObject app route mutateHTTPRoute)|].
  intros t2 [err route'] [Hk2 Hl2]%objEnsured_route.
  assert (Hall : forall (p : M (list Condition * bool)),
    wp p (fun t3 res => routeUpdates t3 = [] /\
            (dropped = true -> exists c, fst res = [c] /\ cond_Status c = "False" /\ cond_Reason c <> "RouteObserved")) ->
    wp p (fun t3 res => Forall (keepsAnnotations (t1 ++ t2 ++ t3)) (routeUpdates (t1 ++ t2 ++ t3)) /\
      (r_HTTPRouteRetries r = true -> Forall readsLatched (t1 ++ t2 ++ t3) ->
       Forall retryLatched (routeUpdates (t1 ++ t2 ++ t3)) /\
       exists c, fst res = [c] /\ cond_Status c = "False" /\ cond_Reason c <> "RouteObserved"))).
  { intros p. apply wp_mono. intros t3 res [Hu3 Hc]. unfold routeUpdates in *.
    rewrite !omap_app, Hu1, Hu3, app_nil_r, app_nil_l. split.
    - eapply Forall_impl; [exact Hk2|]. intros o (src & g & ns & n & live & Hin & Ha).
      exists src, g, ns, n, live. split; [set_solver|done].
    - intros Hr [Ht1 [Ht2 _]%Forall_app]%Forall_app. destruct (Hl1 Hr ltac:(done) Ht1) as [Hd Hm].
      split; [by apply Hl2|by apply Hc]. }
  apply Hall. destruct err as [e|].
  { destruct (IsNoMatchError e); apply wp_ret; (split; [done|]); intros _;
      (eexists; split; [reflexivity|]; split; [reflexivity|discriminate]). }
  eapply (wp_seq _ _ (fun t _ => routeUpdates t = [])).
  { unfold httpRouteRetryDropped. destruct (route_Rules route') as [|rule rules]; [done|].
    destruct (hrule_Retry rule); [|done]. apply wp_trigger. intros got. by apply wp_ret. }
  intros t3 check Hu3. destruct dropped; cbn [orb].
  { apply wp_ret. unfold routeUpdates in *. rewrite app_nil_r. split; [done|]. intros _.
    eexists. split; [reflexivity|]. split; [reflexivity|discriminate]. }
  assert (Hro : forall (p : M (list Condition * bool)), wp p (fun t _ => readOnly t) ->
            wp p (fun t res => routeUpdates (t3 ++ t) = [] /\ (false = true ->
              exists c, fst res = [c] /\ cond_Status c = "False" /\ cond_Reason c <> "RouteObserved"))).
  { intros p. apply wp_mono. intros t4 res' Hr. split; [|done]. unfold routeUpdates in *.
    rewrite omap_app, Hu3. clear -Hr. induction Hr as [|[X e x] t He _ IH]; [done|].
    simpl. by destruct e. }
  apply Hro. destruct (match check with inr d => d | inl _ => false end); [apply wp_ret; constructor|].
  eapply wp_seq; [apply wp_httpRouteReady_readOnly|]. intros t4 s Hr. apply wp_ret. by rewrite app_nil_r.
Qed.

End Routes.

(** The route of an app, accepted at generation 3 by the edge gateway, which is
    programmed. *)
Definition liveRoute : HTTPRoute :=
  let built := buildHTTPRoute app060 "public" "gateways" in
  mkHTTPRoute (ownedMeta "shop-celld" "route-uid" "app-uid" 3 (meta_Labels (route_Meta built)) ∅)
    (route_ParentRefs built) (route_Hostnames built) (route_Rules built) []
    [mkRouteParentStatus (mkParentReference (Some "gateway.networking.k8s.io") (Some "Gateway") "public" (Some "gateways"))
       [mkCondition "Accepted" "False" "" "" 2; mkCondition "Accepted" "True" "" "" 3;
        mkCondition "ResolvedRefs" "True" "" "" 3]].

Definition liveGateway : Gateway :=
  mkGateway (ownedMeta "public" "gw-uid" "" 5 ∅ ∅) [mkCondition "Programmed" "True" "" "" 5].

Definition edgeStore : store :=
  mkStore noon (withObject (withObject noObjects KHTTPRoute (Some (liveRoute : obj KHTTPRoute)))
                  KGateway (Some (liveGateway : obj KGateway))).

Lemma httpRouteReady_evidence_witness :
  let p := httpRouteReady sampleReconciler liveRoute in
  let t := traceOn p edgeStore in
  exists live parent gateway,
    routeRead liveRoute (inr live) ∈ t /\ parent ∈ route_StatusParents live /\
    ourParent sampleReconciler live parent /\ accepts live parent /\
    gatewayRead sampleReconciler (inr gateway) ∈ t /\ isProgrammed gateway.
Proof.
  intros p t.
  destruct (httpRouteReady_evidence sampleReconciler liveRoute t (resultOn p edgeStore) (execOn p edgeStore))
    as [[_ Htrue]|[[Hs _]|[Hs _]]].
  - exact Htrue.
  - vm_compute in Hs. discriminate Hs.
  - vm_compute in Hs. discriminate Hs.
Defined.

(** An Ingress left over from another mode. *)
Definition oldIngress : Ingress :=
  mkIngress (ownedMeta "shop-celld" "ing-uid" "app-uid" 1 ∅ ∅) [] None [] [].

Definition leftoverStore : store :=
  mkStore noon (withObject (o_object edgeStore) KIngress (Some (oldIngress : obj KIngress))).

Lemma obsolete_routes_removed_witness :
  let p := removeObsoleteRoutes sampleReconciler app060 in
  let t := traceOn p leftoverStore in
  resultOn p leftoverStore = None /\ modeRemoved app060 t IngressModeIngress /\
  o_object (storeAfter p leftoverStore) KIngress = None /\
  o_object (storeAfter p leftoverStore) KHTTPRoute = Some (liveRoute : obj KHTTPRoute).
Proof.
  intros p t. split; [vm_compute; reflexivity|]. split; [|split; vm_compute; reflexivity].
  refine (proj2 (obsolete_routes_removed sampleReconciler app060 t (resultOn p leftoverStore) (execOn p leftoverStore))
            _ IngressModeIngress _ _).
  - vm_compute. reflexivity.
  - apply list_elem_of_here.
  - intros E. vm_compute in E. discriminate E.
Defined.

(** A boolean form of [readsLatched]. *)
Definition readsLatchedB (ev : event req) : bool :=
  match objAnswer KHTTPRoute ev with
  | Some (inr o) => String.eqb (mapGet (route_Annotations o) retryRequestedAnnotation) annotationTrue
                    && firstRetryMissing o
  | Some (inl _) => false
  | None => true
  end.

Lemma readsLatched_check t : forallb readsLatchedB t = true -> Forall readsLatched t.
Proof.
  intros Ht. apply Forall_forall. intros ev Hin got Hg.
  apply list_elem_of_In, (proj1 (forallb_forall _ _) Ht) in Hin.
  unfold readsLatchedB in Hin. rewrite Hg in Hin. destruct got as [e|o]; [done|]. bool_simp. by exists o.
Qed.

(** A route whose retries were dropped when it was created, seen for the first
    time a day later by an operator that also has to change its hostnames. *)
Definition latchedRoute : HTTPRoute :=
  mkHTTPRoute (ownedMeta "shop-celld" "route-uid" "app-uid" 3 ∅ {[ retryRequestedAnnotation := annotationTrue ]})
    (route_ParentRefs liveRoute) [] (route_Rules (dropRetries liveRoute)) [] [].

Definition retryingReconciler : WorkerAppReconciler :=
  {| r_AllowedImagePrefixes := r_AllowedImagePrefixes sampleReconciler;
     r_AllowedIAMRoles := []; r_AllowedAzureClientIDs := []; r_AllowedBucketEndpoints := [];
     r_HTTPRouteRetries := true;
     r_IngressMode := "httproute"; r_GatewayName := "public"; r_GatewayNamespace := "gateways";
     r_IstioGateways := []; r_IngressClassName := ""; r_ClusterIssuer := ""; r_PrometheusURL := "";
     r_OperatorNamespace := ""; r_OperatorPrincipal := "" |}.

(** The store [hours] after a pass that starts at noon. *)
Definition latchedStore : store :=
  mkStore noon (withObject noObjects KHTTPRoute (Some (latchedRoute : obj KHTTPRoute))).
Definition hourLater : store :=
  mkStore (noon + 3600 * Second)
    (o_object (storeAfter (ensureHTTPRoute retryingReconciler app060) latchedStore)).

Lemma retry_latch_never_opens_witness :
  let p := ensureHTTPRoute retryingReconciler app060 in
  (** the first pass writes the route, without a deadline *)
  length (routeUpdates (traceOn p latchedStore)) = 1%nat /\
  Forall (fun o => route_Annotations o !! retryRecheckAnnotation = None) (routeUpdates (traceOn p latchedStore)) /\
  Forall retryLatched (routeUpdates (traceOn p latchedStore)) /\
  (** an hour later the same report, and nothing is probed *)
  Forall retryLatched (routeUpdates (traceOn p hourLater)) /\
  exists c, fst (resultOn p hourLater) = [c] /\ cond_Status c = "False" /\ cond_Reason c <> "RouteObserved".
Proof.
  intros p. split; [vm_compute; reflexivity|].
  split; [vm_compute; repeat constructor|]. split.
  - refine (proj1 (proj2 (retry_latch_never_opens retryingReconciler app060 (traceOn p latchedStore)
                            (resultOn p latchedStore) (execOn p latchedStore)) _ _)).
    + reflexivity.
    + apply readsLatched_check. vm_compute. reflexivity.
  - refine (proj2 (retry_latch_never_opens retryingReconciler app060 (traceOn p hourLater)
                     (resultOn p hourLater) (execOn p hourLater)) _ _).
    + reflexivity.
    + apply readsLatched_check. vm_compute. reflexivity.
Defined.
