(* ===== verification/DeploysTheorems.v ===== *)
(** * The properties of deploy tracking

    Where the version a fleet should serve comes from, what the cache keeps and
    how large it gets ([internal/controller/deploytracker.go]). *)

From S2P Require Import Prelude GoStrings GoTime Effects Kube Api Cluster Resources FleetState Ensure Owned Deploys.
From S2P Require Import Rollout Sample.

Local Open Scope Z_scope.

(** ** The invariant of the tracker *)

(** The cache is bounded, and an entry without a failure has a version. *)
Definition trackerInv (t : DeployTracker) : Prop :=
  0 < dt_Interval t /\ (size (dt_cache t) <= maxTracked)%nat /\
  map_Forall (fun _ v => tv_failure v = None -> tv_version v <> "") (dt_cache t).

Lemma decodePointer_inr key raw version : decodePointer key raw = inr version -> version <> "".
Proof.
  unfold decodePointer. intros Hd. repeat (case_in Hd; try discriminate Hd).
  injection Hd as <-. by apply is_empty_false.
Qed.

Section Deploys.
Context `{KubeLib}.

(** The object a call reads, if it reads one. *)
Definition pointerRead (ev : event req) : option (error + (error + string)) :=
  (match ev_req ev in req X return X -> option (error + (error + string)) with
   | GetObject _ => fun got => Some got
   | _ => fun _ => None
   end) (ev_resp ev).

Definition pointerReads (t : tr) : list (error + (error + string)) := omap pointerRead t.

(** A version read from the bucket in [t]. *)
Definition readVersion (t : tr) (version : string) : Prop :=
  exists key raw, inr (inr raw) ∈ pointerReads t /\ decodePointer key raw = inr version.

Lemma readVersion_app t1 t2 v : readVersion t1 v \/ readVersion t2 v -> readVersion (t1 ++ t2) v.
Proof.
  intros [(k & raw & Hin & Hd)|(k & raw & Hin & Hd)]; exists k, raw; unfold pointerReads in *;
    rewrite omap_app; set_solver.
Qed.

Lemma wp_currentBucketVersion app :
  wp (currentBucketVersion app) (fun t got =>
    match got with inr v => readVersion t v /\ v <> "" | inl _ => True end).
Proof.
  unfold currentBucketVersion. cbv zeta. destruct (CutPrefix _ _) as [rest ok]. destruct ok; cbn [negb]; [|done].
  destruct (Cut _ _) as [[bucket prefix] ?]. destruct (is_empty _); [done|].
  apply wp_trigger. intros [e|secret]; [done|]. destruct (_ || _); [done|].
  apply wp_trigger. intros [e|[e|raw]]; try done. apply wp_ret.
  destruct (decodePointer _ raw) as [e|v] eqn:Hd; [done|]. split; [|by eapply decodePointer_inr].
  exists (pointerKey prefix), raw. split; [apply list_elem_of_here|done].
Qed.

(** ** The cache *)

(** Eviction only removes entries, and makes room when the cache is full. *)
Lemma wp_evict tracker :
  wp (evict tracker) (fun t cache =>
    pointerReads t = [] /\ cache ⊆ dt_cache tracker /\
    ((size (dt_cache tracker) <= maxTracked)%nat -> (size cache < maxTracked)%nat) /\
    ((size (dt_cache tracker) < maxTracked)%nat -> cache = dt_cache tracker)).
Proof.
  unfold evict. set (c0 := dt_cache tracker). cbv zeta. destruct (Nat.leb_spec maxTracked (size c0)) as [Hfull|Hroom].
  2: { apply wp_ret. by split_and!. }
  apply wp_trigger. intros [entries Hperm]. simpl proj1_sig. eapply wp_seq.
  { apply (wp_foldM _ _ c0 (fun _ t cache => pointerReads t = [] /\ cache ⊆ c0)); [done|].
    intros seen kv t cache [Ht Hc]. apply wp_trigger. intros now. apply wp_ret. unfold pointerReads in *.
    rewrite omap_app, Ht. split; [done|]. destruct (_ <=? _); [|done].
    etrans; [apply delete_subseteq|exact Hc]. }
  intros t cache [Ht Hc]. pose proof (map_subseteq_size _ _ Hc) as Hle.
  destruct (Nat.leb_spec maxTracked (size cache)) as [Hstill|Hok].
  2: { apply wp_ret. rewrite app_nil_r. split_and!; [done..|]. intros. lia. }
  apply wp_trigger. intros [keys Hkeys]. apply wp_ret. unfold pointerReads in *. simpl.
  rewrite omap_app, Ht. split; [done|]. destruct keys as [|k keys]; simpl.
  { apply Permutation_nil_l in Hkeys. symmetry in Hkeys. apply map_eq_nil, map_to_list_empty_iff in Hkeys. rewrite Hkeys, map_size_empty in Hstill.
    unfold maxTracked in Hstill. lia. }
  split; [etrans; [apply delete_subseteq|exact Hc]|]. split; [|intros; lia]. intros Hmax.
  assert (Hin : k ∈ map fst (map_to_list cache)) by (rewrite <- Hkeys; apply list_elem_of_here).
  change (map fst (map_to_list cache)) with (fst <$> map_to_list cache) in Hin.
  apply list_elem_of_fmap in Hin as ([k' v] & -> & Hin). apply elem_of_map_to_list in Hin.
  simpl. rewrite map_size_delete_Some by by exists v.
  assert (0 < size cache)%nat by (unfold maxTracked in *; lia). lia.
Qed.

(** ** Where a version comes from *)

(** What a fresh read answers and leaves in the cache, given the identity it
    is for: the version it read, or the one remembered under that identity. *)
Inductive refreshed (app : WorkerApp) (tracker : DeployTracker) (identity : string) (t : tr)
  : DeployTracker * (string * bool * option error) -> Prop :=
| RefreshRead version now cache :
    readVersion t version -> version <> "" -> cache ⊆ dt_cache tracker ->
    ((size (dt_cache tracker) <= maxTracked)%nat -> (size cache < maxTracked)%nat) ->
    refreshed app tracker identity t
      (setCache tracker (<[trackerKey app := mkTrackedVersion version now identity None]> cache),
       (version, false, None))
| RefreshHeld held e now cache :
    held = match cachedVersion tracker app identity with Some c => tv_version c | None => "" end ->
    cache ⊆ dt_cache tracker ->
    ((size (dt_cache tracker) <= maxTracked)%nat -> (size cache < maxTracked)%nat) ->
    refreshed app tracker identity t
      (setCache tracker (<[trackerKey app := mkTrackedVersion held now identity (Some e)]> cache),
       (held, negb (is_empty held), Some e)).

(** The ways a call of [pointerVersion] goes. *)
Inductive pointerAnswer (app : WorkerApp) (tracker : DeployTracker) (t : tr)
  : DeployTracker * (string * bool * option error) -> Prop :=
| AnswerUnidentified e : pointerAnswer app tracker t (tracker, ("", false, Some e))
| AnswerCached identity cached :
    cachedVersion tracker app identity = Some cached ->
    pointerAnswer app tracker t
      (tracker, (tv_version cached,
                 match tv_failure cached with Some _ => negb (is_empty (tv_version cached)) | None => false end,
                 tv_failure cached))
| AnswerRefreshed identity res : refreshed app tracker identity t res -> pointerAnswer app tracker t res.

Lemma wp_refreshPointer app tracker identity :
  wp (refreshPointer app tracker identity (cachedVersion tracker app identity)) (refreshed app tracker identity).
Proof.
  unfold refreshPointer. eapply wp_seq; [apply wp_currentBucketVersion|]. intros t1 got Hgot.
  assert (Hgen : forall fresh err,
    (forall t2 cache now, cache ⊆ dt_cache tracker ->
       ((size (dt_cache tracker) <= maxTracked)%nat -> (size cache < maxTracked)%nat) ->
       refreshed app tracker identity (t1 ++ t2)
         (setCache tracker (<[trackerKey app := mkTrackedVersion fresh now identity err]> cache),
          (fresh, match err with Some _ => negb (is_empty fresh) | None => false end, err))) ->
    wp (cache ← evict tracker; now ← trigger Now;
        Ret (setCache tracker (<[trackerKey app := mkTrackedVersion fresh now identity err]> cache),
             (fresh, match err with Some _ => negb (is_empty fresh) | None => false end, err)))
       (fun t' b => refreshed app tracker identity (t1 ++ t') b)).
  { intros fresh err Ha. eapply wp_seq; [apply wp_evict|]. intros t2 cache (_ & Hsub & Hsize & _).
    apply wp_trigger. intros now. apply wp_ret. by apply Ha. }
  destruct got as [e|v]; apply Hgen; intros t2 cache now Hsub Hsize.
  - by apply RefreshHeld.
  - destruct Hgot as [Hr Hne]. apply RefreshRead; [apply readVersion_app; by left|done..].
Qed.

Lemma refreshed_after app tracker identity t1 t2 res :
  refreshed app tracker identity t2 res -> refreshed app tracker identity (t1 ++ t2) res.
Proof.
  intros [v now cache Hr Hv Hs Hm|h e now cache Hh Hs Hm].
  - apply RefreshRead; [apply readVersion_app; by right|done..].
  - by apply RefreshHeld.
Qed.

Lemma wp_pointerVersion app tracker : wp (pointerVersion app tracker) (pointerAnswer app tracker).
Proof.
  unfold pointerVersion. cbv zeta. eapply (wp_seq _ _ (fun _ _ => True)).
  { destruct (is_empty _); [done|]. apply wp_trigger. intros got. by apply wp_ret. }
  intros t1 [e|[uid rv]] _; [apply wp_ret, AnswerUnidentified|].
  set (identity := pointerIdentity app uid rv).
  pose proof (wp_refreshPointer app tracker identity) as Hr.
  destruct (cachedVersion tracker app identity) as [cached|] eqn:Hc.
  - apply wp_trigger. intros now. destruct (_ <? _).
    + apply wp_ret. by apply (AnswerCached _ _ _ identity).
    + eapply wp_mono; [|exact Hr]. intros t res Ha. apply (AnswerRefreshed _ _ _ identity).
      by apply refreshed_after, (refreshed_after _ _ _ [_]).
  - eapply wp_mono; [|exact Hr]. intros t res Ha. apply (AnswerRefreshed _ _ _ identity).
    by apply refreshed_after.
Qed.

Lemma trackerInv_insert tracker cache app tv :
  trackerInv tracker -> cache ⊆ dt_cache tracker ->
  ((size (dt_cache tracker) <= maxTracked)%nat -> (size cache < maxTracked)%nat) ->
  (tv_failure tv = None -> tv_version tv <> "") ->
  trackerInv (setCache tracker (<[trackerKey app := tv]> cache)).
Proof.
  intros (Hi & Hsize & Hall) Hsub Hroom Htv. split_and!; simpl; [done|..].
  - specialize (Hroom Hsize). rewrite map_size_insert. destruct (cache !! _); simpl; lia.
  - apply map_Forall_insert_2; [done|]. intros k v Hk. eapply Hall, lookup_weaken; [exact Hk|exact Hsub].
Qed.

Lemma pointerAnswer_inv app tracker t res :
  trackerInv tracker -> pointerAnswer app tracker t res -> trackerInv (fst res).
Proof. intros Hinv [| |identity ? []]; simpl; [done..|by apply trackerInv_insert|by apply trackerInv_insert]. Qed.

Lemma wp_resolveAppVersion_inv app tracker :
  trackerInv tracker -> wp (resolveAppVersion app tracker) (fun _ res => trackerInv (fst (fst (fst res)))).
Proof.
  intros Hinv. unfold resolveAppVersion. cbv zeta.
  assert (Hlive : forall (f : string -> DeployTracker * list Condition * string * bool) tr',
    trackerInv tr' -> (forall v, fst (fst (fst (f v))) = tr') ->
    wp (v ← liveTemplateVersion app; Ret (f v)) (fun _ res => trackerInv (fst (fst (fst res))))).
  { intros f tr' Ht Hf. unfold liveTemplateVersion. apply wp_bind, wp_trigger. intros got. simpl. by rewrite Hf. }
  destruct (negb (trackableBucket app)).
  { destruct (negb _); [done|]. by apply (Hlive (fun v => (tracker, _, v, false)) tracker). }
  destruct (negb _).
  - destruct (is_empty _); [done|]. eapply wp_seq; [apply wp_pointerVersion|].
    intros t [tr' [[cur stale] err]] Ha. apply wp_ret. exact (pointerAnswer_inv _ _ _ _ Hinv Ha).
  - eapply wp_seq; [apply wp_pointerVersion|].
    intros t [tr' [[cur stale] err]] Ha. apply (pointerAnswer_inv _ _ _ _ Hinv) in Ha. simpl in Ha.
    destruct err as [e|]; [|done]. destruct stale; [done|].
    by apply (Hlive (fun v => (tr', _, v, true)) tr').
Qed.

Lemma NewDeployTracker_inv interval : trackerInv (NewDeployTracker interval).
Proof.
  unfold trackerInv, NewDeployTracker, maxTracked; simpl. rewrite map_size_empty.
  split_and!; [|lia|apply map_Forall_empty]. destruct (Z.leb_spec interval 0); [by vm_compute|lia].
Qed.

(** C23: the tracker's cache never holds more than 1024 pointers, however many
    apps come and go and in whatever order Go iterates over it, and a pointer
    that is remembered without a failure has a version. *)
Theorem tracker_bounded app tracker interval key t res :
  trackerInv (NewDeployTracker interval) /\
  (trackerInv tracker -> trackerInv (Forget tracker key)) /\
  (trackerInv tracker -> exec (resolveAppVersion app tracker) t res -> trackerInv (fst (fst (fst res)))).
Proof.
  split_and!.
  - apply NewDeployTracker_inv.
  - intros (Hi & Hsize & Hall). split_and!; simpl; [done|..].
    + pose proof (map_subseteq_size _ _ (delete_subseteq (dt_cache tracker) key)). lia.
    + by apply map_Forall_delete.
  - intros Hinv. apply (proj1 (wp_exec _ _) (wp_resolveAppVersion_inv app tracker Hinv)).
Qed.

(** ** The version to serve *)

Definition fleetRead (app : WorkerApp) (got : error + StatefulSet) : event req :=
  Ev (Get Live KStatefulSet "" (app_Namespace app) (fleetName app)) got.

(** What the fleet already serves, or nothing when that cannot be read. *)
Definition liveVersion (app : WorkerApp) (t : tr) (version : string) : Prop :=
  (exists sts, fleetRead app (inr sts) ∈ t /\
     version = mapGet (tmpl_Annotations (sts_Template (sts_Spec sts))) appVersionAnnotation) \/
  (version = "" /\ exists e, fleetRead app (inl e) ∈ t).

Lemma wp_liveTemplateVersion app : wp (liveTemplateVersion app) (liveVersion app).
Proof.
  apply wp_trigger. intros [e|sts]; apply wp_ret.
  - right. split; [done|]. exists e. apply list_elem_of_here.
  - left. exists sts. split; [apply list_elem_of_here|done].
Qed.

(** A version of the pointer: read in this pass, or remembered under the same
    key. *)
Definition pointedVersion (app : WorkerApp) (tracker : DeployTracker) (t : tr) (version : string) : Prop :=
  version <> "" /\
  (readVersion t version \/ exists c, dt_cache tracker !! trackerKey app = Some c /\ version = tv_version c).

Lemma cachedVersion_Some tracker app identity c :
  cachedVersion tracker app identity = Some c ->
  dt_cache tracker !! trackerKey app = Some c /\ tv_identity c = identity.
Proof.
  unfold cachedVersion. destruct (_ !! _) as [c'|]; [|done].
  destruct (String.eqb_spec (tv_identity c') identity); [|done]. by intros [= <-].
Qed.

(** What an answer without an error, or one that is held, says. *)
Lemma pointerAnswer_pointed app tracker t tracker' version stale err :
  trackerInv tracker -> pointerAnswer app tracker t (tracker', (version, stale, err)) ->
  err = None \/ stale = true -> pointedVersion app tracker t version.
Proof.
  intros (_ & _ & Hall) Ha Hor.
  inversion Ha as [e|identity c Hc|identity res Hres]; subst; [by destruct Hor| |inversion Hres; subst].
  - apply cachedVersion_Some in Hc as [Hc _]. split; [|right; by exists c]. destruct Hor as [Hn|Hs].
    + by eapply Hall.
    + destruct (tv_failure c); [|done]. bool_simp. by apply is_empty_false.
  - split; [done|]. by left.
  - destruct Hor as [?|Hs]; [done|]. bool_simp. apply is_empty_false in Hs. split; [done|].
    destruct (cachedVersion tracker app identity) as [c|] eqn:Hc; [|done].
    apply cachedVersion_Some in Hc as [Hc _]. right. by exists c.
Qed.

(** C21: the version of a fleet is never invented. A pinned version is returned
    as it is. With tracking it is a version of the bucket's pointer, read in
    this pass or remembered, or else what the live fleet already serves; it is
    empty only when the live fleet could not be read or carries no version. *)
Theorem resolveAppVersion_provenance app tracker t tracker' conditions version tracking :
  trackerInv tracker ->
  exec (resolveAppVersion app tracker) t (tracker', conditions, version, tracking) ->
  (spec_AppVersion (app_Spec app) <> AppVersionAuto /\ version = spec_AppVersion (app_Spec app) /\
   tracking = false) \/
  (spec_AppVersion (app_Spec app) = AppVersionAuto /\
   (pointedVersion app tracker t version \/ liveVersion app t version)).
Proof.
  intros Hinv.
  set (Q := fun t (res : DeployTracker * list Condition * string * bool) =>
    let '(_, _, version, tracking) := res in
    (spec_AppVersion (app_Spec app) <> AppVersionAuto /\ version = spec_AppVersion (app_Spec app) /\
     tracking = false) \/
    (spec_AppVersion (app_Spec app) = AppVersionAuto /\
     (pointedVersion app tracker t version \/ liveVersion app t version))).
  assert (Hw : wp (resolveAppVersion app tracker) Q).
  2: { intros Hx. exact (proj1 (wp_exec _ _) Hw _ _ Hx). }
  unfold resolveAppVersion. cbv zeta.
  destruct (String.eqb_spec (spec_AppVersion (app_Spec app)) AppVersionAuto) as [Ha|Ha]; cbn [negb].
  2: { assert (Hret : forall t1 tr' conds, Q t1 (tr', conds, spec_AppVersion (app_Spec app), false)) by (intros; left; by split_and!).
       destruct (negb (trackableBucket app)); [apply wp_ret, Hret|]. destruct (is_empty _); [apply wp_ret, Hret|].
       eapply wp_seq; [apply wp_pointerVersion|]. intros t1 [tr' [[cur stale] err]] _. apply wp_ret, Hret. }
  destruct (negb (trackableBucket app)).
  { eapply wp_seq; [apply wp_liveTemplateVersion|]. intros t1 v Hv. apply wp_ret. right.
    rewrite app_nil_r. split; [done|by right]. }
  eapply wp_seq; [apply wp_pointerVersion|]. intros t1 [tr' [[cur stale] err]] Hp.
  pose proof (pointerAnswer_pointed _ _ _ _ _ _ _ Hinv Hp) as Hpoint.
  destruct err as [e|].
  - destruct stale.
    + apply wp_ret. rewrite app_nil_r. right. split; [done|]. left. apply Hpoint. by right.
    + eapply wp_seq; [apply wp_liveTemplateVersion|]. intros t2 v Hv. apply wp_ret. right. rewrite app_nil_r.
      split; [done|]. right. destruct Hv as [(sts & Hin & ->)|[-> [e' Hin]]].
      * left. exists sts. split; [set_solver|done].
      * right. split; [done|]. exists e'. set_solver.
  - apply wp_ret. rewrite app_nil_r. right. split; [done|]. left. apply Hpoint. by left.
Qed.

End Deploys.

(** ** A tracked app and its bucket *)

Definition autoApp : WorkerApp := withVersion app060 AppVersionAuto "InPlace".
Definition tracker0 : DeployTracker := NewDeployTracker 0.


(** The first pass reads v9 from the bucket. *)
Definition firstPass : M (DeployTracker * list Condition * string * bool) := resolveAppVersion autoApp tracker0.
Definition upStore : store := trackedStore noon (Some (pointerBody "v9")).
Definition tracker1 : DeployTracker := fst (fst (fst (resultOn firstPass upStore))).

Lemma tracker_bounded_witness :
  size (dt_cache tracker1) = 1%nat /\ trackerInv (Forget tracker1 ("prod", "shop")) /\ trackerInv tracker1.
Proof.
  assert (H1 : trackerInv tracker1).
  { destruct (tracker_bounded autoApp tracker0 0 ("prod", "shop") (traceOn firstPass upStore) (resultOn firstPass upStore))
      as (_ & _ & H3). apply H3; [apply NewDeployTracker_inv|apply execOn]. }
  split; [vm_compute; reflexivity|]. split; [|exact H1].
  destruct (tracker_bounded autoApp tracker1 0 ("prod", "shop") [] (tracker1, [], "", false)) as (_ & H2 & _).
  exact (H2 H1).
Defined.

Lemma resolveAppVersion_provenance_witness :
  pointedVersion autoApp tracker0 (traceOn firstPass upStore) "v9" \/
  liveVersion autoApp (traceOn firstPass upStore) "v9".
Proof.
  assert (Hx : exec firstPass (traceOn firstPass upStore)
                 (tracker1, [trackingCondition "True" "Tracking" "following v9"], "v9", true)).
  { pose proof (execOn firstPass upStore) as Hx.
    assert (Hr : resultOn firstPass upStore = (tracker1, [trackingCondition "True" "Tracking" "following v9"], "v9", true))
      by (vm_compute; reflexivity).
    rewrite Hr in Hx. exact Hx. }
  destruct (resolveAppVersion_provenance autoApp tracker0 _ _ _ _ _ (NewDeployTracker_inv 0) Hx) as [(Hne & _)|[_ Hv]].
  - destruct Hne. reflexivity.
  - exact Hv.
Defined.
