(* ===== verification/DeploysHistory.v ===== *)
(** * Deploy tracking over many calls

    What [pointerVersion] ([internal/controller/deploytracker.go]) does over a
    history of calls, for this app and others, on one tracker: how often the
    bucket is asked, and which version is answered while it cannot be read. *)

From S2P Require Import Prelude GoStrings GoTime Effects Kube Api Cluster Resources FleetState Ensure Owned Deploys.
From S2P Require Import Rollout Sample DeploysTheorems.
From Stdlib Require Import Sorted.

Local Open Scope Z_scope.

(** ** The clock *)

Definition nowRead (ev : event req) : option Z :=
  (match ev_req ev in req X return X -> option Z with
   | Now => fun now => Some now
   | _ => fun _ => None
   end) (ev_resp ev).

Definition clockReads (t : tr) : list Z := omap nowRead t.

(** [time.Now] carries a monotonic reading: differences of times never see the
    clock step back. *)
Definition clockForward (t : tr) : Prop := StronglySorted Z.le (clockReads t).

Lemma clockReads_elem t now : Ev Now now ∈ t -> now ∈ clockReads t.
Proof. intros Hin. apply list_elem_of_omap. by exists (Ev Now now). Qed.

Lemma clockForward_app t1 t2 n1 n2 :
  clockForward (t1 ++ t2) -> Ev Now n1 ∈ t1 -> Ev Now n2 ∈ t2 -> n1 <= n2.
Proof.
  unfold clockForward, clockReads. rewrite omap_app. intros Hs H1%clockReads_elem H2%clockReads_elem.
  by eapply StronglySorted_app_1_elem_of.
Qed.

Lemma timeSub_mono t u u' : u' <= u -> timeSub t u <= timeSub t u'.
Proof. unfold timeSub. lia. Qed.

Section History.
Context `{KubeLib}.

(** ** One call *)

(** The identity of the pointer a call is about, if the Secret could be read. *)
Definition secretIdentity (app : WorkerApp) (t : tr) : option string :=
  if is_empty (spec_DeployTrackingSecretRef (app_Spec app)) then Some (pointerIdentity app "" "")
  else match head t ≫= objAnswer KSecret with
       | Some (inr s) => Some (pointerIdentity app (meta_UID (secret_Meta s)) (meta_ResourceVersion (secret_Meta s)))
       | _ => None
       end.

(** What a call answers, and the tracker it leaves behind. *)
Inductive callResult (app : WorkerApp) (tracker : DeployTracker) (t : tr)
  : DeployTracker * (string * bool * option error) -> Prop :=
| CallUnidentified e :
    secretIdentity app t = None -> pointerReads t = [] -> callResult app tracker t (tracker, ("", false, Some e))
| CallCached id c :
    secretIdentity app t = Some id -> cachedVersion tracker app id = Some c -> pointerReads t = [] ->
    callResult app tracker t
      (tracker, (tv_version c, match tv_failure c with Some _ => negb (is_empty (tv_version c)) | None => false end,
                 tv_failure c))
| CallRefreshed id fresh err t0 now cache :
    secretIdentity app t = Some id -> t = t0 ++ [Ev Now now] ->
    (forall c, cachedVersion tracker app id = Some c ->
       exists now0, Ev Now now0 ∈ t /\ dt_Interval tracker <= timeSub now0 (tv_fetchedAt c)) ->
    ((size (dt_cache tracker) < maxTracked)%nat -> cache = dt_cache tracker) ->
    match err with
    | None => readVersion t fresh /\ fresh <> ""
    | Some _ => fresh = match cachedVersion tracker app id with Some c => tv_version c | None => "" end
    end ->
    callResult app tracker t
      (setCache tracker (<[trackerKey app := mkTrackedVersion fresh now id err]> cache),
       (fresh, match err with Some _ => negb (is_empty fresh) | None => false end, err)).

Lemma wp_refresh_result app tracker id t1 :
  (forall t2, secretIdentity app (t1 ++ t2) = Some id) ->
  (forall c, cachedVersion tracker app id = Some c ->
     exists now0, Ev Now now0 ∈ t1 /\ dt_Interval tracker <= timeSub now0 (tv_fetchedAt c)) ->
  wp (refreshPointer app tracker id (cachedVersion tracker app id))
    (fun t res => callResult app tracker (t1 ++ t) res).
Proof.
  intros Hid Hdue. unfold refreshPointer. eapply wp_seq; [apply wp_currentBucketVersion|]. intros t2 got Hgot.
  set (pair := match got with inr v => _ | inl e => _ end).
  assert (Hfresh : match snd pair with
                   | None => readVersion t2 (fst pair) /\ fst pair <> ""
                   | Some _ => fst pair = match cachedVersion tracker app id with Some c => tv_version c | None => "" end
                   end) by (by destruct got).
  destruct pair as [fresh err]. simpl in Hfresh.
  eapply wp_seq; [apply wp_evict|]. intros t3 cache (_ & _ & _ & Hroom).
  apply wp_trigger. intros now. apply wp_ret.
  apply (CallRefreshed app tracker _ id fresh err (t1 ++ t2 ++ t3)).
  - apply Hid.
  - by rewrite <- !app_assoc.
  - intros c Hc. destruct (Hdue c Hc) as (now0 & Hin & Hle). exists now0. split; [set_solver|done].
  - exact Hroom.
  - destruct err; [done|]. destruct Hfresh as [Hr Hne]. split; [|done].
    apply readVersion_app. right. apply readVersion_app. by left.
Qed.

Lemma wp_identified_result app tracker id t1 :
  (forall t2, secretIdentity app (t1 ++ t2) = Some id) -> pointerReads t1 = [] ->
  wp (match cachedVersion tracker app id with
      | None => refreshPointer app tracker id None
      | Some cached =>
          now ← trigger Now;
          if timeSub now (tv_fetchedAt cached) <? dt_Interval tracker then
            Ret (tracker, (tv_version cached,
                           match tv_failure cached with Some _ => negb (is_empty (tv_version cached)) | None => false end,
                           tv_failure cached))
          else refreshPointer app tracker id (Some cached)
      end) (fun t res => callResult app tracker (t1 ++ t) res).
Proof.
  intros Hid Hnone. destruct (cachedVersion tracker app id) as [c|] eqn:Hc.
  - apply wp_trigger. intros now. destruct (Z.ltb_spec (timeSub now (tv_fetchedAt c)) (dt_Interval tracker)) as [Hlt|Hge].
    + apply wp_ret. apply (CallCached _ _ _ id c); [apply Hid|done|]. unfold pointerReads in *. by rewrite omap_app, Hnone.
    + rewrite <- Hc. eapply wp_mono; [|apply (wp_refresh_result app tracker id (t1 ++ [Ev Now now]))].
      * intros t res. cbv beta. by rewrite <- app_assoc.
      * intros t2. rewrite <- app_assoc. apply Hid.
      * intros c' Hc'. exists now. rewrite Hc in Hc'. injection Hc' as <-. split; [set_solver|done].
  - rewrite <- Hc. apply wp_refresh_result; [done|]. intros c'. by rewrite Hc.
Qed.

Lemma wp_pointerVersion_result app tracker : wp (pointerVersion app tracker) (callResult app tracker).
Proof.
  unfold pointerVersion. cbv zeta. destruct (is_empty (spec_DeployTrackingSecretRef (app_Spec app))) eqn:Href.
  - apply wp_bind, wp_ret. apply (wp_identified_result app tracker _ []); [|done].
    intros t2. unfold secretIdentity. by rewrite Href.
  - apply wp_bind, wp_trigger. intros [e|s]; apply wp_ret.
    + apply wp_ret, CallUnidentified; [|done]. unfold secretIdentity. by rewrite Href.
    + apply (wp_identified_result app tracker _ [_]); [|done].
      intros t2. unfold secretIdentity. by rewrite Href.
Qed.

Lemma pointerVersion_result app tracker t res :
  exec (pointerVersion app tracker) t res -> callResult app tracker t res.
Proof. apply (proj1 (wp_exec _ _) (wp_pointerVersion_result app tracker)). Qed.

(** ** Many calls *)

(** What happens to a tracker: a call for an app, and the deletion of one. *)
Inductive op :=
| Polled (app : WorkerApp) (t : tr) (answer : string * bool * option error)
| Forgot (key : string * string).

(** A history during which the cache never fills up, so that nothing is evicted
    to make room. *)
Inductive history : DeployTracker -> list op -> DeployTracker -> Prop :=
| HistoryEnd tracker : history tracker [] tracker
| HistoryPoll tracker app t tracker1 answer ops tracker2 :
    (size (dt_cache tracker) < maxTracked)%nat ->
    exec (pointerVersion app tracker) t (tracker1, answer) -> history tracker1 ops tracker2 ->
    history tracker (Polled app t answer :: ops) tracker2
| HistoryForget tracker key ops tracker2 :
    history (Forget tracker key) ops tracker2 -> history tracker (Forgot key :: ops) tracker2.

Definition opTrace (o : op) : tr := match o with Polled _ t _ => t | Forgot _ => [] end.
Definition opsTrace (ops : list op) : tr := ops ≫= opTrace.

(** The app under [key] is not deleted meanwhile, and calls for it are about the
    same pointer or cannot read the Secret. *)
Definition undisturbed (key : string * string) (id : string) (o : op) : Prop :=
  match o with
  | Polled app t _ => trackerKey app = key -> secretIdentity app t = None \/ secretIdentity app t = Some id
  | Forgot key' => key' <> key
  end.

(** A call for [key] in [ops] read the version from the bucket. *)
Definition readBy (key : string * string) (ops : list op) (version : string) : Prop :=
  exists app t answer, Polled app t answer ∈ ops /\ trackerKey app = key /\ readVersion t version.

(** What the tracker knows of the pointer [id] of [key]. *)
Definition known (key : string * string) (id : string) (tracker : DeployTracker) (c : trackedVersion) : Prop :=
  dt_cache tracker !! key = Some c /\ tv_identity c = id.

Lemma known_cached key id tracker c app :
  known key id tracker c -> trackerKey app = key -> cachedVersion tracker app id = Some c.
Proof. intros [Hc <-] <-. unfold cachedVersion. by rewrite Hc, String.eqb_refl. Qed.

(** [c'] is [c], or was fetched during [t] and holds the same version or one read
    then. *)
Definition renewed (t : tr) (c c' : trackedVersion) : Prop :=
  c' = c \/ (Ev Now (tv_fetchedAt c') ∈ t /\
             (tv_version c' = tv_version c \/ (readVersion t (tv_version c') /\ tv_version c' <> ""))).

Lemma callResult_known app tracker t tracker' answer key id c :
  (size (dt_cache tracker) < maxTracked)%nat -> callResult app tracker t (tracker', answer) ->
  undisturbed key id (Polled app t answer) -> known key id tracker c ->
  dt_Interval tracker' = dt_Interval tracker /\
  exists c', known key id tracker' c' /\ (c' = c \/ (trackerKey app = key /\ renewed t c c')).
Proof.
  intros Hroom Hcall Hun Hk. inversion Hcall as [e Hid Hr|id' c0 Hid Hc0 Hr|id' fresh err t0 now cache Hid Ht Hdue Hcache Hfresh];
    subst tracker' answer; (split; [done|]); [exists c; auto..|].
  rewrite (Hcache Hroom). destruct (decide (trackerKey app = key)) as [Hkey|Hne].
  - destruct (Hun Hkey) as [Hn|Hs]; rewrite Hid in *; [done|]. injection Hs as ->.
    exists (mkTrackedVersion fresh now id err). split; [split; [|done]; rewrite Hkey; apply lookup_insert_eq|].
    right. split; [done|]. right. simpl. split; [rewrite Ht; set_solver|].
    rewrite (known_cached _ _ _ _ _ Hk Hkey) in Hfresh. destruct err; [by left|by right].
  - exists c. split; [|by left]. destruct Hk as [Hk ?]. split; [|done]. simpl. by rewrite lookup_insert_ne.
Qed.

Lemma history_known tracker ops tracker2 key id c :
  history tracker ops tracker2 -> Forall (undisturbed key id) ops -> known key id tracker c ->
  dt_Interval tracker2 = dt_Interval tracker /\
  exists c2, known key id tracker2 c2 /\
    (tv_fetchedAt c2 = tv_fetchedAt c \/ Ev Now (tv_fetchedAt c2) ∈ opsTrace ops) /\
    (tv_version c2 = tv_version c \/ (readBy key ops (tv_version c2) /\ tv_version c2 <> "")).
Proof.
  intros Hh. revert c. induction Hh as [tracker|tracker app t tracker1 answer ops tracker2 Hroom Hx Hh IH
                                       |tracker k ops tracker2 Hh IH]; intros c Hun Hk.
  - split; [done|]. exists c. auto.
  - apply Forall_cons in Hun as [Ho Hun]. apply pointerVersion_result in Hx.
    destruct (callResult_known _ _ _ _ _ _ _ _ Hroom Hx Ho Hk) as (Hi1 & c1 & Hk1 & Hc1).
    destruct (IH c1 Hun Hk1) as (Hi2 & c2 & Hk2 & Hf2 & Hv2). split; [congruence|]. exists c2. split; [done|].
    assert (Hlater : forall v, readBy key ops v -> readBy key (Polled app t answer :: ops) v).
    { intros v (a & t' & an & ? & ? & ?). exists a, t', an. split_and!; [by right|done..]. }
    assert (Hhere : forall v, trackerKey app = key -> readVersion t v -> readBy key (Polled app t answer :: ops) v).
    { intros v Hkey Hv. exists app, t, answer. split_and!; [left|done..]. }
    change (opsTrace (Polled app t answer :: ops)) with (t ++ opsTrace ops).
    destruct Hc1 as [-> |[Hkey [-> |[Hf1 Hv1]]]]; [split; [set_solver|naive_solver]..|].
    split.
    + destruct Hf2 as [-> |Hf2]; right; set_solver.
    + destruct Hv2 as [-> |[Hv2 ?]]; [|right; auto]. destruct Hv1 as [? |[Hv1 ?]]; [by left|right; auto].
  - apply Forall_cons in Hun as [Hne Hun]. simpl in Hne.
    destruct (IH c Hun) as (Hi & c2 & ? & ? & Hv); [|split; [done|]; exists c2; split_and!; [done..|]].
    + destruct Hk as [Hk ?]. split; [|done]. simpl. by rewrite lookup_delete_ne.
    + destruct Hv as [?|[(a & t' & an & ? & ? & ?) ?]]; [by left|right]. split; [|done].
      exists a, t', an. split_and!; [by right|done..].
Qed.

(** A call that asked the bucket leaves its outcome behind. *)
Lemma callResult_fetched app tracker t tracker' answer id :
  callResult app tracker t (tracker', answer) -> pointerReads t <> [] -> secretIdentity app t = Some id ->
  dt_Interval tracker' = dt_Interval tracker /\
  exists t0 now c, t = t0 ++ [Ev Now now] /\ known (trackerKey app) id tracker' c /\
    tv_fetchedAt c = now /\ tv_version c = fst (fst answer).
Proof.
  intros Hcall Hr Hid. inversion Hcall as [e Hid' Hr'|id' c0 Hid' Hc0 Hr'|id' fresh err t0 now cache Hid' Ht Hdue Hcache Hfresh];
    subst tracker' answer; [done..|].
  split; [done|]. exists t0, now, (mkTrackedVersion fresh now id err). rewrite Hid' in Hid. injection Hid as ->.
  split_and!; [done| |done..]. split; [apply lookup_insert_eq|done].
Qed.

(** C22: over any history of calls and deletions on one tracker whose cache does
    not fill up, the bucket is asked for a pointer at most once per interval,
    and a version that was seen is held. After a call that asked the bucket for
    the pointer of an app, and as long as the app is not deleted and its pointer
    stays the same, a later call asks again only when the clock it reads is at
    least an interval past the one the first call read last. If the first call
    answered a version, the later one answers that version or one that a call
    for the app has read from the bucket since, and marks it stale when it
    reports an error. Only a call that cannot read the Secret answers no
    version; it leaves the tracker as it is. *)
Theorem pointer_polled_and_held app tracker t tracker1 answer ops tracker2 app' t' tracker3 version stale err id :
  exec (pointerVersion app tracker) t (tracker1, answer) -> pointerReads t <> [] -> secretIdentity app t = Some id ->
  history tracker1 ops tracker2 -> Forall (undisturbed (trackerKey app) id) ops ->
  exec (pointerVersion app' tracker2) t' (tracker3, (version, stale, err)) -> trackerKey app' = trackerKey app ->
  clockForward (t ++ opsTrace ops ++ t') ->
  (secretIdentity app' t' = None -> tracker3 = tracker2 /\ version = "" /\ stale = false /\ err <> None) /\
  (secretIdentity app' t' = Some id ->
   (pointerReads t' <> [] ->
      exists t0 now now', t = t0 ++ [Ev Now now] /\ Ev Now now' ∈ t' /\ dt_Interval tracker <= timeSub now' now) /\
   (fst (fst answer) <> "" ->
      version <> "" /\ (err <> None -> stale = true) /\
      (version = fst (fst answer) \/
       readBy (trackerKey app) (ops ++ [Polled app' t' (version, stale, err)]) version))).
Proof.
  intros Hx Hr Hid Hh Hun Hx' Hkey Hclock. apply pointerVersion_result in Hx, Hx'.
  destruct (callResult_fetched _ _ _ _ _ _ Hx Hr Hid) as (Hi1 & t0 & now & c & Ht & Hk & Hf & Hv).
  destruct (history_known _ _ _ _ _ _ Hh Hun Hk) as (Hi2 & c2 & Hk2 & Hf2 & Hv2).
  pose proof (known_cached _ _ _ _ _ Hk2 Hkey) as Hc2.
  assert (Hnow : now <= tv_fetchedAt c2).
  { destruct Hf2 as [-> |Hf2]; [lia|]. eapply clockForward_app; [exact Hclock|rewrite Ht; set_solver|set_solver]. }
  assert (Hans : fst (fst answer) <> "" -> tv_version c2 <> "").
  { rewrite <- Hv. destruct Hv2 as [-> |[_ ?]]; done. }
  assert (Hread : forall l, tv_version c2 = fst (fst answer) \/ readBy (trackerKey app) (ops ++ l) (tv_version c2)).
  { intros l. rewrite <- Hv. destruct Hv2 as [? |[(a & ta & an & ? & ? & ?) _]]; [by left|right].
    exists a, ta, an. split_and!; [set_solver|done..]. }
  inversion Hx' as [e Hid' Hr'|id' c0 Hid' Hc0 Hr'|id' fresh err' t0' now' cache Hid' Ht' Hdue Hcache Hfresh]; subst;
    rewrite Hid'; (split; [intros ?; try discriminate|intros [= ->]]); try by split_and!.
  - rewrite Hc2 in Hc0. injection Hc0 as ->. split; [done|]. intros Hne. apply Hans in Hne.
    split_and!; [done| |apply Hread]. intros Hfail. destruct (tv_failure c0); [|done].
    apply negb_true_iff. by apply is_empty_false.
  - split.
    + intros _. destruct (Hdue c2 Hc2) as (n0 & Hin & Hle). exists t0, (tv_fetchedAt c), n0. split_and!; [done..|].
      rewrite <- Hi1, <- Hi2. etrans; [exact Hle|]. by apply timeSub_mono.
    + intros Hne. apply Hans in Hne. rewrite Hc2 in Hfresh. destruct err as [e|].
      * subst version. split_and!; [done| |apply Hread]. intros _. apply negb_true_iff. by apply is_empty_false.
      * destruct Hfresh as [Hrv ?]. split_and!; [done|done|right].
        eexists app', _, _. split_and!; [apply elem_of_app; right; left|done..].
Qed.

End History.

(** ** A bucket that goes down *)

(** The first call reads v9, the second, half a minute later, finds it in the
    cache, the third, after two minutes, finds the bucket down. *)
Definition halfStore : store := trackedStore (noon + 30 * Second) (Some (pointerBody "v10")).
Definition downStore : store := trackedStore (noon + 120 * Second) None.

Definition poll1 : M (DeployTracker * (string * bool * option error)) := pointerVersion autoApp tracker0.
Definition polled1 : DeployTracker := fst (resultOn poll1 upStore).
Definition poll2 : M (DeployTracker * (string * bool * option error)) := pointerVersion autoApp polled1.
Definition polled2 : DeployTracker := fst (resultOn poll2 halfStore).
Definition poll3 : M (DeployTracker * (string * bool * option error)) := pointerVersion autoApp polled2.

Definition between : list op := [Polled autoApp (traceOn poll2 halfStore) (snd (resultOn poll2 halfStore))].
Definition autoIdentity : string := pointerIdentity autoApp "secret-uid" "1".

(** The outcome of the third call. *)
Definition downError : error := Wrapf "reading deploy/current.json" notFound.

Lemma pointer_polled_and_held_witness :
  resultOn poll3 downStore = (fst (resultOn poll3 downStore), ("v9", true, Some downError)) /\
  snd (resultOn poll2 halfStore) = ("v9", false, None) /\ pointerReads (traceOn poll2 halfStore) = [] /\
  exists t0 now now', traceOn poll1 upStore = t0 ++ [Ev Now now] /\ Ev Now now' ∈ traceOn poll3 downStore /\
    dt_Interval tracker0 <= timeSub now' now.
Proof.
  assert (Hr : resultOn poll3 downStore = (fst (resultOn poll3 downStore), ("v9", true, Some downError)))
    by (vm_compute; reflexivity).
  split; [exact Hr|]. split; [vm_compute; reflexivity|]. split; [vm_compute; reflexivity|].
  pose proof (execOn poll3 downStore) as Hx. rewrite Hr in Hx.
  assert (Hx1 : exec poll1 (traceOn poll1 upStore) (polled1, snd (resultOn poll1 upStore)))
    by (unfold polled1; rewrite <- surjective_pairing; apply execOn).
  refine (proj1 (proj2 (pointer_polled_and_held autoApp tracker0 (traceOn poll1 upStore) polled1
    (snd (resultOn poll1 upStore)) between polled2 autoApp (traceOn poll3 downStore) _ "v9" true (Some downError)
    autoIdentity Hx1 _ _ _ _ Hx _ _) _) _).
  - vm_compute. discriminate.
  - vm_compute. reflexivity.
  - eapply HistoryPoll; [|unfold polled2; rewrite <- surjective_pairing; apply execOn|apply HistoryEnd].
    apply Nat.ltb_lt. vm_compute. reflexivity.
  - constructor; [|constructor]. intros _. right. vm_compute. reflexivity.
  - reflexivity.
  - vm_compute. repeat constructor; discriminate.
  - vm_compute. reflexivity.
  - vm_compute. discriminate.
Defined.
