(* ===== verification/ValidationTheorems.v ===== *)
(** * The properties of spec validation

    What [validateApp] accepts, as a declarative predicate, and what an accepted
    image gives the rollout: a version its gates can read
    ([internal/controller/validation.go]). *)

From S2P Require Import Prelude GoStrings Versions Effects Kube Api Cluster Resources Ensure Deploys Validation.
From S2P Require Import FleetState Rollout Sample.
From Stdlib Require Import Ascii.

Local Open Scope Z_scope.

(** ** The grammar of tags *)

Definition isNumber (s : string) : Prop := all_digits s = true /\ s <> "".

Definition tagSuffix (s : string) : Prop :=
  s = "" \/ exists c r, s = String c r /\ isSuffixStart c = true /\ r <> "" /\ allBytes isSuffixByte r = true.

(** [tag] is [[v]a.b.c[suffix]]. *)
Definition versionTag (tag a b : string) (rest : string) : Prop :=
  exists v c s, tag = v +:+ a +:+ "." +:+ b +:+ rest /\ rest = "." +:+ c +:+ s /\
    (v = "" \/ v = "v") /\ isNumber a /\ isNumber b /\ isNumber c /\ tagSuffix s.

(** A string that does not start with a digit. *)
Definition noDigit (s : string) : Prop := match s with String c _ => isDigit c = false | EmptyString => True end.

Lemma digitRun_app d r : all_digits d = true -> noDigit r -> digitRun (d +:+ r) = (d, r).
Proof.
  intros Hd Hr. induction d as [|c d IH]; str_simpl.
  - destruct r as [|c r]; [done|]. simpl in *. by rewrite Hr.
  - bool_simp. rewrite H, IH; done.
Qed.

Lemma digitRun_split s : s = fst (digitRun s) +:+ snd (digitRun s) /\ all_digits (fst (digitRun s)) = true.
Proof.
  induction s as [|c s [IH1 IH2]]; [done|]. simpl. destruct (isDigit c) eqn:Hc; [|done].
  destruct (digitRun s) as [d r]; cbn [fst snd all_digits] in *. rewrite Hc, IH2.
  change (String c d +:+ r) with (String c (d +:+ r)). by rewrite <- IH1.
Qed.

Lemma matchDigits_Some s r : matchDigits s = Some r -> exists d, s = d +:+ r /\ isNumber d.
Proof.
  unfold matchDigits. destruct (digitRun_split s) as [Hs Hd]. destruct (digitRun s) as [d r']; simpl in *.
  destruct (is_empty d) eqn:He; [done|]. intros [= <-]. exists d. split; [done|]. split; [done|].
  by apply is_empty_false.
Qed.

Lemma matchDigits_app d r : isNumber d -> noDigit r -> matchDigits (d +:+ r) = Some r.
Proof.
  intros [Hd Hne] Hr. unfold matchDigits. rewrite digitRun_app by done.
  by rewrite (proj2 (is_empty_false d) Hne).
Qed.

Lemma matchDot_Some s r : matchDot s = Some r -> s = String "." r.
Proof.
  unfold matchDot. destruct s as [|c s]; [done|].
  destruct c as [[] [] [] [] [] [] [] []]; try done. by intros [= <-].
Qed.

Lemma matchSuffix_spec s : matchSuffix s = true <-> tagSuffix s.
Proof.
  unfold matchSuffix, tagSuffix. destruct s as [|c r]; [by split; [left|]|]. split.
  - intros Hm. bool_simp. right. exists c, r. rewrite is_empty_false in *. by split_and!.
  - intros [?|(c' & r' & [= <- <-] & Hc & Hr & Ha)]; [done|].
    by rewrite Hc, Ha, (proj2 (is_empty_false r) Hr).
Qed.

Lemma tagSuffix_noDigit s : tagSuffix s -> noDigit s.
Proof.
  intros [->|(c & r & -> & Hc & _)]; [done|]. unfold isSuffixStart in Hc. simpl.
  destruct c as [[] [] [] [] [] [] [] []]; try discriminate Hc; done.
Qed.

(** The part of a tag after an optional v. *)
Definition afterV (tag : string) : string := match tag with String "v" r => r | _ => tag end.

Lemma afterV_split tag : exists v, tag = v +:+ afterV tag /\ (v = "" \/ v = "v").
Proof.
  destruct tag as [|c s]; [exists ""; split; [done|by left]|].
  destruct c as [[] [] [] [] [] [] [] []];
    first [by exists ""; split; [|left]| exists "v"; split; [reflexivity|by right]].
Qed.

Lemma afterV_number v a r : v = "" \/ v = "v" -> isNumber a -> afterV (v +:+ a +:+ r) = a +:+ r.
Proof.
  intros [->| ->] [Ha Hne]; [|reflexivity]. destruct a as [|c a]; [done|]. str_simpl. bool_simp.
  destruct c as [[] [] [] [] [] [] [] []]; first [discriminate H|reflexivity].
Qed.

(** The regular expression accepts exactly the tags of the grammar. *)
Lemma runtimeImageTag_spec tag : runtimeImageTag tag = true <-> exists a b rest, versionTag tag a b rest.
Proof.
  unfold runtimeImageTag. fold (afterV tag). split.
  - intros Hm. destruct (afterV_split tag) as (v & Htag & Hv).
    destruct (matchDigits (afterV tag)) as [r1|] eqn:E1; simpl in Hm; [|done].
    destruct (matchDot r1) as [r2|] eqn:E2; simpl in Hm; [|done].
    destruct (matchDigits r2) as [r3|] eqn:E3; simpl in Hm; [|done].
    destruct (matchDot r3) as [r4|] eqn:E4; simpl in Hm; [|done].
    destruct (matchDigits r4) as [r5|] eqn:E5; simpl in Hm; [|done].
    apply matchDigits_Some in E1 as (a & Ha & Na), E3 as (b & Hb & Nb), E5 as (c & Hc & Nc).
    apply matchDot_Some in E2 as ->, E4 as ->. apply matchSuffix_spec in Hm.
    exists a, b, ("." +:+ c +:+ r5), v, c, r5. split_and!; try done.
    rewrite Htag, Ha, Hb, Hc. by str_simpl.
  - intros (a & b & rest & v & c & s & -> & -> & Hv & Na & Nb & Nc & Hs).
    rewrite afterV_number by done.
    change ("." +:+ b +:+ "." +:+ c +:+ s) with (String "." (b +:+ String "." (c +:+ s))).
    rewrite matchDigits_app by done. simpl. rewrite matchDigits_app by done. simpl.
    rewrite matchDigits_app by (done || by apply tagSuffix_noDigit). by apply matchSuffix_spec.
Qed.

(** ** The image of an accepted app *)

Lemma sliceFrom_split n s : exists d, s = d +:+ sliceFrom n s.
Proof.
  revert s. induction n as [|n IH]; intros s; [by exists ""|]. destruct s as [|c s]; [by exists ""|].
  destruct (IH s) as [d Hd]. exists (String c d). str_simpl. by rewrite <- Hd.
Qed.

Lemma imageTag_split image tag :
  imageTag image = (tag, true) ->
  exists repo digest, image = repo +:+ ":" +:+ tag +:+ digest /\ has_byte "@" (repo +:+ ":" +:+ tag) = false /\
    (digest = "" \/ exists d, digest = String "@" d).
Proof.
  unfold imageTag. destruct (Cut "@" image) as [[img after] found] eqn:Hat.
  destruct (sliceFrom_split (Z.to_nat (LastIndex "/" img + 1)) img) as [dir Hdir].
  destruct (Cut ":" _) as [[name tag'] tagged] eqn:Hc. intros [= -> ->]. apply Cut_found in Hc. rewrite Hc in Hdir.
  assert (Himg : img = (dir +:+ name) +:+ ":" +:+ tag) by (rewrite string_app_assoc; exact Hdir).
  exists (dir +:+ name).
  assert (Hno : has_byte "@" img = false) by (pose proof (Cut_before_absent "@" image) as Hb; by rewrite Hat in Hb).
  rewrite <- Himg. destruct found.
  - apply Cut_found in Hat. exists (String "@" after). split_and!; [|done|right; by exists after].
    rewrite Hat, Himg, !string_app_assoc. by str_simpl.
  - exists "". split_and!; [|done|by left]. pose proof (Cut_not_found _ _ _ _ Hat) as Hn.
    rewrite Cut_absent in Hat by done. injection Hat as Hi _. rewrite Hi, Himg, string_app_nil_r. done.
Qed.

Lemma allBytes_has_byte f c s : f c = false -> allBytes f s = true -> has_byte c s = false.
Proof.
  intros Hc. induction s as [|d s IH]; simpl; [done|]. intros Hs. bool_simp. rewrite IH by done.
  destruct (Ascii.eqb_spec d c); [congruence|done].
Qed.

Lemma tagSuffix_no_byte ch s : isSuffixStart ch = false -> isSuffixByte ch = false -> tagSuffix s -> has_byte ch s = false.
Proof.
  intros H1 H2 [->|(c & r & -> & Hc & _ & Ha)]; [done|]. simpl. rewrite (allBytes_has_byte isSuffixByte) by done.
  destruct (Ascii.eqb_spec c ch); [congruence|done].
Qed.

(** A tagged image with numbers that fit has the version of its tag. *)
Lemma minorOf_versionTag image tag a b rest :
  imageTag image = (tag, true) -> versionTag tag a b rest -> is_int64 (numeral a) -> is_int64 (numeral b) ->
  minorOf image = Some (MinorVersion (numeral a) (numeral b)).
Proof.
  intros Ht (v & c & s & -> & -> & Hv & [Ha Ha'] & [Hb Hb'] & [Hc Hc'] & Hs) Hia Hib.
  apply imageTag_split in Ht as (repo & digest & -> & Hat & Hd).
  rewrite has_byte_app in Hat. apply orb_false_iff in Hat as [Hrepo _].
  assert (Hrest : forall ch, isDigit ch = false -> isSuffixStart ch = false -> isSuffixByte ch = false ->
            ch <> "."%char -> has_byte ch ("." +:+ c +:+ s) = false).
  { intros ch H1 H2 H3 H4. rewrite !has_byte_app, (tagSuffix_no_byte ch s), (all_digits_no_byte ch c) by done.
    cbn [has_byte orb]. rewrite orb_false_r. destruct (Ascii.eqb_spec "." ch) as [<-|_]; [by destruct H4|reflexivity]. }
  rewrite !string_app_assoc.
  replace (v +:+ a +:+ "." +:+ b +:+ "." +:+ c +:+ s +:+ digest)
    with (v +:+ a +:+ "." +:+ b +:+ ("." +:+ c +:+ s) +:+ digest) by (by rewrite !string_app_assoc).
  apply minorOf_tag; try done; [|by apply Hrest|by apply Hrest].
  right. exists (c +:+ s). reflexivity.
Qed.

(** ** What is accepted *)

Section Validation.
Context `{KubeLib}.

(** At most one of the three ways to authenticate is chosen. *)
Definition oneFamily (c : BucketCredentials) : Prop :=
  (creds_IAMRole c = "" /\ creds_SecretRef c = "") \/ (creds_IAMRole c = "" /\ creds_AzureClientID c = "") \/
  (creds_SecretRef c = "" /\ creds_AzureClientID c = "").

(** The operator's administrator allows the image, the identity and the endpoint. *)
Record trusted (r : WorkerAppReconciler) (app : WorkerApp) : Prop := mkTrusted {
  tr_image : exists prefix, prefix ∈ allowedPrefixes r /\ HasPrefix prefix (celld_Image (spec_Celld (app_Spec app))) = true;
  tr_family : oneFamily (bucket_CredentialsFrom (spec_Bucket (app_Spec app)));
  tr_role : let role := creds_IAMRole (bucket_CredentialsFrom (spec_Bucket (app_Spec app))) in
            role = "" \/ role = iamRoleAuto \/ role ∈ r_AllowedIAMRoles r;
  tr_azure : let id := creds_AzureClientID (bucket_CredentialsFrom (spec_Bucket (app_Spec app))) in
             id = "" \/ id ∈ r_AllowedAzureClientIDs r;
  tr_endpoint : let endpoint := bucket_Endpoint (spec_Bucket (app_Spec app)) in
                endpoint = "" \/
                (endpoint ∈ r_AllowedBucketEndpoints r /\
                 exists u, urlParse endpoint = Some u /\ parsed_Scheme u = "https" /\ parsed_Hostname u <> "" /\
                           parsed_User u = false /\ parsed_RawQuery u = "" /\ parsed_Fragment u = "")
}.

(** The app can run as it is specified. *)
Record wellFormed (app : WorkerApp) : Prop := mkWellFormed {
  wf_name : (String.length (app_Name app) <= 48)%nat /\ IsDNS1123Label (app_Name app) = true;
  wf_hosts : Forall (fun h => IsDNS1123Subdomain h = true \/ IsWildcardDNS1123Subdomain h = true)
               (spec_Hostnames (app_Spec app));
  wf_version : spec_AppVersion (app_Spec app) <> "";
  wf_image : exists tag a b rest, imageTag (celld_Image (spec_Celld (app_Spec app))) = (tag, true) /\
                                  versionTag tag a b rest;
  wf_auto : spec_AppVersion (app_Spec app) = AppVersionAuto ->
            trackableBucket app = true /\ spec_DeployTrackingSecretRef (app_Spec app) <> "";
  wf_refs : Forall (fun ref => ref = "" \/ IsDNS1123Subdomain ref = true)
              [creds_SecretRef (bucket_CredentialsFrom (spec_Bucket (app_Spec app)));
               spec_DeployTrackingSecretRef (app_Spec app)];
  wf_vars : forall vars, spec_Vars (app_Spec app) = Some vars ->
            vars_SecretRef vars <> "" /\ IsDNS1123Subdomain (vars_SecretRef vars) = true /\
            forall v, minorOf (celld_Image (spec_Celld (app_Spec app))) = Some v -> cmp v (MinorVersion 0 5) < 0;
  wf_size : 1 <= desiredReplicas app /\ 0 <= res_MemoryGi (spec_Resources (app_Spec app)) <= 65536;
  wf_scaling : forall a, spec_Autoscaling (app_Spec app) = Some a -> as_Enabled a = true ->
               defaultPositive (as_MinReplicas a) 2 <= defaultPositive (as_MaxReplicas a) 10;
  wf_durability : spec_Durability (app_Spec app) = DurabilityFleet ->
                  spec_Storage (app_Spec app) <> None /\ 3 <= desiredReplicas app /\
                  forall a, spec_Autoscaling (app_Spec app) = Some a -> as_Enabled a = true ->
                    3 <= defaultPositive (as_MinReplicas a) 2;
  wf_domain : IsDNS1123Subdomain (clusterDomain app) = true
}.

Lemma contains_spec l s : contains l s = true <-> s ∈ l.
Proof.
  unfold contains. rewrite existsb_exists. split.
  - intros (x & Hin & ->%String.eqb_eq). by apply list_elem_of_In.
  - intros Hin. exists s. rewrite <- list_elem_of_In. split; [done|]. apply String.eqb_refl.
Qed.

Lemma endpointAllowed_spec r endpoint :
  endpointAllowed r endpoint = true <->
  endpoint ∈ r_AllowedBucketEndpoints r /\
  exists u, urlParse endpoint = Some u /\ parsed_Scheme u = "https" /\ parsed_Hostname u <> "" /\
            parsed_User u = false /\ parsed_RawQuery u = "" /\ parsed_Fragment u = "".
Proof.
  unfold endpointAllowed. destruct (urlParse endpoint) as [u|].
  2: { split; [done|]. by intros (_ & u & ? & _). }
  rewrite !andb_true_iff, !negb_true_iff, String.eqb_eq, is_empty_false, !is_empty_true, contains_spec.
  split; [intros; destruct_and!; split; [done|]; exists u; by split_and!|].
  intros (Hin & u' & [= <-] & Hu). destruct_and! Hu. by split_and!.
Qed.

(** A check and the checks after it. *)
Lemma guard_None (b : bool) (e : error) (k : option error) :
  (if b then Some e else k) = None <-> b = false /\ k = None.
Proof. by destruct b; naive_solver. Qed.

(** [validateTrust] accepts what is trusted. *)
Lemma validateTrust_spec r app : validateTrust r app = None <-> trusted r app.
Proof.
  unfold validateTrust. cbv zeta.
  set (creds := bucket_CredentialsFrom _). set (endpoint := bucket_Endpoint _).
  assert (Hp : existsb (fun p => HasPrefix p (celld_Image (spec_Celld (app_Spec app)))) (allowedPrefixes r) = true <->
    exists prefix, prefix ∈ allowedPrefixes r /\ HasPrefix prefix (celld_Image (spec_Celld (app_Spec app))) = true).
  { rewrite existsb_exists. by setoid_rewrite list_elem_of_In. }
  assert (Hf : (1 <? length (List.filter (fun v => negb (is_empty v))
      [creds_IAMRole creds; creds_SecretRef creds; creds_AzureClientID creds]))%nat = false <-> oneFamily creds).
  { unfold oneFamily. destruct creds as [[|] [|] [|]]; simpl; naive_solver. }
  assert (Hr : negb (is_empty (creds_IAMRole creds)) && negb (String.eqb (creds_IAMRole creds) iamRoleAuto)
      && negb (contains (r_AllowedIAMRoles r) (creds_IAMRole creds)) = false <->
    creds_IAMRole creds = "" \/ creds_IAMRole creds = iamRoleAuto \/ creds_IAMRole creds ∈ r_AllowedIAMRoles r).
  { rewrite !andb_false_iff, !negb_false_iff, is_empty_true, String.eqb_eq, contains_spec. tauto. }
  assert (Ha : negb (is_empty (creds_AzureClientID creds))
      && negb (contains (r_AllowedAzureClientIDs r) (creds_AzureClientID creds)) = false <->
    creds_AzureClientID creds = "" \/ creds_AzureClientID creds ∈ r_AllowedAzureClientIDs r).
  { rewrite !andb_false_iff, !negb_false_iff, is_empty_true, contains_spec. tauto. }
  assert (He : negb (is_empty endpoint) && negb (endpointAllowed r endpoint) = false <->
    endpoint = "" \/ (endpoint ∈ r_AllowedBucketEndpoints r /\
      exists u, urlParse endpoint = Some u /\ parsed_Scheme u = "https" /\ parsed_Hostname u <> "" /\
                parsed_User u = false /\ parsed_RawQuery u = "" /\ parsed_Fragment u = "")).
  { rewrite andb_false_iff, !negb_false_iff, is_empty_true, endpointAllowed_spec. tauto. }
  rewrite !guard_None, negb_false_iff, Hp, Hf, Hr, Ha, He. split.
  - intros (H1 & H2 & H3 & H4 & H5 & _). by constructor.
  - intros [H1 H2 H3 H4 H5]. by split_and!.
Qed.

Lemma validHosts_spec hosts :
  list_find (fun host => validHost host = false) hosts = None <->
  Forall (fun h => IsDNS1123Subdomain h = true \/ IsWildcardDNS1123Subdomain h = true) hosts.
Proof.
  rewrite list_find_None, !Forall_forall. apply forall_proper. intros h. apply forall_proper. intros _.
  unfold validHost. rewrite orb_false_iff. destruct (IsDNS1123Subdomain h), (IsWildcardDNS1123Subdomain h); naive_solver.
Qed.

Lemma validRef_spec ref : validRef ref = true <-> ref = "" \/ IsDNS1123Subdomain ref = true.
Proof. unfold validRef. by rewrite orb_true_iff, is_empty_true. Qed.

Lemma validateVars_spec app :
  validateVars app = None <->
  forall vars, spec_Vars (app_Spec app) = Some vars ->
    vars_SecretRef vars <> "" /\ IsDNS1123Subdomain (vars_SecretRef vars) = true /\
    forall v, minorOf (celld_Image (spec_Celld (app_Spec app))) = Some v -> cmp v (MinorVersion 0 5) < 0.
Proof.
  unfold validateVars. destruct (spec_Vars (app_Spec app)) as [vars|]; [|done].
  rewrite guard_None, orb_false_iff, negb_false_iff, is_empty_false.
  destruct (minorOf _) as [v|].
  - rewrite guard_None, Z.leb_gt. split.
    + intros [[H1 H2] [H3 _]] vars' [= <-]. split_and!; [done..|]. by intros v' [= <-].
    + intros Hv. destruct (Hv vars eq_refl) as (H1 & H2 & H3). split_and!; [done..| |done]. by apply H3.
  - split.
    + intros [[H1 H2] _] vars' [= <-]. by split_and!.
    + intros Hv. destruct (Hv vars eq_refl) as (H1 & H2 & _). by split_and!.
Qed.

Lemma scalingInverted_spec app :
  scalingInverted app = false <->
  forall a, spec_Autoscaling (app_Spec app) = Some a -> as_Enabled a = true ->
    defaultPositive (as_MinReplicas a) 2 <= defaultPositive (as_MaxReplicas a) 10.
Proof.
  unfold scalingInverted. destruct (spec_Autoscaling (app_Spec app)) as [a|]; [|done].
  rewrite andb_false_iff, Z.ltb_ge. split.
  - intros [He|Hle] a' [= <-] Hen; [congruence|done].
  - intros Hx. destruct (as_Enabled a) eqn:He; [right; by apply Hx|by left].
Qed.

Lemma durabilityShort_spec app :
  durabilityShort app = false <->
  (spec_Durability (app_Spec app) = DurabilityFleet ->
   spec_Storage (app_Spec app) <> None /\ 3 <= desiredReplicas app /\
   forall a, spec_Autoscaling (app_Spec app) = Some a -> as_Enabled a = true ->
     3 <= defaultPositive (as_MinReplicas a) 2).
Proof.
  unfold durabilityShort, autoscalingEnabled.
  destruct (String.eqb_spec (spec_Durability (app_Spec app)) DurabilityFleet) as [Hd|Hd]; cbn [andb].
  2: { split; [by intros _ ?|done]. }
  rewrite !orb_false_iff, andb_false_iff, Z.ltb_ge.
  assert (Hs : (match spec_Storage (app_Spec app) with None => true | Some _ => false end) = false <->
            spec_Storage (app_Spec app) <> None) by (by destruct (spec_Storage _)).
  rewrite Hs. destruct (spec_Autoscaling _) as [a|].
  - rewrite Z.ltb_ge. split.
    + intros [[H1 H2] [H3|H3]] _; (split_and!; [done..|]); intros a' [= <-] Hen; [congruence|done].
    + intros Hx. destruct (Hx Hd) as (H1 & H2 & H3). split_and!; [done..|].
      destruct (as_Enabled a) eqn:He; [right; by apply H3|by left].
  - split; [intros [[H1 H2] _] _; by split_and!|]. intros Hx. destruct (Hx Hd) as (H1 & H2 & _).
    split_and!; [done..|by left].
Qed.

Lemma validateApp_spec r app :
  validateApp r app = None <-> wellFormed app /\ trusted r app.
Proof.
  unfold validateApp. cbv zeta. destruct (imageTag _) as [tag tagged] eqn:Ht.
  rewrite guard_None, orb_false_iff, Z.ltb_ge, negb_false_iff.
  assert (Himg : negb tagged || negb (runtimeImageTag tag) = false <->
            exists tag' a b rest, (tag, tagged) = (tag', true) /\ versionTag tag' a b rest).
  { rewrite orb_false_iff, !negb_false_iff, runtimeImageTag_spec. split.
    - intros (-> & a & b & rest & Hv). by exists tag, a, b, rest.
    - intros (tag' & a & b & rest & [= <- ->] & Hv). split; [done|]. by exists a, b, rest. }
  assert (Hauto : String.eqb (spec_AppVersion (app_Spec app)) AppVersionAuto
      && (negb (trackableBucket app) || is_empty (spec_DeployTrackingSecretRef (app_Spec app))) = false <->
    (spec_AppVersion (app_Spec app) = AppVersionAuto ->
     trackableBucket app = true /\ spec_DeployTrackingSecretRef (app_Spec app) <> "")).
  { destruct (String.eqb_spec (spec_AppVersion (app_Spec app)) AppVersionAuto); cbn [andb].
    - rewrite orb_false_iff, negb_false_iff, is_empty_false. tauto.
    - tauto. }
  pose proof (validHosts_spec (spec_Hostnames (app_Spec app))) as Hh.
  destruct (list_find _ _) as [[i host]|].
  { split; [by intros [_ ?]|]. intros [[? Hhosts] _]. by apply Hh in Hhosts. }
  rewrite !guard_None, is_empty_false, Himg, Hauto.
  pose proof (validateVars_spec app) as Hvars. destruct (validateVars app) as [e|].
  { split; [by intros (_ & _ & _ & _ & _ & ?)|]. intros [[? ? ? ? ? ? Hv] _]. by apply Hvars in Hv. }
  rewrite !guard_None, !orb_false_iff, !negb_false_iff, !validRef_spec, !Z.ltb_ge,
    scalingInverted_spec, durabilityShort_spec, validateTrust_spec. split.
  - intros (Hn & Hv & Hi & Ha & Hrefs & Hsize & Hs & Hd & Hc & Htr). split; [|done].
    constructor; rewrite ?Ht; try tauto; try lia.
    + destruct Hn. split; [lia|done].
    + destruct Hrefs. constructor; [done|]. constructor; [done|]. constructor.
  - intros [[[Hl Hn] Hh' Hv Hi Ha Hrefs Hvars' Hsize Hs Hd Hc] Htr]. rewrite Ht in Hi.
    apply Forall_cons in Hrefs as [Hr1 [Hr2 _]%Forall_cons]. split_and!; try tauto; try lia.
Qed.

(** C16: [validateApp] accepts an app exactly when its specification is well
    formed and trusted: the reconciler creates nothing for any other app. *)
Theorem validateApp_accepts_exactly r app :
  validateApp r app = None <-> wellFormed app /\ trusted r app.
Proof. apply validateApp_spec. Qed.

Lemma validateApp_wellFormed r app : validateApp r app = None -> wellFormed app.
Proof. by intros [Hw _]%validateApp_spec. Qed.

(** C17: an accepted image has a version the rollout gates can read: its
    reference ends in a tag [[v]a.b.c...], and when the two numbers fit an
    [int] they are what [minorOf] returns. (A tag whose numbers do not fit is
    accepted too, and has no version.) *)
Theorem accepted_image_is_versioned r app :
  validateApp r app = None ->
  let image := celld_Image (spec_Celld (app_Spec app)) in
  exists repo tag digest a b rest,
    image = repo +:+ ":" +:+ tag +:+ digest /\ versionTag tag a b rest /\
    (digest = "" \/ exists d, digest = String "@" d) /\
    (is_int64 (numeral a) -> is_int64 (numeral b) ->
     minorOf image = Some (MinorVersion (numeral a) (numeral b))).
Proof.
  intros Hv. apply validateApp_wellFormed, wf_image in Hv as (tag & a & b & rest & Ht & Hvt). cbv zeta.
  pose proof (minorOf_versionTag _ _ _ _ _ Ht Hvt) as Hm.
  apply imageTag_split in Ht as (repo & digest & Himg & _ & Hd). exists repo, tag, digest, a, b, rest.
  by split_and!.
Qed.

End Validation.

(** The sample app is accepted. *)
Definition sampleAccepted : WorkerApp := withVersion app060 AppVersionAuto "InPlace".

Lemma accepted_image_is_versioned_witness :
  exists repo tag digest a b rest,
    v060 = repo +:+ ":" +:+ tag +:+ digest /\ versionTag tag a b rest /\
    (digest = "" \/ exists d, digest = String "@" d) /\
    (is_int64 (numeral a) -> is_int64 (numeral b) ->
     minorOf v060 = Some (MinorVersion (numeral a) (numeral b))).
Proof. apply (accepted_image_is_versioned sampleReconciler sampleAccepted). vm_compute. reflexivity. Defined.

(** An accepted image without a version: the gates on versions say nothing
    about it. *)
Definition hugeImage : string := "ghcr.io/celld/celld:v0.99999999999999999999.0".

Lemma huge_tag_is_unversioned :
  let app := withVersion (sampleApp hugeImage "Rolling" 3 None) "v7" "InPlace" in
  validateApp sampleReconciler app = None /\ minorOf hugeImage = None /\
  breakingReason v051 hugeImage = "".
Proof. vm_compute. split_and!; reflexivity. Qed.

