(* ===== verification/ManagerTheorems.v ===== *)
(** * The properties of the manager's start

    The comma-separated lists of the command line, the order of the start and
    what every started operator is configured with. *)

From Stdlib Require Import Ascii.
From S2P Require Import Prelude GoStrings GoTime Effects Kube Api Cluster Resources Ensure Routes FleetState.
From S2P Require Import Poller Deploys Validation Sample ValidationTheorems Manager.

Local Open Scope Z_scope.

(** ** Trimming *)

Lemma HasSuffix_spec s r : HasSuffix s r = true <-> exists p, s = p +:+ r.
Proof.
  split.
  - induction s as [|c s IH]; intros H.
    + destruct r; [by exists ""|done].
    + cbn [HasSuffix] in H. apply orb_true_iff in H as [H|H].
      * apply String.eqb_eq in H as <-. by exists "".
      * destruct (IH H) as [p ->]. by exists (String c p).
  - intros [p ->]. induction p as [|c p IH]; str_simpl.
    + destruct r as [|d r]; [done|]. cbn [HasSuffix]. by rewrite String.eqb_refl.
    + cbn [HasSuffix]. rewrite IH. apply orb_true_r.
Qed.

Lemma sliceTo_app p s : sliceTo (String.length p) (p +:+ s) = p.
Proof. induction p as [|c p IH]; str_simpl; [by destruct s|by rewrite IH]. Qed.

Lemma TrimSuffix_app p r : TrimSuffix (p +:+ r) r = p.
Proof.
  unfold TrimSuffix. rewrite (proj2 (HasSuffix_spec _ _)) by (by exists p).
  rewrite string_app_length. replace (String.length p + String.length r - String.length r)%nat
    with (String.length p) by lia. apply sliceTo_app.
Qed.

(** A string that starts and ends without white space. *)
Definition trimmed (s : string) : Prop :=
  Forall (fun r => HasPrefix r s = false /\ HasSuffix s r = false) spaceRunes.

Lemma spaceRunes_nonempty r : In r spaceRunes -> (1 <= String.length r)%nat.
Proof.
  assert (H : forallb (fun r => Nat.leb 1 (String.length r)) spaceRunes = true) by (vm_compute; reflexivity).
  rewrite forallb_forall in H. intros Hr%H. by apply Nat.leb_le.
Qed.

Lemma trimLeft_spec fuel s :
  (String.length s <= fuel)%nat ->
  (exists p, s = p +:+ trimLeft fuel s) /\
  Forall (fun r => HasPrefix r (trimLeft fuel s) = false) spaceRunes.
Proof.
  revert s. induction fuel as [|fuel IH]; intros s Hl; cbn [trimLeft].
  - destruct s; [|simpl in Hl; lia]. split; [by exists ""|]. apply (bool_decide_unpack _). vm_compute. exact I.
  - destruct (List.find _ _) as [r|] eqn:E.
    + apply find_some in E as [Hin Hp]. apply spaceRunes_nonempty in Hin.
      apply HasPrefix_spec in Hp as [q ->]. rewrite sliceFrom_app. rewrite string_app_length in Hl.
      destruct (IH q) as [[p Hq] Hf]; [lia|]. split; [|done].
      exists (r +:+ p). by rewrite string_app_assoc, <- Hq.
    + split; [by exists ""|]. apply Forall_forall. intros r Hr%list_elem_of_In. by apply (find_none _ _ E).
Qed.

Lemma trimRight_spec fuel s :
  (String.length s <= fuel)%nat ->
  (exists p, s = trimRight fuel s +:+ p) /\
  Forall (fun r => HasSuffix (trimRight fuel s) r = false) spaceRunes.
Proof.
  revert s. induction fuel as [|fuel IH]; intros s Hl; cbn [trimRight].
  - destruct s; [|simpl in Hl; lia]. split; [by exists ""|]. apply (bool_decide_unpack _). vm_compute. exact I.
  - destruct (List.find _ _) as [r|] eqn:E.
    + apply find_some in E as [Hin Hp]. apply spaceRunes_nonempty in Hin.
      apply HasSuffix_spec in Hp as [q ->]. rewrite TrimSuffix_app. rewrite string_app_length in Hl.
      destruct (IH q) as [[p Hq] Hf]; [lia|]. split; [|done].
      exists (p +:+ r). by rewrite <- string_app_assoc, <- Hq.
    + split; [exists ""; by rewrite string_app_nil_r|]. apply Forall_forall.
      intros r Hr%list_elem_of_In. by apply (find_none _ _ E).
Qed.

(** [TrimSpace] cuts a trimmed string out of its argument, and leaves a trimmed
    one alone. *)
Lemma TrimSpace_cut s : exists a b, s = a +:+ TrimSpace s +:+ b.
Proof.
  unfold TrimSpace. destruct (trimLeft_spec (String.length s) s) as [[a Ha] _]; [lia|].
  set (s' := trimLeft _ s) in *. destruct (trimRight_spec (String.length s') s') as [[b Hb] _]; [lia|].
  exists a, b. by rewrite <- Hb.
Qed.

Lemma TrimSpace_trimmed s : trimmed (TrimSpace s).
Proof.
  unfold TrimSpace, trimmed. destruct (trimLeft_spec (String.length s) s) as [_ Hl]; [lia|].
  set (s' := trimLeft _ s) in *. destruct (trimRight_spec (String.length s') s') as [[b Hb] Hr]; [lia|].
  rewrite Forall_forall in Hl, Hr |- *. intros r Hin. split; [|by apply Hr].
  apply not_true_iff_false. intros [q Hq]%HasPrefix_spec. specialize (Hl r Hin).
  rewrite Hb, Hq, string_app_assoc, HasPrefix_app in Hl. done.
Qed.

Lemma find_none_intro {A} (p : A -> bool) l : Forall (fun x => p x = false) l -> List.find p l = None.
Proof. induction 1 as [|x l Hx _ IH]; simpl; [done|by rewrite Hx]. Qed.

Lemma TrimSpace_id s : trimmed s -> TrimSpace s = s.
Proof.
  intros Ht. unfold TrimSpace.
  assert (Hl : forall n, trimLeft n s = s).
  { intros [|n]; cbn [trimLeft]; [done|]. rewrite find_none_intro; [done|].
    eapply Forall_impl; [exact Ht|]. by intros r [? _]. }
  rewrite Hl. destruct (String.length s); cbn [trimRight]; [done|]. rewrite find_none_intro; [done|].
  eapply Forall_impl; [exact Ht|]. by intros r [_ ?].
Qed.

(** ** Splitting *)

Lemma Split_absent c s : has_byte c s = false -> Split c s = [s].
Proof.
  induction s as [|d s IH]; simpl; [done|]. intros H. bool_simp. rewrite H, IH; done.
Qed.

Lemma Split_app c p s : has_byte c p = false -> Split c (p +:+ String c s) = p :: Split c s.
Proof.
  induction p as [|d p IH]; str_simpl; intros H.
  - by rewrite Ascii.eqb_refl.
  - bool_simp. rewrite H, IH; done.
Qed.

Lemma Split_Join c l :
  l <> [] -> Forall (fun p => has_byte c p = false) l -> Split c (Join l (String c "")) = l.
Proof.
  intros Hl H. induction H as [|p l Hp H IH]; [done|]. destruct l as [|q l]; [by apply Split_absent|].
  change (Join (p :: q :: l) (String c "")) with (p +:+ String c "" +:+ Join (q :: l) (String c "")).
  str_simpl. rewrite Split_app by done. by rewrite IH.
Qed.

Lemma Split_pieces c s : Forall (fun p => has_byte c p = false) (Split c s).
Proof.
  induction s as [|d s IH]; simpl; [by repeat constructor|].
  destruct (Ascii.eqb d c) eqn:E; [by constructor|].
  destruct IH as [|p ps Hp Hps]; [by repeat constructor; simpl; rewrite E|].
  constructor; [simpl; by rewrite E|done].
Qed.

(** An item of a list on the command line. *)
Definition listItem (item : string) : Prop :=
  item <> "" /\ trimmed item /\ has_byte ","%char item = false.

Lemma splitList_items value : Forall listItem (splitList value).
Proof.
  apply Forall_forall. intros item Hin%list_elem_of_In. unfold splitList in Hin.
  apply filter_In in Hin as [Hin Hne]. apply in_map_iff in Hin as (p & <- & Hp).
  apply negb_true_iff, is_empty_false in Hne. split_and!; [done|apply TrimSpace_trimmed|].
  pose proof (proj1 (Forall_forall _ _) (Split_pieces ","%char value) p (proj2 (list_elem_of_In _ _) Hp)) as Hc.
  simpl in Hc. destruct (TrimSpace_cut p) as (a & b & E). rewrite E, !has_byte_app in Hc. bool_simp. done.
Qed.

(** the lists of the command line. Whatever the value, [splitList] yields
    only items that are not empty, have no white space around them and no comma
    in them; and every list of such items is what its comma-separated text
    splits into. *)
Theorem splitList_roundtrip :
  (forall value, Forall listItem (splitList value)) /\
  (forall items, Forall listItem items -> splitList (Join items ",") = items).
Proof.
  split; [exact splitList_items|]. intros items Hi. unfold splitList.
  destruct items as [|item items]; [vm_compute; reflexivity|].
  change "," with (String ","%char ""). rewrite Split_Join; [|done|].
  2: { eapply Forall_impl; [exact Hi|]. by intros i (_ & _ & ?). }
  induction Hi as [|i l (Hne & Ht & _) _ IH]; simpl; [done|].
  rewrite TrimSpace_id by done. apply is_empty_false in Hne. rewrite Hne. simpl. by rewrite IH.
Qed.

(** ** The start *)

(** The controller that [main] registers. *)
Definition startedController (f : flagValues) : controllerSpec :=
  mkController
    (mkReconcilerSetup (rec_Config (reconcilerOf f)) (Some NewStateClient) (Some Live)
       (Some (NewDeployTracker (fl_deployPollInterval f))))
    KWorkerApp [KStatefulSet; KService; KServiceAccount; KNetworkPolicy; KPodDisruptionBudget; KIngress]
    "workerapp".

(** The steps of the start, in order. *)
Definition startup (f : flagValues) : list mgrStep :=
  [GetConfigOrDie; NewManager (optionsOf f); Complete (startedController f);
   AddPoller (mkStatePoller (fl_statePollInterval f)); AddHealthzCheck "healthz"; AddReadyzCheck "readyz";
   StartManager].

Definition succeeded (step : mgrStep) : event mgrReq := Ev (Do step) None.

(** The step an event records. *)
Definition stepOf (ev : event mgrReq) : mgrStep := match ev_req ev with Do step => step end.

(** The steps ran in order: all of them, or up to the first that failed. *)
Definition ranUpTo (steps : list mgrStep) (t : trace mgrReq) (code : Z) : Prop :=
  (code = 0 /\ t = map succeeded steps) \/
  (code = 1 /\ exists before step after e,
     steps = before ++ step :: after /\ t = map succeeded before ++ [Ev (Do step) (Some e)]).

Lemma wp_orExit step rest steps :
  wp rest (ranUpTo steps) -> wp (orExit (trigger (Do step)) rest) (ranUpTo (step :: steps)).
Proof.
  intros Hr. unfold orExit. apply wp_trigger. intros [e|].
  - apply wp_ret. right. split; [done|]. by exists [], step, steps, e.
  - eapply wp_mono; [|exact Hr]. intros t code [[-> ->]|(-> & before & s & after & e & -> & ->)].
    + by left.
    + right. split; [done|]. by exists (step :: before), s, after, e.
Qed.

Lemma wp_managerMain f :
  wp (main f) (fun t code => if invalidFlags f then t = [] /\ code = 1 else ranUpTo (startup f) t code).
Proof.
  unfold main. destruct (invalidFlags f); [done|]. unfold startup.
  do 2 apply wp_orExit. apply (wp_orExit (Complete (startedController f))).
  repeat apply wp_orExit. apply wp_ret. by left.
Qed.

Lemma ranUpTo_started steps t code ev : ranUpTo steps t code -> ev ∈ t -> stepOf ev ∈ steps.
Proof.
  assert (Hmap : forall l, ev ∈ map succeeded l -> stepOf ev ∈ l).
  { intros l (s & -> & Hs)%list_elem_of_fmap. exact Hs. }
  intros [[_ ->]|(_ & before & s & after & e & -> & ->)] Hin; [auto|].
  apply elem_of_app in Hin as [Hin|Hin]; [apply Hmap in Hin; set_solver|].
  apply list_elem_of_singleton in Hin as ->. simpl. set_solver.
Qed.

(** the operator starts in order or not at all. Flags with an unknown
    ingress mode or a poll interval that is not positive end in status 1 before
    anything else happens; otherwise the configuration, the manager, the
    controller, the poller, the two checks and the run follow each other, each
    only after the one before succeeded, and the status is 0 exactly when all of
    them did. *)
Theorem manager_starts_in_order f t code :
  exec (main f) t code ->
  if invalidFlags f then t = [] /\ code = 1 else ranUpTo (startup f) t code.
Proof. intros Hx. exact (proj1 (wp_exec _ _) (wp_managerMain f) _ _ Hx). Qed.

(** ** What a started operator is configured with *)

(** The configuration of one step of the start. *)
Definition safeStep (f : flagValues) (step : mgrStep) : Prop :=
  match step with
  | NewManager o =>
      KSecret ∈ mo_Uncached o /\
      ms_FilterProvider (mo_Metrics o) = ms_SecureServing (mo_Metrics o) /\
      (fl_enableHTTP2 f = false -> forall protos,
         foldl (fun p opt => opt p) protos (ms_TLSOpts (mo_Metrics o)) = ["http/1.1"] /\
         foldl (fun p opt => opt p) protos (wh_TLSOpts (mo_Webhook o)) = ["http/1.1"])
  | Complete c =>
      let r := rec_Config (c_Reconciler c) in
      r_IngressMode r ∈ validModes /\ rec_Reader (c_Reconciler c) = Some Live /\
      (exists d, rec_Deploys (c_Reconciler c) = Some d /\ dt_Interval d = fl_deployPollInterval f /\
                 0 < dt_Interval d) /\
      Forall (Forall listItem) [r_AllowedImagePrefixes r; r_AllowedIAMRoles r; r_AllowedAzureClientIDs r;
                                r_AllowedBucketEndpoints r] /\
      c_Owns c ## [KHTTPRoute; KGateway; KUnstructured; KSecret]
  | AddPoller p => 0 < p_Interval p /\ tickerInterval p = fl_statePollInterval f
  | _ => True
  end.

Lemma startup_safe f : invalidFlags f = false -> Forall (safeStep f) (startup f).
Proof.
  intros Hf. unfold invalidFlags in Hf. bool_simp. apply existsb_exists in H as (mode & Hin & Hm%String.eqb_eq).
  repeat (apply Forall_cons; split); try exact I; [| | |constructor].
  - simpl. split_and!; [set_solver|by destruct (fl_secureMetrics f)|].
    intros E protos. unfold tlsOpts. by rewrite E.
  - simpl. split_and!; [rewrite Hm; by apply list_elem_of_In|done| | |].
    + eexists. split; [done|]. simpl. destruct (Z.leb_spec (fl_deployPollInterval f) 0); [lia|]. split; [done|lia].
    + repeat constructor; apply splitList_items.
    + set_solver.
  - simpl. unfold tickerInterval. simpl. destruct (Z.leb_spec (fl_statePollInterval f) 0); [lia|]. split; [lia|done].
Qed.

(** C19: every operator that starts is configured safely, whatever the command
    line. The manager never caches Secrets, authenticates its metrics whenever
    it serves them securely, and offers HTTP/1.1 only on both servers unless
    HTTP/2 was asked for. The controller has one of the four ingress modes,
    reads fleets uncached, polls deploy pointers at the positive interval of the
    flag, has allow-lists of proper items only and watches no kind whose CRD may
    be absent. The poller's interval is the flag's, never the fallback. *)
Theorem started_configuration_is_safe f t code ev :
  exec (main f) t code -> ev ∈ t -> safeStep f (stepOf ev).
Proof.
  intros Hx Hin. pose proof (proj1 (wp_exec _ _) (wp_managerMain f) _ _ Hx) as Hr.
  destruct (invalidFlags f) eqn:Hf. { destruct Hr as [-> _]. by apply elem_of_nil in Hin. }
  eapply Forall_forall; [by apply startup_safe|]. by eapply ranUpTo_started.
Qed.

(** C18: no command line opens the image allow-list. An app that a started
    operator accepts runs an image with a prefix that was spelt out: one of the
    items of the flag, which are not empty, or the default when the flag has no
    item. *)
Theorem accepted_image_was_allowed `{KubeLib} f t code ev app :
  exec (main f) t code -> ev ∈ t ->
  (forall c, stepOf ev = Complete c -> validateApp (rec_Config (c_Reconciler c)) app = None ->
   exists prefix,
     (prefix ∈ splitList (fl_imagePrefixes f) \/
      splitList (fl_imagePrefixes f) = [] /\ prefix = "ghcr.io/denoland/celld:") /\
     prefix <> "" /\ HasPrefix prefix (celld_Image (spec_Celld (app_Spec app))) = true).
Proof.
  intros Hx Hin c Hc Hv. pose proof (proj1 (wp_exec _ _) (wp_managerMain f) _ _ Hx) as Hr.
  destruct (invalidFlags f) eqn:Hf. { destruct Hr as [-> _]. by apply elem_of_nil in Hin. }
  pose proof (ranUpTo_started _ _ _ _ Hr Hin) as Hs. rewrite Hc in Hs.
  assert (c = startedController f) as ->.
  { unfold startup in Hs. rewrite !elem_of_cons, elem_of_nil in Hs.
    destruct Hs as [?|[?|[E|[?|[?|[?|[?|[]]]]]]]]; try done. by injection E. }
  apply validateApp_spec in Hv as [_ Ht]. destruct (tr_image _ _ Ht) as (prefix & Hp & Hpre).
  exists prefix. unfold allowedPrefixes in Hp. simpl in Hp.
  pose proof (splitList_items (fl_imagePrefixes f)) as Hi.
  destruct (splitList (fl_imagePrefixes f)) as [|item items].
  - apply list_elem_of_singleton in Hp as ->. split_and!; [by right|done|done].
  - split_and!; [by left| |done]. by apply (proj1 (Forall_forall _ _) Hi).
Qed.

(** ** Witnesses *)

(** A manager whose every step succeeds. *)
Definition serveMgr (X : Type) (e : mgrReq X) (s : unit) : X * unit :=
  match e with Do _ => (None, s) end.

Definition startTrace (f : flagValues) : trace mgrReq := fst (fst (run serveMgr (main f) tt)).

Lemma startTrace_exec : exec (main defaultFlags) (startTrace defaultFlags) 0.
Proof.
  assert (E : snd (fst (run serveMgr (main defaultFlags) tt)) = 0) by (vm_compute; reflexivity).
  unfold startTrace. destruct (run serveMgr (main defaultFlags) tt) as [[t r] s] eqn:Er.
  cbn [fst snd] in *. subst r. by eapply run_exec.
Qed.

Lemma manager_starts_in_order_witness : ranUpTo (startup defaultFlags) (startTrace defaultFlags) 0.
Proof. exact (manager_starts_in_order defaultFlags (startTrace defaultFlags) 0 startTrace_exec). Defined.

Lemma complete_started : succeeded (Complete (startedController defaultFlags)) ∈ startTrace defaultFlags.
Proof. unfold startTrace. right. right. left. Qed.

Lemma started_configuration_is_safe_witness :
  safeStep defaultFlags (Complete (startedController defaultFlags)).
Proof.
  exact (started_configuration_is_safe defaultFlags (startTrace defaultFlags) 0 _ startTrace_exec
           complete_started).
Defined.

(** An app on the image the default allows. *)
Definition denoApp : WorkerApp := sampleApp "ghcr.io/denoland/celld:v0.6.0" "Rolling" 3 None.

Lemma accepted_image_was_allowed_witness :
  exists prefix,
    (prefix ∈ splitList (fl_imagePrefixes defaultFlags) \/
     splitList (fl_imagePrefixes defaultFlags) = [] /\ prefix = "ghcr.io/denoland/celld:") /\
    prefix <> "" /\ HasPrefix prefix (celld_Image (spec_Celld (app_Spec denoApp))) = true.
Proof.
  refine (accepted_image_was_allowed defaultFlags (startTrace defaultFlags) 0 _ denoApp startTrace_exec
            complete_started (startedController defaultFlags) eq_refl _). vm_compute. reflexivity.
Defined.
