(* ===== verification/ConfigHashTheorems.v ===== *)
(** * The properties of the Secret digest

    [configHash] of [internal/controller/rollout.go]: what goes into the digest
    that makes a Secret rotation roll the fleet. *)

From S2P Require Import Prelude GoStrings GoTime Sha256 Effects Kube Api Cluster Resources FleetState Ensure.
From S2P Require Import Rollout RolloutProofs Sample.
From Stdlib Require Import Ascii.

Local Open Scope Z_scope.

(** The bytes one referenced Secret contributes: its entries in key order, or
    the marker of a missing one. *)
Definition secretBytes (name : string) (data : option (gmap string string)) : string :=
  match data with
  | None => writeParts ["missing"; name]
  | Some d => writeParts (secretParts name d)
  end.

Definition digestInput (refs : list (string * option (gmap string string))) : string :=
  foldr (fun ref acc => secretBytes (fst ref) (snd ref) +:+ acc) "" refs.

(** The answer to the read of Secret [name]. *)
Definition secretAnswered (app : WorkerApp) (t : tr) (name : string) (data : option (gmap string string))
  : Prop :=
  match data with
  | None => exists e, Ev (Get Cached KSecret "" (app_Namespace app) name) (inl e) ∈ t /\ IsNotFound e = true
  | Some d => exists s : Secret, Ev (Get Cached KSecret "" (app_Namespace app) name) (inr s) ∈ t /\ secret_Data s = d
  end.

Lemma secretAnswered_mono app t t' name data :
  t ⊆ t' -> secretAnswered app t name data -> secretAnswered app t' name data.
Proof. destruct data; intros Ht (x & ? & ?); exists x; auto. Qed.

Lemma digestInput_snoc refs name data :
  digestInput (refs ++ [(name, data)]) = digestInput refs +:+ secretBytes name data.
Proof.
  induction refs as [|[n d] refs IH]; simpl.
  - by rewrite string_app_nil_r.
  - rewrite IH. by rewrite string_app_assoc.
Qed.

(** The loop over the references. *)
Lemma wp_digestLoop app refs :
  wp (forRange refs (digestSecret app) "")
    (fun t c => match c with
                | Return _ => True
                | Continue acc => exists answers, Forall2 (secretAnswered app t) refs answers /\
                                    acc = digestInput (zip refs answers)
                end).
Proof.
  eapply wp_mono; cycle 1.
  - apply (wp_forRange refs (digestSecret app) ""
             (fun dn t acc => exists answers, Forall2 (secretAnswered app t) dn answers /\
                                acc = digestInput (zip dn answers)) (fun _ _ => True)).
    { exists []. split; [constructor|done]. }
    intros dn name todo t acc _ (answers & HF & ->). unfold digestSecret.
    apply wp_trigger. intros got.
    assert (Hstep : forall data ev, secretAnswered app (t ++ [ev]) name data ->
      exists answers', Forall2 (secretAnswered app (t ++ [ev])) (dn ++ [name]) answers' /\
        digestInput (zip dn answers) +:+ secretBytes name data = digestInput (zip (dn ++ [name]) answers')).
    { intros data ev Hd. exists (answers ++ [data]). split.
      - apply Forall2_app; [|by constructor].
        eapply Forall2_impl; [exact HF|]. intros. eapply secretAnswered_mono; [|done]. set_solver.
      - rewrite zip_with_app by by eapply Forall2_length. simpl. by rewrite digestInput_snoc. }
    destruct got as [e|s]; cbv beta iota.
    + destruct (IsNotFound e) eqn:He; [|done]. apply wp_ret.
      apply (Hstep None). exists e. split; [set_solver|done].
    + apply wp_ret. apply (Hstep (Some (secret_Data s))). exists s. split; [set_solver|done].
  - by intros t [r|acc].
Qed.

Lemma sliceTo_length n s : (n <= String.length s)%nat -> String.length (sliceTo n s) = n.
Proof.
  revert s. induction n as [|n IH]; intros [|c s]; simpl; intros; try lia. rewrite IH; lia.
Qed.

(** C32: the digest is a function of the referenced Secrets alone: of the data
    read for each of them, in the order vars before bucket credentials, whatever
    order the entries of a Secret are kept in, with a marker for one that does
    not exist. It is sixteen hex digits, or empty without references, and any
    other read error aborts it. *)
Theorem configHash_digest app t h :
  exec (configHash app) t (inr h) ->
  readOnly t /\
  exists answers, Forall2 (secretAnswered app t) (configRefs app) answers /\
    match configRefs app with
    | [] => h = ""
    | refs => h = sliceTo 16 (EncodeToString (Sum256 (digestInput (zip refs answers)))) /\
              String.length h = 16%nat
    end.
Proof.
  intros Hx. split; [exact (proj1 (wp_exec _ _) (wp_configHash app) _ _ Hx)|].
  unfold configHash in Hx. destruct (configRefs app) as [|ref refs] eqn:Hr.
  { destruct Hx as [-> [= ->]]. exists []. split; [constructor|done]. }
  apply exec_bind in Hx as (t1 & t2 & c & -> & Hl & [-> Hc]).
  pose proof (proj1 (wp_exec _ _) (wp_digestLoop app (ref :: refs)) _ _ Hl) as Hp.
  destruct c as [e|acc]; [done|]. destruct Hp as (answers & HF & ->).
  assert (Hh : h = sliceTo 16 (EncodeToString (Sum256 (digestInput (zip (ref :: refs) answers)))))
    by congruence. clear Hc.
  exists answers. rewrite app_nil_r. split; [done|]. split; [exact Hh|]. rewrite Hh.
  apply sliceTo_length. rewrite EncodeToString_length, Sum256_length. lia.
Qed.

(** An app with a vars Secret. *)
Definition appVars : WorkerApp :=
  let s := app_Spec app060 in
  mkWorkerApp (app_Meta app060)
    (mkWorkerAppSpec (spec_DeployTrackingSecretRef s) (spec_DeploymentPolicy s) (spec_ClusterDomain s)
       (spec_Storage s) (spec_Scheduling s) (spec_Hostnames s) (spec_AppVersion s) (spec_Celld s)
       (spec_Replicas s) (spec_Bucket s) (spec_Resources s) (spec_Service s) (Some (mkVarsSpec "vars"))
       (spec_WebSockets s) (spec_Autoscaling s) (spec_Telemetry s) (spec_Durability s)
       (spec_TrustForwardedHeaders s)) (app_Status app060).

Definition varsWorld (data : gmap string string) : world :=
  mkWorld noon None [] None [] {[ "vars" := mkSecret (newMeta "vars" "prod" ∅ ∅) data ]} "".

Lemma configHash_digest_witness :
  let w := varsWorld {[ "vars.env" := "A=1" ]} in
  exists h, resultIn (configHash appVars) w = inr h /\ String.length h = 16%nat.
Proof.
  intros w. destruct (resultIn (configHash appVars) w) as [e|h] eqn:Hr.
  - vm_compute in Hr. discriminate Hr.
  - exists h. split; [reflexivity|].
    destruct (configHash_digest appVars (traceIn (configHash appVars) w) h) as [_ (a & _ & _ & Hl)].
    + rewrite <- Hr. apply execIn.
    + exact Hl.
Defined.

(** ** The framing of the digest input *)

Definition nulFree (s : string) : Prop := has_byte Ascii.zero s = false.

Lemma nulFree_split a b s s' :
  nulFree a -> nulFree b -> a +:+ nul +:+ s = b +:+ nul +:+ s' -> a = b /\ s = s'.
Proof.
  intros Ha Hb E. apply (f_equal (Cut Ascii.zero)) in E. unfold nul in E. str_simpl.
  rewrite !Cut_app in E by done. by injection E.
Qed.

Lemma writeParts_inj l1 l2 :
  Forall nulFree l1 -> Forall nulFree l2 -> writeParts l1 = writeParts l2 -> l1 = l2.
Proof.
  intros H1. revert l2. induction H1 as [|a l1 Ha _ IH]; intros l2 H2 E.
  - destruct l2 as [|b l2]; [done|]. simpl in E. by destruct b.
  - destruct l2 as [|b l2]; [by destruct a|]. apply Forall_cons in H2 as [Hb H2].
    simpl in E. apply nulFree_split in E as [-> E]; [|done..]. f_equal. by apply IH.
Qed.

Lemma sortedKeys_elem data k : k ∈ sortedKeys data <-> is_Some (data !! k).
Proof.
  unfold sortedKeys, sortStrings. rewrite merge_sort_Permutation. rewrite list_elem_of_fmap. split.
  - intros ([k' v] & -> & Hin). apply elem_of_map_to_list in Hin. simpl. eauto.
  - intros [v Hv]. exists (k, v). split; [done|]. by apply elem_of_map_to_list.
Qed.

(** The keys and values of a Secret, interleaved, give the Secret back. *)
Lemma interleave_inj (d1 d2 : gmap string string) l1 l2 :
  (l1 ≫= fun k => [k; mapGet d1 k]) = (l2 ≫= fun k => [k; mapGet d2 k]) ->
  l1 = l2 /\ Forall (fun k => mapGet d1 k = mapGet d2 k) l1.
Proof.
  revert l2. induction l1 as [|k l1 IH]; intros [|k' l2] E; simpl in E; try done.
  injection E as -> Hv E. apply IH in E as [-> ?]. split; [done|]. by constructor.
Qed.

Lemma secretParts_inj name d1 d2 : secretParts name d1 = secretParts name d2 -> d1 = d2.
Proof.
  unfold secretParts. intros [= E]. apply interleave_inj in E as [Hk Hv].
  rewrite Forall_forall in Hv. apply map_eq. intros k.
  pose proof (sortedKeys_elem d1 k) as H1. pose proof (sortedKeys_elem d2 k) as H2.
  rewrite <- Hk in H2. unfold mapGet in Hv.
  destruct (d1 !! k) as [v1|] eqn:E1, (d2 !! k) as [v2|] eqn:E2; try done.
  - specialize (Hv k (proj2 H1 (mk_is_Some _ _ eq_refl))). rewrite E1, E2 in Hv. simpl in Hv. by subst.
  - destruct (proj1 H2 (proj2 H1 (mk_is_Some _ _ eq_refl))) as [? [=]].
  - destruct (proj1 H1 (proj2 H2 (mk_is_Some _ _ eq_refl))) as [? [=]].
Qed.

Definition secretNulFree (d : gmap string string) : Prop :=
  map_Forall (fun k v => nulFree k /\ nulFree v) d.

Lemma secretParts_nulFree name d : nulFree name -> secretNulFree d -> Forall nulFree (secretParts name d).
Proof.
  intros Hn Hd. unfold secretParts. constructor; [done|]. constructor; [done|].
  apply Forall_forall. intros x (k & Hx & [v Hk]%sortedKeys_elem)%list_elem_of_bind.
  destruct (Hd k v Hk). unfold mapGet in Hx. rewrite Hk in Hx. simpl in Hx. set_solver.
Qed.

(** C33: every rotation of a Secret without NUL bytes changes the digest input,
    as does creating or deleting it: the bytes determine its data. A NUL byte
    inside a value breaks the framing: two different Secrets then give the same
    digest, and a rotation from one to the other does not roll the fleet. *)
Theorem digest_framing :
  (forall name o1 o2, nulFree name ->
     match o1 with Some d => secretNulFree d | None => True end ->
     match o2 with Some d => secretNulFree d | None => True end ->
     secretBytes name o1 = secretBytes name o2 -> o1 = o2) /\
  (exists d1 d2, d1 <> d2 /\
     resultIn (configHash appVars) (varsWorld d1) = resultIn (configHash appVars) (varsWorld d2)).
Proof.
  split.
  - intros name [d1|] [d2|] Hn H1 H2 E; unfold secretBytes in E; try done.
    apply writeParts_inj in E; [|by apply secretParts_nulFree..]. by apply secretParts_inj in E as ->.
  - exists {[ "a" := "1"; "b" := "2" ]}, {[ "a" := "1" +:+ nul +:+ "b" +:+ nul +:+ "2" ]}. split.
    + intros E. apply (f_equal (fun d : gmap string string => d !! "b")) in E. vm_compute in E. done.
    + vm_compute. reflexivity.
Qed.
