(* ===== verification/RolloutTheorems.v ===== *)
(** * The properties of the gated rollout

    What the handlers of [internal/controller/rollout.go] guarantee, for every
    library, every answer of the API server, the pods and the clock. Each
    property with hypotheses is followed by a run of the concrete cluster of
    [Sample] on which they hold. *)

From S2P Require Import Prelude GoStrings GoTime Versions Effects Kube Api Cluster Resources.
From S2P Require Import FleetState Ensure Rollout RolloutSpec RolloutProofs Sample.

Local Open Scope Z_scope.

(** The object that went through the gates: the one read, or the answer to the
    clamp of its partition. *)
Definition gatedObject (sts : StatefulSet) (t : tr) (base : StatefulSet) : Prop :=
  (stsPartition sts <= liveReplicas sts /\ base = sts) \/
  (liveReplicas sts < stsPartition sts /\
   Ev (Update KStatefulSet (setStsPartition sts (liveReplicas sts))) (inr base) ∈ t).

(** The API server answers an update of a StatefulSet with the specification it
    was sent. *)
Definition keepsSpec (ev : event req) : Prop :=
  (match ev_req ev in req X return X -> Prop with
   | Update KStatefulSet o => fun got =>
       match got with inr o' => sts_Spec o' = sts_Spec o | inl _ => True end
   | _ => fun _ => True
   end) (ev_resp ev).

Definition writesKeepSpec (t : tr) : Prop := Forall keepsSpec t.

Lemma writesKeepSpec_update t (o o' : StatefulSet) :
  writesKeepSpec t -> Ev (Update KStatefulSet o) (inr o') ∈ t -> sts_Spec o' = sts_Spec o.
Proof. intros Hk Hin. exact (proj1 (Forall_forall _ _) Hk _ Hin). Qed.

(** The numbers a pass reads are those of a real fleet: no pod reports 2^32
    restoring cells or more, and no list of pods outgrows an [int32]. The sum of
    the sweep and the count of the pods then do not wrap around. *)
Definition plausible (t : tr) : Prop :=
  (forall pod st, podSampled t pod st -> ps_Restoring st < 2 ^ 32) /\
  (forall src ns labels pods, Ev (ListPods src ns labels) (inr pods) ∈ t -> Z.of_nat (length pods) < 2 ^ 31).

(** Nothing is restoring on any of the sampled pods. *)
Definition nothingRestoring (samples : list PodState) : Prop := Forall (fun st => ps_Restoring st = 0) samples.

(** The pods are the ordinals of the StatefulSet, each once. *)
Definition areTheOrdinals (sts : StatefulSet) (pods : list Pod) : Prop :=
  map (fun p => pod_Name p) pods ≡ₚ map (ordinalName (meta_Name (sts_Meta sts))) (seqZ 0 (liveReplicas sts)).

(** ** Shared lemmas *)

Lemma stsUpdates_cons (e : event req) t :
  stsUpdates (e :: t) = match stsUpdate e with Some s => s :: stsUpdates t | None => stsUpdates t end.
Proof. done. Qed.

Lemma readOnly_stsUpdates t : readOnly t -> stsUpdates t = [].
Proof.
  induction 1 as [|[X e x] t He _ IH]; [done|].
  rewrite stsUpdates_cons. destruct e; try discriminate He; exact IH.
Qed.

Lemma stsUpdates_writesLast t s P : writesLast t s P -> stsUpdates t = [s].
Proof. intros (t0 & x & -> & ? & _). by rewrite stsUpdates_app, readOnly_stsUpdates. Qed.

Lemma stsUpdates_quiet t : stsWrites t = [] -> stsUpdates t = [].
Proof.
  intros Hw. destruct (stsUpdates t) as [|s l] eqn:E; [done|].
  assert (s ∈ stsWrites t) as Hs by (apply stsUpdates_writes; rewrite E; set_solver).
  rewrite Hw in Hs. set_solver.
Qed.

Lemma stsPartition_set s p : stsPartition (setStsPartition s p) = p.
Proof. done. Qed.

Lemma stsPartition_release s p now : stsPartition (releaseOf s p now) = p - 1.
Proof. done. Qed.

(** The move between two versions leaves or enters the [>=0.6] replication
    streams. *)
Definition crossesV06 (f g : minorVersion) : Prop :=
  (vlt f (MinorVersion 0 6) /\ vle (MinorVersion 0 6) g) \/
  (vle (MinorVersion 0 6) f /\ vlt g (MinorVersion 0 6)).

#[export] Instance crossesV06_dec f g : Decision (crossesV06 f g).
Proof. unfold crossesV06. apply _. Defined.

(** Nodes of [running] and of [target] may share a fleet: the versions are in
    one rolling class and, across v0.6, neither replicates over the fleet. *)
Definition mayMix (running target : StatefulSet) : Prop :=
  forall f g, minorOf (stsContainerImage running) = Some f ->
              minorOf (stsContainerImage target) = Some g -> natural f -> natural g ->
    rollingSafe f g /\
    (crossesV06 f g -> usesFleetDurability running = false /\ usesFleetDurability target = false).

Lemma cmp_lt v o : natural v -> natural o -> cmp v o < 0 <-> vlt v o.
Proof. intros Hv Ho. rewrite cmp_diff by done. unfold vlt. case_bool_decide; lia. Qed.

Lemma natural_v06 : natural (MinorVersion 0 6).
Proof. unfold natural, int64_max. simpl. lia. Qed.

(** The version half of [fleetBreakingReason] at v0.6. *)
Lemma crossesV06_spec f g :
  natural f -> natural g ->
  ((cmp f (MinorVersion 0 6) <? 0) && (0 <=? cmp g (MinorVersion 0 6)))
  || ((0 <=? cmp f (MinorVersion 0 6)) && (cmp g (MinorVersion 0 6) <? 0)) = true <-> crossesV06 f g.
Proof.
  intros Hf Hg. pose proof natural_v06.
  rewrite orb_true_iff, !andb_true_iff, !Z.ltb_lt, !Z.leb_le.
  by rewrite !cmp_lt, !cmp_ge by done.
Qed.

Lemma fleetBreakingReason_mix existing desired f g :
  minorOf (stsContainerImage existing) = Some f -> minorOf (stsContainerImage desired) = Some g ->
  natural f -> natural g ->
  fleetBreakingReason existing desired = "" <->
  rollingSafe f g /\
  (crossesV06 f g -> usesFleetDurability existing = false /\ usesFleetDurability desired = false).
Proof.
  intros Hf Hg Nf Ng. unfold fleetBreakingReason. rewrite Hf, Hg.
  pose proof (breakingReason_class _ _ _ _ Hf Hg Nf Ng) as Hc.
  pose proof (crossesV06_spec f g Nf Ng) as Hx.
  destruct (is_empty (breakingReason _ _)) eqn:He; cbn [negb].
  - apply is_empty_true, Hc in He. destruct (_ || _) in Hx |- *; cbn [andb].
    + destruct (usesFleetDurability existing), (usesFleetDurability desired); simpl; naive_solver.
    + naive_solver.
  - apply is_empty_false in He. naive_solver.
Qed.

Lemma fleetBreakingReason_mayMix existing desired :
  fleetBreakingReason existing desired = "" -> mayMix existing desired.
Proof. intros Hb f g Hf Hg Nf Ng. by apply (fleetBreakingReason_mix existing desired f g). Qed.

(** Pigeonhole: a list no longer than a duplicate-free list it covers is a
    permutation of it. *)
Lemma cover_permutation {A} (l k : list A) :
  NoDup l -> (forall x, x ∈ l -> x ∈ k) -> (length k <= length l)%nat -> l ≡ₚ k.
Proof.
  intros Hnd Hin Hlen. apply submseteq_length_Permutation; [|done].
  by apply NoDup_submseteq.
Qed.

Lemma ordinalName_inj name : Inj (=) (=) (ordinalName name).
Proof.
  intros i j E. unfold ordinalName in E.
  apply string_app_inj_l, string_app_inj_l in E. by apply (inj pretty) in E.
Qed.

Lemma sumZ_bound l b : 0 <= b -> Forall (fun z => z < b) l -> sumZ l <= b * Z.of_nat (length l).
Proof. intros Hb. induction 1 as [|z l Hz _ IH]; simpl length; [simpl; lia|]. simpl sumZ. lia. Qed.

Section Theorems.
Context `{KubeLib}.

(** The samples of an observed fleet are valid, so their counters are not
    negative. *)
Lemma observed_samples_nonneg app sts t pods samples :
  fleetObserved app sts t pods samples -> Forall (fun z => 0 <= z) (map ps_Restoring samples).
Proof.
  intros (_ & _ & _ & _ & _ & HF). apply Forall_map. clear -HF.
  induction HF as [|pod st pods samples (_ & resp & _ & Hd) _ IH]; constructor; [|done].
  apply decodeState_inr in Hd as (_ & raw & fields & _ & _ & _ & _ & _ & _ & Hv).
  unfold stateValid in Hv. simpl. tauto.
Qed.

Lemma observed_nothing_restoring app sts t t' pods samples :
  plausible t' -> t ⊆ t' -> fleetObserved app sts t pods samples ->
  wrap64 (sumZ (map ps_Restoring samples)) = 0 -> nothingRestoring samples.
Proof.
  intros [Hcells Hlists] Hsub Ho Hz. pose proof (observed_samples_nonneg _ _ _ _ _ Ho) as Hnn.
  destruct (wrap64_sum_zero _ Hnn Hz) as [Hl|Hbig]; [by apply Forall_map in Hl|exfalso].
  destruct Ho as (Hl & _ & _ & _ & _ & HF). pose proof (Hlists _ _ _ _ (Hsub _ Hl)) as Hlen.
  assert (Hb : Forall (fun z => z < 2 ^ 32) (map ps_Restoring samples)).
  { apply Forall_map. clear -HF Hcells Hsub. induction HF as [|pod st pods samples Hs _ IH]; constructor; [|done].
    eapply Hcells, podSampled_mono; [exact Hsub|exact Hs]. }
  apply (sumZ_bound _ (2 ^ 32)) in Hb; [|done]. rewrite length_map, <- (Forall2_length _ _ _ HF) in Hb. lia.
Qed.

Lemma observed_ordinals app sts t pods samples :
  fleetObserved app sts t pods samples -> Z.of_nat (length pods) < 2 ^ 31 -> areTheOrdinals sts pods.
Proof.
  intros (_ & Hpos & Hlen & _ & Hords & _) Hsmall. unfold areTheOrdinals. symmetry. apply cover_permutation.
  - apply NoDup_fmap_2; [apply ordinalName_inj|apply NoDup_seqZ].
  - intros x (i & -> & Hi%elem_of_seqZ)%list_elem_of_fmap. apply Hords. lia.
  - rewrite !length_map, length_seqZ.
    rewrite wrap32_small in Hlen by (unfold is_int32, int32_min, int32_max; lia). lia.
Qed.

(** The whole fleet was observed, pod by pod, with nothing restoring. *)
Definition fleetAtRest (app : WorkerApp) (sts : StatefulSet) (t : tr) (pods : list Pod) (samples : list PodState)
  : Prop :=
  fleetObserved app sts t pods samples /\ areTheOrdinals sts pods /\ nothingRestoring samples.

Lemma observed_at_rest app sts t t' pods samples :
  plausible t' -> t ⊆ t' -> fleetObserved app sts t pods samples ->
  wrap64 (sumZ (map ps_Restoring samples)) = 0 -> fleetAtRest app sts t pods samples.
Proof.
  intros Hp Hsub Ho Hz. split_and!; [done| |by eapply observed_nothing_restoring].
  pose proof Ho as (Hl & _). eapply observed_ordinals; [exact Ho|]. eapply (proj2 Hp), Hsub, Hl.
Qed.

(** The updates of a step, by what it did. *)
Lemma stepPost_updates app sts t r s :
  stepPost app sts t r -> s ∈ stsUpdates t ->
  (liveReplicas sts < stsPartition sts /\ s = setStsPartition sts (liveReplicas sts)) \/
  exists base now t0 x, t = t0 ++ [Ev (Update KStatefulSet s) x] /\ gatedObject sts t0 base /\ Ev Now now ∈ t0 /\
    let p := Z.min (stsPartition sts) (liveReplicas sts) in
    s = releaseOf base p now /\ releaseGates app base p (liveReplicas sts) t0.
Proof.
  intros [_ [[Hle [_ [Hro|(now & Hw)]]]|[Hlt [[e ->]|(c' & t' & -> & _ & [Hro|(now & Hw)])]]]] Hs.
  - rewrite readOnly_stsUpdates in Hs by done. set_solver.
  - right. rewrite (stsUpdates_writesLast _ _ _ Hw) in Hs. apply list_elem_of_singleton in Hs as ->.
    destruct Hw as (t0 & x & -> & _ & Hnow & Hg). exists sts, now, t0, x. cbv zeta. rewrite Z.min_l by done.
    split_and!; [done|by left|done..].
  - left. split; [done|]. by apply list_elem_of_singleton in Hs.
  - left. split; [done|]. rewrite stsUpdates_cons, readOnly_stsUpdates in Hs by done. simpl in Hs.
    by apply list_elem_of_singleton in Hs.
  - rewrite stsUpdates_cons, (stsUpdates_writesLast _ _ _ Hw) in Hs. simpl in Hs.
    apply elem_of_cons in Hs as [->|Hs%list_elem_of_singleton]; [by left|]. right. subst s.
    destruct Hw as (t0 & x & -> & _ & Hnow & Hg).
    exists c', now, (Ev (Update KStatefulSet (setStsPartition sts (liveReplicas sts))) (inr c') :: t0), x.
    cbv zeta. rewrite Z.min_r by lia. split_and!; [done|right; split; [done|left]|by right|done|].
    eapply releaseGates_mono; [|done]. set_solver.
Qed.

(** C1: no ordinal is released without a warm fleet. If a rollout step writes a
    StatefulSet under which an ordinal of the fleet that was below the partition
    is no longer below it, then that ordinal is the highest frozen one and the
    only one released, and before that write, the last request of the step, the
    step has seen: the generation observed, the settle interval over, every
    ordinal above it ready on the new revision, and the whole fleet (exactly the
    ordinals, all ready and controlled) answering valid samples with nothing
    restoring on any of them. (The clamp of a partition above the replica count
    releases no ordinal.) *)
Theorem release_requires_warm_fleet app sts t r s ord :
  exec (rolloutStep app sts) t r -> plausible t -> s ∈ stsUpdates t ->
  0 <= ord < liveReplicas sts -> ord < stsPartition sts -> stsPartition s <= ord ->
  ord = Z.min (stsPartition sts) (liveReplicas sts) - 1 /\ stsPartition s = ord /\
  exists t0 x base pods samples,
    t = t0 ++ [Ev (Update KStatefulSet s) x] /\ gatedObject sts t0 base /\
    sts_ObservedGeneration (sts_Status base) = meta_Generation (sts_Meta base) /\
    settled base t0 /\
    (forall ord', ord < ord' < liveReplicas sts ->
       ordinalUpdated app (sts_UpdateRevision (sts_Status base)) t0 ord') /\
    fleetAtRest app base t0 pods samples.
Proof.
  intros Hx Hpl Hs Hord Hfrozen Hlow.
  pose proof (proj1 (wp_exec _ _) (wp_rolloutStep app sts) _ _ Hx) as Hp.
  destruct (stepPost_updates _ _ _ _ _ Hp Hs)
    as [[Hlt ->]|(base & now & t0 & x & -> & Hb & _ & -> & [Hpos Hgen Hset _ Hords (pods & samples & Ho & Hz)])].
  { rewrite stsPartition_set in Hlow. lia. }
  rewrite stsPartition_release in *. split_and!; [lia..|].
  exists t0, x, base, pods, samples. split_and!; try done.
  - intros ord' ?. apply Hords. lia.
  - eapply observed_at_rest; [exact Hpl|set_solver|done..].
Qed.

(** C2: whatever a pass over the fleet does is one of the transitions of the
    contract, in order and on its evidence: nothing, creating a fleet that is
    not there, refusing one that is not ours, or a [fleetPass] over one that
    is. *)
Theorem reconcileFleet_refines rc app v t r :
  exec (reconcileFleet rc app v) t r -> fleetReconciled app v t r.
Proof. intros Hx. exact (proj1 (wp_exec _ _) (wp_reconcileFleet rc app v) _ _ Hx). Qed.

(** ** Updates of a whole pass *)

(** The updates of a pass, by the transition that made them. *)
Lemma fleetPass_updates app desired existing t s :
  fleetPass app desired existing t -> s ∈ stsUpdates t ->
  mayWrite app existing t /\
  (fleetStep app desired t existing s \/
   exists c' now, liveReplicas existing < stsPartition existing /\
     Ev (Update KStatefulSet (setStsPartition existing (liveReplicas existing))) (inr c') ∈ t /\
     Ev Now now ∈ t /\ s = releaseOf c' (liveReplicas existing) now /\
     releaseGates app c' (liveReplicas existing) (liveReplicas existing) t).
Proof.
  intros [t' Hw|t' s' x Hro Hmay Hst|t' c c' t'' Hro Hmay Hst Hc Hlt Hro2
         |t' c c' t'' now x Hro Hmay Hst Hc Hlt Hro2 Hg Hnow] Hs.
  - rewrite stsUpdates_quiet in Hs by done. set_solver.
  - rewrite stsUpdates_app, readOnly_stsUpdates in Hs by done.
    apply list_elem_of_singleton in Hs as ->.
    split; [eapply mayWrite_mono|left; eapply fleetStep_mono]; [|done| |done]; set_solver.
  - rewrite stsUpdates_app, stsUpdates_cons, !readOnly_stsUpdates in Hs by done.
    apply list_elem_of_singleton in Hs as ->.
    split; [eapply mayWrite_mono|left; eapply fleetStep_mono]; [|done| |done]; set_solver.
  - rewrite stsUpdates_app, stsUpdates_cons, stsUpdates_app, !readOnly_stsUpdates in Hs by done.
    split; [eapply mayWrite_mono; [|done]; set_solver|]. subst c.
    apply elem_of_cons in Hs as [->|Hs%list_elem_of_singleton].
    { left. eapply fleetStep_mono; [|done]. set_solver. }
    right. exists c', now. split_and!; [done|set_solver..|done|].
    eapply releaseGates_mono; [|done]. set_solver.
Qed.

Lemma reconcileFleet_updates rc app v t r s :
  exec (reconcileFleet rc app v) t r -> s ∈ stsUpdates t ->
  exists desired existing t',
    readFleet app (inr existing) ∈ t /\ t' ⊆ t /\ desiredOf app v desired /\
    IsControlledBy (sts_Meta existing) (app_Meta app) = true /\
    fleetPass app desired existing t' /\ s ∈ stsUpdates t'.
Proof.
  intros Hx Hs. pose proof (proj1 (wp_exec _ _) (wp_reconcileFleet rc app v) _ _ Hx) as Hr.
  destruct Hr as [t e Hro|t e desired c r Hro Hd He Ho|t existing e Hro Hc|t desired existing t' r Hro Hd Hc Hp].
  - rewrite readOnly_stsUpdates in Hs by done. set_solver.
  - rewrite stsUpdates_app, readOnly_stsUpdates in Hs by done. set_solver.
  - rewrite readOnly_stsUpdates in Hs by (apply readOnly_app; split; [done|by repeat constructor]).
    set_solver.
  - rewrite stsUpdates_app, readOnly_stsUpdates in Hs by done.
    exists desired, existing, t'. split_and!; [set_solver..|done|done|apply Hp|exact Hs].
Qed.

(** C3: a pass never lets nodes that must not share a fleet run together. Every
    StatefulSet it updates either keeps the template it read, or gets the
    desired template while the fleet is stopped (no replica asked for, observed
    or listed), or gets it with nodes running of which each, by the template
    and by every live pod the StatefulSet controls, may be mixed with the new
    one. *)
Theorem no_forbidden_mix rc app v t r s :
  exec (reconcileFleet rc app v) t r -> writesKeepSpec t -> s ∈ stsUpdates t ->
  exists desired existing,
    readFleet app (inr existing) ∈ t /\ desiredOf app v desired /\
    (sts_Template (sts_Spec s) = sts_Template (sts_Spec existing) \/
     (sts_Template (sts_Spec s) = sts_Template (sts_Spec desired) /\
      (fleetStopped app existing t \/
       (mayMix existing desired /\
        exists pods, Ev (ListPods Live (app_Namespace app) (selectorLabels app)) (inr pods) ∈ t /\
          Forall (fun p => IsControlledBy (pod_Meta p) (sts_Meta existing) = true ->
                           mayMix (podAsStatefulSet p) desired) pods)))).
Proof.
  intros Hx Hkeep Hs.
  destruct (reconcileFleet_updates _ _ _ _ _ _ Hx Hs)
    as (desired & existing & t' & Hread & Hsub & Hd & _ & Hpass & Hs').
  exists desired, existing. split_and!; [done..|].
  destruct (fleetPass_updates _ _ _ _ _ Hpass Hs') as [_ [Hst|(c' & now & _ & Hup & _ & -> & _)]].
  - destruct Hst as [|? now|? now _ _ _ Hb (pods & Hl & Hpods)| |? _ Hstop|]; [by left|by left| |by left| |by left].
    + right. split; [done|]. right. split; [by apply fleetBreakingReason_mayMix|].
      exists pods. split; [by apply Hsub|]. eapply Forall_impl; [exact Hpods|].
      intros p Hp Hctl. by apply fleetBreakingReason_mayMix, Hp.
    + right. split; [done|]. left. by eapply fleetStopped_mono.
  - left. simpl. by rewrite (writesKeepSpec_update _ _ _ Hkeep (Hsub _ Hup)).
Qed.

(** C24: [fleetBreakingReason] refuses exactly the pairs of templates whose
    nodes must not share a fleet. An image it cannot read is not refused here. *)
Theorem fleetBreakingReason_iff_mayMix existing desired :
  (forall f, minorOf (stsContainerImage existing) = Some f -> natural f) ->
  (forall g, minorOf (stsContainerImage desired) = Some g -> natural g) ->
  fleetBreakingReason existing desired = "" <-> mayMix existing desired.
Proof.
  intros Nf Ng. split; [apply fleetBreakingReason_mayMix|]. intros Hm.
  destruct (minorOf (stsContainerImage existing)) as [f|] eqn:Hf.
  - destruct (minorOf (stsContainerImage desired)) as [g|] eqn:Hg.
    + apply (fleetBreakingReason_mix existing desired f g); auto.
    + unfold fleetBreakingReason, breakingReason. by rewrite Hf, Hg.
  - unfold fleetBreakingReason, breakingReason. by rewrite Hf.
Qed.

(** The outcomes of a pass over an image change that is refused. *)
Definition refused (app : WorkerApp) (existing : StatefulSet) (r : fleetOutcome * option error) : Prop :=
  r = (mkOutcome PhaseDegraded 0 (runtimeChangeRefusal app (stsContainerImage existing)) Minute false, None) \/
  r = (mkOutcome PhaseRollingOut 0 "waiting for KEDA pause and HPA removal" (5 * Second) false, None) \/
  exists e, r = (zeroOutcome, Some e).

Lemma wp_refused rc app v desired existing :
  runtimeChangeRefusal app (stsContainerImage existing) <> "" ->
  wp (reconcileExisting rc app v desired existing)
    (fun t r => stsWrites t = [] /\ refused app existing r).
Proof.
  intros Href%is_empty_false. unfold reconcileExisting. cbv zeta.
  eapply (wp_seq _ _ (fun t _ => stsWrites t = [])).
  { destruct (_ || _); [|done]. eapply wp_mono; [|apply wp_pauseScaling]. by intros t p []. }
  intros t [e|[]] Hw; [|rewrite Href; cbn [negb]|]; apply wp_ret; rewrite app_nil_r;
    (split; [done|]); [right; right; eauto|by left|by right; left].
Qed.

Lemma natural_v03 : natural (MinorVersion 0 3).
Proof. unfold natural, int64_max. simpl. lia. Qed.

(** C10: a downgrade from v0.3 or later to before v0.3 is never applied, by no
    update strategy: the pass writes no StatefulSet and reports the fleet
    degraded, or waits for the scaler to pause first, or fails. *)
Theorem downgrade_never_applied rc app v desired existing t r f g :
  minorOf (stsContainerImage existing) = Some f ->
  minorOf (celld_Image (spec_Celld (app_Spec app))) = Some g -> natural f -> natural g ->
  vle (MinorVersion 0 3) f -> vlt g (MinorVersion 0 3) ->
  exec (reconcileExisting rc app v desired existing) t r ->
  stsWrites t = [] /\ refused app existing r.
Proof.
  intros Hf Hg Nf Ng Hle Hlt Hx. pose proof natural_v03.
  eapply (proj1 (wp_exec _ _) (wp_refused rc app v desired existing _) _ _ Hx).
  Unshelve. unfold runtimeChangeRefusal. rewrite Hf, Hg.
  apply cmp_ge in Hle; [|done..]. apply cmp_lt in Hlt; [|done..].
  apply Z.leb_le in Hle. apply Z.ltb_lt in Hlt. by rewrite Hle, Hlt.
Qed.

(** a pass changes the cluster only for a fleet that is ours or absent: if
    it changed anything at all, it has just read that the StatefulSet does not
    exist, or read one that the app controls. *)
Theorem fleet_change_requires_ownership rc app v t r :
  exec (reconcileFleet rc app v) t r -> ~ readOnly t ->
  (exists e, readFleet app (inl e) ∈ t /\ IsNotFound e = true) \/
  (exists existing, readFleet app (inr existing) ∈ t /\
                    IsControlledBy (sts_Meta existing) (app_Meta app) = true).
Proof.
  intros Hx Hn. pose proof (proj1 (wp_exec _ _) (wp_reconcileFleet rc app v) _ _ Hx) as Hr.
  destruct Hr as [t e Hro|t e desired c r Hro Hd He Ho|t existing e Hro Hc|t desired existing t' r Hro Hd Hc Hp].
  - done.
  - left. exists e. split; [set_solver|done].
  - destruct Hn. apply readOnly_app. split; [done|by repeat constructor].
  - right. exists existing. split; [set_solver|done].
Qed.

(** C9: the StatefulSet of a fleet is updated only while nothing else scales
    it: before every update the pass has seen that no HPA targets the fleet and
    that our ScaledObject is paused and acknowledged, or absent, or KEDA is not
    installed. *)
Theorem updates_only_while_paused rc app v t r s :
  exec (reconcileFleet rc app v) t r -> s ∈ stsUpdates t -> scalingPaused app t.
Proof.
  intros Hx Hs. destruct (reconcileFleet_updates _ _ _ _ _ _ Hx Hs)
    as (desired & existing & t' & _ & Hsub & _ & _ & Hpass & Hs').
  destruct (fleetPass_updates _ _ _ _ _ Hpass Hs') as [[Hp _] _].
  by eapply scalingPaused_mono.
Qed.

(** [pauseScaling] reports the pause only on that evidence, and without
    having changed anything in the same pass. *)
Theorem pauseScaling_sound rc app t :
  exec (pauseScaling rc app) t (inr true) -> readOnly t /\ scalingPaused app t.
Proof.
  intros Hx. by apply (proj1 (wp_exec _ _) (wp_pauseScaling rc app) _ _ Hx).
Qed.

(** C8: stop before start. A recreate writes a changed template or asks for
    replicas only for a stopped fleet; otherwise it writes the old template with
    zero replicas and the marker that makes the next pass go on. *)
Theorem recreate_stops_before_start app existing desired hazard t r s :
  exec (recreateStep app existing desired hazard) t r -> s ∈ stsUpdates t ->
  (fleetStopped app existing t /\ sts_Template (sts_Spec s) = sts_Template (sts_Spec desired) /\
   liveReplicas s = desiredReplicas app /\ stsPartition s = 0 /\ ~ recreating s /\ hashOf s = hashOf desired)
  \/ (sts_Template (sts_Spec s) = sts_Template (sts_Spec existing) /\
      liveReplicas s = 0 /\ recreating s).
Proof.
  intros Hx Hs.
  destruct (proj1 (wp_exec _ _) (wp_recreateStep app existing desired hazard) _ _ Hx)
    as [_ [Hro|[[Hl Hw]|Hw]]].
  - rewrite readOnly_stsUpdates in Hs by done. set_solver.
  - right. rewrite (stsUpdates_writesLast _ _ _ Hw) in Hs. apply list_elem_of_singleton in Hs as ->.
    split_and!; [done..|]. unfold recreating. simpl. apply mapGet_insert.
  - left. pose proof (stsUpdates_writesLast _ _ _ Hw) as Hu. rewrite Hu in Hs.
    apply list_elem_of_singleton in Hs as ->.
    split_and!; [|done|done|done| |].
    + eapply writesLast_evidence; [|exact Hw]. intros. by eapply fleetStopped_mono.
    + unfold recreating, mapGet. simpl. by rewrite lookup_delete_eq.
    + unfold hashOf, mapGet. simpl. rewrite lookup_delete_ne by done. by rewrite lookup_insert_eq.
Qed.

(** The object that starts a rolling update: the desired template, the replicas
    as they were, no ordinal released, ten seconds to settle. *)
Definition frozenStart (desired existing s : StatefulSet) (t : tr) : Prop :=
  sts_Template (sts_Spec s) = sts_Template (sts_Spec desired) /\
  hashOf s = hashOf desired /\
  sts_Replicas (sts_Spec s) = sts_Replicas (sts_Spec existing) /\
  stsPartition s = liveReplicas s /\
  exists now, Ev Now now ∈ t /\
    mapGet (sts_Annotations s) settleAnnotation = formatRFC3339Nano (now + 10 * Second).

Lemma startOf_frozen desired existing now t :
  Ev Now now ∈ t -> frozenStart desired existing (startOf existing desired now) t.
Proof.
  intros Ht. split_and!; [done| |done|done|].
  - unfold hashOf at 1. simpl. rewrite mapGet_insert_ne by done. apply mapGet_insert.
  - exists now. split; [done|]. apply mapGet_insert.
Qed.

Lemma wp_templateStep_frozen app desired existing s :
  celld_UpdateStrategy (spec_Celld (app_Spec app)) <> UpdateStrategyRecreate ->
  wp (templateStep app desired existing)
    (fun t _ => s ∈ stsUpdates t -> frozenStart desired existing s t).
Proof.
  intros Hstrat%String.eqb_neq. unfold templateStep. cbv zeta. rewrite Hstrat.
  eapply wp_seq; [apply wp_liveFleetBreakingReason|]. intros t1 [e|b] [Hro _].
  { apply wp_ret. rewrite app_nil_r, readOnly_stsUpdates by done. set_solver. }
  destruct (is_empty b); cbn [negb andb].
  2: { apply wp_ret. rewrite app_nil_r, readOnly_stsUpdates by done. set_solver. }
  apply wp_trigger. intros now.
  assert (Hdone : forall x, let t := t1 ++ [Ev Now now; Ev (Update KStatefulSet (startOf existing desired now)) x] in
    s ∈ stsUpdates t -> frozenStart desired existing s t).
  { intros x t Hs. unfold t in Hs. rewrite stsUpdates_app, readOnly_stsUpdates in Hs by done.
    apply list_elem_of_singleton in Hs as ->. apply startOf_frozen. set_solver. }
  apply wp_afterUpdate.
  - intros e r _. exact (Hdone (inl e)).
  - intros s'. exact (Hdone (inr s')).
Qed.

(** a rolling update starts frozen. The update that applies the new
    template keeps the replica count, puts every ordinal below the partition and
    sets the settle deadline ten seconds after the clock it read, so no pod
    moves before a release. *)
Theorem rollout_starts_frozen app desired existing t r s :
  celld_UpdateStrategy (spec_Celld (app_Spec app)) <> UpdateStrategyRecreate ->
  exec (templateStep app desired existing) t r -> s ∈ stsUpdates t ->
  frozenStart desired existing s t /\
  (forall ord, 0 <= ord < liveReplicas existing -> ord < stsPartition s).
Proof.
  intros Hstrat Hx Hs.
  pose proof (proj1 (wp_exec _ _) (wp_templateStep_frozen app desired existing s Hstrat) _ _ Hx Hs) as Hf.
  split; [done|]. destruct Hf as (_ & _ & Hr & -> & _). rewrite Hr. lia.
Qed.

(** The deadline a release writes. *)
Lemma releaseOf_settle base p now :
  mapGet (sts_Annotations (releaseOf base p now)) settleAnnotation
  = formatRFC3339Nano (now + 10 * Second).
Proof. apply mapGet_insert. Qed.

(** C14: releases are at least ten seconds apart. If one step released an
    ordinal, and a later step on the object that carries its settle annotation
    releases another, the clock that the second one read is at least ten seconds
    past the one the first one read: the deadline survives its round trip
    through the annotation. *)
Theorem releases_are_spaced app sts1 t1 r1 s1 sts2 t2 r2 s2 :
  exec (rolloutStep app sts1) t1 r1 -> s1 ∈ stsUpdates t1 ->
  stsPartition s1 < Z.min (stsPartition sts1) (liveReplicas sts1) ->
  mapGet (sts_Annotations sts2) settleAnnotation = mapGet (sts_Annotations s1) settleAnnotation ->
  stsPartition sts2 <= liveReplicas sts2 ->
  exec (rolloutStep app sts2) t2 r2 -> s2 ∈ stsUpdates t2 ->
  exists now1 now2, Ev Now now1 ∈ t1 /\ Ev Now now2 ∈ t2 /\
    (fourDigitYear (now1 + 10 * Second) -> now1 + 10 * Second <= now2).
Proof.
  intros Hx1 Hs1 Hlow Hann Hle Hx2 Hs2.
  pose proof (proj1 (wp_exec _ _) (wp_rolloutStep app sts1) _ _ Hx1) as Hp1.
  destruct (stepPost_updates _ _ _ _ _ Hp1 Hs1) as [[Hlt ->]|(b1 & n1 & t01 & x1 & Ht1 & _ & Hn1 & E1 & _)].
  { rewrite stsPartition_set in Hlow. lia. }
  pose proof (proj1 (wp_exec _ _) (wp_rolloutStep app sts2) _ _ Hx2) as Hp2.
  destruct (stepPost_updates _ _ _ _ _ Hp2 Hs2)
    as [[Hlt _]|(b2 & n2 & t02 & x2 & Ht2 & [[_ ->]|[Hlt _]] & Hn2 & _ & [_ _ Hset _ _ _])]; [lia| |lia].
  rewrite E1, releaseOf_settle in Hann. unfold settled in Hset. rewrite Hann in Hset.
  destruct (decide (fourDigitYear (n1 + 10 * Second))) as [Hy|Hy].
  - rewrite parse_format in Hset by done. destruct Hset as (n & ? & ?). exists n1, n. rewrite Ht1, Ht2. set_solver.
  - exists n1, n2. rewrite Ht1, Ht2. set_solver.
Qed.

(** C7: a pass that reports the fleet rolled out on [v] wrote nothing, found
    the template, partition and scale at rest, and has observed exactly the
    ordinals of the fleet, with nothing restoring on any of them and for each a
    sample that reports deployment [v] with nothing draining or swapping. *)
Theorem rolledOut_sound rc app v desired existing t out err :
  exec (reconcileExisting rc app v desired existing) t (out, err) -> plausible t -> out_RolledOut out = true ->
  out = mkOutcome PhaseReady 0 "" (30 * Second) true /\ err = None /\ readOnly t /\
  hashOf existing = hashOf desired /\ stsPartition existing <= 0 /\ ~ recreating existing /\
  exists pods samples,
    fleetAtRest app existing t pods samples /\
    forall i, 0 <= i < liveReplicas existing ->
      exists pod st d, pod ∈ pods /\ pod_Name pod = ordinalName (meta_Name (sts_Meta existing)) i /\
        podSampled t pod st /\ ps_Deployment st = Some d /\
        dep_Version d = v /\ dep_Draining d = [] /\ dep_Swapping d = 0.
Proof.
  intros Hx Hpl Hr.
  destruct (proj1 (wp_exec _ _) (wp_reconcileExisting rc app v desired existing) _ _ Hx) as [_ Hready].
  destruct (Hready Hr) as ([= -> ->] & Hro & Hh & Hp & Hrec & _ & _ & _ & _ & states & Hobs & Hconv).
  destruct Hobs as (pods & samples & Hobs & Hz & Hdom & Hall).
  split_and!; [done..|]. exists pods, samples. split; [by eapply observed_at_rest|].
  intros i Hi. pose proof Hobs as (_ & _ & _ & _ & Hords & _).
  assert (Hin : ordinalName (meta_Name (sts_Meta existing)) i ∈ dom states)
    by (rewrite Hdom, elem_of_list_to_set; by apply Hords).
  apply elem_of_dom in Hin as [st Hst].
  destruct (Hall _ _ Hst) as (pod & ? & ? & ?). pose proof (Hconv _ _ Hst) as Hc.
  unfold notConverged in Hc. destruct (ps_Deployment st) as [d|] eqn:Hd; [|done]. bool_simp.
  exists pod, st, d. split_and!; try done. destruct (dep_Draining d); [done|simpl in *; lia].
Qed.

(** ** The pods of an observed fleet *)

(** the pods a successful observation rests on are exactly the ordinals of
    the fleet, each once: counting them, checking each and looking up every
    ordinal name leaves no room for a stray or a duplicate. *)
Theorem observed_pods_are_the_ordinals app sts t states restoring :
  exec (observeFleet app sts) t (states, restoring, None) ->
  exists pods, Ev (ListPods Live (app_Namespace app) (selectorLabels app)) (inr pods) ∈ t /\
    (Z.of_nat (length pods) < 2 ^ 31 ->
     areTheOrdinals sts pods).
Proof.
  intros Hx. destruct (proj1 (wp_exec _ _) (wp_observeFleet app sts) _ _ Hx) as [_ Ho].
  destruct (Ho eq_refl) as (pods & samples & Hobs & _). exists pods. split; [apply Hobs|].
  by eapply observed_ordinals.
Qed.

End Theorems.

(** ** Witnesses *)

(** The pods of the sample cluster report small numbers, and there are three of
    them at most. *)
Definition plausibleAnswer (ev : event req) : Prop :=
  (match ev_req ev in req X return X -> Prop with
   | HttpGet _ => fun got => forall resp st, got = inr resp -> decodeState resp = inr st -> ps_Restoring st < 2 ^ 32
   | ListPods _ _ _ => fun got => forall pods, got = inr pods -> Z.of_nat (length pods) < 2 ^ 31
   | _ => fun _ => True
   end) (ev_resp ev).

Lemma plausible_answers t : Forall plausibleAnswer t -> plausible t.
Proof.
  intros Ht. rewrite Forall_forall in Ht. split.
  - intros pod st (_ & resp & Hin & Hd). exact (Ht _ Hin resp st eq_refl Hd).
  - intros src ns labels pods Hin. exact (Ht _ Hin pods eq_refl).
Qed.

Definition plausibleWorld (w : world) : bool :=
  match decodeState (mkHttpResponse 200 (inr (w_state w))) with inr st => ps_Restoring st <? 2 ^ 32 | inl _ => true end
  && (Z.of_nat (length (w_pods w)) <? 2 ^ 31).

Lemma served_plausible {R} (p : M R) w : plausibleWorld w = true -> plausible (traceIn p w).
Proof.
  intros Hw. unfold plausibleWorld in Hw. bool_simp. apply plausible_answers.
  apply (run_forall serve plausibleAnswer (fun w' => w_pods w' = w_pods w /\ w_state w' = w_state w)); [|done].
  intros X e w' [Hp Hs]. split; [|by destruct e as [| | | |[] ?|[] ?| | | | | |]].
  destruct e; try done; unfold plausibleAnswer; simpl.
  - intros pods [= <-]. by rewrite Hp.
  - intros resp st [= <-] Hd. rewrite Hs in Hd. by case_match; simplify_eq; bool_simp.
Qed.

Lemma release_requires_warm_fleet_witness :
  let t := traceIn (rolloutStep app060 midSts) midWorld in
  let s := lastUpdate t midSts in
  s ∈ stsUpdates t /\ stsPartition s = 1 /\
  exists t0 x base pods samples,
    t = t0 ++ [Ev (Update KStatefulSet s) x] /\ fleetAtRest app060 base t0 pods samples.
Proof.
  intros t s.
  assert (Hs : s ∈ stsUpdates t) by (apply lastUpdate_elem; vm_compute; reflexivity).
  destruct (release_requires_warm_fleet app060 midSts t (resultIn (rolloutStep app060 midSts) midWorld) s 1
              (execIn _ _) (served_plausible _ midWorld eq_refl) Hs)
    as (_ & Hp & t0 & x & base & pods & samples & Ht & _ & _ & _ & _ & Ho).
  - split; [discriminate|vm_compute; reflexivity].
  - vm_compute. reflexivity.
  - vm_compute. discriminate.
  - split; [exact Hs|]. split; [exact Hp|]. exists t0, x, base, pods, samples. split; [exact Ht|exact Ho].
Defined.

Lemma reconcileFleet_refines_witness :
  let p := reconcileFleet sampleReconciler app060 "v7" in
  fleetReconciled app060 "v7" (traceIn p midWorld) (resultIn p midWorld).
Proof. exact (reconcileFleet_refines _ _ _ _ _ (execIn _ _)). Defined.

Lemma serve_keepsSpec {R} (p : M R) w : writesKeepSpec (traceIn p w).
Proof.
  apply (run_forall serve keepsSpec (fun _ => True)); [|done].
  intros X e s _. split; [|done]. by destruct e as [| | | |? ?|[] ?| | | | | |].
Qed.

Lemma no_forbidden_mix_witness :
  let t := traceIn (reconcileFleet sampleReconciler app060 "v7") oldWorld in
  let s := lastUpdate t oldSts in
  s ∈ stsUpdates t /\ stsContainerImage s = v060 /\
  exists desired existing, readFleet app060 (inr existing) ∈ t /\ desiredOf app060 "v7" desired.
Proof.
  intros t s.
  assert (Hs : s ∈ stsUpdates t) by (apply lastUpdate_elem; vm_compute; reflexivity).
  destruct (no_forbidden_mix sampleReconciler app060 "v7" t _ s (execIn _ _) (serve_keepsSpec _ _) Hs)
    as (desired & existing & Hr & Hd & _).
  split; [exact Hs|]. split; [vm_compute; reflexivity|]. exists desired, existing. split; assumption.
Defined.

Lemma fleetBreakingReason_iff_mayMix_witness :
  fleetBreakingReason oldSts midSts = "" <-> mayMix oldSts midSts.
Proof.
  apply (fleetBreakingReason_iff_mayMix oldSts midSts);
    intros x Hx; vm_compute in Hx; injection Hx as <-; unfold natural, int64_max; simpl; lia.
Defined.

(** v0.2.1 is asked for while v0.5.1 runs. *)
Definition appDowngrade : WorkerApp := sampleApp "ghcr.io/celld/celld:v0.2.1" "Recreate" 3 None.

Lemma downgrade_never_applied_witness :
  let p := reconcileExisting sampleReconciler appDowngrade "v7" (sampleSts appDowngrade 3 0 ∅) oldSts in
  stsWrites (traceIn p oldWorld) = [] /\ refused appDowngrade oldSts (resultIn p oldWorld).
Proof.
  refine (downgrade_never_applied sampleReconciler appDowngrade "v7" (sampleSts appDowngrade 3 0 ∅)
            oldSts _ _ (MinorVersion 0 5) (MinorVersion 0 2) _ _ _ _ _ _ (execIn _ _));
    try reflexivity; unfold natural, vle, vlt, int64_max; simpl; lia.
Defined.

Lemma fleet_change_requires_ownership_witness :
  let t := traceIn (reconcileFleet sampleReconciler app060 "v7") oldWorld in
  ~ readOnly t /\
  ((exists e, readFleet app060 (inl e) ∈ t /\ IsNotFound e = true) \/
   (exists existing, readFleet app060 (inr existing) ∈ t /\
                     IsControlledBy (sts_Meta existing) (app_Meta app060) = true)).
Proof.
  intros t.
  assert (Hn : ~ readOnly t).
  { intros Hro. apply readOnly_stsUpdates in Hro. apply (f_equal length) in Hro.
    vm_compute in Hro. discriminate Hro. }
  split; [exact Hn|].
  exact (fleet_change_requires_ownership sampleReconciler app060 "v7" t _ (execIn _ _) Hn).
Defined.

Lemma updates_only_while_paused_witness :
  let t := traceIn (reconcileFleet sampleReconciler app060 "v7") midWorld in
  Nat.eqb (length (stsUpdates t)) 1 = true /\ scalingPaused app060 t.
Proof.
  intros t. split; [vm_compute; reflexivity|].
  apply (updates_only_while_paused sampleReconciler app060 "v7" t _ (lastUpdate t midSts) (execIn _ _)).
  apply lastUpdate_elem. vm_compute. reflexivity.
Defined.

Lemma pauseScaling_sound_witness :
  let t := traceIn (pauseScaling sampleReconciler app060) midWorld in
  readOnly t /\ scalingPaused app060 t.
Proof. exact (pauseScaling_sound sampleReconciler app060 _ (execIn _ midWorld)). Defined.

Lemma recreate_stops_before_start_witness :
  let t := traceIn (recreateStep app051Recreate midSts (sampleSts app051Recreate 3 0 ∅) "") midWorld in
  let s := lastUpdate t midSts in
  liveReplicas s = 0 /\
  ((fleetStopped app051Recreate midSts t /\
    sts_Template (sts_Spec s) = sts_Template (sts_Spec (sampleSts app051Recreate 3 0 ∅)) /\
    liveReplicas s = desiredReplicas app051Recreate /\ stsPartition s = 0 /\ ~ recreating s /\
    hashOf s = hashOf (sampleSts app051Recreate 3 0 ∅))
   \/ (sts_Template (sts_Spec s) = sts_Template (sts_Spec midSts) /\ liveReplicas s = 0 /\ recreating s)).
Proof.
  intros t s. split; [vm_compute; reflexivity|].
  apply (recreate_stops_before_start app051Recreate midSts (sampleSts app051Recreate 3 0 ∅) "" t _ s
           (execIn _ _)).
  apply lastUpdate_elem. vm_compute. reflexivity.
Defined.

Lemma rollout_starts_frozen_witness :
  let t := traceIn (templateStep app060 midSts oldSts) oldWorld in
  let s := lastUpdate t oldSts in
  stsPartition s = 3 /\ frozenStart midSts oldSts s t.
Proof.
  intros t s. split; [vm_compute; reflexivity|].
  apply (rollout_starts_frozen app060 midSts oldSts t
           (resultIn (templateStep app060 midSts oldSts) oldWorld) s).
  - discriminate.
  - apply execIn.
  - apply lastUpdate_elem. vm_compute. reflexivity.
Defined.

Lemma rolledOut_sound_witness :
  let p := reconcileExisting sampleReconciler app060 "v7" (sampleSts app060 3 0 ∅) (sampleSts app060 3 0 ∅) in
  let w := sampleWorld app060 0 0 ∅ in
  out_RolledOut (fst (resultIn p w)) = true /\ readOnly (traceIn p w).
Proof.
  intros p w. split; [vm_compute; reflexivity|].
  apply (rolledOut_sound sampleReconciler app060 "v7" (sampleSts app060 3 0 ∅) (sampleSts app060 3 0 ∅)
           (traceIn p w) (fst (resultIn p w)) (snd (resultIn p w))).
  - rewrite <- surjective_pairing. apply execIn.
  - exact (served_plausible _ w eq_refl).
  - vm_compute. reflexivity.
Defined.

Lemma observed_pods_are_the_ordinals_witness :
  let t := traceIn (observeFleet app060 midSts) midWorld in
  exists pods, Ev (ListPods Live "prod" (selectorLabels app060)) (inr pods) ∈ t.
Proof.
  destruct (observed_pods_are_the_ordinals app060 midSts
              (traceIn (observeFleet app060 midSts) midWorld)
              (fst (fst (resultIn (observeFleet app060 midSts) midWorld)))
              (snd (fst (resultIn (observeFleet app060 midSts) midWorld)))) as (pods & Hin & _).
  - assert (He : snd (resultIn (observeFleet app060 midSts) midWorld) = None)
      by (vm_compute; reflexivity).
    rewrite <- He, <- !surjective_pairing. apply execIn.
  - exists pods. exact Hin.
Defined.

Lemma releases_are_spaced_witness :
  let t1 := traceIn (rolloutStep app060 midSts) midWorld in
  let s1 := lastUpdate t1 midSts in
  let t2 := traceIn (rolloutStep app060 s1) (later midWorld 20 s1) in
  stsPartition (lastUpdate t2 s1) = 0 /\
  exists now1 now2, Ev Now now1 ∈ t1 /\ Ev Now now2 ∈ t2 /\
    (fourDigitYear (now1 + 10 * Second) -> now1 + 10 * Second <= now2).
Proof.
  intros t1 s1 t2. split; [vm_compute; reflexivity|].
  apply (releases_are_spaced app060 midSts t1 (resultIn (rolloutStep app060 midSts) midWorld) s1
           s1 t2 (resultIn (rolloutStep app060 s1) (later midWorld 20 s1)) (lastUpdate t2 s1)).
  - apply execIn.
  - apply lastUpdate_elem. vm_compute. reflexivity.
  - vm_compute. reflexivity.
  - reflexivity.
  - vm_compute. discriminate.
  - apply execIn.
  - apply lastUpdate_elem. vm_compute. reflexivity.
Defined.
