(* ===== verification/RolloutProgress.v ===== *)
(** * A healthy rollout makes progress

    The other half of the gates: while the cluster answers well, every step
    releases the next ordinal, and a rollout of [n] ordinals ends after [n]
    steps. *)

From S2P Require Import Prelude GoStrings GoTime Versions Effects Kube Api Cluster Resources.
From S2P Require Import FleetState Ensure Rollout RolloutSpec RolloutProofs Sample.

Local Open Scope Z_scope.

Section Progress.
Context `{KubeLib}.

(** The answers of a healthy cluster while [sts] rolls out: the clock past the
    settle deadline, released pods ready on the update revision, a complete list
    of ready and running pods, valid samples with nothing restoring, and writes
    that are accepted. *)
Definition healthyAnswer (app : WorkerApp) (sts : StatefulSet) {X} (e : req X) : X -> Prop :=
  match e in req X return X -> Prop with
  | Now => fun now =>
      match parseRFC3339Nano (mapGet (sts_Annotations sts) settleAnnotation) with
      | Some deadline => deadline <= now
      | None => True
      end
  | Get _ KPod _ _ _ => fun got =>
      exists pod : Pod, got = inr pod /\ podReady pod = true /\
        mapGet (meta_Labels (pod_Meta pod)) "controller-revision-hash"
        = sts_UpdateRevision (sts_Status sts)
  | ListPods _ _ _ => fun got =>
      exists pods, got = inr pods /\ Z.of_nat (length pods) = liveReplicas sts /\
        Forall (fun p => IsControlledBy (pod_Meta p) (sts_Meta sts) = true /\
                         podReady p = true /\ podAvailable p = true) pods /\
        (forall i, 0 <= i < liveReplicas sts ->
           ordinalName (meta_Name (sts_Meta sts)) i ∈ map (fun p => pod_Name p) pods)
  | HttpGet _ => fun got =>
      exists resp st, got = inr resp /\ decodeState resp = inr st /\ ps_Restoring st = 0
  | Update _ _ => fun got => exists o, got = inr o
  | _ => fun _ => True
  end.

Definition healthy (app : WorkerApp) (sts : StatefulSet) (ev : event req) : Prop :=
  healthyAnswer app sts (ev_req ev) (ev_resp ev).

(** The StatefulSet controller has caught up with the object. *)
Definition observedSts (sts : StatefulSet) : Prop :=
  sts_ObservedGeneration (sts_Status sts) = meta_Generation (sts_Meta sts) /\
  sts_UpdateRevision (sts_Status sts) <> "".

Lemma gateLoop_healthy app sts out l :
  wp (forRange l (gateOrdinal app (sts_UpdateRevision (sts_Status sts)) out) tt)
    (fun t c => Forall (healthy app sts) t -> readOnly t /\ c = Continue tt).
Proof.
  induction l as [|ord l IH]; [by intros _; split; [constructor|]|].
  change (wp (gateOrdinal app (sts_UpdateRevision (sts_Status sts)) out ord tt ≫= (fun c =>
            match c with
            | Return r => Ret (Return r)
            | Continue s' => forRange l (gateOrdinal app (sts_UpdateRevision (sts_Status sts)) out) s'
            end)) (fun t c => Forall (healthy app sts) t -> readOnly t /\ c = Continue tt)).
  eapply (wp_seq_given _ _ _ (fun t c => readOnly t /\ c = Continue tt)).
  - apply wp_trigger_given. intros got (pod & Hgot & Hready & Hrev). simpl in Hgot. subst got.
    apply wp_ret. intros _. rewrite Hrev, String.eqb_refl, Hready. cbn [negb].
    split; [by repeat constructor|done].
  - intros t c [Hro ->]. eapply wp_mono; [|apply IH]. intros t' c' Hc Ht'.
    destruct (Hc Ht') as [Hro' ->]. split; [by apply readOnly_app|done].
Qed.

Lemma sweep_healthy app sts pods s :
  Forall (fun p => podAvailable p = true) pods -> sw_err s = None -> sw_restoring s = 0 ->
  wp (foldM sweepPod pods s)
    (fun t s' => Forall (healthy app sts) t -> readOnly t /\ sw_err s' = None /\ sw_restoring s' = 0).
Proof.
  intros Hav. revert s. induction Hav as [|pod pods Hpod _ IH]; intros s He Hr.
  { intros _. split; [constructor|done]. }
  change (wp (sweepPod pod s ≫= (fun s' => foldM sweepPod pods s'))
    (fun t s' => Forall (healthy app sts) t -> readOnly t /\ sw_err s' = None /\ sw_restoring s' = 0)).
  eapply (wp_seq_given _ _ _ (fun t s' => readOnly t /\ sw_err s' = None /\ sw_restoring s' = 0)).
  - unfold sweepPod, Fetch. rewrite Hpod. cbn [negb].
    apply wp_bind. apply wp_trigger. intros got. apply wp_ret, wp_ret.
    intros Ht. apply Forall_cons in Ht as [(resp & st & Hgot & Hd & Hst) _]. simpl in Hgot. subst got.
    rewrite Hd. split; [by repeat constructor|]. split; [done|]. simpl. by rewrite Hr, Hst.
  - intros t s' (Hro & He' & Hr'). eapply wp_mono; [|by apply IH]. intros t' s'' Hs Ht'.
    destruct (Hs Ht') as (? & ? & ?). split; [by apply readOnly_app|done].
Qed.

Lemma observeFleet_healthy app sts :
  1 <= liveReplicas sts -> is_int32 (liveReplicas sts) ->
  wp (observeFleet app sts)
    (fun t res => Forall (healthy app sts) t ->
       readOnly t /\ exists states, res = (states, 0, None)).
Proof.
  intros Hpos Hlive. unfold observeFleet.
  apply wp_trigger_given. intros got (pods & Hgot & Hlen & Hpods & Hords). simpl in Hgot. subst got.
  cbv beta iota zeta. rewrite Hlen, wrap32_small, Z.eqb_refl by done.
  rewrite (proj2 (Z.ltb_ge _ _)) by lia. cbn [negb orb].
  destruct (list_find _ pods) as [[i p]|] eqn:Hf.
  { apply list_find_Some in Hf as (Hi & Hbad & _). rewrite Forall_forall in Hpods.
    destruct (Hpods p) as (Hc & Hr & _); [by eapply list_elem_of_lookup_2|].
    by rewrite Hc, Hr in Hbad. }
  destruct (list_find _ (ordinals _)) as [[i o]|] eqn:Ho.
  { apply list_find_Some in Ho as (Hi & Hbad & _). destruct Hbad. rewrite elem_of_list_to_set.
    apply Hords. apply list_elem_of_lookup_2 in Hi. unfold ordinals in Hi.
    apply elem_of_seqZ in Hi. lia. }
  unfold FleetSweep. apply wp_trigger. intros [order Hp]. cbv beta. simpl proj1_sig.
  eapply (wp_mono _ (fun t res => Forall (healthy app sts) t ->
    readOnly t /\ exists states, res = (states, 0, None))).
  - intros t r Hr Ht. apply Forall_cons in Ht as [_ Ht]. destruct (Hr Ht) as [??].
    split; [by repeat constructor|done].
  - eapply wp_seq_given; [apply (sweep_healthy app sts)|].
    + rewrite Hp. eapply Forall_impl; [exact Hpods|]. by intros p (_ & _ & ?).
    + done.
    + done.
    + intros t s (Hro & He & Hr). apply wp_ret. intros _. rewrite app_nil_r, He, Hr. eauto.
Qed.

Lemma rolloutGates_healthy app sts p live :
  0 < p -> observedSts sts -> 1 <= liveReplicas sts -> is_int32 (liveReplicas sts) ->
  wp (rolloutGates app sts p live)
    (fun t r => Forall (healthy app sts) t ->
       exists now, stsWrites t = [releaseOf sts p now] /\ out_Partition (fst r) = p - 1 /\ snd r = None).
Proof.
  intros Hp [Hgen Hrev] Hpos Hlive. unfold rolloutGates. cbv zeta.
  rewrite Hgen, Z.eqb_refl, (proj2 (Z.leb_gt _ _)) by lia. cbn [negb orb].
  eapply (wp_seq_given _ _ _ (fun t s => readOnly t /\ s = None)).
  { destruct (parseRFC3339Nano _) as [d|] eqn:Hd; [|by intros _; split; [constructor|]].
    apply wp_trigger_given. intros now Hnow. unfold healthy in Hnow. simpl in Hnow. rewrite Hd in Hnow.
    apply wp_ret. intros _. rewrite (proj2 (Z.ltb_ge _ _)) by lia. split; [by repeat constructor|done]. }
  intros t1 ? [Hro1 ->]. apply is_empty_false in Hrev. rewrite Hrev.
  eapply (wp_seq_given _ _ _ _ _ (gateLoop_healthy app sts _ _)). intros t2 ? [Hro2 ->].
  eapply (wp_seq_given _ _ _ _ _ (observeFleet_healthy app sts Hpos Hlive)).
  intros t3 ? [Hro3 [states ->]]. cbn [negb orb Z.eqb].
  apply wp_trigger. intros now. apply wp_afterUpdate.
  - intros e r _ Ht. rewrite !Forall_cons in Ht. destruct Ht as (_ & [o Ho] & _). done.
  - intros s'. apply wp_ret. intros _. exists now. split_and!; [|done|done].
    rewrite !stsWrites_app, !readOnly_stsWrites by done. done.
Qed.

Lemma rolloutStep_healthy app sts t r :
  exec (rolloutStep app sts) t r -> Forall (healthy app sts) t ->
  0 < stsPartition sts <= liveReplicas sts -> is_int32 (liveReplicas sts) -> observedSts sts ->
  exists now, stsWrites t = [releaseOf sts (stsPartition sts) now] /\
              out_Partition (fst r) = stsPartition sts - 1 /\ snd r = None.
Proof.
  intros Hx Ht Hp Hl Ho. unfold rolloutStep in Hx. rewrite (proj2 (Z.ltb_ge _ _)) in Hx by lia.
  assert (H1 : 1 <= liveReplicas sts) by lia.
  exact (proj1 (wp_exec _ _)
           (rolloutGates_healthy app sts (stsPartition sts) (liveReplicas sts)
              (proj1 Hp) Ho H1 Hl) _ _ Hx Ht).
Qed.

(** [n] steps against a healthy cluster. Between two of them the StatefulSet
    controller observes what was written and touches nothing of it. *)
Inductive healthyRollout (app : WorkerApp) : nat -> StatefulSet -> StatefulSet -> Prop :=
| RolloutDone sts : healthyRollout app 0 sts sts
| RolloutPass n sts t r s next final :
    exec (rolloutStep app sts) t r -> Forall (healthy app sts) t -> s ∈ stsWrites t ->
    sts_Spec next = sts_Spec s -> observedSts next ->
    healthyRollout app n next final -> healthyRollout app (S n) sts final.

Lemma healthyRollout_partition app n sts final :
  healthyRollout app n sts final ->
  Z.of_nat n <= stsPartition sts <= liveReplicas sts -> is_int32 (liveReplicas sts) -> observedSts sts ->
  stsPartition final = stsPartition sts - Z.of_nat n /\
  sts_Replicas (sts_Spec final) = sts_Replicas (sts_Spec sts) /\
  sts_Template (sts_Spec final) = sts_Template (sts_Spec sts).
Proof.
  induction 1 as [sts|n sts t r s next final Hx Ht Hs Hspec Hobs _ IH]; intros Hp Hl Ho.
  { split_and!; [lia|done..]. }
  destruct (rolloutStep_healthy app sts t r Hx Ht) as (now & Hw & _); [lia|done..|].
  rewrite Hw in Hs. apply list_elem_of_singleton in Hs. subst s.
  assert (Hpart : stsPartition next = stsPartition sts - 1) by (unfold stsPartition at 1; by rewrite Hspec).
  assert (Hrep : sts_Replicas (sts_Spec next) = sts_Replicas (sts_Spec sts)) by by rewrite Hspec.
  assert (Htmp : sts_Template (sts_Spec next) = sts_Template (sts_Spec sts)) by by rewrite Hspec.
  rewrite Hpart, Hrep, Htmp in IH.
  destruct IH as (IHp & IHr & IHt); [lia|done|done|]. split_and!; [lia|done..].
Qed.

(** C4: progress. On a fleet that is being rolled out ([0 < partition <=
    replicas]) and observed, a step against a healthy cluster releases exactly
    the next ordinal and returns without an error: no gate holds back a healthy
    fleet. *)
Theorem healthy_step_releases app sts t r :
  exec (rolloutStep app sts) t r -> Forall (healthy app sts) t ->
  0 < stsPartition sts <= liveReplicas sts -> is_int32 (liveReplicas sts) -> observedSts sts ->
  exists now, stsWrites t = [releaseOf sts (stsPartition sts) now] /\
              out_Partition (fst r) = stsPartition sts - 1 /\ snd r = None.
Proof. apply rolloutStep_healthy. Qed.

(** C5: a rolling update completes. As many healthy steps as there are ordinals
    left bring the partition to zero with the replica count and the template as
    they were, so every ordinal has been released, one step each. *)
Theorem healthy_rollout_completes app sts final :
  healthyRollout app (Z.to_nat (stsPartition sts)) sts final ->
  0 <= stsPartition sts <= liveReplicas sts -> is_int32 (liveReplicas sts) -> observedSts sts ->
  stsPartition final = 0 /\
  sts_Replicas (sts_Spec final) = sts_Replicas (sts_Spec sts) /\
  sts_Template (sts_Spec final) = sts_Template (sts_Spec sts).
Proof.
  intros Hr Hp Hl Ho.
  destruct (healthyRollout_partition _ _ _ _ Hr) as (-> & ? & ?); [lia|done..|].
  split_and!; [lia|done..].
Qed.

End Progress.

(** ** Witnesses: the healthy cluster of [Sample] *)

(** [serve], with every pod of the fleet ready on the update revision. *)
Definition serveHealthy (X : Type) (e : req X) (w : world) : X * world :=
  match e in req X return X * world with
  | Get _ k _ _ name =>
      (match k return error + obj k with
       | KPod => inr (samplePod app060 (sts_Template (sts_Spec midSts)) "rev2" 0)
       | k => getObject w k name
       end, w)
  | e => serve _ e w
  end.

(** The fleet of [midWorld] at or past a deadline. *)
Definition restedWorld (deadline : Z) (w : world) : Prop :=
  w_pods w = w_pods midWorld /\ w_state w = w_state midWorld /\ deadline <= w_now w.

Definition healthyTrace (sts : StatefulSet) (w : world) : tr :=
  fst (fst (run serveHealthy (rolloutStep app060 sts) w)).
Definition healthyResult (sts : StatefulSet) (w : world) : fleetOutcome * option error :=
  snd (fst (run serveHealthy (rolloutStep app060 sts) w)).

Lemma healthyExec sts w : exec (rolloutStep app060 sts) (healthyTrace sts w) (healthyResult sts w).
Proof.
  unfold healthyTrace, healthyResult.
  destruct (run serveHealthy (rolloutStep app060 sts) w) as [[t r] w'] eqn:E. by eapply run_exec.
Qed.

Lemma sample_ordinals i :
  0 <= i < 3 ->
  ordinalName (fleetName app060) i ∈ map (fun p => pod_Name p) (w_pods midWorld).
Proof.
  intros Hi. assert (i = 0 \/ i = 1 \/ i = 2) as [-> | [-> | ->]] by lia; vm_compute; set_solver.
Qed.

(** Every answer of the healthy cluster is healthy for a StatefulSet of three
    replicas whose settle deadline is past. *)
Lemma serveHealthy_healthy sts w :
  sts_Meta sts = setAnnotations (sts_Meta midSts) (sts_Annotations sts) ->
  sts_Status sts = sts_Status midSts -> liveReplicas sts = 3 ->
  restedWorld (deref (parseRFC3339Nano (mapGet (sts_Annotations sts) settleAnnotation)) 0) w ->
  Forall (healthy app060 sts) (healthyTrace sts w).
Proof.
  intros Hm Hst Hlive Hw.
  apply (run_forall serveHealthy _
           (restedWorld (deref (parseRFC3339Nano (mapGet (sts_Annotations sts) settleAnnotation)) 0)));
    [|exact Hw]. clear w Hw.
  intros X e w (Hp & Hs & Hn). unfold healthy.
  destruct e as [|src k g n name|src n l|n|k o|k o|k o u rv|a|u|A l|i|]; simpl;
    try (split; [by try eauto|by split]).
  - destruct (parseRFC3339Nano _) in Hn |- *; simpl in *; split_and!; unfold restedWorld; simpl; auto;
      split_and!; auto; lia.
  - destruct k; (split; [|by split]); try exact I. eexists. split; [reflexivity|].
    rewrite Hst. split; vm_compute; reflexivity.
  - split; [|by split]. exists (w_pods w). rewrite Hp, Hlive, Hm. split_and!; [done|done| |].
    + repeat constructor; vm_compute; reflexivity.
    + exact sample_ordinals.
  - split; [by destruct k; eauto|]. destruct k; by split_and!.
  - split; [by destruct k; eauto|]. destruct k; by split_and!.
  - split; [|by split]. eexists _, _. rewrite Hs. split; [reflexivity|].
    split; vm_compute; reflexivity.
Qed.

Lemma midSts_observed sts : sts_Status sts = sts_Status midSts ->
  meta_Generation (sts_Meta sts) = 4 -> observedSts sts.
Proof. intros Hs Hg. split; rewrite Hs; [by rewrite Hg|done]. Qed.

Lemma healthy_step_releases_witness :
  exists now, stsWrites (healthyTrace midSts midWorld) = [releaseOf midSts 2 now] /\
              out_Partition (fst (healthyResult midSts midWorld)) = 1 /\
              snd (healthyResult midSts midWorld) = None.
Proof.
  apply (healthy_step_releases app060 midSts _ _ (healthyExec midSts midWorld)).
  - apply serveHealthy_healthy; [reflexivity..|]. split; [reflexivity|]. split; [reflexivity|].
    vm_compute. discriminate.
  - vm_compute. split; [reflexivity|discriminate].
  - vm_compute. split; discriminate.
  - apply midSts_observed; reflexivity.
Defined.

(** The objects of the run: each step's write, observed unchanged. *)
Definition midSts1 : StatefulSet := lastUpdate (healthyTrace midSts midWorld) midSts.
Definition midWorld1 : world := later midWorld 20 midSts1.
Definition midSts2 : StatefulSet := lastUpdate (healthyTrace midSts1 midWorld1) midSts1.

Lemma sample_rollout : healthyRollout app060 2 midSts midSts2.
Proof.
  eapply (RolloutPass app060 1 midSts (healthyTrace midSts midWorld) _ midSts1 midSts1).
  - apply healthyExec.
  - apply serveHealthy_healthy; [reflexivity..|]. split; [reflexivity|]. split; [reflexivity|].
    vm_compute. discriminate.
  - apply stsUpdates_writes, lastUpdate_elem. vm_compute. reflexivity.
  - reflexivity.
  - apply midSts_observed; vm_compute; reflexivity.
  - eapply (RolloutPass app060 0 midSts1 (healthyTrace midSts1 midWorld1) _ midSts2 midSts2).
    + apply healthyExec.
    + apply serveHealthy_healthy; [vm_compute; reflexivity..|]. split; [reflexivity|]. split; [reflexivity|].
      vm_compute. discriminate.
    + apply stsUpdates_writes, lastUpdate_elem. vm_compute. reflexivity.
    + reflexivity.
    + apply midSts_observed; vm_compute; reflexivity.
    + apply RolloutDone.
Qed.

Lemma healthy_rollout_completes_witness :
  stsPartition midSts = 2 /\ stsPartition midSts2 = 0.
Proof.
  split; [reflexivity|].
  apply (healthy_rollout_completes app060 midSts midSts2 sample_rollout).
  - vm_compute. split; discriminate.
  - vm_compute. split; discriminate.
  - apply midSts_observed; reflexivity.
Defined.
