(* ===== verification/RolloutTermination.v ===== *)
(** * The operator stops writing

    With the app, its version and its Secrets fixed, every update a pass makes
    brings the StatefulSet strictly closer to rest, in a measure of its own
    fields: no sequence of answers makes the operator update a fleet forever. *)

From S2P Require Import Prelude GoStrings GoTime Versions Effects Kube Api Cluster Resources.
From S2P Require Import FleetState Ensure Rollout RolloutSpec RolloutProofs Sample RolloutTheorems.

Local Open Scope Z_scope.

(** The API server stores of an update what it was sent: specification and
    annotations. Status and the metadata it owns may differ. *)
Definition sameFleet (s s' : StatefulSet) : Prop :=
  sts_Spec s' = sts_Spec s /\ sts_Annotations s' = sts_Annotations s.

#[export] Instance sameFleet_equiv : Equivalence sameFleet.
Proof. unfold sameFleet. split; repeat intro; naive_solver congruence. Qed.

Definition keepsObject (ev : event req) : Prop :=
  (match ev_req ev in req X return X -> Prop with
   | Update KStatefulSet o => fun got => forall o', got = inr o' -> sameFleet o o'
   | _ => fun _ => True
   end) (ev_resp ev).

Definition isRecreating (sts : StatefulSet) : bool :=
  String.eqb (mapGet (sts_Annotations sts) recreateAnnotation) annotationTrue.

Lemma isRecreating_spec sts : reflect (recreating sts) (isRecreating sts).
Proof. apply String.eqb_spec. Qed.

(** How far a fleet is from rest. A template still to be applied counts for the
    rollout it starts or the recreate it needs; then every ordinal below the
    partition and a wrong replica count. *)
Definition fleetWeight (desired sts : StatefulSet) : Z :=
  if isRecreating sts then (if liveReplicas sts =? 0 then 1 else 3)
  else if String.eqb (hashOf sts) (hashOf desired) then 0 else liveReplicas sts + 3.

Definition fleetMeasure (app : WorkerApp) (desired sts : StatefulSet) : Z :=
  fleetWeight desired sts + Z.max 0 (stsPartition sts)
  + (if liveReplicas sts =? desiredReplicas app then 0 else 1).

#[export] Instance fleetMeasure_proper app desired :
  Proper (sameFleet ==> (=)) (fleetMeasure app desired).
Proof.
  intros s s' [Hs Ha]. unfold fleetMeasure, fleetWeight, isRecreating, hashOf, stsPartition. by rewrite Hs, Ha.
Qed.

Lemma fleetMeasure_bounds app desired sts :
  0 <= liveReplicas sts ->
  0 <= fleetMeasure app desired sts <= liveReplicas sts + Z.max 0 (stsPartition sts) + 4.
Proof.
  intros Hl. unfold fleetMeasure, fleetWeight. repeat case_match; lia.
Qed.

(** The annotations a transition leaves alone. *)
Lemma hashOf_settle sts v : hashOf (annotate sts settleAnnotation v) = hashOf sts.
Proof. unfold hashOf, annotate. simpl. by rewrite mapGet_insert_ne. Qed.

Lemma isRecreating_settle sts v : isRecreating (annotate sts settleAnnotation v) = isRecreating sts.
Proof. unfold isRecreating, annotate. simpl. by rewrite mapGet_insert_ne. Qed.

Section Termination.
Context `{KubeLib}.
Variables (rc : WorkerAppReconciler) (app : WorkerApp) (v : string) (desired : StatefulSet).

Abbreviation measure := (fleetMeasure app desired).

Lemma release_decreases sts p now :
  stsPartition sts = p -> 0 < p -> measure (releaseOf sts p now) < measure sts.
Proof.
  intros <- Hp. unfold fleetMeasure, fleetWeight. set (r := releaseOf _ _ _).
  change (stsPartition r) with (stsPartition sts - 1). change (liveReplicas r) with (liveReplicas sts).
  set (a := annotate sts settleAnnotation (formatRFC3339Nano (now + 10 * Second))).
  change (hashOf r) with (hashOf a). change (isRecreating r) with (isRecreating a).
  unfold a. rewrite hashOf_settle, isRecreating_settle. lia.
Qed.

Lemma start_decreases sts now :
  0 <= liveReplicas sts -> hashOf sts <> hashOf desired -> ~ recreating sts ->
  measure (startOf sts desired now) < measure sts.
Proof.
  intros Hl Hh Hr. unfold fleetMeasure, fleetWeight. set (s := startOf _ _ _).
  change (stsPartition s) with (liveReplicas sts). change (liveReplicas s) with (liveReplicas sts).
  assert (Hs : hashOf s = hashOf desired).
  { unfold s, startOf, hashOf at 1. simpl. by rewrite mapGet_insert_ne, mapGet_insert. }
  assert (Hrs : isRecreating s = isRecreating sts).
  { unfold s, startOf, isRecreating. simpl. by rewrite !mapGet_insert_ne. }
  rewrite Hs, Hrs, String.eqb_refl. destruct (isRecreating_spec sts); [done|].
  destruct (String.eqb_spec (hashOf sts) (hashOf desired)); [done|]. lia.
Qed.

Lemma stop_decreases sts :
  0 <= liveReplicas sts -> recreating sts \/ hashOf sts <> hashOf desired -> liveReplicas sts <> 0 ->
  measure (stopOf sts) < measure sts.
Proof.
  intros Hl Hr Hn. unfold fleetMeasure, fleetWeight. set (s := stopOf sts).
  change (stsPartition s) with (stsPartition sts). change (liveReplicas s) with 0.
  assert (Hs : isRecreating s = true).
  { unfold s, stopOf, isRecreating, annotate. simpl. rewrite mapGet_insert. apply String.eqb_refl. }
  rewrite Hs. cbn [Z.eqb]. destruct (Z.eqb_spec (liveReplicas sts) 0); [done|].
  destruct (isRecreating_spec sts); [repeat case_match; lia|].
  destruct (String.eqb_spec (hashOf sts) (hashOf desired)); [by destruct Hr|]. repeat case_match; lia.
Qed.

Lemma restart_decreases sts :
  recreating sts \/ hashOf sts <> hashOf desired -> liveReplicas sts = 0 ->
  measure (restartOf app sts desired) < measure sts.
Proof.
  intros Hr Hl. unfold fleetMeasure, fleetWeight. set (s := restartOf _ _ _).
  change (stsPartition s) with 0. change (liveReplicas s) with (desiredReplicas app).
  assert (Hs : isRecreating s = false).
  { unfold s, restartOf, isRecreating, mapGet. simpl. by rewrite lookup_delete_eq. }
  assert (Hh : hashOf s = hashOf desired).
  { unfold s, restartOf, hashOf at 1, mapGet at 1. simpl. rewrite lookup_delete_ne by done.
    by rewrite lookup_insert_eq. }
  rewrite Hs, Hh, String.eqb_refl, Z.eqb_refl, Hl. cbn [Z.eqb].
  destruct (isRecreating_spec sts); [repeat case_match; lia|].
  destruct (String.eqb_spec (hashOf sts) (hashOf desired)); [by destruct Hr|]. repeat case_match; lia.
Qed.

(** Every transition of the contract makes the fleet lighter. *)
Lemma fleetStep_decreases t sts s :
  0 <= liveReplicas sts -> fleetStep app desired t sts s -> measure s < measure sts.
Proof.
  intros Hl Hst. revert Hl. destruct Hst as [sts' Hh Hlt|sts' now Hh Hle Hg _|sts' now Hh _ Hr _ _ _|sts' Hr Hn|sts' Hr (Hz & _)
            |sts' Hh Hp Hr _ Hne]; intros Hl.
  - unfold fleetMeasure. change (stsPartition (setStsPartition sts' ?n)) with n.
    change (fleetWeight desired (setStsPartition sts' ?n)) with (fleetWeight desired sts').
    change (liveReplicas (setStsPartition sts' ?n)) with (liveReplicas sts'). lia.
  - apply release_decreases; [done|apply Hg].
  - by apply start_decreases.
  - apply stop_decreases; [done| |done]. tauto.
  - apply restart_decreases; [|done]. tauto.
  - unfold fleetMeasure, fleetWeight. set (s := setStsReplicas sts' (desiredReplicas app)).
    change (stsPartition s) with (stsPartition sts'). change (hashOf s) with (hashOf sts').
    change (isRecreating s) with (isRecreating sts'). change (liveReplicas s) with (desiredReplicas app).
    rewrite Z.eqb_refl, Hh, String.eqb_refl. destruct (isRecreating_spec sts'); [done|].
    destruct (Z.eqb_spec (liveReplicas sts') (desiredReplicas app)); [done|]. lia.
Qed.

Lemma fleetStep_nonneg t sts s :
  0 <= desiredReplicas app -> 0 <= liveReplicas sts -> fleetStep app desired t sts s -> 0 <= liveReplicas s.
Proof. intros Hd Hl Hst. revert Hl. destruct Hst; simpl; done. Qed.

(** A pass over a fleet as stored in [sts] that leaves [s] as its last accepted
    update. *)
Definition passUpdates (sts s : StatefulSet) : Prop :=
  exists existing t r o,
    sameFleet sts existing /\ exec (reconcileExisting rc app v desired existing) t r /\
    Forall keepsObject t /\ Ev (Update KStatefulSet s) (inr o) ∈ t.

Lemma keepsObject_update t (o o' : StatefulSet) :
  Forall keepsObject t -> Ev (Update KStatefulSet o) (inr o') ∈ t -> sameFleet o o'.
Proof. intros Hk Hin. exact (proj1 (Forall_forall _ _) Hk _ Hin o' eq_refl). Qed.

Lemma stsUpdates_accepted t s o : Ev (Update KStatefulSet s) (inr o) ∈ t -> s ∈ stsUpdates t.
Proof. intros Hin. apply list_elem_of_omap. by exists (Ev (Update KStatefulSet s) (inr o)). Qed.

Lemma passUpdates_decreases sts s :
  0 <= desiredReplicas app -> 0 <= liveReplicas sts -> passUpdates sts s ->
  0 <= liveReplicas s /\ measure s < measure sts.
Proof.
  intros Hd Hl (existing & t & r & o & Hsame & Hx & Hk & Hs%stsUpdates_accepted).
  assert (Hle : 0 <= liveReplicas existing) by (destruct Hsame as [-> _]; done).
  rewrite Hsame. clear sts Hsame Hl.
  destruct (proj1 (wp_exec _ _) (wp_reconcileExisting rc app v desired existing) _ _ Hx) as [Hp _].
  destruct (fleetPass_updates _ _ _ _ _ Hp Hs) as (_ & [Hst|(c' & now & Hlt & Hc & _ & -> & Hg)]).
  - eauto using fleetStep_nonneg, fleetStep_decreases.
  - apply keepsObject_update in Hc; [|done]. destruct Hc as [Hspec Hann].
    assert (Hc : sameFleet (setStsPartition existing (liveReplicas existing)) c') by done.
    split; [change (0 <= liveReplicas c'); by rewrite Hspec|].
    transitivity (measure c').
    + apply release_decreases; [unfold stsPartition; by rewrite Hspec|apply Hg].
    + rewrite <- Hc. unfold fleetMeasure. change (stsPartition (setStsPartition existing ?n)) with n.
      change (fleetWeight desired (setStsPartition existing ?n)) with (fleetWeight desired existing).
      change (liveReplicas (setStsPartition existing ?n)) with (liveReplicas existing). lia.
Qed.

(** [n] updating passes in a row, with any number of passes that only wait
    between them. *)
Inductive updatesInARow : nat -> StatefulSet -> StatefulSet -> Prop :=
| NoUpdate sts : updatesInARow 0 sts sts
| OneUpdate n sts s final : passUpdates sts s -> updatesInARow n s final -> updatesInARow (S n) sts final.

Lemma updatesInARow_bounded n sts final :
  0 <= desiredReplicas app -> 0 <= liveReplicas sts -> updatesInARow n sts final ->
  Z.of_nat n + measure final <= measure sts /\ 0 <= liveReplicas final.
Proof.
  intros Hd Hl Hu. induction Hu as [sts|n sts s final Hp _ IH]; [split; [lia|done]|].
  destruct (passUpdates_decreases _ _ Hd Hl Hp) as [Hs Hm]. destruct (IH Hs). split; [lia|done].
Qed.

(** C6: the operator stops writing. As long as the app, its version and its
    Secrets stay as they are, nobody else changes the StatefulSet and the API
    server stores the updates it was sent, a fleet of [n] replicas with partition
    [p] is updated by at most [n + p + 4] passes, whatever else the API server,
    the pods and the clock answer, in whatever order passes wait, fail or
    conflict; and the relation of one updating pass is well
    founded, so no fleet is rolled forever. *)
Theorem fleet_updates_terminate :
  0 <= desiredReplicas app ->
  (forall n sts final, 0 <= liveReplicas sts -> updatesInARow n sts final ->
     Z.of_nat n <= liveReplicas sts + Z.max 0 (stsPartition sts) + 4) /\
  (forall sts, 0 <= liveReplicas sts -> Acc (fun s' s => passUpdates s s') sts).
Proof.
  intros Hd. split.
  - intros n sts final Hl Hu. destruct (updatesInARow_bounded n sts final Hd Hl Hu) as [Hb Hf].
    pose proof (fleetMeasure_bounds app desired sts Hl). pose proof (fleetMeasure_bounds app desired final Hf). lia.
  - intros sts. assert (Hwf : forall k sts, measure sts < Z.of_nat k -> 0 <= liveReplicas sts ->
      Acc (fun s' s => passUpdates s s') sts).
    { induction k as [|k IH]; intros s Hm Hl; [pose proof (fleetMeasure_bounds app desired s Hl); lia|].
      constructor. intros s' Hp. destruct (passUpdates_decreases _ _ Hd Hl Hp). apply IH; [lia|done]. }
    intros Hl. apply (Hwf (Z.to_nat (measure sts + 1))); [|done].
    pose proof (fleetMeasure_bounds app desired sts Hl). lia.
Qed.

End Termination.

(** ** A run *)

Lemma serve_keepsObject {R} (p : M R) w : Forall keepsObject (traceIn p w).
Proof.
  apply (run_forall serve keepsObject (fun _ => True)); [|done].
  intros X e s _. split; [|done].
  destruct e as [| | | |? ?|[] ?| | | | | |]; try exact I. intros o' [= <-]. reflexivity.
Qed.

Lemma serve_accepts {R} (p : M R) w s :
  s ∈ stsUpdates (traceIn p w) -> Ev (Update KStatefulSet s) (inr s) ∈ traceIn p w.
Proof.
  intros (ev & Hin & Hs)%list_elem_of_omap.
  assert (Hall : Forall (fun ev => forall o, stsUpdate ev = Some o -> ev = Ev (Update KStatefulSet o) (inr o))
    (traceIn p w)).
  { apply (run_forall serve _ (fun _ => True)); [|done]. intros X e s' _. split; [|done].
    destruct e as [| | | |? ?|[] ?| | | | | |]; try done. intros o1 [= <-]. done. }
  pose proof (proj1 (Forall_forall _ _) Hall ev Hin s Hs) as E. simpl in E. by subst ev.
Qed.

(** v0.6.0 with two ordinals to go, and the pass that releases one of them. *)
Definition midPass : M (fleetOutcome * option error) :=
  reconcileExisting sampleReconciler app060 "v7" (buildStatefulSet app060 "" "v7") midSts.
Definition midReleased : StatefulSet := lastUpdate (traceIn midPass midWorld) midSts.

Lemma midPass_updates :
  passUpdates sampleReconciler app060 "v7" (buildStatefulSet app060 "" "v7") midSts midReleased.
Proof.
  exists midSts, (traceIn midPass midWorld), (resultIn midPass midWorld), midReleased. split_and!.
  - reflexivity.
  - apply execIn.
  - apply serve_keepsObject.
  - apply serve_accepts, lastUpdate_elem. vm_compute. reflexivity.
Qed.

Lemma fleet_updates_terminate_witness :
  stsPartition midReleased = 1 /\
  Z.of_nat 1 <= liveReplicas midSts + Z.max 0 (stsPartition midSts) + 4.
Proof.
  split; [vm_compute; reflexivity|].
  apply (proj1 (fleet_updates_terminate sampleReconciler app060 "v7" (buildStatefulSet app060 "" "v7")
                  ltac:(vm_compute; discriminate)) 1%nat midSts midReleased).
  - vm_compute. discriminate.
  - econstructor; [exact midPass_updates|constructor].
Defined.
