(* ===== verification/ReconcileTheorems.v ===== *)
(** * The properties of a whole pass

    What [Reconcile] may write, what it reports and when it comes back
    ([internal/controller/workerapp_controller.go]). *)

From S2P Require Import Prelude GoStrings GoTime Effects Kube Api Cluster Resources FleetState Ensure Owned Routes.
From S2P Require Import Deploys Validation Rollout Reconcile RolloutSpec RolloutProofs RolloutRequeue Guard Sample.
From S2P Require Import DeploysTheorems ValidationTheorems.

Local Open Scope Z_scope.

Section Reconcile.
Context `{KubeLib}.

(** ** Passes that only read *)

Abbreviation reads := (emits (fun ev => mutates ev = false)).

Lemma reads_pointerVersion app tracker : reads (pointerVersion app tracker).
Proof.
  unfold pointerVersion, refreshPointer, currentBucketVersion, evict, evictExpired. repeat emits_step.
Qed.

Lemma reads_resolveAppVersion app tracker : reads (resolveAppVersion app tracker).
Proof.
  unfold resolveAppVersion, liveTemplateVersion. repeat (emits_step || apply reads_pointerVersion).
Qed.

Lemma reads_observeStatus app ready sts : reads (observeStatus app ready sts).
Proof.
  unfold observeStatus. apply emits_seq.
  { eapply wp_mono; [|apply wp_observeFleet]. by intros t res []. }
  intros [[states n] err]. repeat emits_step.
Qed.

(** ** Every write is guarded *)

Lemma safe_status app seen p s :
  safe app seen (x ← trigger (StatusUpdate (setStatus app s)); Ret (p x : option error)).
Proof. apply safe_trigger; done. Qed.

Lemma safe_updateStatus app seen outcome v conditions : safe app seen (updateStatus app outcome v conditions).
Proof.
  unfold updateStatus. cbv zeta. apply safe_trigger; [done|]. intros got.
  destruct (match got with inr s => _ | inl _ => _ end) as [ready sts].
  apply safe_seq; [apply safe_readOnly, reads_observeStatus|]. intros [[fleet deployments] observed].
  destruct (bool_decide _); [done|]. apply safe_status.
Qed.

Lemma safe_reconcileAccepted r app tracker seen : safe app seen (reconcileAccepted r app tracker).
Proof.
  unfold reconcileAccepted. apply safe_seq; [apply safe_readOnly, reads_resolveAppVersion|].
  intros [[[tracker' conds] v] tracking]. apply safe_seq; [apply safe_reconcileFleet|].
  intros [outcome [e|]]; [done|]. cbv zeta. apply safe_seq; [apply safe_ensureIngress|]. intros ingress.
  apply safe_seq; [apply safe_ensureAuthorizationPolicy|]. intros mesh.
  apply safe_seq; [apply safe_ensureScaledObject|]. intros scaled.
  apply safe_seq; [apply safe_updateStatus|]. intros [e|]; [|done]. by destruct (IsConflict e).
Qed.

(** The app a pass is about. *)
Definition reconciledApp (t : tr) : option WorkerApp :=
  match head t ≫= objAnswer KWorkerApp with
  | Some (inr app) => Some app
  | _ => None
  end.

(** C11: whatever the cluster answers, a pass changes only what belongs to its
    app. Every object it updates is one it has read in the same pass and found
    controlled by the app, or the answer to an earlier update of such an object:
    name, namespace, UID, resource version, owners and type are those that were
    read. Every object it deletes was read and found controlled likewise, and the
    deletion is conditional on the UID and the version that were read. Every
    object it creates carries the app's controller reference, and a status update
    keeps the metadata and the specification of the app. Without an app there is
    no write at all. *)
Theorem reconcile_writes_are_guarded r tracker namespace name t res :
  exec (Reconcile r tracker namespace name) t res ->
  match reconciledApp t with
  | Some app => guarded app t
  | None => readOnly t
  end.
Proof.
  revert t res. apply (proj1 (wp_exec _ _)). unfold Reconcile. apply wp_trigger. intros [e|app]; cbv beta iota.
  { apply wp_ret. unfold reconciledApp. simpl. by repeat constructor. }
  set (ev := Ev (Get Cached KWorkerApp "" namespace name) (inr app)).
  assert (Hsafe : forall p : M (DeployTracker * Result * option error), safe app [ev] p ->
    wp p (fun t _ => match reconciledApp (ev :: t) with Some a => guarded a (ev :: t) | None => readOnly (ev :: t) end)).
  { intros p. apply wp_mono. intros t _ Ht. unfold reconciledApp, guarded. simpl. by split. }
  apply Hsafe. destruct (meta_DeletionTimestamp _); [done|]. destruct (validateApp r app) as [e|].
  - apply safe_seq; [|done]. unfold rejectApp. cbv zeta. destruct (bool_decide _); [done|]. by apply safe_trigger.
  - apply safe_seq; [apply safe_ensureFoundation|]. intros [e|]; [done|]. apply safe_reconcileAccepted.
Qed.

(** ** What is reported *)

(** The app whose status a request writes. *)
Definition statusWrite (ev : event req) : option WorkerApp :=
  match ev_req ev with StatusUpdate a => Some a | _ => None end.

Abbreviation quiet := (emits (fun ev => statusWrite ev = None)).

Lemma quiet_statuses t : Forall (fun ev => statusWrite ev = None) t -> omap statusWrite t = [].
Proof. induction 1 as [|ev t He _ IH]; [done|]. simpl. by rewrite He. Qed.

Lemma statuses_cons ev t : statusWrite ev = None -> omap statusWrite (ev :: t) = omap statusWrite t.
Proof. intros He. simpl. by rewrite He. Qed.

Lemma quiet_reads {A} (p : M A) : reads p -> quiet p.
Proof.
  apply wp_mono. intros t _ Ht. eapply Forall_impl; [exact Ht|]. intros [X e x] He. by destruct e.
Qed.

Lemma quiet_ensureObject {k} `{!ClientObject k} app (d : obj k) mutate : quiet (ensureObject app d mutate).
Proof. unfold ensureObject. repeat emits_step. Qed.

Lemma quiet_ensureUnstructured app d : quiet (ensureUnstructured app d).
Proof. unfold ensureUnstructured. repeat emits_step. Qed.

Lemma quiet_ensureScaledObject r app o : quiet (ensureScaledObject r app o).
Proof.
  unfold ensureScaledObject, removeScaledObject. repeat (emits_step || apply quiet_ensureUnstructured).
Qed.

Lemma quiet_ensureFoundation r app : quiet (ensureFoundation r app).
Proof. unfold ensureFoundation, orWrap. repeat (emits_step || apply quiet_ensureObject). Qed.

Lemma quiet_ensureIngress r app : quiet (ensureIngress r app).
Proof.
  assert (Ho : quiet (removeObsoleteRoutes r app)).
  { unfold removeObsoleteRoutes, removeMode, removeRoute. repeat emits_step. }
  assert (Hh : quiet (ensureHTTPRoute r app)).
  { unfold ensureHTTPRoute, configureHTTPRouteRetries, httpRouteRetryDropped, httpRouteReady, parentReady.
    repeat (emits_step || apply (quiet_ensureObject (k := KHTTPRoute))). }
  unfold ensureIngress, ensureVirtualService, ensureV1Ingress.
  repeat (exact Ho || exact Hh || emits_step || apply quiet_ensureUnstructured
          || apply (quiet_ensureObject (k := KIngress))).
Qed.

Lemma quiet_ensureAuthorizationPolicy r app : quiet (ensureAuthorizationPolicy r app).
Proof. unfold ensureAuthorizationPolicy. repeat (emits_step || apply quiet_ensureUnstructured). Qed.

Lemma quiet_observeFleet app sts : quiet (observeFleet app sts).
Proof. apply quiet_reads. eapply wp_mono; [|apply wp_observeFleet]. by intros t res []. Qed.

Lemma quiet_afterUpdate app sts k : (forall s, quiet (k s)) -> quiet (afterUpdate app sts k).
Proof. intros Hk. unfold afterUpdate, updateFleet. repeat (emits_step || apply Hk). Qed.

Lemma quiet_pauseScaling r app : quiet (pauseScaling r app).
Proof.
  unfold pauseScaling, noHPA.
  repeat (emits_step || apply quiet_ensureUnstructured || apply quiet_ensureScaledObject).
Qed.

Lemma quiet_rolloutStep app sts : quiet (rolloutStep app sts).
Proof.
  assert (Hg : forall s p l, quiet (rolloutGates app s p l)).
  { intros s p l. unfold rolloutGates, gateOrdinal.
    repeat (emits_step || apply quiet_observeFleet || (apply quiet_afterUpdate; intros ?)). }
  unfold rolloutStep. repeat (apply Hg || emits_step || (apply quiet_afterUpdate; intros ?)).
Qed.

Lemma quiet_recreateStep app e d h : quiet (recreateStep app e d h).
Proof. unfold recreateStep. repeat (emits_step || (apply quiet_afterUpdate; intros ?)). Qed.

Lemma quiet_reconcileExisting r app v d e : quiet (reconcileExisting r app v d e).
Proof.
  assert (Ht : quiet (templateStep app d e)).
  { unfold templateStep. repeat (apply quiet_recreateStep || emits_step || (apply quiet_afterUpdate; intros ?)).
    apply quiet_reads. eapply wp_mono; [|apply wp_liveFleetBreakingReason]. by intros t res []. }
  assert (Hs : quiet (steadyFleet app e v)).
  { unfold steadyFleet. repeat (apply quiet_observeFleet || emits_step || (apply quiet_afterUpdate; intros ?)). }
  unfold reconcileExisting.
  repeat (exact Ht || exact Hs || apply quiet_pauseScaling || apply quiet_recreateStep || apply quiet_rolloutStep
          || emits_step).
Qed.

Lemma quiet_reconcileFleet r app v : quiet (reconcileFleet r app v).
Proof.
  unfold reconcileFleet. apply emits_seq; [apply quiet_reads, wp_configHash|]. intros h.
  repeat (apply quiet_reconcileExisting || emits_step).
Qed.

Lemma steadyEvidence_mono app sts v t t' : t ⊆ t' -> steadyEvidence app sts v t -> steadyEvidence app sts v t'.
Proof.
  intros Ht (? & ? & ? & states & Hobs & Hc). split_and!; [done..|]. exists states.
  split; [by eapply observation_mono|done].
Qed.

(** A status that reports a version as rolled out on the evidence of [t]. *)
Definition reportBacked (app : WorkerApp) (t : tr) (a : WorkerApp) : Prop :=
  let status := app_Status a in
  status_RolledOutAppVersion status <> "" ->
  status_Phase status = PhaseReady /\ status_ExpectedAppVersion status = status_RolledOutAppVersion status /\
  exists existing, readFleet app (inr existing) ∈ t /\
    IsControlledBy (sts_Meta existing) (app_Meta app) = true /\
    steadyEvidence app existing (status_RolledOutAppVersion status) t.

Lemma wp_updateStatus app outcome v conditions :
  wp (updateStatus app outcome v conditions) (fun t _ =>
    Forall (fun a => status_Phase (app_Status a) = out_Phase outcome /\
                     status_ExpectedAppVersion (app_Status a) = v /\
                     status_RolledOutAppVersion (app_Status a) = if out_RolledOut outcome then v else "")
      (omap statusWrite t)).
Proof.
  unfold updateStatus. cbv zeta. apply wp_trigger. intros got.
  destruct (match got with inr s => _ | inl _ => _ end) as [ready sts].
  eapply wp_seq; [apply quiet_reads, reads_observeStatus|]. intros t [[fleet deployments] observed] Ht%quiet_statuses.
  destruct (bool_decide _).
  - apply wp_ret. rewrite statuses_cons, app_nil_r, Ht by done. constructor.
  - apply wp_trigger. intros x. apply wp_ret. rewrite statuses_cons, omap_app, Ht by done. by repeat constructor.
Qed.

(** The pass that reports a version as rolled out has seen it. *)
Lemma fleetReconciled_report app v t outcome :
  fleetReconciled app v t (outcome, None) -> out_RolledOut outcome = true ->
  out_Phase outcome = PhaseReady /\
  exists existing, readFleet app (inr existing) ∈ t /\
    IsControlledBy (sts_Meta existing) (app_Meta app) = true /\ steadyEvidence app existing v t.
Proof.
  intros Hf Hr. inversion Hf as [t0 e Hro|t0 e desired c res Hro Hd He Hout|t0 ex e Hro Hc
    |t0 desired ex t' res Hro Hd Hc Hpost]; subst.
  - simpl in Hout. congruence.
  - destruct Hpost as [_ Hready]. destruct (Hready Hr) as ([= ->] & _ & _ & _ & _ & _ & Hev).
    split; [done|]. exists ex. split_and!; [set_solver|done|]. eapply steadyEvidence_mono; [|exact Hev]. set_solver.
Qed.

Lemma wp_reconcileAccepted_report r app tracker :
  wp (reconcileAccepted r app tracker) (fun t _ => Forall (reportBacked app t) (omap statusWrite t)).
Proof.
  unfold reconcileAccepted. eapply wp_seq; [apply quiet_reads, reads_resolveAppVersion|].
  intros t1 [[[tracker' conds] v] tracking] Ht1%quiet_statuses.
  eapply wp_seq; [apply wp_conj; [apply quiet_reconcileFleet|apply wp_reconcileFleet]|].
  intros t2 [outcome [e|]] [Ht2%quiet_statuses Hfleet].
  { apply wp_ret. rewrite app_nil_r, omap_app, Ht1, Ht2. constructor. }
  cbv zeta. eapply wp_seq; [apply quiet_ensureIngress|]. intros t3 ingress Ht3%quiet_statuses.
  eapply wp_seq; [apply quiet_ensureAuthorizationPolicy|]. intros t4 mesh Ht4%quiet_statuses.
  eapply wp_seq; [apply quiet_ensureScaledObject|]. intros t5 scaled Ht5%quiet_statuses.
  eapply wp_seq; [apply wp_updateStatus|]. intros t6 err Ht6. apply wp_ret.
  rewrite (app_nil_r t6), !omap_app, Ht1, Ht2, Ht3, Ht4, Ht5, !app_nil_l. eapply Forall_impl; [exact Ht6|].
  intros a (Hphase & Hexp & Hrolled) Hne. rewrite Hrolled in Hne |- *.
  destruct (out_RolledOut outcome) eqn:Hout; [|done].
  destruct (fleetReconciled_report _ _ _ _ Hfleet Hout) as (Hp & existing & Hin & Hc & Hev).
  split_and!; [congruence|done|]. exists existing. split_and!; [set_solver|done|].
  eapply steadyEvidence_mono; [|exact Hev]. set_solver.
Qed.

(** C12: a status reports a version as rolled out only when the same pass has
    seen it: the fleet's StatefulSet, controlled by the app, at rest on the
    desired template, a sample of every pod on that version with nothing draining
    or swapping, and restoring counters that add up to zero. *)
Theorem reported_rollout_is_observed r tracker namespace name t res app a :
  exec (Reconcile r tracker namespace name) t res -> reconciledApp t = Some app ->
  a ∈ omap statusWrite t -> reportBacked app t a.
Proof.
  intros Hx Happ Ha. revert t res Hx Happ a Ha.
  set (Q := fun (t : tr) (_ : DeployTracker * Result * option error) =>
    reconciledApp t = Some app -> forall a, a ∈ omap statusWrite t -> reportBacked app t a).
  apply (proj1 (wp_exec _ Q)). unfold Reconcile. apply wp_trigger. intros [e|app']; cbv beta iota; [done|].
  set (ev := Ev (Get Cached KWorkerApp "" namespace name) (inr app')).
  assert (Hback : forall p : M (DeployTracker * Result * option error),
    wp p (fun t _ => Forall (reportBacked app' t) (omap statusWrite t)) -> wp p (fun t r => Q (ev :: t) r)).
  { intros p. apply wp_mono. intros t _ Ht Happ a Ha Hne. unfold reconciledApp in Happ. simpl in Happ.
    injection Happ as ->. destruct (proj1 (Forall_forall _ _) Ht a Ha Hne) as (? & ? & existing & Hin & ? & Hev).
    split_and!; [done..|]. exists existing. split_and!; [by right|done|].
    eapply steadyEvidence_mono; [|exact Hev]. set_solver. }
  apply Hback. destruct (meta_DeletionTimestamp _); [apply wp_ret; constructor|].
  destruct (validateApp r app') as [e|].
  - unfold rejectApp. cbv zeta. destruct (bool_decide _); [apply wp_ret; constructor|].
    apply wp_trigger. intros x. apply wp_ret. constructor; [|constructor]. by intros [].
  - eapply wp_seq; [apply quiet_ensureFoundation|]. intros t1 [e|] Ht1%quiet_statuses.
    { apply wp_ret. rewrite app_nil_r, Ht1. constructor. }
    eapply wp_mono; [|apply wp_reconcileAccepted_report]. intros t res Ht. cbv beta in Ht. rewrite omap_app, Ht1.
    eapply Forall_impl; [exact Ht|]. intros a Ha Hne. destruct (Ha Hne) as (? & ? & existing & ? & ? & Hev).
    split_and!; [done..|]. exists existing. split_and!; [set_solver|done|].
    eapply steadyEvidence_mono; [|exact Hev]. set_solver.
Qed.

(** ** Coming back *)

Lemma capRequeue_spec requeue cap : 0 < cap -> 0 <= requeue -> 0 < capRequeue requeue cap <= cap.
Proof.
  intros Hcap Hr. unfold capRequeue. destruct (Z.eqb_spec requeue 0), (Z.ltb_spec cap requeue); simpl; lia.
Qed.

Lemma capRequeue_le requeue cap : requeue <> 0 -> capRequeue requeue cap <= requeue.
Proof. intros Hne. unfold capRequeue. destruct (Z.eqb_spec requeue 0), (Z.ltb_spec cap requeue); simpl; lia. Qed.

(** In auto mode the version is tracked, and tracking keeps the interval. *)
Lemma wp_resolveAppVersion_tracking app tracker :
  spec_AppVersion (app_Spec app) = AppVersionAuto -> trackableBucket app = true ->
  wp (resolveAppVersion app tracker) (fun _ res => snd res = true /\ dt_Interval (fst (fst (fst res))) = dt_Interval tracker).
Proof.
  intros Ha Ht. unfold resolveAppVersion. cbv zeta. rewrite Ha, Ht. cbn [negb String.eqb].
  change (String.eqb AppVersionAuto AppVersionAuto) with true. cbn [negb].
  eapply wp_seq; [apply wp_pointerVersion|]. intros t1 [tr' [[cur stale] err]] Hp.
  assert (Hi : dt_Interval tr' = dt_Interval tracker).
  { inversion Hp as [e|identity c Hc|identity res Hres]; subst; [done..|]. by inversion Hres; subst. }
  destruct err as [e|]; [|by apply wp_ret]. destruct stale; [by apply wp_ret|].
  apply wp_bind, wp_trigger. intros got. apply wp_ret, wp_ret. by split.
Qed.

(** A result that makes controller-runtime schedule the next pass: at once, or
    after a positive delay of at most [cap]. *)
Definition comesBack (result : Result) (cap : Z) : Prop :=
  res_Requeue result = true \/ 0 < res_RequeueAfter result <= cap.

Lemma wp_reconcileAccepted_requeue r app tracker :
  spec_AppVersion (app_Spec app) = AppVersionAuto -> trackableBucket app = true -> 0 < dt_Interval tracker ->
  wp (reconcileAccepted r app tracker) (fun t res =>
    let '(_, result, err) := res in err = None -> comesBack result (dt_Interval tracker) \/ crossed t).
Proof.
  intros Ha Ht Hi. unfold reconcileAccepted.
  eapply wp_seq; [by apply wp_resolveAppVersion_tracking|].
  intros t1 [[[tracker' conds] v] tracking] [Htr Hint]. simpl in Htr, Hint. subst tracking.
  eapply wp_seq; [apply wp_reconcileFleet_delay|]. intros t2 [outcome [e|]] Hd; [by apply wp_ret|]. cbv zeta.
  rewrite Hint. do 4 (eapply (wp_seq _ _ (fun _ _ => True)); [by apply wp_exec|]; intros ? ? _).
  apply wp_ret. cbv beta iota. destruct a2 as [e|].
  { destruct (IsConflict e); [by left; left|done]. }
  intros _. destruct Hd as [Hd|Hd]; [left; right|right; eapply crossed_mono; [|exact Hd]; set_solver].
  destruct (capRequeue_spec _ _ Hi Hd) as [Hpos Hle]. simpl in Hpos, Hle |- *. destruct (_ || _); [|done].
  assert (H15 : 0 < 15 * Second) by done.
  destruct (capRequeue_spec _ _ H15 (Z.lt_le_incl _ _ Hpos)) as [? _]. split; [done|].
  etrans; [|exact Hle]. apply capRequeue_le. lia.
Qed.


(** ** An app that is left alone *)

(** C15: an app that is being deleted or that does not validate is left alone. A
    deleted app is only forgotten. For a rejected one the pass writes nothing
    but its status, which says degraded and reports no rollout, and nothing at
    all when the status says so already. *)
Theorem rejected_app_is_left_alone r tracker namespace name t tracker' result err app :
  exec (Reconcile r tracker namespace name) t (tracker', result, err) -> reconciledApp t = Some app ->
  (meta_DeletionTimestamp (app_Meta app) <> None ->
   readOnly t /\ dt_cache tracker' = delete (namespace, name) (dt_cache tracker) /\ result = zeroResult /\ err = None) /\
  (forall e, meta_DeletionTimestamp (app_Meta app) = None -> validateApp r app = Some e ->
   tracker' = tracker /\
   ((readOnly t /\ app_Status app = invalidStatus app e /\ result = mkResult false Minute /\ err = None) \/
    (exists read x, mutates read = false /\ t = [read; Ev (StatusUpdate (setStatus app (invalidStatus app e))) x] /\
       result = zeroResult /\ err = writeError x)) /\
   status_Phase (invalidStatus app e) = PhaseDegraded /\ status_RolledOutAppVersion (invalidStatus app e) = "").
Proof.
  intros Hx Happ. unfold Reconcile in Hx. apply exec_trigger in Hx as (got & t' & -> & Hx). cbv beta in Hx.
  unfold reconciledApp in Happ. simpl in Happ. destruct got as [e|app']; [done|]. injection Happ as Ea. subst app'.
  change (prog_mbind _ _ ?f (Ret ?x)) with (f x) in Hx. cbv beta iota in Hx.
  destruct (meta_DeletionTimestamp (app_Meta app)) as [d|].
  - destruct Hx as [-> [= -> -> ->]]. split; [|done]. intros _. split_and!; try done. by repeat constructor.
  - split; [done|]. intros e _ Hval. rewrite Hval in Hx. unfold rejectApp in Hx. cbv zeta in Hx.
    destruct (bool_decide _) eqn:Hb.
    + apply bool_decide_eq_true in Hb. destruct Hx as [-> [= -> -> ->]]. split_and!; try done.
      left. split_and!; [by repeat constructor|exact Hb|done|done].
    + destruct Hx as (x & t2 & -> & -> & [= -> -> ->]). split_and!; try done.
      right. exists (Ev (Get Cached KWorkerApp "" namespace name) (inr app)), x. by split_and!.
Qed.

End Reconcile.

(** ** Runs of a whole pass *)

(** A pass over [app], whose read is answered by [app] and everything else by
    the world. *)
Definition passRest (r : WorkerAppReconciler) (tracker : DeployTracker) (app : WorkerApp)
  : M (DeployTracker * Result * option error) :=
  match meta_DeletionTimestamp (app_Meta app) with
  | Some _ => Ret (Forget tracker ("prod", "shop"), zeroResult, None)
  | None =>
      match validateApp r app with
      | Some e => res ← rejectApp app e; Ret (tracker, fst res, snd res)
      | None =>
          err ← ensureFoundation r app;
          match err with
          | Some e => Ret (tracker, zeroResult, Some e)
          | None => reconcileAccepted r app tracker
          end
      end
  end.

Definition passTrace (r : WorkerAppReconciler) (tracker : DeployTracker) (app : WorkerApp) (w : world) : tr :=
  Ev (Get Cached KWorkerApp "" "prod" "shop") (inr app) :: traceIn (passRest r tracker app) w.

Lemma passExec r tracker app w :
  exec (Reconcile r tracker "prod" "shop") (passTrace r tracker app w) (resultIn (passRest r tracker app) w).
Proof. exists (inr app), (traceIn (passRest r tracker app) w). split; [reflexivity|]. apply (execIn (passRest r tracker app)). Qed.

(** The fleet of [app060] at rest on v7. *)
Definition restWorld : world := sampleWorld app060 0 0 ∅.

Lemma reconcile_writes_are_guarded_witness :
  length (filter (fun ev => mutates ev = true) (passTrace sampleReconciler tracker0 app060 restWorld)) = 8%nat /\
  guarded app060 (passTrace sampleReconciler tracker0 app060 restWorld).
Proof.
  split; [vm_compute; reflexivity|].
  exact (reconcile_writes_are_guarded sampleReconciler tracker0 "prod" "shop" _ _
           (passExec sampleReconciler tracker0 app060 restWorld)).
Defined.

(** The status that pass writes. *)
Definition restTrace : tr := passTrace sampleReconciler tracker0 app060 restWorld.
Definition restStatus : WorkerApp := List.last (omap statusWrite restTrace) app060.

Lemma reported_rollout_is_observed_witness :
  status_RolledOutAppVersion (app_Status restStatus) = "v7" /\ reportBacked app060 restTrace restStatus.
Proof.
  split; [vm_compute; reflexivity|].
  apply (reported_rollout_is_observed sampleReconciler tracker0 "prod" "shop" restTrace _ app060 restStatus
           (passExec sampleReconciler tracker0 app060 restWorld)).
  - reflexivity.
  - vm_compute. apply list_elem_of_here.
Defined.

(** The same app in auto mode, its bucket out of reach. *)
Definition trackedWorld : world :=
  mkWorld (w_now restWorld) (w_sts restWorld) (w_pods restWorld) None [] {[ "tracking" := trackingSecret ]}
    (w_state restWorld).

(** A boolean form of [knownSts], of a StatefulSet with a settle deadline. *)
Definition settlingAnswer (ev : event req) : bool :=
  (match ev_req ev in req X return X -> bool with
   | Get _ KStatefulSet _ _ _ => fun got =>
       match got with inr sts => negb (is_empty (mapGet (sts_Annotations sts) settleAnnotation)) | inl _ => false end
   | Update KStatefulSet _ => fun got =>
       match got with inr sts => negb (is_empty (mapGet (sts_Annotations sts) settleAnnotation)) | inl _ => false end
   | _ => fun _ => false
   end) (ev_resp ev).

(** Without a settle deadline there is none to pass. *)
Lemma crossed_check t : forallb (fun ev => negb (settlingAnswer ev)) t = true -> ~ crossed t.
Proof.
  intros Ht (sts & Hk & deadline & now & now' & Hd & _).
  assert (Hs : forall ev, ev ∈ t -> settlingAnswer ev = false).
  { intros ev Hin. apply list_elem_of_In, (proj1 (forallb_forall _ _) Ht) in Hin. by destruct (settlingAnswer ev). }
  assert (He : is_empty (mapGet (sts_Annotations sts) settleAnnotation) = true).
  { destruct Hk as [(src & g & ns & n & Hin)|[o Hin]]; apply Hs in Hin; unfold settlingAnswer in Hin; simpl in Hin;
      by destruct (is_empty _). }
  apply is_empty_true in He. rewrite He in Hd. by vm_compute in Hd.
Qed.


(** An app without a version. *)
Definition blankApp : WorkerApp := withVersion app060 "" "InPlace".

Lemma rejected_app_is_left_alone_witness :
  let t := passTrace sampleReconciler tracker0 blankApp restWorld in
  let res := resultIn (passRest sampleReconciler tracker0 blankApp) restWorld in
  fst (fst res) = tracker0 /\
  exists read x, mutates read = false /\
    t = [read; Ev (StatusUpdate (setStatus blankApp (invalidStatus blankApp (Errorf "appVersion is required")))) x].
Proof.
  intros t res.
  assert (Hx : exec (Reconcile sampleReconciler tracker0 "prod" "shop") t (fst (fst res), snd (fst res), snd res)).
  { rewrite <- !surjective_pairing. apply (passExec sampleReconciler tracker0 blankApp restWorld). }
  destruct (rejected_app_is_left_alone _ _ _ _ _ _ _ _ blankApp Hx) as [_ Hrej]; [reflexivity|].
  destruct (Hrej (Errorf "appVersion is required")) as (Htr & Hw & _); [reflexivity|vm_compute; reflexivity|].
  split; [exact Htr|]. destruct Hw as [(Hro & Hst & _)|(read & x & Hm & Ht & _)].
  - assert (Hp : status_Phase (app_Status blankApp) = PhaseDegraded) by (rewrite Hst; reflexivity).
    vm_compute in Hp. discriminate Hp.
  - exists read, x. split; assumption.
Defined.

(** ** Two races *)

(** A fleet in its settle interval, looked at half a microsecond before the
    deadline; a clock read takes one. *)
Definition settleDeadline : Z := noon + 10 * Second.
Definition settlingSts : StatefulSet :=
  sampleSts app060 3 2 {[ settleAnnotation := formatRFC3339Nano settleDeadline ]}.
Definition settlingWorld : world :=
  mkWorld (settleDeadline - 500) (Some settlingSts) (w_pods midWorld) None [] ∅ (w_state midWorld).

(** The deadline passes between the check and the computation of the delay: the
    pass succeeds and asks for a requeue after a negative time. *)
Lemma settle_race_asks_for_no_requeue :
  let res := resultIn (passRest sampleReconciler tracker0 app060) settlingWorld in
  snd (fst res) = mkResult false (-500) /\ snd res = None.
Proof. vm_compute. split; reflexivity. Qed.

(** An API server that fails the first reads and then recovers. *)
Definition serveAfterBlip (X : Type) (e : req X) (s : nat * world) : X * (nat * world) :=
  match e in req X return X * world -> X * (nat * world) with
  | Get _ _ _ _ _ => fun answer => match fst s with
                                   | S n => (inl (APIError OtherError "connection refused"), (n, snd s))
                                   | O => (fst answer, (O, snd answer))
                                   end
  | _ => fun answer => (fst answer, (fst s, snd answer))
  end (serve X e (snd s)).

(** Version and fleet of a pass over an app in auto mode whose template carries
    the version. *)
Definition restartApp : WorkerApp := withVersion app060 AppVersionAuto "Restart".
Definition restartSts : StatefulSet :=
  sampleSts (withVersion app060 "v7" "Restart") 3 0 ∅.
Definition restartWorld : world :=
  mkWorld noon (Some restartSts) (w_pods restWorld) None [] {[ "tracking" := trackingSecret ]} (w_state restWorld).

Definition versionThenFleet : M (string * fleetOutcome) :=
  res ← resolveAppVersion restartApp tracker0;
  let '(_, _, version, _) := res in
  out ← reconcileFleet sampleReconciler restartApp version;
  Ret (version, fst out).

(** Two failed reads, of the Secret and of the fleet, and the running v7 fleet
    starts to roll to a template without a version. *)
Lemma blip_rolls_to_nowhere :
  let '(t, (version, out), _) := run serveAfterBlip versionThenFleet (2%nat, restartWorld) in
  version = "" /\ out_Phase out = PhaseRollingOut /\
  map (fun s => mapGet (tmpl_Annotations (sts_Template (sts_Spec s))) appVersionAnnotation) (stsUpdates t) = [""] /\
  mapGet (tmpl_Annotations (sts_Template (sts_Spec restartSts))) appVersionAnnotation = "v7".
Proof. vm_compute. split_and!; reflexivity. Qed.

(** In place, the template carries no version, so the fallback of
    [resolveAppVersion] to the live fleet finds none. *)
Lemma inplace_template_has_no_version app hash v :
  spec_DeploymentPolicy (app_Spec app) = "InPlace" ->
  mapGet (tmpl_Annotations (sts_Template (sts_Spec (buildStatefulSet app hash v)))) appVersionAnnotation = "".
Proof.
  intros Hp. unfold buildStatefulSet, buildPodTemplate. cbn [sts_Spec sts_Template tmpl_Annotations].
  unfold podAnnotations. rewrite Hp, String.eqb_refl, andb_false_r. destruct (negb _); [|done].
  by rewrite mapGet_insert_ne by discriminate.
Qed.
